(** * The ELMo encoder of fastNLP

    A shallow embedding of [fastNLP/modules/encoder/_elmo.py]: the LSTM cell
    with projection ([LstmCellWithProjection]), the bidirectional stack
    ([ElmobiLm]), its weight loader and the file discovery and forward pass of
    [_ElmoModel].

    Tensors of floats are nested lists of real numbers: the development is
    about the structure of the computation (which rows are active, what is
    written where, which gate reads which chunk), so a scalar is an exact real
    and rounding, infinities and NaN are left out.  Shapes that torch would
    reject are not modelled as errors: the element-wise operations below stop
    at the shorter operand, and the theorems state the shapes they need. *)

From Stdlib Require Import String Ascii.
From Stdlib Require Import List Bool Arith ZArith Lia Permutation Sorted.
From Stdlib Require Import Reals Lra.
Import ListNotations.

(* ================================================================== *)
(** ** Exceptions *)

Inductive exn : Type :=
| IndexError
| Exception (msg : string).

(** The outcome of running a piece of the program: a value, a raised
    exception, or a loop of the model that used up its fuel (shown below
    never to happen for the two [while] loops of the cell). *)
Inductive result (A : Type) : Type :=
| Ok (a : A)
| Raise (e : exn)
| OutOfFuel.

Arguments Ok {A} a.
Arguments Raise {A} e.
Arguments OutOfFuel {A}.

Definition bind {A B : Type} (r : result A) (k : A -> result B) : result B :=
  match r with
  | Ok a => k a
  | Raise e => Raise e
  | OutOfFuel => OutOfFuel
  end.

Notation "x <- c ;; k" := (bind c (fun x => k))
  (at level 61, c at next level, right associativity).

(** [for x in xs: s = body(s, x)] with exceptions. *)
Fixpoint for_each {S X : Type} (body : S -> X -> result S) (xs : list X) (s : S)
  : result S :=
  match xs with
  | [] => Ok s
  | x :: xs' => s' <- body s x ;; for_each body xs' s'
  end.

(* ================================================================== *)
(** ** Tensors *)

Abbreviation vec := (list R).
Abbreviation mat := (list (list R)).
Abbreviation tensor3 := (list (list (list R))).
Abbreviation tensor4 := (list (list (list (list R)))).

Fixpoint map2 {A B C : Type} (f : A -> B -> C) (l1 : list A) (l2 : list B)
  : list C :=
  match l1, l2 with
  | a :: l1', b :: l2' => f a b :: map2 f l1' l2'
  | _, _ => []
  end.

Definition zeros (n : nat) : vec := repeat 0%R n.

(** [t.new(b, n).fill_(0)] and [t.new(b, t, n).fill_(0)]. *)
Definition zeros2 (b n : nat) : mat := repeat (zeros n) b.
Definition zeros3 (b t n : nat) : tensor3 := repeat (zeros2 t n) b.

Definition vadd : vec -> vec -> vec := map2 Rplus.
Definition vmul : vec -> vec -> vec := map2 Rmult.
Definition madd : mat -> mat -> mat := map2 vadd.
Definition mmul : mat -> mat -> mat := map2 vmul.
Definition mmap (f : R -> R) : mat -> mat := map (map f).
Definition tadd : tensor3 -> tensor3 -> tensor3 := map2 madd.

Definition dot (w x : vec) : R := fold_right Rplus 0%R (map2 Rmult w x).

(** [torch.nn.Linear]: [weight] has one row per output feature. *)
Record Linear : Type := mkLinear {
  weight : mat;
  bias : option vec
}.

Definition linear (l : Linear) (x : vec) : vec :=
  let y := map (fun w => dot w x) (weight l) in
  match bias l with
  | Some b => vadd y b
  | None => y
  end.

(** A linear layer applied to a batch (one row per batch element). *)
Definition apply_linear (l : Linear) (x : mat) : mat := map (linear l) x.

Definition sigmoid (x : R) : R := (1 / (1 + exp (- x)))%R.

(** [torch.clamp(x, min=lo, max=hi)], that is [min(max(x, lo), hi)]. *)
Definition clamp (lo hi x : R) : R := Rmin (Rmax x lo) hi.

(* ================================================================== *)
(** ** Python indexing and slicing *)

(** [l[i]] for a possibly negative [i]; [None] stands for [IndexError]. *)
Definition py_getitem {A : Type} (l : list A) (i : Z) : option A :=
  let n := Z.of_nat (length l) in
  if (0 <=? i)%Z then nth_error l (Z.to_nat i)
  else if (- n <=? i)%Z then nth_error l (Z.to_nat (n + i))
  else None.

(** The number of leading elements selected by [l[0:stop]]. *)
Definition slice_stop {A : Type} (l : list A) (stop : Z) : nat :=
  if (stop <? 0)%Z then Z.to_nat (Z.of_nat (length l) + stop)
  else Z.to_nat stop.

(** [l[0:stop]]. *)
Definition slice_to {A : Type} (l : list A) (stop : Z) : list A :=
  firstn (slice_stop l stop) l.

(** [m[:, a:b]] for [0 <= a <= b]. *)
Definition cols (a b : nat) (m : mat) : mat :=
  map (fun row => firstn (b - a) (skipn a row)) m.

(** [l[i] = x] for [i] in range. *)
Fixpoint set_nth {A : Type} (i : nat) (x : A) (l : list A) : list A :=
  match l, i with
  | [], _ => []
  | _ :: l', O => x :: l'
  | a :: l', S i' => a :: set_nth i' x l'
  end.

(** [full[0:stop] = v] for a [v] with as many rows as the slice. *)
Definition assign_slice_to {A : Type} (full : list A) (stop : Z) (v : list A)
  : list A :=
  v ++ skipn (slice_stop full stop) full.

(** [acc[0:stop, index] = v]: row [b] of the slice gets [v[b]] at time
    position [index]. *)
Fixpoint assign_rows_at (n index : nat) (v : mat) (acc : tensor3) : tensor3 :=
  match n, v, acc with
  | S n', r :: v', a :: acc' =>
      set_nth index r a :: assign_rows_at n' index v' acc'
  | _, _, _ => acc
  end.

Definition assign_slice_at (acc : tensor3) (stop : Z) (index : nat) (v : mat)
  : tensor3 :=
  assign_rows_at (slice_stop acc stop) index v acc.

(** [if v:] for an [Optional[float]]: [None] and [0.0] are false. *)
Definition truthy (v : option R) : bool :=
  match v with
  | Some c => if Req_dec_T c 0 then false else true
  | None => false
  end.

(* ================================================================== *)
(** ** Random masks *)

(** Modelled from the spec: [get_dropout_mask] of [fastNLP.modules.utils] is
    not among the sources.  The spec has it sample one mask, shaped like the
    tensor it is given, whose entries are [0] or [1/(1-p)].  The generator is
    the sequence of masks that successive calls return, with the position of
    the next one. *)
Record generator : Type := mkGenerator {
  stream : nat -> mat;
  position : nat
}.

Definition get_dropout_mask (p : R) (like : mat) (g : generator)
  : mat * generator :=
  (stream g (position g),
   {| stream := stream g; position := S (position g) |}).

(** What the spec promises of a mask drawn for probability [p] and a tensor
    [like]. *)
Definition dropout_mask_for (p : R) (like mask : mat) : Prop :=
  length mask = length like /\
  Forall2 (fun row lrow =>
             length row = length lrow /\
             Forall (fun x => x = 0%R \/ x = (1 / (1 - p))%R) row)
          mask like.

(* ================================================================== *)
(** ** LstmCellWithProjection *)

Record LstmCellWithProjection : Type := mkCell {
  input_size : nat;
  hidden_size : nat;
  cell_size : nat;
  go_forward : bool;
  recurrent_dropout_probability : R;
  memory_cell_clip_value : option R;
  state_projection_clip_value : option R;
  input_linearity : Linear;
  state_linearity : Linear;
  state_projection : Linear;
  training : bool
}.

(** The shapes [__init__] gives the three linear layers. *)
Definition rows_of_width (r w : nat) (m : mat) : Prop :=
  length m = r /\ Forall (fun row => length row = w) m.

Record cell_shapes (c : LstmCellWithProjection) : Prop := mkCellShapes {
  input_linearity_shape :
    rows_of_width (4 * cell_size c) (input_size c) (weight (input_linearity c));
  input_linearity_bias : bias (input_linearity c) = None;
  state_linearity_shape :
    rows_of_width (4 * cell_size c) (hidden_size c) (weight (state_linearity c));
  state_linearity_bias :
    exists b, bias (state_linearity c) = Some b /\ length b = 4 * cell_size c;
  state_projection_shape :
    rows_of_width (hidden_size c) (cell_size c) (weight (state_projection c));
  state_projection_bias : bias (state_projection c) = None
}.

Section Timestep.

Variable c : LstmCellWithProjection.

(** The operands of one timestep: the rows of the active sub-batch. *)
Variables previous_memory previous_state timestep_input : mat.

Definition projected_input : mat := apply_linear (input_linearity c) timestep_input.
Definition projected_state : mat := apply_linear (state_linearity c) previous_state.

Definition input_gate : mat :=
  mmap sigmoid
    (madd (cols (0 * cell_size c) (1 * cell_size c) projected_input)
          (cols (0 * cell_size c) (1 * cell_size c) projected_state)).

Definition forget_gate : mat :=
  mmap sigmoid
    (madd (cols (1 * cell_size c) (2 * cell_size c) projected_input)
          (cols (1 * cell_size c) (2 * cell_size c) projected_state)).

Definition memory_init : mat :=
  mmap tanh
    (madd (cols (2 * cell_size c) (3 * cell_size c) projected_input)
          (cols (2 * cell_size c) (3 * cell_size c) projected_state)).

Definition output_gate : mat :=
  mmap sigmoid
    (madd (cols (3 * cell_size c) (4 * cell_size c) projected_input)
          (cols (3 * cell_size c) (4 * cell_size c) projected_state)).

(** [memory = input_gate * memory_init + forget_gate * previous_memory]. *)
Definition lstm_memory : mat :=
  madd (mmul input_gate memory_init) (mmul forget_gate previous_memory).

(** [if clip: x = torch.clamp(x, -clip, clip)]. *)
Definition clip (v : option R) (x : mat) : mat :=
  if truthy v then
    match v with
    | Some cv => mmap (clamp (- cv) cv) x
    | None => x
    end
  else x.

(** The memory after the optional clip: what is written to the state buffer. *)
Definition clipped_memory : mat := clip (memory_cell_clip_value c) lstm_memory.

Definition pre_projection_timestep_output : mat :=
  mmul output_gate (mmap tanh clipped_memory).

(** The projected output after the optional clip, before dropout. *)
Definition projected_timestep_output : mat :=
  clip (state_projection_clip_value c)
       (apply_linear (state_projection c) pre_projection_timestep_output).

(** [if dropout_mask is not None: out = out * dropout_mask[0:stop]]. *)
Definition timestep_output (dropout_mask : option mat) (stop : Z) : mat :=
  match dropout_mask with
  | Some m => mmul projected_timestep_output (slice_to m stop)
  | None => projected_timestep_output
  end.

End Timestep.

(** The variables of the loop over the timesteps. *)
Record loop_state : Type := mkLoop {
  current_length_index : Z;
  full_batch_previous_memory : mat;
  full_batch_previous_state : mat;
  output_accumulator : tensor3
}.

(** [while batch_lengths[current_length_index] <= index:
        current_length_index -= 1] *)
Fixpoint drop_finished (fuel : nat) (batch_lengths : list nat) (index : nat)
  (cli : Z) : result Z :=
  match fuel with
  | O => OutOfFuel
  | S fuel' =>
      match py_getitem batch_lengths cli with
      | None => Raise IndexError
      | Some len =>
          if (len <=? index)%nat
          then drop_finished fuel' batch_lengths index (cli - 1)%Z
          else Ok cli
      end
  end.

(** [while current_length_index < (len(batch_lengths) - 1) and
          batch_lengths[current_length_index + 1] > index:
        current_length_index += 1] *)
Fixpoint pick_up_started (fuel : nat) (batch_lengths : list nat) (index : nat)
  (cli : Z) : result Z :=
  match fuel with
  | O => OutOfFuel
  | S fuel' =>
      if (cli <? Z.of_nat (length batch_lengths) - 1)%Z then
        match py_getitem batch_lengths (cli + 1)%Z with
        | None => Raise IndexError
        | Some len =>
            if (index <? len)%nat
            then pick_up_started fuel' batch_lengths index (cli + 1)%Z
            else Ok cli
        end
      else Ok cli
  end.

(** Fuel that covers every iteration the loops can make from [cli]: the first
    one moves down until the index leaves the list, the second one up to the
    last row. *)
Definition drop_fuel (batch_lengths : list nat) (cli : Z) : nat :=
  Z.to_nat (cli + Z.of_nat (length batch_lengths)) + 2.

Definition pick_up_fuel (batch_lengths : list nat) (cli : Z) : nat :=
  Z.to_nat (Z.of_nat (length batch_lengths) - 1 - cli) + 1.

(** [index = timestep if self.go_forward else total_timesteps - timestep - 1] *)
Definition timestep_index (c : LstmCellWithProjection)
  (total_timesteps timestep : nat) : nat :=
  if go_forward c then timestep else total_timesteps - timestep - 1.

Definition update_length_index (c : LstmCellWithProjection)
  (batch_lengths : list nat) (index : nat) (cli : Z) : result Z :=
  if go_forward c
  then drop_finished (drop_fuel batch_lengths cli) batch_lengths index cli
  else pick_up_started (pick_up_fuel batch_lengths cli) batch_lengths index cli.

(** The body of [for timestep in range(total_timesteps)]. *)
Definition forward_timestep (c : LstmCellWithProjection) (inputs : tensor3)
  (batch_lengths : list nat) (total_timesteps : nat)
  (dropout_mask : option mat) (s : loop_state) (timestep : nat)
  : result loop_state :=
  let index := timestep_index c total_timesteps timestep in
  cli <- update_length_index c batch_lengths index (current_length_index s) ;;
  let previous_memory := slice_to (full_batch_previous_memory s) (cli + 1) in
  let previous_state := slice_to (full_batch_previous_state s) (cli + 1) in
  let timestep_input :=
    map (fun row => nth index row []) (slice_to inputs (cli + 1)) in
  let memory := clipped_memory c previous_memory previous_state timestep_input in
  let out :=
    timestep_output c previous_memory previous_state timestep_input
                    dropout_mask (cli + 1) in
  Ok {| current_length_index := cli;
        full_batch_previous_memory :=
          assign_slice_to (full_batch_previous_memory s) (cli + 1) memory;
        full_batch_previous_state :=
          assign_slice_to (full_batch_previous_state s) (cli + 1) out;
        output_accumulator :=
          assign_slice_at (output_accumulator s) (cli + 1) index out |}.

(** [inputs.size()[1]]; a batch without rows is read as having no timestep. *)
Definition total_timesteps_of (inputs : tensor3) : nat :=
  match inputs with
  | [] => 0
  | row :: _ => length row
  end.

(** The state before the first timestep.  [initial_state] is the pair
    (state, memory) with its leading dimension of size 1 squeezed away. *)
Definition initial_loop_state (c : LstmCellWithProjection) (inputs : tensor3)
  (initial_state : option (mat * mat)) : loop_state :=
  let batch_size := length inputs in
  {| current_length_index :=
       if go_forward c then (Z.of_nat batch_size - 1)%Z else 0%Z;
     full_batch_previous_memory :=
       match initial_state with
       | None => zeros2 batch_size (cell_size c)
       | Some (_, memory) => memory
       end;
     full_batch_previous_state :=
       match initial_state with
       | None => zeros2 batch_size (hidden_size c)
       | Some (state, _) => state
       end;
     output_accumulator :=
       zeros3 batch_size (total_timesteps_of inputs) (hidden_size c) |}.

(** [if self.recurrent_dropout_probability > 0.0 and self.training:
        dropout_mask = get_dropout_mask(p, full_batch_previous_state)
    else: dropout_mask = None] *)
Definition sample_dropout_mask (c : LstmCellWithProjection) (like : mat)
  (g : generator) : option mat * generator :=
  if Rlt_dec 0 (recurrent_dropout_probability c) then
    if training c then
      let (m, g') := get_dropout_mask (recurrent_dropout_probability c) like g in
      (Some m, g')
    else (None, g)
  else (None, g).

(** What a call of [forward] leaves behind: the output accumulator, the final
    (state, memory) pair (without the leading dimension of size 1 that
    [unsqueeze(0)] adds) and the generator. *)
Record forward_result : Type := mkForwardResult {
  outputs : tensor3;
  final_state : mat * mat;
  generator_after : generator
}.

Definition run_timesteps (c : LstmCellWithProjection) (inputs : tensor3)
  (batch_lengths : list nat) (dropout_mask : option mat)
  (timesteps : list nat) (s : loop_state) : result loop_state :=
  for_each (forward_timestep c inputs batch_lengths (total_timesteps_of inputs)
                             dropout_mask)
           timesteps s.

(** [LstmCellWithProjection.forward]. *)
Definition forward (c : LstmCellWithProjection) (inputs : tensor3)
  (batch_lengths : list nat) (initial_state : option (mat * mat))
  (g : generator) : result forward_result :=
  let s0 := initial_loop_state c inputs initial_state in
  let (dropout_mask, g') :=
    sample_dropout_mask c (full_batch_previous_state s0) g in
  s <- run_timesteps c inputs batch_lengths dropout_mask
         (seq 0 (total_timesteps_of inputs)) s0 ;;
  Ok {| outputs := output_accumulator s;
        final_state :=
          (full_batch_previous_state s, full_batch_previous_memory s);
        generator_after := g' |}.

(* ================================================================== *)
(** ** Packed sequences (torch.nn.utils.rnn) *)

Fixpoint sorted_descending (l : list nat) : bool :=
  match l with
  | [] => true
  | a :: l' =>
      match l' with
      | [] => true
      | b :: _ => (b <=? a)%nat && sorted_descending l'
      end
  end.

(** A packed batch: the sequences without their padding, longest first,
    and the width of their vectors. *)
Record PackedSequence : Type := mkPacked {
  packed_data : list (list vec);
  packed_width : nat
}.

Definition feature_size (inputs : tensor3) : nat :=
  match inputs with
  | (v :: _) :: _ => length v
  | _ => 0
  end.

(** [pack_padded_sequence(inputs, lengths, batch_first=True)]: the lengths
    must be positive and sorted, longest first. *)
Definition pack_padded_sequence (inputs : tensor3) (lengths : list nat)
  : result PackedSequence :=
  if negb (sorted_descending lengths) then
    Raise (Exception "lengths must be sorted in decreasing order")
  else if existsb (fun len => (len =? 0)%nat) lengths then
    Raise (Exception "length of every sequence must be greater than 0")
  else
    Ok {| packed_data := map2 (fun row len => firstn len row) inputs lengths;
          packed_width := feature_size inputs |}.

(** [pad_packed_sequence(p, batch_first=True)]: the batch padded with zero
    vectors up to its longest sequence, and the lengths. *)
Definition pad_packed_sequence (p : PackedSequence) : tensor3 * list nat :=
  let lengths := map (@length vec) (packed_data p) in
  let t := list_max lengths in
  (map (fun s => s ++ repeat (zeros (packed_width p)) (t - length s))
       (packed_data p),
   lengths).

(* ================================================================== *)
(** ** ElmobiLm *)

Record ElmobiLm : Type := mkElmobiLm {
  lm_hidden_size : nat;
  lm_cell_size : nat;
  forward_layers : list LstmCellWithProjection;
  backward_layers : list LstmCellWithProjection
}.

(** [torch.cat([a, b], -1)] on tensors of three and of two dimensions. *)
Definition cat_last3 (a b : tensor3) : tensor3 := map2 (map2 (@app R)) a b.
Definition cat_last2 (a b : mat) : mat := map2 (@app R) a b.

(** [getattr(self, 'forward_layer_{}'.format(layer_index))]. *)
Definition getattr_layer (layers : list LstmCellWithProjection)
  (layer_index : nat) : result LstmCellWithProjection :=
  match nth_error layers layer_index with
  | Some l => Ok l
  | None => Raise (Exception "AttributeError")
  end.

(** The variables of the loop over the layers. *)
Record stack_state : Type := mkStack {
  forward_output_sequence : tensor3;
  backward_output_sequence : tensor3;
  final_states : list (mat * mat);
  sequence_outputs : list tensor3;
  stack_generator : generator
}.

(** The body of [for layer_index, state in enumerate(hidden_states)]. *)
Definition lstm_layer (lm : ElmobiLm) (batch_lengths : list nat)
  (s : stack_state) (item : nat * option (mat * mat)) : result stack_state :=
  let (layer_index, state) := item in
  forward_layer <- getattr_layer (forward_layers lm) layer_index ;;
  backward_layer <- getattr_layer (backward_layers lm) layer_index ;;
  let forward_cache := forward_output_sequence s in
  let backward_cache := backward_output_sequence s in
  let h := lm_hidden_size lm in
  let cs := lm_cell_size lm in
  let forward_state :=
    option_map (fun st => (cols 0 h (fst st), cols 0 cs (snd st))) state in
  let backward_state :=
    option_map (fun st => (cols h (2 * h) (fst st), cols cs (2 * cs) (snd st)))
               state in
  fr <- forward forward_layer (forward_output_sequence s) batch_lengths
                forward_state (stack_generator s) ;;
  br <- forward backward_layer (backward_output_sequence s) batch_lengths
                backward_state (generator_after fr) ;;
  let forward_out :=
    if (layer_index =? 0)%nat then outputs fr
    else tadd (outputs fr) forward_cache in
  let backward_out :=
    if (layer_index =? 0)%nat then outputs br
    else tadd (outputs br) backward_cache in
  Ok {| forward_output_sequence := forward_out;
        backward_output_sequence := backward_out;
        final_states :=
          final_states s ++
          [(cat_last2 (fst (final_state fr)) (fst (final_state br)),
            cat_last2 (snd (final_state fr)) (snd (final_state br)))];
        sequence_outputs :=
          sequence_outputs s ++ [cat_last3 forward_out backward_out];
        stack_generator := generator_after br |}.

(** The per-layer initial states: [[None] * len(self.forward_layers)], or
    the layers of the given pair. *)
Definition hidden_states_of (lm : ElmobiLm)
  (initial_state : option (tensor3 * tensor3))
  : result (list (option (mat * mat))) :=
  match initial_state with
  | None => Ok (repeat None (length (forward_layers lm)))
  | Some (states, memories) =>
      if negb (length states =? length (forward_layers lm))%nat then
        Raise (Exception
                 "Initial states were passed to forward() but the number of initial states does not match the number of layers.")
      else Ok (map Some (combine states memories))
  end.

Definition enumerate {A : Type} (l : list A) : list (nat * A) :=
  combine (seq 0 (length l)) l.

Definition initial_stack_state (inputs : tensor3) (g : generator)
  : stack_state :=
  {| forward_output_sequence := inputs;
     backward_output_sequence := inputs;
     final_states := [];
     sequence_outputs := [];
     stack_generator := g |}.

Definition run_layers (lm : ElmobiLm) (batch_lengths : list nat)
  (items : list (nat * option (mat * mat))) (s : stack_state)
  : result stack_state :=
  for_each (lstm_layer lm batch_lengths) items s.

Record lstm_forward_result : Type := mkLstmForward {
  stacked_sequence_outputs : tensor4;
  final_state_tuple : tensor3 * tensor3;
  lstm_generator_after : generator
}.

(** [ElmobiLm._lstm_forward]. *)
Definition _lstm_forward (lm : ElmobiLm) (inputs : PackedSequence)
  (initial_state : option (tensor3 * tensor3)) (g : generator)
  : result lstm_forward_result :=
  hidden_states <- hidden_states_of lm initial_state ;;
  let (padded, batch_lengths) := pad_packed_sequence inputs in
  s <- run_layers lm batch_lengths (enumerate hidden_states)
         (initial_stack_state padded g) ;;
  match sequence_outputs s with
  | [] => Raise (Exception "stack expects a non-empty TensorList")
  | _ =>
      Ok {| stacked_sequence_outputs := sequence_outputs s;
            final_state_tuple :=
              (map fst (final_states s), map snd (final_states s));
            lstm_generator_after := stack_generator s |}
  end.

(** [torch.sort(v, descending=True)]: the sorted values with the positions
    they came from (equal values keep their order). *)
Fixpoint insert_descending (x : nat * nat) (l : list (nat * nat))
  : list (nat * nat) :=
  match l with
  | [] => [x]
  | y :: l' =>
      if (fst x <? fst y)%nat then y :: insert_descending x l' else x :: l
  end.

Definition sort_descending (v : list nat) : list nat * list nat :=
  let s := fold_right insert_descending [] (combine v (seq 0 (length v))) in
  (map fst s, map snd s).

Fixpoint insert_ascending (x : nat * nat) (l : list (nat * nat))
  : list (nat * nat) :=
  match l with
  | [] => [x]
  | y :: l' =>
      if (fst y <? fst x)%nat then y :: insert_ascending x l' else x :: l
  end.

(** [torch.sort(v, descending=False)]. *)
Definition sort_ascending (v : list nat) : list nat * list nat :=
  let s := fold_right insert_ascending [] (combine v (seq 0 (length v))) in
  (map fst s, map snd s).

(** [t[idx]] for a tensor of indices in range. *)
Definition index_select {A : Type} (l : list A) (idx : list nat) : list A :=
  flat_map (fun i => match nth_error l i with Some x => [x] | None => [] end)
           idx.

(** [ElmobiLm.forward]. *)
Definition ElmobiLm_forward (lm : ElmobiLm) (inputs : tensor3)
  (seq_len : list nat) (g : generator) : result (tensor4 * generator) :=
  let (sort_lens, sort_idx) := sort_descending seq_len in
  let inputs := index_select inputs sort_idx in
  packed <- pack_padded_sequence inputs sort_lens ;;
  r <- _lstm_forward lm packed None g ;;
  let unsort_idx := snd (sort_ascending sort_idx) in
  Ok (map (fun layer => index_select layer unsort_idx)
          (stacked_sequence_outputs r),
      lstm_generator_after r).

(* ================================================================== *)
(** ** ElmobiLm.load_weights *)

(** [numpy.transpose] of a matrix. *)
Definition transpose (m : mat) : mat :=
  map (fun j => map (fun row => nth j row 0%R) m)
      (seq 0 (match m with [] => 0 | row :: _ => length row end)).

(** [m[a:b]] and [m[a:b] = v] for [0 <= a <= b], on the first axis. *)
Definition slice {A : Type} (a b : nat) (m : list A) : list A :=
  firstn (b - a) (skipn a m).

Definition assign_slice {A : Type} (a b : nat) (m v : list A) : list A :=
  firstn a m ++ v ++ skipn b m.

(** [m[:, :k]] and [m[:, k:]]. *)
Definition cols_to (k : nat) (m : mat) : mat := map (firstn k) m.
Definition cols_from (k : nat) (m : mat) : mat := map (skipn k) m.

(** The group [fin['RNN_j']['RNN']['MultiRNNCell']['Cell_i']['LSTMCell']] of
    the checkpoint. *)
Record LSTMCell : Type := mkLSTMCell {
  W_0 : mat;
  B : vec;
  W_P_0 : mat
}.

(** The checkpoint file, by direction and layer; [None] where the group is
    absent. *)
Definition checkpoint : Type := nat -> nat -> option LSTMCell.

(** [torch_w[cs:2cs, :] = tf_w[2cs:3cs, :]
     torch_w[2cs:3cs, :] = tf_w[cs:2cs, :]] *)
Definition swap_gate_order {A : Type} (cs : nat) (torch_w tf_w : list A)
  : list A :=
  let torch_w :=
    assign_slice (1 * cs) (2 * cs) torch_w (slice (2 * cs) (3 * cs) tf_w) in
  assign_slice (2 * cs) (3 * cs) torch_w (slice (1 * cs) (2 * cs) tf_w).

(** The three parameters computed from one group and copied into the cell. *)
Definition loaded_input_weights (lstm : LstmCellWithProjection)
  (dataset : LSTMCell) : mat :=
  let tf_weights := transpose (W_0 dataset) in
  let torch_weights := tf_weights in
  swap_gate_order (cell_size lstm)
    (cols_to (input_size lstm) torch_weights)
    (cols_to (input_size lstm) tf_weights).

Definition loaded_recurrent_weights (lstm : LstmCellWithProjection)
  (dataset : LSTMCell) : mat :=
  let tf_weights := transpose (W_0 dataset) in
  let torch_weights := tf_weights in
  swap_gate_order (cell_size lstm)
    (cols_from (input_size lstm) torch_weights)
    (cols_from (input_size lstm) tf_weights).

Definition loaded_bias (lstm : LstmCellWithProjection) (dataset : LSTMCell)
  : vec :=
  let cs := cell_size lstm in
  let tf_bias := B dataset in
  let tf_bias :=
    assign_slice (2 * cs) (3 * cs) tf_bias
      (map (fun x => (x + 1)%R) (slice (2 * cs) (3 * cs) tf_bias)) in
  let torch_bias := tf_bias in
  swap_gate_order cs torch_bias tf_bias.

(** Broadcasting, as numpy and torch do it on one axis: an array with the
    entries [v] on that axis can be broadcast to [n] entries when it has [n]
    entries, or one, which is then repeated. *)
Definition broadcastable {A : Type} (n : nat) (v : list A) : bool :=
  (length v =? n)%nat || (length v =? 1)%nat.

Definition broadcast {A : Type} (n : nat) (v : list A) : list A :=
  match v with
  | [x] => repeat x n
  | _ => v
  end.

(** [param.data.copy_(torch.FloatTensor(src))] for a parameter of the shape
    rows x cols: [src] is broadcast to that shape, and the call raises
    RuntimeError when it cannot be.  (A matrix without rows has no width
    here.) *)
Definition copy_check (rows cols : nat) (src : mat) : result unit :=
  if broadcastable rows src && forallb (broadcastable cols) src
  then Ok tt
  else Raise (Exception "RuntimeError").

Definition copied (rows cols : nat) (src : mat) : mat :=
  map (broadcast cols) (broadcast rows src).

(** The same for a parameter with one axis of [n] entries. *)
Definition copy_check_vector (n : nat) (src : vec) : result unit :=
  if broadcastable n src then Ok tt else Raise (Exception "RuntimeError").

(** [torch_w[a:b] = tf_w[c:d]] in numpy: the right-hand side is broadcast to
    the slice on the left, and the assignment raises ValueError when it
    cannot be. *)
Definition assign_check {A : Type} (a b c d : nat) (torch_w tf_w : list A)
  : result unit :=
  if broadcastable (length (slice a b torch_w)) (slice c d tf_w)
  then Ok tt
  else Raise (Exception "ValueError").

(** The two assignments of the loop over the gate order; the first one keeps
    the number of rows of [torch_w].  When both go through, the slices have
    the same number of rows and nothing is repeated, which is
    [swap_gate_order]. *)
Definition swap_gate_order_check {A : Type} (cs : nat) (torch_w tf_w : list A)
  : result unit :=
  bind (assign_check (1 * cs) (2 * cs) (2 * cs) (3 * cs) torch_w tf_w)
       (fun _ => assign_check (2 * cs) (3 * cs) (1 * cs) (2 * cs) torch_w tf_w).

(** The cell after the four [copy_] of one group, when none of them
    raises: every parameter has the shape [__init__] gave it. *)
Definition load_cell (lstm : LstmCellWithProjection) (dataset : LSTMCell)
  : LstmCellWithProjection :=
  {| input_size := input_size lstm;
     hidden_size := hidden_size lstm;
     cell_size := cell_size lstm;
     go_forward := go_forward lstm;
     recurrent_dropout_probability := recurrent_dropout_probability lstm;
     memory_cell_clip_value := memory_cell_clip_value lstm;
     state_projection_clip_value := state_projection_clip_value lstm;
     input_linearity :=
       {| weight := copied (4 * cell_size lstm) (input_size lstm)
                           (loaded_input_weights lstm dataset);
          bias := bias (input_linearity lstm) |};
     state_linearity :=
       {| weight := copied (4 * cell_size lstm) (hidden_size lstm)
                           (loaded_recurrent_weights lstm dataset);
          bias := Some (broadcast (4 * cell_size lstm)
                                  (loaded_bias lstm dataset)) |};
     state_projection :=
       {| weight := copied (hidden_size lstm) (cell_size lstm)
                           (transpose (W_P_0 dataset));
          bias := bias (state_projection lstm) |};
     training := training lstm |}.

(** What can raise while one group is loaded, in the order of the code: the
    assignments of the gate order of the input and of the recurrent
    weights, the [copy_] of both, the assignments of the gate order of the
    bias, its [copy_], and the [copy_] of the projection weights. *)
Definition load_checks (lstm : LstmCellWithProjection) (dataset : LSTMCell)
  : result unit :=
  let cs := cell_size lstm in
  let tf_weights := transpose (W_0 dataset) in
  let tf_input_weights := cols_to (input_size lstm) tf_weights in
  let tf_recurrent_weights := cols_from (input_size lstm) tf_weights in
  let tf_bias :=
    assign_slice (2 * cs) (3 * cs) (B dataset)
      (map (fun x => (x + 1)%R) (slice (2 * cs) (3 * cs) (B dataset))) in
  bind (swap_gate_order_check cs tf_input_weights tf_input_weights) (fun _ =>
  bind (swap_gate_order_check cs tf_recurrent_weights tf_recurrent_weights)
       (fun _ =>
  bind (copy_check (4 * cs) (input_size lstm)
                   (loaded_input_weights lstm dataset)) (fun _ =>
  bind (copy_check (4 * cs) (hidden_size lstm)
                   (loaded_recurrent_weights lstm dataset)) (fun _ =>
  bind (swap_gate_order_check cs tf_bias tf_bias) (fun _ =>
  bind (copy_check_vector (4 * cs) (loaded_bias lstm dataset)) (fun _ =>
  copy_check (hidden_size lstm) (cell_size lstm)
             (transpose (W_P_0 dataset)))))))).

(** The body of the loop over the directions of one layer: KeyError for a
    group that the checkpoint lacks. *)
Definition load_direction (fin : checkpoint) (i_layer j_direction : nat)
  (lstm : LstmCellWithProjection) : result LstmCellWithProjection :=
  match fin j_direction i_layer with
  | Some dataset =>
      bind (load_checks lstm dataset) (fun _ => Ok (load_cell lstm dataset))
  | None => Raise (Exception "KeyError")
  end.

(** The loop over [enumerate(zip(self.forward_layers, self.backward_layers))],
    from layer [i_layer] on. *)
Fixpoint load_layers (fin : checkpoint) (i_layer : nat)
  (lstms : list (LstmCellWithProjection * LstmCellWithProjection))
  : result (list (LstmCellWithProjection * LstmCellWithProjection)) :=
  match lstms with
  | [] => Ok []
  | (f, b) :: rest =>
      f' <- load_direction fin i_layer 0 f ;;
      b' <- load_direction fin i_layer 1 b ;;
      rest' <- load_layers fin (S i_layer) rest ;;
      Ok ((f', b') :: rest')
  end.

(** [ElmobiLm.load_weights]: the cells are updated in place; a layer without
    its partner in the other direction is not visited. *)
Definition load_weights (lm : ElmobiLm) (fin : checkpoint) : result ElmobiLm :=
  let lstms := combine (forward_layers lm) (backward_layers lm) in
  loaded <- load_layers fin 0 lstms ;;
  Ok {| lm_hidden_size := lm_hidden_size lm;
        lm_cell_size := lm_cell_size lm;
        forward_layers :=
          map fst loaded ++ skipn (length loaded) (forward_layers lm);
        backward_layers :=
          map snd loaded ++ skipn (length loaded) (backward_layers lm) |}.

(* ================================================================== *)
(** ** _ElmoModel: the files of the model directory *)

(** [needle in s]. *)
Fixpoint contains (s needle : string) : bool :=
  match s with
  | EmptyString => prefix needle s
  | String _ s' => prefix needle s || contains s' needle
  end.

(** The counters and names of the scan of [__init__]. *)
Record scan_state : Type := mkScan {
  config_file : option string;
  weight_file : option string;
  config_count : nat;
  weight_count : nat
}.

(** The body of [for file_name in file_list]. *)
Definition scan_file (s : scan_state) (file_name : string) : scan_state :=
  if contains file_name ".json" then
    {| config_file := Some file_name;
       weight_file := weight_file s;
       config_count := config_count s + 1;
       weight_count := weight_count s |}
  else if contains file_name ".hdf5" then
    {| config_file := config_file s;
       weight_file := Some file_name;
       config_count := config_count s;
       weight_count := weight_count s + 1 |}
  else s.

(** What [os.walk] yields: (path, directories, files) for the directory and
    every directory below it. *)
Definition walk : Type := list (string * list string * list string).

Definition scan_walk (dir : walk) : scan_state :=
  fold_left (fun s entry => fold_left scan_file (snd entry) s) dir
            {| config_file := None; weight_file := None;
               config_count := 0; weight_count := 0 |}.

(** The start of [_ElmoModel.__init__], up to the two checks: the names of
    the configuration and of the weight file. *)
Definition find_model_files (model_dir : string) (dir : walk)
  : result (option string * option string) :=
  let s := scan_walk dir in
  if (1 <? config_count s)%nat || (1 <? weight_count s)%nat then
    Raise (Exception
             ("Multiple config files(*.json) or weight files(*.hdf5) detected in "
                ++ model_dir ++ "."))
  else if (config_count s =? 0)%nat || (weight_count s =? 0)%nat then
    Raise (Exception ("No config file or weight file found in " ++ model_dir))
  else Ok (config_file s, weight_file s).

(* ================================================================== *)
(** ** _ElmoModel.forward *)

(** The parts of the model that [forward] uses.  The token embedding (the
    cached embedding table or the character-level embedder) is a function
    from the expanded word ids to one vector per position; the plain LSTM
    encoder ([LstmbiLm], a [torch.nn.LSTM]) is a function as well. *)
Record _ElmoModel : Type := mkElmoModel {
  encoder_name : string;
  _pad_index : nat;
  bos_index : nat;
  eos_index : nat;
  token_embedding_of : list (list nat) -> tensor3;
  encoder : ElmobiLm;
  lstm_encoder : tensor3 -> list nat -> tensor3
}.

(** [words.size()[1]]; a batch without rows is read as of width 0. *)
Definition max_len_of (words : list (list nat)) : nat :=
  match words with
  | [] => 0
  | row :: _ => length row
  end.

(** [words.ne(self._pad_index).sum(dim=-1)]. *)
Definition count_not_pad (m : _ElmoModel) (row : list nat) : nat :=
  length (filter (fun w => negb (w =? _pad_index m)%nat) row).

(** The word ids with the begin and end markers put in. *)
Definition expand_words (m : _ElmoModel) (words : list (list nat))
  : list (list nat) :=
  let max_len := max_len_of words in
  let seq_len := map (count_not_pad m) words in
  let expanded_words := map (fun _ => repeat 0 (max_len + 2)) words in
  let expanded_words :=
    map2 (fun row w => assign_slice 1 (length row - 1) row w)
         expanded_words words in
  let expanded_words := map (set_nth 0 (bos_index m)) expanded_words in
  map2 (fun row len => set_nth (len + 1) (eos_index m) row)
       expanded_words seq_len.

(** [t.size()] of a tensor of four dimensions, read off its first entries. *)
Definition size1 (t : tensor4) : nat := length (hd [] t).
Definition size2 (t : tensor4) : nat := length (hd [] (hd [] t)).
Definition size3 (t : tensor4) : nat := length (hd [] (hd [] (hd [] t))).

(** [torch.cat((t, t.new_zeros(layers, batch, extra, hidden)), 2)]. *)
Definition pad_time (t : tensor4) (extra hidden : nat) : tensor4 :=
  map (map (fun row => row ++ zeros2 extra hidden)) t.

(** [count] consecutive pieces of [n] elements. *)
Definition chunks {A : Type} (count n : nat) (l : list A) : list (list A) :=
  map (fun i => firstn n (skipn (i * n) l)) (seq 0 count).

(** [t.view(1, s1, s2, s3)] for a tensor of three dimensions. *)
Definition view_1 (t : tensor3) (s1 s2 s3 : nat) : result tensor4 :=
  let flat := concat (concat t) in
  if (length flat =? s1 * s2 * s3)%nat
  then Ok [map (chunks s2 s3) (chunks s1 (s2 * s3) flat)]
  else Raise (Exception "shape is invalid for input size").

(** [x[1:-1]]. *)
Definition strip_ends {A : Type} (x : list A) : list A :=
  slice 1 (length x - 1) x.

(** The two shapes [forward] can return. *)
Inductive encoder_output : Type :=
| Layers (t : tensor4)
| Plain (t : tensor3).

(** [words.ne(self._pad_index).sum(dim=-1) + 2]. *)
Definition seq_len_of (m : _ElmoModel) (words : list (list nat)) : list nat :=
  map (fun row => count_not_pad m row + 2) words.

(** The branch of [_ElmoModel.forward] for the "elmo" encoder: the value of
    [encoder_output] after [torch.cat((token_embedding, encoder_output),
    dim=0)], before the final slice. *)
Definition elmo_encoder_output (m : _ElmoModel) (words : list (list nat))
  (g : generator) : result (tensor4 * generator) :=
  let max_len := max_len_of words in
  let seq_len := seq_len_of m words in
  let token_embedding := token_embedding_of m (expand_words m words) in
  r <- ElmobiLm_forward (encoder m) token_embedding seq_len g ;;
  let (encoder_output, g') := r in
  let encoder_output :=
    if (size2 encoder_output <? max_len + 2)%nat then
      pad_time encoder_output (max_len + 2 - size2 encoder_output)
               (size3 encoder_output)
    else encoder_output in
  token_embedding <-
    view_1 (cat_last3 token_embedding token_embedding)
           (size1 encoder_output) (size2 encoder_output)
           (size3 encoder_output) ;;
  Ok (token_embedding ++ encoder_output, g').

(** [_ElmoModel.forward]: the final slice [encoder_output[:, :, 1:-1]] is
    on the time axis of the four dimensions of the "elmo" branch, and on the
    last axis of the three dimensions of the "lstm" branch. *)
Definition ElmoModel_forward (m : _ElmoModel) (words : list (list nat))
  (g : generator) : result (encoder_output * generator) :=
  if String.eqb (encoder_name m) "elmo" then
    r <- elmo_encoder_output m words g ;;
    Ok (Layers (map (map strip_ends) (fst r)), snd r)
  else if String.eqb (encoder_name m) "lstm" then
    let encoder_output :=
      lstm_encoder m (token_embedding_of m (expand_words m words))
                   (seq_len_of m words) in
    Ok (Plain (map (map strip_ends) encoder_output), g)
  else
    Raise (Exception ("Unknown encoder: " ++ encoder_name m)).

(* ================================================================== *)
(** ** Highway *)

(** [torch.nn.functional.relu]. *)
Definition relu (x : R) : R := Rmax 0 x.

(** A [Highway] module: the size of its input, one [Linear] of
    [2 * input_dim] output features per layer, and the element-wise
    non-linearity. *)
Record Highway : Type := mkHighway {
  _input_dim : nat;
  _layers : list Linear;
  _activation : R -> R
}.

(** [Highway.__init__], from the freshly initialised linear layers: the
    second half of every bias is filled with 1
    ([layer.bias[input_dim:].data.fill_(1)]). *)
Definition Highway_init (input_dim num_layers : nat) (activation : R -> R)
  (fresh : nat -> Linear) : Highway :=
  {| _input_dim := input_dim;
     _layers :=
       map (fun k =>
              {| weight := weight (fresh k);
                 bias :=
                   option_map
                     (fun b => firstn input_dim b
                               ++ repeat 1%R (length b - input_dim))
                     (bias (fresh k)) |})
           (seq 0 num_layers);
     _activation := activation |}.

(** The body of [for layer in self._layers] of [Highway.forward]. *)
Definition highway_layer (input_dim : nat) (activation : R -> R)
  (current_input : mat) (layer : Linear) : mat :=
  let projected_input := apply_linear layer current_input in
  let linear_part := current_input in
  let nonlinear_part :=
    cols (0 * input_dim) (1 * input_dim) projected_input in
  let gate := cols (1 * input_dim) (2 * input_dim) projected_input in
  let nonlinear_part := mmap activation nonlinear_part in
  let gate := mmap sigmoid gate in
  madd (mmul gate linear_part)
       (mmul (mmap (fun g => (1 - g)%R) gate) nonlinear_part).

(** [Highway.forward]. *)
Definition Highway_forward (h : Highway) (inputs : mat) : mat :=
  fold_left (highway_layer (_input_dim h) (_activation h)) (_layers h) inputs.

(* ================================================================== *)
(** ** ConvTokenEmbedder._load_highway *)

(** The group [fin['CNN_high_k']] of the checkpoint. *)
Record HighwayGroup : Type := mkHighwayGroup {
  W_transform : mat;
  W_carry : mat;
  b_transform : vec;
  b_carry : vec
}.

(** The groups of the highway layers in the checkpoint, by layer; [None]
    where the group is absent. *)
Definition highway_checkpoint : Type := nat -> option HighwayGroup.

(** The weight and the bias computed from one group:
    [concatenate([transpose(W_transform), -1.0 * transpose(W_carry)], 0)] and
    [concatenate([b_transform, -1.0 * b_carry], 0)]. *)
Definition highway_parameters (dataset : HighwayGroup) : Linear :=
  let w_transform := transpose (W_transform dataset) in
  let w_carry := mmap (fun x => (-1 * x)%R) (transpose (W_carry dataset)) in
  let b_carry := map (fun x => (-1 * x)%R) (b_carry dataset) in
  {| weight := w_transform ++ w_carry;
     bias := Some (b_transform dataset ++ b_carry) |}.

(** [numpy.concatenate([a, b], axis=0)] of two matrices raises ValueError
    when their widths differ.  (A matrix without rows has no width
    here.) *)
Definition concatenate_check (a b : mat) : result unit :=
  match a, b with
  | row_a :: _, row_b :: _ =>
      if (length row_a =? length row_b)%nat then Ok tt
      else Raise (Exception "ValueError")
  | _, _ => Ok tt
  end.

(** The layer over [n] features after the two [copy_] of one group, when
    none of them raises: the weight has the shape 2n x n and the bias 2n
    entries, as [Highway.__init__] made them. *)
Definition loaded_highway_layer (n : nat) (dataset : HighwayGroup) : Linear :=
  let computed := highway_parameters dataset in
  {| weight := copied (2 * n) n (weight computed);
     bias := option_map (broadcast (2 * n)) (bias computed) |}.

(** The body of [for k in range(n_highway)]: the parameters of layer [k] are
    overwritten.  KeyError for a group that the checkpoint lacks, ValueError
    for weights that cannot be concatenated, RuntimeError for a weight or a
    bias that [copy_] cannot broadcast to the parameter. *)
Definition load_highway_layer (n : nat) (fin : highway_checkpoint)
  (layers : list Linear) (k : nat) : result (list Linear) :=
  match fin k with
  | Some dataset =>
      let w_transform := transpose (W_transform dataset) in
      let w_carry :=
        mmap (fun x => (-1 * x)%R) (transpose (W_carry dataset)) in
      let b_carry := map (fun x => (-1 * x)%R) (b_carry dataset) in
      bind (concatenate_check w_transform w_carry) (fun _ =>
      bind (copy_check (2 * n) n (w_transform ++ w_carry)) (fun _ =>
      bind (copy_check_vector (2 * n) (b_transform dataset ++ b_carry))
           (fun _ =>
      Ok (set_nth k (loaded_highway_layer n dataset) layers))))
  | None => Raise (Exception "KeyError")
  end.

(** The number of filters: [sum(f[1] for f in filters)]. *)
Definition n_filters_of (filters : list (nat * nat)) : nat :=
  fold_right Nat.add 0 (map snd filters).

(** [ConvTokenEmbedder._load_highway]: a [Highway] with [relu] over the
    filters is created and its layers are loaded one by one. *)
Definition _load_highway (filters : list (nat * nat)) (n_highway : nat)
  (fresh : nat -> Linear) (fin : highway_checkpoint) : result Highway :=
  let n_filters := n_filters_of filters in
  let highways := Highway_init n_filters n_highway relu fresh in
  layers <- for_each (load_highway_layer n_filters fin) (seq 0 n_highway)
                     (_layers highways) ;;
  Ok {| _input_dim := _input_dim highways;
        _layers := layers;
        _activation := _activation highways |}.

(* ================================================================== *)
(** ** ConvTokenEmbedder.forward *)

(** [torch.nn.Conv1d]: the weight has the shape out_channels x in_channels
    x kernel_size. *)
Record Conv1d : Type := mkConv1d {
  kernel_size : nat;
  conv_weight : tensor3;
  conv_bias : vec
}.

(** The convolution of one sample (in_channels x length_in): at every
    position [t] and for every output channel, the bias plus the products of
    the weights with the window of [kernel_size] entries at [t] of every
    input channel. *)
Definition conv1d_sample (conv : Conv1d) (length_in : nat) (x : mat) : mat :=
  let length_out := length_in + 1 - kernel_size conv in
  map2 (fun w b =>
          map (fun t =>
                 (b + fold_right Rplus 0
                        (map2 (fun w_c x_c =>
                                 dot w_c (firstn (kernel_size conv)
                                                 (skipn t x_c)))
                              w x))%R)
              (seq 0 length_out))
       (conv_weight conv) (conv_bias conv).

(** [conv(x)] on a batch of samples of [length_in] entries per channel; a
    kernel longer than the input is an error. *)
Definition conv1d (conv : Conv1d) (length_in : nat) (x : tensor3)
  : result tensor3 :=
  if (length_in <? kernel_size conv)%nat then
    Raise (Exception "RuntimeError")
  else Ok (map (conv1d_sample conv length_in) x).

(** The values of [torch.max(x, dim=-1)] for one row. *)
Definition max_of (row : vec) : R :=
  match row with
  | [] => 0%R
  | v :: row' => fold_left Rmax row' v
  end.

(** [torch.cat(ts, dim=-1)] for matrices of as many rows. *)
Definition cat_last (ts : list mat) : result mat :=
  match ts with
  | [] => Raise (Exception "RuntimeError")
  | t :: ts' => Ok (fold_left (map2 (@app R)) ts' t)
  end.

(** A [ConvTokenEmbedder] after [_load_weights]: the weight of the
    character embedding, the name of the activation in the options, the
    convolutions, the highway layers and the projection. *)
Record ConvTokenEmbedder : Type := mkConvTokenEmbedder {
  char_emb_layer : mat;
  activation_name : string;
  _convolutions : list Conv1d;
  _highways : Highway;
  _projection : Linear
}.

(** [self.char_emb_layer(chars)]: one vector per character id; IndexError
    for an id that is not a row of the weight. *)
Definition embed_chars (weight : mat) (chars : list (list (list nat)))
  : result (list (list mat)) :=
  if forallb (forallb (forallb (fun i => (i <? length weight)%nat))) chars
  then Ok (map (map (index_select weight)) chars)
  else Raise (Exception "IndexError").

(** [x.reshape(n * k, c, -1)] of a tensor of the sizes n x k x c x e, and
    [x.view(n, k, -1)] of a tensor of the sizes (n * k) x e: the size [-1]
    cannot be inferred when the product of the sizes given is 0. *)
Definition merge_first {A : Type} (n k c : nat) (x : list (list A))
  : result (list A) :=
  if (n * k * c =? 0)%nat then Raise (Exception "RuntimeError")
  else Ok (concat x).

Definition split_first {A : Type} (n k : nat) (x : list A)
  : result (list (list A)) :=
  if (n * k =? 0)%nat then Raise (Exception "RuntimeError")
  else Ok (chunks n k x).

(** The body of [for i in range(len(self._convolutions))], with the list
    [convs] as state. *)
Definition conv_step (activation : R -> R) (max_char_len : nat)
  (character_embedding : tensor3) (convs : list mat) (conv : Conv1d)
  : result (list mat) :=
  convolved <- conv1d conv max_char_len character_embedding ;;
  let convolved := map (map max_of) convolved in
  let convolved := mmap activation convolved in
  Ok (convs ++ [convolved]).

(** [ConvTokenEmbedder.forward]; [chars] has the sizes batch_size x
    sequence_length x max_char_len. *)
Definition ConvTokenEmbedder_forward (m : ConvTokenEmbedder)
  (words : list (list nat)) (chars : list (list (list nat)))
  : result tensor3 :=
  let batch_size := length chars in
  let sequence_length := length (hd [] chars) in
  let max_char_len := length (hd [] (hd [] chars)) in
  embedded <- embed_chars (char_emb_layer m) chars ;;
  character_embedding <-
    merge_first batch_size sequence_length max_char_len embedded ;;
  activation <-
    (if String.eqb (activation_name m) "tanh" then Ok tanh
     else if String.eqb (activation_name m) "relu" then Ok relu
     else Raise (Exception "Unknown activation")) ;;
  let character_embedding := map transpose character_embedding in
  convs <- for_each (conv_step activation max_char_len character_embedding)
                    (_convolutions m) [] ;;
  token_embedding <- cat_last convs ;;
  let token_embedding := Highway_forward (_highways m) token_embedding in
  let token_embedding := apply_linear (_projection m) token_embedding in
  split_first batch_size sequence_length token_embedding.

(* ================================================================== *)
(** ** _ElmoModel: the token embedding and its cache *)

(** A token embedder ([ConvTokenEmbedder] or [LstmTokenEmbedder]) as a
    function of the word ids (batch x positions) and of the character ids
    (batch x positions x characters, or [None]) to one vector per
    position. *)
Definition TokenEmbedder : Type :=
  list (list nat) -> option (list (list (list nat))) -> result tensor3.

(** The attributes of the model that the token embedding is computed from;
    [None] for an attribute that the object does not have. *)
Record embedding_attrs : Type := mkEmbeddingAttrs {
  cached_word_embedding : option mat;
  words_to_chars_embedding : option (list (list nat));
  token_embedder : option TokenEmbedder
}.

(** [table[ids]] for a matrix of ids, as tensor indexing and as the lookup
    of an [nn.Embedding]: an id that is not a row of the table raises
    IndexError. *)
Definition lookup_rows {A : Type} (table : list A) (ids : list (list nat))
  : result (list (list A)) :=
  if forallb (forallb (fun i => (i <? length table)%nat)) ids
  then Ok (map (index_select table) ids)
  else Raise (Exception "IndexError").

(** The token embedding of [_ElmoModel.forward], from the expanded word
    ids. *)
Definition token_embedding (a : embedding_attrs)
  (expanded_words : list (list nat)) : result tensor3 :=
  match cached_word_embedding a with
  | Some table => lookup_rows table expanded_words
  | None =>
      chars <- match words_to_chars_embedding a with
               | Some table =>
                   c <- lookup_rows table expanded_words ;; Ok (Some c)
               | None => Ok None
               end ;;
      match token_embedder a with
      | Some f => f expanded_words chars
      | None => Raise (Exception "AttributeError")
      end
  end.

(** [torch.arange(a, b)]. *)
Definition arange (a b : nat) : list nat := seq a (b - a).

(** [weight[idx] = v] for distinct indices in range and one row of [v] per
    index. *)
Definition assign_rows {A : Type} (idx : list nat) (v : list A)
  (weight : list A) : list A :=
  fold_left (fun w iv => set_nth (fst iv) (snd iv) w) (combine idx v) weight.

(** The body of [for i in range(num_batches)] of [_ElmoModel.__init__], for
    a token embedder that returns one vector per word of the batch (a tensor
    batch x 1 x projection_dim, of which [squeeze(1)] takes the rows). *)
Definition cache_batch (embedder : TokenEmbedder) (table : list (list nat))
  (batch_size word_size : nat) (weight : mat) (i : nat) : result mat :=
  let words :=
    arange (i * batch_size) (Nat.min ((i + 1) * batch_size) word_size) in
  let chars := map (fun c => [c]) (index_select table words) in
  word_reprs <- embedder (map (fun w => [w]) words) (Some chars) ;;
  Ok (assign_rows words (map (fun r => hd [] r) word_reprs) weight).

(** [word_size // batch_size + int(word_size % batch_size != 0)]. *)
Definition num_batches_of (word_size batch_size : nat) : nat :=
  word_size / batch_size
  + (if (word_size mod batch_size =? 0)%nat then 0 else 1).

(** The weight of [cached_word_embedding] after the loop over the batches;
    [fresh] is the initial weight of the [nn.Embedding], by row. *)
Definition cached_weight (batch_size : nat) (embedder : TokenEmbedder)
  (table : list (list nat)) (fresh : nat -> vec) : result mat :=
  let word_size := length table in
  let num_batches := num_batches_of word_size batch_size in
  for_each (cache_batch embedder table batch_size word_size)
           (seq 0 num_batches) (map fresh (seq 0 word_size)).

(** The end of [_ElmoModel.__init__]: with [cache_word_reprs] and a
    character embedding, the embeddings of all words are computed in batches
    of 320 and the token embedder and the table of characters are
    deleted. *)
Definition cache_word_reprs_of (cache_word_reprs : bool) (embedding_dim : nat)
  (fresh : nat -> vec) (a : embedding_attrs) : result embedding_attrs :=
  if cache_word_reprs then
    if (0 <? embedding_dim)%nat then
      match words_to_chars_embedding a, token_embedder a with
      | Some table, Some embedder =>
          let batch_size := 320 in
          weight <- cached_weight batch_size embedder table fresh ;;
          Ok {| cached_word_embedding := Some weight;
                words_to_chars_embedding := None;
                token_embedder := None |}
      | _, _ => Raise (Exception "AttributeError")
      end
    else Ok a
  else Ok a.

(* ================================================================== *)
(** ** _ElmoModel.__init__: the table from words to characters *)

Definition PAD_TAG : string := "<pad>".
Definition BOS_TAG : string := "<bos>".
Definition EOS_TAG : string := "<eos>".
Definition BOW_TAG : string := "<bow>".
Definition EOW_TAG : string := "<eow>".

(** [word[:stop]] for a string. *)
Definition str_slice_to (word : string) (stop : Z) : string :=
  string_of_list_ascii (slice_to (list_ascii_of_string word) stop).

(** [c for c in word]: the characters of a string, as strings. *)
Definition chars_of (word : string) : list string :=
  map (fun c => String c EmptyString) (list_ascii_of_string word).

(** The two branches that compute [char_ids]; [to_index] is
    [char_vocab.to_index]. *)
Definition char_ids_of (to_index : string -> nat) (max_chars : nat)
  (word : string) : list nat :=
  if String.eqb word BOS_TAG || String.eqb word EOS_TAG then
    let char_ids :=
      [to_index BOW_TAG] ++ [to_index word] ++ [to_index EOW_TAG] in
    char_ids ++ repeat (to_index PAD_TAG) (max_chars - length char_ids)
  else
    let char_ids :=
      [to_index BOW_TAG] ++ map to_index (chars_of word)
      ++ [to_index EOW_TAG] in
    char_ids ++ repeat (to_index PAD_TAG) (max_chars - length char_ids).

(** The body of the loop over the words: a row of the table is assigned a
    tensor of exactly as many entries. *)
Definition words_to_chars_step (to_index : string -> nat)
  (max_chars pad_index : nat) (table : list (list nat))
  (entry : string * nat) : result (list (list nat)) :=
  let (word, index) := entry in
  let word :=
    if (max_chars <? String.length word + 2)%nat
    then str_slice_to word (Z.of_nat max_chars - 2)
    else word in
  if (index =? pad_index)%nat then Ok table
  else
    let char_ids := char_ids_of to_index max_chars word in
    if (index <? length table)%nat then
      if (length char_ids =? max_chars)%nat
      then Ok (set_nth index char_ids table)
      else Raise (Exception "RuntimeError")
    else Raise (Exception "IndexError").

(** The table [words_to_chars_embedding]: one row per word of the
    vocabulary and one for each of the two markers, filled with
    [len(char_vocab)] at first; [vocab] is [list(iter(vocab))]. *)
Definition words_to_chars (to_index : string -> nat)
  (len_char_vocab max_chars pad_index : nat) (vocab : list (string * nat))
  : result (list (list nat)) :=
  let table := repeat (repeat len_char_vocab max_chars) (length vocab + 2) in
  for_each (words_to_chars_step to_index max_chars pad_index)
           (vocab ++ [(BOS_TAG, length vocab); (EOS_TAG, length vocab + 1)])
           table.

(* ================================================================== *)
(** * Properties *)

(** ** Lists *)

Lemma map2_length {A B C : Type} (f : A -> B -> C) (l1 : list A) (l2 : list B) :
  length (map2 f l1 l2) = Nat.min (length l1) (length l2).
Proof.
  revert l2; induction l1 as [|a l1 IH]; intros [|b l2]; simpl; auto.
Qed.

Lemma map2_nth {A B C : Type} (f : A -> B -> C) (l1 : list A) (l2 : list B)
  (i : nat) (d1 : A) (d2 : B) (d : C) :
  i < length l1 -> i < length l2 ->
  nth i (map2 f l1 l2) d = f (nth i l1 d1) (nth i l2 d2).
Proof.
  revert l2 i; induction l1 as [|a l1 IH]; intros [|b l2] [|i]; simpl;
    intros H1 H2; try lia; auto.
  apply IH; lia.
Qed.

Lemma map2_firstn {A B C : Type} (f : A -> B -> C) (n : nat) (l1 : list A)
  (l2 : list B) :
  firstn n (map2 f l1 l2) = map2 f (firstn n l1) (firstn n l2).
Proof.
  revert l1 l2; induction n as [|n IH]; intros [|a l1] [|b l2]; simpl; auto.
  f_equal; apply IH.
Qed.

Lemma map2_skipn {A B C : Type} (f : A -> B -> C) (n : nat) (l1 : list A)
  (l2 : list B) :
  skipn n (map2 f l1 l2) = map2 f (skipn n l1) (skipn n l2).
Proof.
  revert l1 l2; induction n as [|n IH]; intros [|a l1] [|b l2]; simpl; auto.
  destruct (skipn n l1); reflexivity.
Qed.

Lemma map2_app {A B C : Type} (f : A -> B -> C) (l1 l1' : list A)
  (l2 l2' : list B) :
  length l1 = length l2 ->
  map2 f (l1 ++ l1') (l2 ++ l2') = map2 f l1 l2 ++ map2 f l1' l2'.
Proof.
  revert l2; induction l1 as [|a l1 IH]; intros [|b l2]; simpl; intros H;
    try discriminate; auto.
  f_equal; apply IH; lia.
Qed.

Lemma map2_map_l {A A' B C : Type} (f : A' -> B -> C) (g : A -> A')
  (l1 : list A) (l2 : list B) :
  map2 f (map g l1) l2 = map2 (fun a b => f (g a) b) l1 l2.
Proof.
  revert l2; induction l1 as [|a l1 IH]; intros [|b l2]; simpl; auto.
  f_equal; apply IH.
Qed.

Lemma map2_map_r {A B B' C : Type} (f : A -> B' -> C) (g : B -> B')
  (l1 : list A) (l2 : list B) :
  map2 f l1 (map g l2) = map2 (fun a b => f a (g b)) l1 l2.
Proof.
  revert l2; induction l1 as [|a l1 IH]; intros [|b l2]; simpl; auto.
  f_equal; apply IH.
Qed.

Lemma map_map2 {A B C D : Type} (g : C -> D) (f : A -> B -> C) (l1 : list A)
  (l2 : list B) :
  map g (map2 f l1 l2) = map2 (fun a b => g (f a b)) l1 l2.
Proof.
  revert l2; induction l1 as [|a l1 IH]; intros [|b l2]; simpl; auto.
  f_equal; apply IH.
Qed.

Lemma map2_ext_in {A B C : Type} (f g : A -> B -> C) (l1 : list A)
  (l2 : list B) :
  (forall a b, In a l1 -> In b l2 -> f a b = g a b) ->
  map2 f l1 l2 = map2 g l1 l2.
Proof.
  revert l2; induction l1 as [|a l1 IH]; intros [|b l2] H; simpl; auto.
  f_equal; [apply H; simpl; auto | apply IH; intros; apply H; simpl; auto].
Qed.

Lemma nth_map_in {A B : Type} (f : A -> B) (l : list A) (i : nat) (d : B)
  (d' : A) :
  i < length l -> nth i (map f l) d = f (nth i l d').
Proof.
  intros H.
  rewrite (nth_indep _ d (f d')) by (rewrite length_map; exact H).
  apply map_nth.
Qed.

Lemma set_nth_length {A : Type} (i : nat) (x : A) (l : list A) :
  length (set_nth i x l) = length l.
Proof.
  revert i; induction l as [|a l IH]; intros [|i]; simpl; auto.
Qed.

Lemma set_nth_same {A : Type} (i : nat) (x d : A) (l : list A) :
  i < length l -> nth i (set_nth i x l) d = x.
Proof.
  revert i; induction l as [|a l IH]; intros [|i]; simpl; intros H;
    try lia; auto.
  apply IH; lia.
Qed.

Lemma set_nth_other {A : Type} (i j : nat) (x d : A) (l : list A) :
  i <> j -> nth j (set_nth i x l) d = nth j l d.
Proof.
  revert i j; induction l as [|a l IH]; intros [|i] [|j]; simpl; intros H;
    try lia; auto.
Qed.

(** ** The gates of one timestep *)

(** The sum the gates are read from, for one row: the input row through
    [input_linearity] plus the previous hidden row through
    [state_linearity]. *)
Definition gate_preactivations (c : LstmCellWithProjection) (x h : vec) : vec :=
  vadd (linear (input_linearity c) x) (linear (state_linearity c) h).

(** Chunk [i] of a vector cut into pieces of width [cs]. *)
Definition gate_chunk (cs i : nat) (v : vec) : vec :=
  firstn cs (skipn (i * cs) v).

Lemma linear_length (l : Linear) (x : vec) (n : nat) :
  length (weight l) = n ->
  match bias l with Some b => length b = n | None => True end ->
  length (linear l x) = n.
Proof.
  intros Hw Hb; unfold linear.
  destruct (bias l) as [b|].
  - unfold vadd; rewrite map2_length, length_map, Hw, Hb; lia.
  - rewrite length_map; exact Hw.
Qed.

Lemma gate_preactivations_length (c : LstmCellWithProjection) (x h : vec) :
  cell_shapes c -> length (gate_preactivations c x h) = 4 * cell_size c.
Proof.
  intros [[Hi _] Hib [Hs _] [b [Hb Hlb]] _ _].
  unfold gate_preactivations, vadd.
  rewrite map2_length.
  rewrite (linear_length (input_linearity c) x (4 * cell_size c)),
          (linear_length (state_linearity c) h (4 * cell_size c)).
  - lia.
  - exact Hs.
  - rewrite Hb; exact Hlb.
  - exact Hi.
  - rewrite Hib; exact I.
Qed.

Lemma gate_chunk_length (cs i : nat) (v : vec) :
  (i + 1) * cs <= length v -> length (gate_chunk cs i v) = cs.
Proof.
  intros H; unfold gate_chunk.
  rewrite length_firstn, length_skipn; lia.
Qed.

Lemma gate_chunks_split (cs : nat) (v : vec) :
  length v = 4 * cs ->
  v = gate_chunk cs 0 v ++ gate_chunk cs 1 v ++ gate_chunk cs 2 v
        ++ gate_chunk cs 3 v.
Proof.
  intros H; unfold gate_chunk.
  replace (0 * cs) with 0 by lia.
  replace (1 * cs) with cs by lia.
  replace (2 * cs) with (cs + cs) by lia.
  replace (3 * cs) with (cs + (cs + cs)) by lia.
  rewrite <- !skipn_skipn; simpl skipn at 1.
  rewrite <- (firstn_skipn cs v) at 1; f_equal.
  set (v1 := skipn cs v).
  rewrite <- (firstn_skipn cs v1) at 1; f_equal.
  set (v2 := skipn cs v1).
  rewrite <- (firstn_skipn cs v2) at 1; f_equal.
  symmetry; apply firstn_all2.
  subst v2 v1; rewrite !length_skipn; lia.
Qed.

(** One gate of one row: the chunk of the summed projections. *)
Lemma gate_row (c : LstmCellWithProjection) (f : R -> R) (i : nat)
  (previous_state timestep_input : mat) (b : nat) :
  length previous_state = length timestep_input ->
  b < length timestep_input ->
  nth b (mmap f
           (madd (cols (i * cell_size c) ((i + 1) * cell_size c)
                       (projected_input c timestep_input))
                 (cols (i * cell_size c) ((i + 1) * cell_size c)
                       (projected_state c previous_state)))) []
  = map f (gate_chunk (cell_size c) i
             (gate_preactivations c (nth b timestep_input [])
                                  (nth b previous_state []))).
Proof.
  intros Hlen Hb.
  unfold mmap, madd, cols, projected_input, projected_state, apply_linear.
  rewrite !map_map.
  rewrite (nth_map_in _ _ _ _ []) by (rewrite map2_length, !length_map; lia).
  rewrite (map2_nth vadd _ _ _ [] [] []) by (rewrite length_map; lia).
  rewrite (nth_map_in _ timestep_input _ _ []) by lia.
  rewrite (nth_map_in _ previous_state _ _ []) by lia.
  unfold gate_chunk, gate_preactivations, vadd.
  rewrite map2_skipn, map2_firstn.
  replace ((i + 1) * cell_size c - i * cell_size c) with (cell_size c) by lia.
  reflexivity.
Qed.

Lemma gate_rows (c : LstmCellWithProjection) (f : R -> R) (i : nat)
  (previous_state timestep_input : mat) :
  length previous_state = length timestep_input ->
  length (mmap f
            (madd (cols (i * cell_size c) ((i + 1) * cell_size c)
                        (projected_input c timestep_input))
                  (cols (i * cell_size c) ((i + 1) * cell_size c)
                        (projected_state c previous_state))))
  = length timestep_input.
Proof.
  intros H.
  unfold mmap, madd, cols, projected_input, projected_state, apply_linear.
  rewrite length_map, map2_length, !length_map; lia.
Qed.

(** A cell with one input, one hidden and one memory feature, used to run the
    statements below on concrete numbers. *)
Definition example_cell (forwards : bool) (memory_clip state_clip : option R)
  : LstmCellWithProjection :=
  {| input_size := 1;
     hidden_size := 1;
     cell_size := 1;
     go_forward := forwards;
     recurrent_dropout_probability := 0;
     memory_cell_clip_value := memory_clip;
     state_projection_clip_value := state_clip;
     input_linearity :=
       {| weight := [[1%R]; [1%R]; [1%R]; [1%R]]; bias := None |};
     state_linearity :=
       {| weight := [[1%R]; [1%R]; [1%R]; [1%R]];
          bias := Some [0%R; 1%R; 0%R; 0%R] |};
     state_projection := {| weight := [[1%R]]; bias := None |};
     training := false |}.

Lemma example_cell_shapes (forwards : bool) (memory_clip state_clip : option R) :
  cell_shapes (example_cell forwards memory_clip state_clip).
Proof.
  constructor; simpl;
    try reflexivity;
    try (split; [reflexivity | repeat constructor]).
  exists [0%R; 1%R; 0%R; 0%R]; split; reflexivity.
Defined.

(** The gates of one row of the active sub-batch: the sum of the input row
    through [input_linearity] and of the previous hidden row through
    [state_linearity] has [4 * cell_size] entries in four chunks, which the
    four gates are read from in the order input gate, forget gate,
    candidate memory, output gate; and the memory of the row. *)
Lemma gates_of_row (c : LstmCellWithProjection)
  (previous_memory previous_state timestep_input : mat) (b : nat) :
  cell_shapes c ->
  length previous_memory = length timestep_input ->
  length previous_state = length timestep_input ->
  b < length timestep_input ->
  let cs := cell_size c in
  let pre := gate_preactivations c (nth b timestep_input [])
                                 (nth b previous_state []) in
  let i := nth b (input_gate c previous_state timestep_input) [] in
  let f := nth b (forget_gate c previous_state timestep_input) [] in
  let g := nth b (memory_init c previous_state timestep_input) [] in
  let o := nth b (output_gate c previous_state timestep_input) [] in
  (length pre = 4 * cs /\
   pre = gate_chunk cs 0 pre ++ gate_chunk cs 1 pre ++ gate_chunk cs 2 pre
           ++ gate_chunk cs 3 pre /\
   length (gate_chunk cs 0 pre) = cs /\ length (gate_chunk cs 1 pre) = cs /\
   length (gate_chunk cs 2 pre) = cs /\ length (gate_chunk cs 3 pre) = cs) /\
  i = map sigmoid (gate_chunk cs 0 pre) /\
  f = map sigmoid (gate_chunk cs 1 pre) /\
  g = map tanh (gate_chunk cs 2 pre) /\
  o = map sigmoid (gate_chunk cs 3 pre) /\
  nth b (lstm_memory c previous_memory previous_state timestep_input) []
  = vadd (vmul i g) (vmul f (nth b previous_memory [])).
Proof.
  intros Hc Hm Hs Hb; cbv zeta.
  pose proof (gate_preactivations_length c (nth b timestep_input [])
                (nth b previous_state []) Hc) as Hpre.
  split.
  { split; [exact Hpre|].
    split; [apply gate_chunks_split; exact Hpre|].
    repeat split; apply gate_chunk_length; lia. }
  split; [exact (gate_row c sigmoid 0 previous_state timestep_input b Hs Hb)|].
  split; [exact (gate_row c sigmoid 1 previous_state timestep_input b Hs Hb)|].
  split; [exact (gate_row c tanh 2 previous_state timestep_input b Hs Hb)|].
  split; [exact (gate_row c sigmoid 3 previous_state timestep_input b Hs Hb)|].
  assert (Li : length (input_gate c previous_state timestep_input)
               = length timestep_input)
    by exact (gate_rows c sigmoid 0 previous_state timestep_input Hs).
  assert (Lf : length (forget_gate c previous_state timestep_input)
               = length timestep_input)
    by exact (gate_rows c sigmoid 1 previous_state timestep_input Hs).
  assert (Lg : length (memory_init c previous_state timestep_input)
               = length timestep_input)
    by exact (gate_rows c tanh 2 previous_state timestep_input Hs).
  unfold lstm_memory, madd, mmul.
  rewrite (map2_nth vadd _ _ _ [] [] [])
    by (rewrite map2_length; lia).
  rewrite (map2_nth vmul _ _ _ [] [] []) by lia.
  rewrite (map2_nth vmul _ _ _ [] [] []) by lia.
  reflexivity.
Qed.

(** [if clip: x = torch.clamp(x, -clip, clip)] on one row. *)
Definition clip_row (v : option R) (x : vec) : vec :=
  if truthy v then
    match v with
    | Some cv => map (clamp (- cv) cv) x
    | None => x
    end
  else x.

Lemma clip_nth (v : option R) (x : mat) (b : nat) :
  nth b (clip v x) [] = clip_row v (nth b x []).
Proof.
  unfold clip, clip_row.
  destruct (truthy v); [|reflexivity].
  destruct v as [cv|]; [|reflexivity].
  unfold mmap.
  change (@nil R) with (map (clamp (- cv) cv) []) at 1.
  apply map_nth.
Qed.

Lemma clip_length (v : option R) (x : mat) : length (clip v x) = length x.
Proof.
  unfold clip; destruct (truthy v); [|reflexivity].
  destruct v; [apply length_map | reflexivity].
Qed.

Lemma nth_firstn_lt {A : Type} (l : list A) (n b : nat) (d : A) :
  b < n -> nth b (firstn n l) d = nth b l d.
Proof.
  revert n b; induction l as [|a l IH]; intros [|n] [|b] H; simpl;
    try reflexivity; try lia.
  apply IH; lia.
Qed.

(** Row [b] of the slice [l[0:stop]], for a row of the slice. *)
Lemma nth_slice_to {A : Type} (l : list A) (stop : Z) (b : nat) (d : A) :
  b < length (slice_to l stop) -> nth b (slice_to l stop) d = nth b l d.
Proof.
  unfold slice_to; rewrite length_firstn; intros H.
  apply nth_firstn_lt; lia.
Qed.

(** Slices of lists of one length have one length. *)
Lemma slice_to_length_eq {A B : Type} (l : list A) (l' : list B) (stop : Z) :
  length l = length l' ->
  length (slice_to l stop) = length (slice_to l' stop).
Proof.
  intros H; unfold slice_to, slice_stop; rewrite !length_firstn, H.
  reflexivity.
Qed.

(** Row [b] after [full[0:stop] = v], for a row of [v]. *)
Lemma nth_assign_slice_to {A : Type} (full v : list A) (stop : Z) (b : nat)
  (d : A) :
  b < length v -> nth b (assign_slice_to full stop v) d = nth b v d.
Proof. intros H; unfold assign_slice_to; apply app_nth1; exact H. Qed.

Lemma lstm_memory_length (c : LstmCellWithProjection) (pm ps xi : mat) :
  length pm = length xi -> length ps = length xi ->
  length (lstm_memory c pm ps xi) = length xi.
Proof.
  intros Hm Hs.
  assert (Li : length (input_gate c ps xi) = length xi)
    by exact (gate_rows c sigmoid 0 ps xi Hs).
  assert (Lf : length (forget_gate c ps xi) = length xi)
    by exact (gate_rows c sigmoid 1 ps xi Hs).
  assert (Lg : length (memory_init c ps xi) = length xi)
    by exact (gate_rows c tanh 2 ps xi Hs).
  unfold lstm_memory, madd, mmul.
  rewrite !map2_length; lia.
Qed.

Lemma projected_timestep_output_length (c : LstmCellWithProjection)
  (pm ps xi : mat) :
  length pm = length xi -> length ps = length xi ->
  length (projected_timestep_output c pm ps xi) = length xi.
Proof.
  intros Hm Hs.
  assert (Lo : length (output_gate c ps xi) = length xi)
    by exact (gate_rows c sigmoid 3 ps xi Hs).
  pose proof (lstm_memory_length c pm ps xi Hm Hs) as Ll.
  unfold projected_timestep_output, pre_projection_timestep_output,
    apply_linear, clipped_memory, mmul, mmap.
  rewrite clip_length, length_map, map2_length, length_map, clip_length.
  lia.
Qed.

(** Row [b] of the projected output of one timestep: the output gate times
    the tanh of the memory, through the projection, clipped. *)
Lemma projected_timestep_output_row (c : LstmCellWithProjection)
  (pm ps xi : mat) (b : nat) :
  length pm = length xi -> length ps = length xi -> b < length xi ->
  nth b (projected_timestep_output c pm ps xi) []
  = clip_row (state_projection_clip_value c)
      (linear (state_projection c)
         (vmul (nth b (output_gate c ps xi) [])
               (map tanh (nth b (clipped_memory c pm ps xi) [])))).
Proof.
  intros Hm Hs Hb.
  unfold projected_timestep_output; rewrite clip_nth; f_equal.
  unfold apply_linear, pre_projection_timestep_output.
  assert (Lo : length (output_gate c ps xi) = length xi)
    by exact (gate_rows c sigmoid 3 ps xi Hs).
  assert (Lc : length (clipped_memory c pm ps xi) = length xi)
    by (unfold clipped_memory; rewrite clip_length;
        apply lstm_memory_length; assumption).
  rewrite (nth_map_in _ _ b [] [])
    by (unfold mmul, mmap; rewrite map2_length, length_map; lia).
  f_equal; unfold mmul.
  rewrite (map2_nth vmul _ _ b [] [] [])
    by (unfold mmap; rewrite ?length_map; lia).
  f_equal; unfold mmap.
  apply (nth_map_in (map tanh) _ b [] []); lia.
Qed.

(** C1.  In every timestep of [forward] that is carried out, for a cell with
    the shapes of [__init__] and every row [b] of the active sub-batch: the
    sum of the input of the row at this timestep through [input_linearity]
    and of the previous hidden state of the row through [state_linearity]
    has [4 * cell_size] entries and is four chunks of [cell_size] entries;
    the memory that the timestep writes for the row is
    [input_gate * candidate + forget_gate * previous_memory] (after the
    optional clip), with the input gate the sigmoid of chunk 0, the forget
    gate the sigmoid of chunk 1 and the candidate the tanh of chunk 2; and
    the hidden state that it writes is the projection (after the optional
    clip and the dropout mask) of the output gate, the sigmoid of chunk 3,
    times the tanh of that memory. *)
Theorem C1_timestep_gates_and_memory (c : LstmCellWithProjection)
  (inputs : tensor3) (batch_lengths : list nat) (total_timesteps : nat)
  (dropout_mask : option mat) (s s' : loop_state) (timestep b : nat) :
  cell_shapes c ->
  length (full_batch_previous_memory s) = length inputs ->
  length (full_batch_previous_state s) = length inputs ->
  match dropout_mask with
  | Some mask => length mask = length inputs
  | None => True
  end ->
  forward_timestep c inputs batch_lengths total_timesteps dropout_mask s
                   timestep = Ok s' ->
  let index := timestep_index c total_timesteps timestep in
  let stop := (current_length_index s' + 1)%Z in
  b < length (slice_to inputs stop) ->
  let cs := cell_size c in
  let timestep_input := nth index (nth b inputs []) [] in
  let previous_state := nth b (full_batch_previous_state s) [] in
  let previous_memory := nth b (full_batch_previous_memory s) [] in
  let pre := gate_preactivations c timestep_input previous_state in
  let i := map sigmoid (gate_chunk cs 0 pre) in
  let f := map sigmoid (gate_chunk cs 1 pre) in
  let g := map tanh (gate_chunk cs 2 pre) in
  let o := map sigmoid (gate_chunk cs 3 pre) in
  let memory :=
    clip_row (memory_cell_clip_value c)
             (vadd (vmul i g) (vmul f previous_memory)) in
  let projected :=
    clip_row (state_projection_clip_value c)
             (linear (state_projection c) (vmul o (map tanh memory))) in
  (length pre = 4 * cs /\
   pre = gate_chunk cs 0 pre ++ gate_chunk cs 1 pre ++ gate_chunk cs 2 pre
           ++ gate_chunk cs 3 pre) /\
  nth b (full_batch_previous_memory s') [] = memory /\
  nth b (full_batch_previous_state s') []
  = match dropout_mask with
    | Some mask => vmul projected (nth b mask [])
    | None => projected
    end.
Proof.
  intros Hc Hm Hs Hmask H; unfold forward_timestep in H.
  destruct (update_length_index c batch_lengths _ _) as [cli| |];
    cbn [bind] in H; try discriminate.
  injection H as <-.
  cbn [current_length_index full_batch_previous_memory
       full_batch_previous_state output_accumulator]; cbv zeta.
  set (index := timestep_index c total_timesteps timestep).
  set (stop := (cli + 1)%Z).
  intros Hb.
  set (pm := slice_to (full_batch_previous_memory s) stop).
  set (ps := slice_to (full_batch_previous_state s) stop).
  set (xi := map (fun row => nth index row []) (slice_to inputs stop)).
  assert (Lx : length xi = length (slice_to inputs stop))
    by (unfold xi; apply length_map).
  assert (Lm : length pm = length xi)
    by (unfold pm; rewrite Lx; apply slice_to_length_eq; exact Hm).
  assert (Ls : length ps = length xi)
    by (unfold ps; rewrite Lx; apply slice_to_length_eq; exact Hs).
  assert (Hbx : b < length xi) by (rewrite Lx; exact Hb).
  assert (Ex : nth b xi [] = nth index (nth b inputs []) []).
  { unfold xi.
    rewrite (nth_map_in (fun row => nth index row []) _ b [] []) by exact Hb.
    rewrite nth_slice_to by exact Hb; reflexivity. }
  assert (Es : nth b ps [] = nth b (full_batch_previous_state s) [])
    by (unfold ps; apply nth_slice_to; fold ps; lia).
  assert (Em : nth b pm [] = nth b (full_batch_previous_memory s) [])
    by (unfold pm; apply nth_slice_to; fold pm; lia).
  destruct (gates_of_row c pm ps xi b Hc Lm Ls Hbx)
    as ((Lpre & Hsplit & _) & Hi & Hf & Hg & Ho & Hmem).
  cbv zeta in Lpre, Hsplit, Hi, Hf, Hg, Ho, Hmem.
  rewrite Ex, Es in Lpre, Hsplit, Hi, Hf, Hg, Ho.
  rewrite Hi, Hf, Hg, Em in Hmem.
  assert (Ecm : nth b (clipped_memory c pm ps xi) []
                = clip_row (memory_cell_clip_value c)
                    (vadd (vmul (map sigmoid
                                   (gate_chunk (cell_size c) 0
                                      (gate_preactivations c
                                         (nth index (nth b inputs []) [])
                                         (nth b (full_batch_previous_state s)
                                              []))))
                                (map tanh
                                   (gate_chunk (cell_size c) 2
                                      (gate_preactivations c
                                         (nth index (nth b inputs []) [])
                                         (nth b (full_batch_previous_state s)
                                              [])))))
                          (vmul (map sigmoid
                                   (gate_chunk (cell_size c) 1
                                      (gate_preactivations c
                                         (nth index (nth b inputs []) [])
                                         (nth b (full_batch_previous_state s)
                                              []))))
                                (nth b (full_batch_previous_memory s) []))))
    by (unfold clipped_memory; rewrite clip_nth, Hmem; reflexivity).
  assert (Epr : nth b (projected_timestep_output c pm ps xi) []
                = clip_row (state_projection_clip_value c)
                    (linear (state_projection c)
                       (vmul (map sigmoid
                                (gate_chunk (cell_size c) 3
                                   (gate_preactivations c
                                      (nth index (nth b inputs []) [])
                                      (nth b (full_batch_previous_state s)
                                           []))))
                             (map tanh
                                (nth b (clipped_memory c pm ps xi) [])))))
    by (rewrite (projected_timestep_output_row c pm ps xi b Lm Ls Hbx), Ho;
        reflexivity).
  cbv zeta.
  split; [split; [exact Lpre | exact Hsplit]|].
  split.
  - rewrite nth_assign_slice_to
      by (unfold clipped_memory; rewrite clip_length,
            (lstm_memory_length c pm ps xi Lm Ls); exact Hbx).
    exact Ecm.
  - pose proof (projected_timestep_output_length c pm ps xi Lm Ls) as Lp.
    unfold timestep_output.
    destruct dropout_mask as [mask|].
    + assert (Lk : length (slice_to mask stop) = length xi)
        by (rewrite Lx; apply slice_to_length_eq; exact Hmask).
      rewrite nth_assign_slice_to
        by (unfold mmul; rewrite map2_length; lia).
      unfold mmul.
      rewrite (map2_nth vmul _ _ b [] [] []) by lia.
      rewrite Epr, Ecm, nth_slice_to by lia.
      reflexivity.
    + rewrite nth_assign_slice_to by lia.
      rewrite Epr, Ecm; reflexivity.
Qed.

(** The first timestep of the cell [example_cell] on one row with the input
    2: the memory that it writes. *)
Lemma C1_timestep_gates_and_memory_witness :
  let c := example_cell true None None in
  let inputs := [[[2%R]]] in
  let s := initial_loop_state c inputs None in
  let pre := gate_preactivations c [2%R] [0%R] in
  exists s',
    forward_timestep c inputs [1] 1 None s 0 = Ok s' /\
    nth 0 (full_batch_previous_memory s') []
    = vadd (vmul (map sigmoid (gate_chunk 1 0 pre))
                 (map tanh (gate_chunk 1 2 pre)))
           (vmul (map sigmoid (gate_chunk 1 1 pre)) [0%R]).
Proof.
  cbv zeta.
  eexists; split; [reflexivity|].
  refine (proj1 (proj2
            (C1_timestep_gates_and_memory (example_cell true None None)
               [[[2%R]]] [1] 1 None
               (initial_loop_state (example_cell true None None) [[[2%R]]]
                  None)
               _ 0 0 (example_cell_shapes true None None) eq_refl eq_refl I
               eq_refl _))).
  simpl; lia.
Defined.

(** ** Clipping *)

(** The cell with another memory clip, or another state clip. *)
Definition with_memory_cell_clip_value (c : LstmCellWithProjection)
  (v : option R) : LstmCellWithProjection :=
  {| input_size := input_size c;
     hidden_size := hidden_size c;
     cell_size := cell_size c;
     go_forward := go_forward c;
     recurrent_dropout_probability := recurrent_dropout_probability c;
     memory_cell_clip_value := v;
     state_projection_clip_value := state_projection_clip_value c;
     input_linearity := input_linearity c;
     state_linearity := state_linearity c;
     state_projection := state_projection c;
     training := training c |}.

Definition with_state_projection_clip_value (c : LstmCellWithProjection)
  (v : option R) : LstmCellWithProjection :=
  {| input_size := input_size c;
     hidden_size := hidden_size c;
     cell_size := cell_size c;
     go_forward := go_forward c;
     recurrent_dropout_probability := recurrent_dropout_probability c;
     memory_cell_clip_value := memory_cell_clip_value c;
     state_projection_clip_value := v;
     input_linearity := input_linearity c;
     state_linearity := state_linearity c;
     state_projection := state_projection c;
     training := training c |}.

Lemma clip_zero (x : mat) : clip (Some 0%R) x = x.
Proof.
  unfold clip, truthy.
  destruct (Req_dec_T 0 0) as [_|H]; [reflexivity | exfalso; apply H; reflexivity].
Qed.

Lemma clip_none (x : mat) : clip None x = x.
Proof. reflexivity. Qed.

Lemma clip_some (cv : R) (x : mat) :
  cv <> 0%R -> clip (Some cv) x = mmap (clamp (- cv) cv) x.
Proof.
  intros H; unfold clip, truthy.
  destruct (Req_dec_T cv 0) as [E|_]; [contradiction | reflexivity].
Qed.

Lemma for_each_ext {S X : Type} (f g : S -> X -> result S) (xs : list X)
  (s : S) :
  (forall s x, f s x = g s x) -> for_each f xs s = for_each g xs s.
Proof.
  intros H; revert s; induction xs as [|x xs IH]; intros s; simpl; auto.
  rewrite H; destruct (g s x); simpl; auto.
Qed.

Lemma clipped_memory_clip_zero (c : LstmCellWithProjection)
  (pm ps xi : mat) :
  clipped_memory (with_memory_cell_clip_value c (Some 0%R)) pm ps xi
  = clipped_memory (with_memory_cell_clip_value c None) pm ps xi.
Proof.
  unfold clipped_memory.
  change (memory_cell_clip_value (with_memory_cell_clip_value c (Some 0%R)))
    with (Some 0%R).
  rewrite clip_zero; reflexivity.
Qed.

Lemma timestep_output_memory_clip_zero (c : LstmCellWithProjection)
  (pm ps xi : mat) (dropout_mask : option mat) (stop : Z) :
  timestep_output (with_memory_cell_clip_value c (Some 0%R)) pm ps xi
                  dropout_mask stop
  = timestep_output (with_memory_cell_clip_value c None) pm ps xi
                    dropout_mask stop.
Proof.
  unfold timestep_output, projected_timestep_output,
    pre_projection_timestep_output.
  rewrite clipped_memory_clip_zero; reflexivity.
Qed.

Lemma timestep_output_state_clip_zero (c : LstmCellWithProjection)
  (pm ps xi : mat) (dropout_mask : option mat) (stop : Z) :
  timestep_output (with_state_projection_clip_value c (Some 0%R)) pm ps xi
                  dropout_mask stop
  = timestep_output (with_state_projection_clip_value c None) pm ps xi
                    dropout_mask stop.
Proof.
  unfold timestep_output, projected_timestep_output.
  change (state_projection_clip_value
            (with_state_projection_clip_value c (Some 0%R)))
    with (Some 0%R).
  rewrite clip_zero; reflexivity.
Qed.

Lemma forward_timestep_memory_clip_zero (c : LstmCellWithProjection)
  (inputs : tensor3) (batch_lengths : list nat) (t : nat)
  (dropout_mask : option mat) (s : loop_state) (timestep : nat) :
  forward_timestep (with_memory_cell_clip_value c (Some 0%R)) inputs
                   batch_lengths t dropout_mask s timestep
  = forward_timestep (with_memory_cell_clip_value c None) inputs
                     batch_lengths t dropout_mask s timestep.
Proof.
  unfold forward_timestep.
  change (update_length_index (with_memory_cell_clip_value c (Some 0%R)))
    with (update_length_index (with_memory_cell_clip_value c None)).
  change (timestep_index (with_memory_cell_clip_value c (Some 0%R)))
    with (timestep_index (with_memory_cell_clip_value c None)).
  destruct (update_length_index _ batch_lengths _ _) as [cli| |]; simpl;
    try reflexivity.
  rewrite clipped_memory_clip_zero, timestep_output_memory_clip_zero.
  reflexivity.
Qed.

Lemma forward_timestep_state_clip_zero (c : LstmCellWithProjection)
  (inputs : tensor3) (batch_lengths : list nat) (t : nat)
  (dropout_mask : option mat) (s : loop_state) (timestep : nat) :
  forward_timestep (with_state_projection_clip_value c (Some 0%R)) inputs
                   batch_lengths t dropout_mask s timestep
  = forward_timestep (with_state_projection_clip_value c None) inputs
                     batch_lengths t dropout_mask s timestep.
Proof.
  unfold forward_timestep.
  change (update_length_index (with_state_projection_clip_value c (Some 0%R)))
    with (update_length_index (with_state_projection_clip_value c None)).
  change (timestep_index (with_state_projection_clip_value c (Some 0%R)))
    with (timestep_index (with_state_projection_clip_value c None)).
  destruct (update_length_index _ batch_lengths _ _) as [cli| |]; simpl;
    try reflexivity.
  rewrite timestep_output_state_clip_zero.
  reflexivity.
Qed.

(** C10.  A clip value of exactly [0.0] is the same as no clip value: the
    whole result of [forward] (outputs, final state, generator) is the one
    of the cell whose memory clip, or state clip, is [None]. *)
Theorem C10_zero_clip_is_no_clip (c : LstmCellWithProjection)
  (inputs : tensor3) (batch_lengths : list nat)
  (initial_state : option (mat * mat)) (g : generator) :
  forward (with_memory_cell_clip_value c (Some 0%R)) inputs batch_lengths
          initial_state g
  = forward (with_memory_cell_clip_value c None) inputs batch_lengths
            initial_state g
  /\
  forward (with_state_projection_clip_value c (Some 0%R)) inputs batch_lengths
          initial_state g
  = forward (with_state_projection_clip_value c None) inputs batch_lengths
            initial_state g.
Proof.
  split; unfold forward, run_timesteps.
  - change (initial_loop_state (with_memory_cell_clip_value c (Some 0%R)))
      with (initial_loop_state (with_memory_cell_clip_value c None)).
    change (sample_dropout_mask (with_memory_cell_clip_value c (Some 0%R)))
      with (sample_dropout_mask (with_memory_cell_clip_value c None)).
    destruct (sample_dropout_mask _ _ g) as [dropout_mask g'].
    rewrite (for_each_ext _
               (forward_timestep (with_memory_cell_clip_value c None) inputs
                  batch_lengths (total_timesteps_of inputs) dropout_mask)).
    + reflexivity.
    + intros; apply forward_timestep_memory_clip_zero.
  - change (initial_loop_state (with_state_projection_clip_value c (Some 0%R)))
      with (initial_loop_state (with_state_projection_clip_value c None)).
    change (sample_dropout_mask (with_state_projection_clip_value c (Some 0%R)))
      with (sample_dropout_mask (with_state_projection_clip_value c None)).
    destruct (sample_dropout_mask _ _ g) as [dropout_mask g'].
    rewrite (for_each_ext _
               (forward_timestep (with_state_projection_clip_value c None)
                  inputs batch_lengths (total_timesteps_of inputs)
                  dropout_mask)).
    + reflexivity.
    + intros; apply forward_timestep_state_clip_zero.
Qed.

(** A value clipped with magnitude [cv]: within the magnitude, and inside
    [[-cv, cv]] when [cv] is positive. *)
Definition in_clip_range (cv x : R) : Prop :=
  (Rabs x <= Rabs cv)%R /\ ((0 < cv)%R -> (- cv <= x <= cv)%R).

Lemma clamp_in_clip_range (cv x : R) : in_clip_range cv (clamp (- cv) cv x).
Proof.
  unfold in_clip_range, clamp, Rmin, Rmax.
  destruct (Rle_dec x (- cv)); destruct (Rle_dec _ cv);
    unfold Rabs; repeat destruct (Rcase_abs _); split; intros; lra.
Qed.

Lemma mmap_Forall (P : R -> Prop) (f : R -> R) (x : mat) :
  (forall y, P (f y)) -> Forall (Forall P) (mmap f x).
Proof.
  intros H; unfold mmap.
  apply Forall_forall; intros row Hrow.
  apply in_map_iff in Hrow; destruct Hrow as [r [<- _]].
  apply Forall_forall; intros y Hy.
  apply in_map_iff in Hy; destruct Hy as [z [<- _]].
  apply H.
Qed.

Lemma clipped_memory_in_range (c : LstmCellWithProjection) (cv : R)
  (pm ps xi : mat) :
  cv <> 0%R -> memory_cell_clip_value c = Some cv ->
  Forall (Forall (in_clip_range cv)) (clipped_memory c pm ps xi).
Proof.
  intros Hcv Hc; unfold clipped_memory.
  rewrite Hc, clip_some by exact Hcv.
  apply mmap_Forall, clamp_in_clip_range.
Qed.

Lemma projected_timestep_output_in_range (c : LstmCellWithProjection) (cv : R)
  (pm ps xi : mat) :
  cv <> 0%R -> state_projection_clip_value c = Some cv ->
  Forall (Forall (in_clip_range cv)) (projected_timestep_output c pm ps xi).
Proof.
  intros Hcv Hc; unfold projected_timestep_output.
  rewrite Hc, clip_some by exact Hcv.
  apply mmap_Forall, clamp_in_clip_range.
Qed.

(** What one timestep, from loop state [s] to [s'], writes: the memory after
    the memory clip, and the projected output after the state clip and then
    the dropout mask, for the rows of the active sub-batch. *)
Definition timestep_writes (c : LstmCellWithProjection) (inputs : tensor3)
  (total_timesteps : nat) (dropout_mask : option mat) (s : loop_state)
  (timestep : nat) (s' : loop_state) (memory projected : mat) : Prop :=
  let index := timestep_index c total_timesteps timestep in
  let stop := (current_length_index s' + 1)%Z in
  let pm := slice_to (full_batch_previous_memory s) stop in
  let ps := slice_to (full_batch_previous_state s) stop in
  let xi := map (fun row => nth index row []) (slice_to inputs stop) in
  let out :=
    match dropout_mask with
    | Some m => mmul projected (slice_to m stop)
    | None => projected
    end in
  memory = clipped_memory c pm ps xi /\
  projected = projected_timestep_output c pm ps xi /\
  full_batch_previous_memory s'
  = assign_slice_to (full_batch_previous_memory s) stop memory /\
  full_batch_previous_state s'
  = assign_slice_to (full_batch_previous_state s) stop out /\
  output_accumulator s'
  = assign_slice_at (output_accumulator s) stop index out.

Lemma forward_timestep_writes (c : LstmCellWithProjection) (inputs : tensor3)
  (batch_lengths : list nat) (total_timesteps : nat)
  (dropout_mask : option mat) (s : loop_state) (timestep : nat)
  (s' : loop_state) :
  forward_timestep c inputs batch_lengths total_timesteps dropout_mask s
                   timestep = Ok s' ->
  exists memory projected,
    timestep_writes c inputs total_timesteps dropout_mask s timestep s'
                    memory projected.
Proof.
  unfold forward_timestep; intros H.
  destruct (update_length_index c batch_lengths _ _) as [cli| |];
    simpl in H; try discriminate.
  injection H as <-.
  eexists; eexists; unfold timestep_writes; cbn [current_length_index
    full_batch_previous_memory full_batch_previous_state output_accumulator].
  repeat split; reflexivity.
Qed.

(** C7.  In every timestep of [forward], for a clip value [cv] that is not
    zero: with the memory clip set to [cv], every element of the memory
    written to the state buffer is within the magnitude [cv] (inside
    [[-cv, cv]] for a positive [cv]); with the state clip set to [cv], so is
    every element of the projected timestep output, which is what is written
    to the state buffer and to the output accumulator when no dropout mask
    is in use. *)
Theorem C7_clip_bounds (c : LstmCellWithProjection) (inputs : tensor3)
  (batch_lengths : list nat) (total_timesteps : nat)
  (dropout_mask : option mat) (s : loop_state) (timestep : nat)
  (s' : loop_state) (cv : R) :
  cv <> 0%R ->
  forward_timestep c inputs batch_lengths total_timesteps dropout_mask s
                   timestep = Ok s' ->
  exists memory projected,
    timestep_writes c inputs total_timesteps dropout_mask s timestep s'
                    memory projected /\
    (memory_cell_clip_value c = Some cv ->
     Forall (Forall (in_clip_range cv)) memory) /\
    (state_projection_clip_value c = Some cv ->
     Forall (Forall (in_clip_range cv)) projected).
Proof.
  intros Hcv H.
  destruct (forward_timestep_writes _ _ _ _ _ _ _ _ H)
    as (memory & projected & Hw).
  exists memory, projected; split; [exact Hw|].
  destruct Hw as (-> & -> & _).
  split; intros Hc.
  - apply clipped_memory_in_range; assumption.
  - apply projected_timestep_output_in_range; assumption.
Qed.

Lemma C7_clip_bounds_witness :
  let c := example_cell true (Some 1%R) (Some (/ 2)%R) in
  let inputs := [[[100%R]]] in
  let s := initial_loop_state c inputs None in
  exists s' memory projected,
    forward_timestep c inputs [1] 1 None s 0 = Ok s' /\
    timestep_writes c inputs 1 None s 0 s' memory projected /\
    Forall (Forall (in_clip_range 1)) memory /\
    Forall (Forall (in_clip_range (/ 2))) projected.
Proof.
  cbv zeta.
  eexists.
  assert (H1 : forall cv : R, (0 < cv)%R -> cv <> 0%R) by (intros; lra).
  destruct (C7_clip_bounds (example_cell true (Some 1%R) (Some (/ 2)%R))
              [[[100%R]]] [1] 1 None
              (initial_loop_state (example_cell true (Some 1%R) (Some (/ 2)%R))
                 [[[100%R]]] None)
              0 _ 1%R (H1 _ Rlt_0_1) eq_refl)
    as (memory & projected & Hw & Hm & _).
  destruct (C7_clip_bounds (example_cell true (Some 1%R) (Some (/ 2)%R))
              [[[100%R]]] [1] 1 None
              (initial_loop_state (example_cell true (Some 1%R) (Some (/ 2)%R))
                 [[[100%R]]] None)
              0 _ (/ 2)%R (H1 _ (Rinv_0_lt_compat 2 Rlt_0_2)) eq_refl)
    as (memory' & projected' & Hw' & _ & Hp).
  exists memory, projected.
  split; [reflexivity|].
  split; [exact Hw|].
  split; [apply Hm; reflexivity|].
  destruct Hw as (_ & -> & _); destruct Hw' as (_ & -> & _).
  apply Hp; reflexivity.
Defined.

(** ** The loop over the timesteps *)

Lemma for_each_app {S X : Type} (body : S -> X -> result S) (l1 l2 : list X)
  (s : S) :
  for_each body (l1 ++ l2) s = (s1 <- for_each body l1 s ;; for_each body l2 s1).
Proof.
  revert s; induction l1 as [|x l1 IH]; intros s; simpl; auto.
  destruct (body s x); simpl; auto.
Qed.

(** A loop that ends normally went normally through each of its steps. *)
Lemma for_each_step {S X : Type} (body : S -> X -> result S) (l1 l2 : list X)
  (x : X) (s sT : S) :
  for_each body (l1 ++ x :: l2) s = Ok sT ->
  exists s1 s2,
    for_each body l1 s = Ok s1 /\ body s1 x = Ok s2 /\
    for_each body l2 s2 = Ok sT.
Proof.
  rewrite for_each_app; intros H.
  destruct (for_each body l1 s) as [s1| |]; simpl in H; try discriminate.
  destruct (body s1 x) as [s2| |] eqn:E; simpl in H; try discriminate.
  exists s1, s2; auto.
Qed.

Lemma seq_split_at (k n : nat) :
  k < n -> seq 0 n = seq 0 k ++ k :: seq (S k) (n - S k).
Proof.
  intros H.
  replace n with (k + S (n - S k)) at 1 by lia.
  rewrite seq_app; reflexivity.
Qed.

Lemma forward_inv (c : LstmCellWithProjection) (inputs : tensor3)
  (batch_lengths : list nat) (initial_state : option (mat * mat))
  (g : generator) (r : forward_result) :
  forward c inputs batch_lengths initial_state g = Ok r ->
  let s0 := initial_loop_state c inputs initial_state in
  exists dropout_mask s,
    sample_dropout_mask c (full_batch_previous_state s0) g
    = (dropout_mask, generator_after r) /\
    run_timesteps c inputs batch_lengths dropout_mask
      (seq 0 (total_timesteps_of inputs)) s0 = Ok s /\
    outputs r = output_accumulator s /\
    final_state r = (full_batch_previous_state s, full_batch_previous_memory s).
Proof.
  unfold forward; intros H; cbv zeta.
  destruct (sample_dropout_mask c _ g) as [dropout_mask g'].
  destruct (run_timesteps c inputs batch_lengths dropout_mask _ _) as [s| |]
    eqn:E; simpl in H; try discriminate.
  injection H as <-.
  exists dropout_mask, s; repeat split; try reflexivity; exact E.
Qed.

(** ** Dropout *)

(** The mask that a call of [forward] works with, by the cell's dropout
    probability and mode, and the generator it leaves. *)
Lemma sample_dropout_mask_cases (c : LstmCellWithProjection) (like : mat)
  (g : generator) :
  ((0 < recurrent_dropout_probability c)%R /\ training c = true ->
   sample_dropout_mask c like g
   = (Some (stream g (position g)),
      {| stream := stream g; position := S (position g) |})) /\
  (~ ((0 < recurrent_dropout_probability c)%R /\ training c = true) ->
   sample_dropout_mask c like g = (None, g)).
Proof.
  unfold sample_dropout_mask, get_dropout_mask.
  destruct (Rlt_dec 0 (recurrent_dropout_probability c)) as [Hp|Hp];
    destruct (training c); split; intros H; try reflexivity;
    try (destruct H as [H1 H2]; try discriminate; contradiction);
    exfalso; apply H; auto.
Qed.

(** The entries of a mask that [get_dropout_mask] may return. *)
Lemma dropout_mask_entries (p : R) (like mask : mat) (b j : nat) :
  dropout_mask_for p like mask ->
  b < length mask -> j < length (nth b mask []) ->
  nth j (nth b mask []) 0%R = 0%R \/
  nth j (nth b mask []) 0%R = (1 / (1 - p))%R.
Proof.
  intros [_ H] Hb Hj.
  assert (HF : Forall (Forall (fun x => x = 0%R \/ x = (1 / (1 - p))%R)) mask).
  { clear Hb Hj; induction H as [|row lrow mask' like' [_ Hr] _ IH];
      constructor; auto. }
  rewrite Forall_forall in HF.
  specialize (HF (nth b mask []) (nth_In _ _ Hb)).
  rewrite Forall_forall in HF.
  apply HF, nth_In, Hj.
Qed.

(** What C8 says of a call of [forward] that returned [r]. *)
Definition one_mask_per_call (c : LstmCellWithProjection) (inputs : tensor3)
  (batch_lengths : list nat) (initial_state : option (mat * mat))
  (g : generator) (r : forward_result) : Prop :=
  let p := recurrent_dropout_probability c in
  let s0 := initial_loop_state c inputs initial_state in
  let total_timesteps := total_timesteps_of inputs in
  exists dropout_mask : option mat,
    ((0 < p)%R /\ training c = true ->
     dropout_mask = Some (stream g (position g)) /\
     generator_after r = {| stream := stream g; position := S (position g) |})
    /\
    (~ ((0 < p)%R /\ training c = true) ->
     dropout_mask = None /\ generator_after r = g)
    /\
    (forall k, k < total_timesteps ->
       exists s s' memory projected,
         run_timesteps c inputs batch_lengths dropout_mask (seq 0 k) s0 = Ok s /\
         forward_timestep c inputs batch_lengths total_timesteps dropout_mask
                          s k = Ok s' /\
         timestep_writes c inputs total_timesteps dropout_mask s k s'
                         memory projected /\
         let stop := (current_length_index s' + 1)%Z in
         match dropout_mask with
         | None => full_batch_previous_state s'
                   = assign_slice_to (full_batch_previous_state s) stop projected
         | Some m =>
             forall b j,
               b < length projected -> b < length (slice_to m stop) ->
               j < length (nth b projected []) -> j < length (nth b m []) ->
               nth j (nth b (mmul projected (slice_to m stop)) []) 0%R
               = (nth j (nth b projected []) 0 * nth j (nth b m []) 0)%R /\
               (dropout_mask_for p (full_batch_previous_state s0) m ->
                nth j (nth b m []) 0%R = 0%R \/
                nth j (nth b m []) 0%R = (1 / (1 - p))%R)
         end).

(** C8.  A call of [forward] that returns worked with one dropout mask: in
    training mode with a positive dropout probability it is the one mask the
    generator gave (the generator has advanced by exactly one draw), otherwise
    there is none and the generator is untouched.  Every timestep [k] of the
    call ran from a loop state [s] to a state [s'] writing, as its output,
    the projected output multiplied by the first rows of that mask (or the
    projected output itself without a mask): element [j] of row [b] is the
    projected element times the mask element [(b, j)], which is the same at
    every timestep and is [0] or [1/(1-p)] for a mask as the spec describes
    [get_dropout_mask]. *)
Theorem C8_one_mask_per_call (c : LstmCellWithProjection) (inputs : tensor3)
  (batch_lengths : list nat) (initial_state : option (mat * mat))
  (g : generator) (r : forward_result) :
  forward c inputs batch_lengths initial_state g = Ok r ->
  one_mask_per_call c inputs batch_lengths initial_state g r.
Proof.
  intros H; unfold one_mask_per_call; cbv zeta.
  destruct (forward_inv _ _ _ _ _ _ H) as (dropout_mask & sT & Hs & Hrun & _).
  cbv zeta in Hs.
  destruct (sample_dropout_mask_cases c
              (full_batch_previous_state
                 (initial_loop_state c inputs initial_state)) g)
    as [Hon Hoff].
  exists dropout_mask.
  split; [|split].
  - intros Hact; rewrite (Hon Hact) in Hs; injection Hs as <- <-; auto.
  - intros Hact; rewrite (Hoff Hact) in Hs; injection Hs as <- <-; auto.
  - intros k Hk.
    unfold run_timesteps in Hrun.
    rewrite (seq_split_at k _ Hk) in Hrun.
    apply for_each_step in Hrun.
    destruct Hrun as (s & s' & H1 & H2 & _).
    destruct (forward_timestep_writes _ _ _ _ _ _ _ _ H2)
      as (memory & projected & Hw).
    exists s, s', memory, projected.
    split; [exact H1|]. split; [exact H2|]. split; [exact Hw|].
    destruct dropout_mask as [m|].
    + intros b j Hb Hbm Hj Hjm.
      assert (Hrow : nth b (slice_to m (current_length_index s' + 1)) []
                     = nth b m []).
      { unfold slice_to in *. rewrite nth_firstn.
        rewrite length_firstn in Hbm.
        destruct (Nat.ltb_spec b (slice_stop m (current_length_index s' + 1)));
          [reflexivity | lia]. }
      split.
      * unfold mmul.
        rewrite (map2_nth vmul _ _ _ [] [] []) by assumption.
        rewrite Hrow. unfold vmul.
        apply map2_nth; assumption.
      * intros Hm. apply (dropout_mask_entries _ _ _ _ _ Hm); [|exact Hjm].
        unfold slice_to in Hbm; rewrite length_firstn in Hbm; lia.
    + destruct Hw as (_ & _ & _ & Hst & _). exact Hst.
Qed.

(** A cell in training mode that drops out with probability one half, and a
    generator whose masks double the first feature. *)
Definition example_training_cell (forwards : bool) : LstmCellWithProjection :=
  {| input_size := 1;
     hidden_size := 1;
     cell_size := 1;
     go_forward := forwards;
     recurrent_dropout_probability := / 2;
     memory_cell_clip_value := None;
     state_projection_clip_value := None;
     input_linearity :=
       {| weight := [[1%R]; [1%R]; [1%R]; [1%R]]; bias := None |};
     state_linearity :=
       {| weight := [[1%R]; [1%R]; [1%R]; [1%R]];
          bias := Some [0%R; 1%R; 0%R; 0%R] |};
     state_projection := {| weight := [[1%R]]; bias := None |};
     training := true |}.

Definition example_generator : generator :=
  {| stream := fun _ => [[2%R]]; position := 0 |}.

Lemma example_training_forward :
  exists r,
    forward (example_training_cell true) [[[1%R]; [1%R]]] [2] None
            example_generator = Ok r.
Proof.
  unfold forward, sample_dropout_mask.
  cbn [recurrent_dropout_probability example_training_cell training].
  destruct (Rlt_dec 0 (/ 2)) as [_|H];
    [| exfalso; apply H; apply Rinv_0_lt_compat, Rlt_0_2].
  eexists; reflexivity.
Defined.

Lemma C8_one_mask_per_call_witness :
  exists r,
    forward (example_training_cell true) [[[1%R]; [1%R]]] [2] None
            example_generator = Ok r /\
    one_mask_per_call (example_training_cell true) [[[1%R]; [1%R]]] [2] None
                      example_generator r.
Proof.
  destruct example_training_forward as [r Hr].
  exists r; split; [exact Hr|].
  apply C8_one_mask_per_call; exact Hr.
Defined.

(** ** The files of the model directory *)

(** The directory contract in its own words: the files of the model
    directory itself, which is the first directory that [os.walk] yields;
    among them the configuration files, whose names have the form [*.json],
    and the checkpoint files, whose names have the form [*.hdf5]. *)
Definition directory_files (dir : walk) : list string :=
  match dir with
  | [] => []
  | entry :: _ => snd entry
  end.

(** [name] has the form [*suffix]. *)
Definition ends_with (name suffix : string) : bool :=
  (String.length suffix <=? String.length name)%nat
  && String.eqb (substring (String.length name - String.length suffix)
                           (String.length suffix) name)
                suffix.

Definition json_files (dir : walk) : list string :=
  filter (fun name => ends_with name ".json") (directory_files dir).

Definition hdf5_files (dir : walk) : list string :=
  filter (fun name => ends_with name ".hdf5") (directory_files dir).

(** A model directory with one configuration file, one checkpoint file and
    a copy of the configuration file under another extension. *)
Definition directory_with_backup : walk :=
  [("model"%string, [], ["options.json"; "weights.hdf5"; "options.json.bak"]%string)].

(** A model directory with one checkpoint file, and a configuration file in
    a directory below it only. *)
Definition directory_with_subdirectory : walk :=
  [("model"%string, ["sub"%string], ["weights.hdf5"%string]);
   ("model/sub"%string, [], ["options.json"%string])].

(** C9.  The file discovery of [_ElmoModel.__init__] does not keep the
    directory contract.  A directory with exactly one [*.json] file and
    exactly one [*.hdf5] file, and the file [options.json.bak] beside them,
    is refused with the message about multiple files: the scan counts every
    name that contains [.json].  A directory without any [*.json] file is
    accepted when a directory below it has one: the scan counts the files of
    the whole tree, and returns the bare name of the file. *)
Theorem C9_file_discovery_by_substring :
  (json_files directory_with_backup = ["options.json"%string] /\
   hdf5_files directory_with_backup = ["weights.hdf5"%string] /\
   find_model_files "model" directory_with_backup
   = Raise (Exception
              "Multiple config files(*.json) or weight files(*.hdf5) detected in model.")) /\
  (json_files directory_with_subdirectory = [] /\
   hdf5_files directory_with_subdirectory = ["weights.hdf5"%string] /\
   find_model_files "model" directory_with_subdirectory
   = Ok (Some "options.json"%string, Some "weights.hdf5"%string)).
Proof. repeat split; reflexivity. Qed.

(** ** The weight loader *)

(** Entry [(r, k)] of a matrix. *)
Definition entry (m : mat) (r k : nat) : R := nth k (nth r m []) 0%R.

Lemma nth_slice {A : Type} (a b i : nat) (m : list A) (d : A) :
  i < b - a -> nth i (slice a b m) d = nth (a + i) m d.
Proof.
  intros H; unfold slice.
  rewrite nth_firstn.
  destruct (Nat.ltb_spec i (b - a)); [|lia].
  apply nth_skipn.
Qed.

Lemma slice_length {A : Type} (a b : nat) (m : list A) :
  b <= length m -> length (slice a b m) = b - a.
Proof.
  intros H; unfold slice; rewrite length_firstn, length_skipn; lia.
Qed.

Lemma nth_assign_slice_in {A : Type} (a b i : nat) (m v : list A) (d : A) :
  a <= length m -> a <= i -> i < a + length v ->
  nth i (assign_slice a b m v) d = nth (i - a) v d.
Proof.
  intros Ha H1 H2; unfold assign_slice.
  rewrite app_nth2 by (rewrite length_firstn; lia).
  rewrite length_firstn, Nat.min_l by lia.
  apply app_nth1; lia.
Qed.

Lemma nth_assign_slice_before {A : Type} (a b i : nat) (m v : list A) (d : A) :
  a <= length m -> i < a ->
  nth i (assign_slice a b m v) d = nth i m d.
Proof.
  intros Ha H; unfold assign_slice.
  rewrite app_nth1 by (rewrite length_firstn; lia).
  rewrite nth_firstn.
  destruct (Nat.ltb_spec i a); [reflexivity | lia].
Qed.

Lemma assign_slice_length {A : Type} (a b : nat) (m v : list A) :
  a <= b -> b <= length m -> length v = b - a ->
  length (assign_slice a b m v) = length m.
Proof.
  intros H1 H2 H3; unfold assign_slice.
  rewrite !length_app, length_firstn, length_skipn; lia.
Qed.

(** The two blocks that the loop over the gate order exchanges. *)
Lemma swap_gate_order_nth {A : Type} (cs r : nat) (torch_w tf_w : list A)
  (d : A) :
  length torch_w = 4 * cs -> length tf_w = 4 * cs -> r < cs ->
  nth (1 * cs + r) (swap_gate_order cs torch_w tf_w) d
  = nth (2 * cs + r) tf_w d /\
  nth (2 * cs + r) (swap_gate_order cs torch_w tf_w) d
  = nth (1 * cs + r) tf_w d.
Proof.
  intros Ht Hf Hr; unfold swap_gate_order.
  assert (L1 : length (slice (2 * cs) (3 * cs) tf_w) = cs)
    by (rewrite slice_length; lia).
  assert (L2 : length (slice (1 * cs) (2 * cs) tf_w) = cs)
    by (rewrite slice_length; lia).
  assert (L3 : length (assign_slice (1 * cs) (2 * cs) torch_w
                         (slice (2 * cs) (3 * cs) tf_w)) = 4 * cs)
    by (rewrite assign_slice_length; lia).
  split.
  - rewrite nth_assign_slice_before by lia.
    rewrite nth_assign_slice_in by lia.
    rewrite nth_slice by lia.
    f_equal; lia.
  - rewrite nth_assign_slice_in by lia.
    rewrite nth_slice by lia.
    f_equal; lia.
Qed.

Lemma transpose_rows (m : mat) (w : nat) :
  m <> [] -> Forall (fun row => length row = w) m ->
  length (transpose m) = w /\
  forall r, r < w -> nth r (transpose m) [] = map (fun row => nth r row 0%R) m.
Proof.
  intros Hne Hw; unfold transpose.
  destruct m as [|row0 m']; [contradiction|].
  assert (E : length row0 = w) by (inversion Hw; assumption).
  rewrite E, length_map, length_seq; split; [reflexivity|].
  intros r Hr.
  rewrite (nth_map_in _ _ _ _ 0) by (rewrite length_seq; exact Hr).
  rewrite seq_nth by exact Hr; reflexivity.
Qed.

Lemma transpose_entry (m : mat) (w r k : nat) :
  Forall (fun row => length row = w) m -> r < w -> k < length m ->
  entry (transpose m) r k = entry m k r.
Proof.
  intros Hw Hr Hk; unfold entry.
  destruct (transpose_rows m w) as [_ H]; [destruct m; simpl in *; [lia|discriminate] | exact Hw |].
  rewrite (H r Hr).
  exact (nth_map_in (fun row => nth r row 0%R) m k 0%R [] Hk).
Qed.

(** The shapes of a checkpoint group that fits the cell. *)
Definition dataset_shape (lstm : LstmCellWithProjection) (dataset : LSTMCell)
  : Prop :=
  rows_of_width (input_size lstm + hidden_size lstm) (4 * cell_size lstm)
                (W_0 dataset) /\
  length (B dataset) = 4 * cell_size lstm.

(** What the loader makes of the forget and candidate blocks of one group:
    row [cs + r] of each weight matrix is column [2cs + r] of the
    checkpoint matrix and row [2cs + r] is column [cs + r] (the input part
    reads the first [input_size] checkpoint rows, the recurrent part the
    rows after them), and the bias at [cs + r] is the checkpoint bias at
    [2cs + r] plus one. *)
Definition gate_blocks_swapped (lstm loaded : LstmCellWithProjection)
  (dataset : LSTMCell) : Prop :=
  let cs := cell_size lstm in
  forall r, r < cs ->
    (forall k, k < input_size lstm ->
       entry (weight (input_linearity loaded)) (1 * cs + r) k
       = entry (W_0 dataset) k (2 * cs + r) /\
       entry (weight (input_linearity loaded)) (2 * cs + r) k
       = entry (W_0 dataset) k (1 * cs + r)) /\
    (forall k, k < hidden_size lstm ->
       entry (weight (state_linearity loaded)) (1 * cs + r) k
       = entry (W_0 dataset) (input_size lstm + k) (2 * cs + r) /\
       entry (weight (state_linearity loaded)) (2 * cs + r) k
       = entry (W_0 dataset) (input_size lstm + k) (1 * cs + r)) /\
    (exists b, bias (state_linearity loaded) = Some b /\
       nth (1 * cs + r) b 0%R = (nth (2 * cs + r) (B dataset) 0 + 1)%R /\
       nth (2 * cs + r) b 0%R = nth (1 * cs + r) (B dataset) 0%R).

Lemma cols_to_entry (n r k : nat) (m : mat) :
  r < length m -> k < n -> entry (cols_to n m) r k = entry m r k.
Proof.
  intros Hr Hk; unfold entry, cols_to.
  rewrite (nth_map_in _ _ _ _ []) by exact Hr.
  rewrite nth_firstn.
  destruct (Nat.ltb_spec k n); [reflexivity | lia].
Qed.

Lemma cols_from_entry (n r k : nat) (m : mat) :
  r < length m -> entry (cols_from n m) r k = entry m r (n + k).
Proof.
  intros Hr; unfold entry, cols_from.
  rewrite (nth_map_in _ _ _ _ []) by exact Hr.
  apply nth_skipn.
Qed.

Lemma swap_gate_order_length {A : Type} (cs : nat) (w : list A) :
  length w = 4 * cs -> length (swap_gate_order cs w w) = 4 * cs.
Proof.
  intros Hw; unfold swap_gate_order.
  rewrite !assign_slice_length; rewrite ?slice_length;
    rewrite ?assign_slice_length; rewrite ?slice_length; lia.
Qed.

(** ** Copies that fit *)

Lemma broadcast_same {A : Type} (n : nat) (v : list A) :
  length v = n -> broadcast n v = v.
Proof. destruct v as [|x [|y v]]; simpl; intros <-; reflexivity. Qed.

Lemma broadcastable_same {A : Type} (n : nat) (v : list A) :
  length v = n -> broadcastable n v = true.
Proof. intros H; unfold broadcastable; rewrite H, Nat.eqb_refl; reflexivity. Qed.

Lemma copied_same (rows cols : nat) (src : mat) :
  rows_of_width rows cols src -> copied rows cols src = src.
Proof.
  intros [Hr Hc]; unfold copied.
  rewrite (broadcast_same rows src Hr).
  rewrite <- (map_id src) at 2.
  apply map_ext_in; intros row Hrow.
  apply broadcast_same.
  rewrite Forall_forall in Hc; exact (Hc row Hrow).
Qed.

Lemma copy_check_same (rows cols : nat) (src : mat) :
  rows_of_width rows cols src -> copy_check rows cols src = Ok tt.
Proof.
  intros [Hr Hc]; unfold copy_check.
  rewrite (broadcastable_same rows src Hr); cbn [andb].
  replace (forallb (broadcastable cols) src) with true; [reflexivity|].
  symmetry; apply forallb_forall; intros row Hrow.
  apply broadcastable_same.
  rewrite Forall_forall in Hc; exact (Hc row Hrow).
Qed.

Lemma swap_gate_order_check_same {A : Type} (cs : nat) (w : list A) :
  length w = 4 * cs -> swap_gate_order_check cs w w = Ok tt.
Proof.
  intros Hw; unfold swap_gate_order_check, assign_check.
  rewrite !broadcastable_same; [reflexivity | |];
    rewrite !slice_length; lia.
Qed.

Lemma In_firstn {A : Type} (n : nat) (l : list A) (x : A) :
  In x (firstn n l) -> In x l.
Proof.
  revert n; induction l as [|a l IH]; intros [|n] H; simpl in *;
    try contradiction.
  destruct H as [H|H]; [left; exact H | right; exact (IH n H)].
Qed.

Lemma In_skipn {A : Type} (n : nat) (l : list A) (x : A) :
  In x (skipn n l) -> In x l.
Proof.
  revert n; induction l as [|a l IH]; intros [|n] H; simpl in *;
    try contradiction; try exact H.
  right; exact (IH n H).
Qed.

(** The rows after the loop over the gate order are rows of before. *)
Lemma swap_gate_order_Forall {A : Type} (P : A -> Prop) (cs : nat)
  (w : list A) :
  Forall P w -> Forall P (swap_gate_order cs w w).
Proof.
  intros H; rewrite Forall_forall in H.
  apply Forall_forall; intros x Hx.
  unfold swap_gate_order, assign_slice, slice in Hx.
  repeat (apply in_app_or in Hx; destruct Hx as [Hx|Hx]);
    repeat (first [apply In_firstn in Hx | apply In_skipn in Hx
                  | (apply in_app_or in Hx; destruct Hx as [Hx|Hx])]);
    apply H; exact Hx.
Qed.

(** The shapes of what the loader computes from a group of the shapes of
    the cell. *)
Lemma loaded_shapes (lstm : LstmCellWithProjection) (dataset : LSTMCell) :
  dataset_shape lstm dataset ->
  (W_0 dataset <> [] ->
   rows_of_width (4 * cell_size lstm) (input_size lstm)
                 (loaded_input_weights lstm dataset) /\
   rows_of_width (4 * cell_size lstm) (hidden_size lstm)
                 (loaded_recurrent_weights lstm dataset)) /\
  length (assign_slice (2 * cell_size lstm) (3 * cell_size lstm) (B dataset)
            (map (fun x => (x + 1)%R)
                 (slice (2 * cell_size lstm) (3 * cell_size lstm)
                        (B dataset))))
  = 4 * cell_size lstm /\
  length (loaded_bias lstm dataset) = 4 * cell_size lstm.
Proof.
  intros [[Hrows Hwidth] Hb].
  assert (Lt : length (assign_slice (2 * cell_size lstm) (3 * cell_size lstm)
                         (B dataset)
                         (map (fun x => (x + 1)%R)
                              (slice (2 * cell_size lstm)
                                     (3 * cell_size lstm) (B dataset))))
               = 4 * cell_size lstm)
    by (rewrite assign_slice_length; rewrite ?length_map, ?slice_length; lia).
  split; [|split; [exact Lt|]].
  - intros Hne.
    destruct (transpose_rows (W_0 dataset) _ Hne Hwidth) as [HT _].
    assert (Hrow : Forall (fun row => length row
                                      = input_size lstm + hidden_size lstm)
                          (transpose (W_0 dataset))).
    { unfold transpose; rewrite Forall_map.
      apply Forall_forall; intros j _; rewrite length_map; exact Hrows. }
    unfold loaded_input_weights, loaded_recurrent_weights; cbv zeta.
    split; split;
      try (apply swap_gate_order_length; unfold cols_to, cols_from;
           rewrite length_map; exact HT);
      apply swap_gate_order_Forall; unfold cols_to, cols_from;
      rewrite Forall_map; (eapply Forall_impl; [|exact Hrow]);
      simpl; intros row Hr;
      rewrite ?length_firstn, ?length_skipn; lia.
  - unfold loaded_bias; cbv zeta.
    apply swap_gate_order_length; exact Lt.
Qed.

(** For a group of the shapes of the cell nothing is repeated by the
    copies: the cell has the parameters computed from the group. *)
Lemma load_cell_exact (lstm : LstmCellWithProjection) (dataset : LSTMCell) :
  dataset_shape lstm dataset ->
  (W_0 dataset <> [] ->
   weight (input_linearity (load_cell lstm dataset))
   = loaded_input_weights lstm dataset /\
   weight (state_linearity (load_cell lstm dataset))
   = loaded_recurrent_weights lstm dataset) /\
  bias (state_linearity (load_cell lstm dataset))
  = Some (loaded_bias lstm dataset).
Proof.
  intros Hds.
  destruct (loaded_shapes lstm dataset Hds) as (Hw & _ & Lb).
  cbn [load_cell input_linearity state_linearity weight bias].
  split.
  - intros Hne; destruct (Hw Hne) as [Hi Hr].
    rewrite (copied_same _ _ _ Hi), (copied_same _ _ _ Hr).
    split; reflexivity.
  - rewrite (broadcast_same _ _ Lb); reflexivity.
Qed.

Lemma load_cell_blocks (lstm : LstmCellWithProjection) (dataset : LSTMCell) :
  dataset_shape lstm dataset ->
  gate_blocks_swapped lstm (load_cell lstm dataset) dataset.
Proof.
  intros Hds; destruct (load_cell_exact lstm dataset Hds) as [Hexact Hbias].
  destruct Hds as [[Hrows Hwidth] Hb]; unfold gate_blocks_swapped; cbv zeta.
  intros r Hr.
  set (cs := cell_size lstm) in *.
  assert (HT : W_0 dataset <> [] ->
               length (transpose (W_0 dataset)) = 4 * cs)
    by (intros Hne; apply (transpose_rows _ _ Hne Hwidth)).
  assert (HE : forall r' k', r' < 4 * cs -> k' < length (W_0 dataset) ->
               entry (transpose (W_0 dataset)) r' k'
               = entry (W_0 dataset) k' r')
    by (intros; apply (transpose_entry _ (4 * cs)); assumption).
  split; [|split].
  - intros k Hk.
    assert (Hne : W_0 dataset <> [])
      by (intros E; rewrite E in Hrows; simpl in Hrows; lia).
    specialize (HT Hne).
    rewrite (proj1 (Hexact Hne)); unfold loaded_input_weights.
    cbv zeta; fold cs.
    unfold entry at 1 3.
    destruct (swap_gate_order_nth cs r
                (cols_to (input_size lstm) (transpose (W_0 dataset)))
                (cols_to (input_size lstm) (transpose (W_0 dataset))) [])
      as [E1 E2];
      try (unfold cols_to; rewrite length_map; exact HT); try exact Hr.
    rewrite E1, E2.
    fold (entry (cols_to (input_size lstm) (transpose (W_0 dataset)))
                (2 * cs + r) k).
    fold (entry (cols_to (input_size lstm) (transpose (W_0 dataset)))
                (1 * cs + r) k).
    rewrite !cols_to_entry by lia.
    rewrite !HE by lia.
    split; reflexivity.
  - intros k Hk.
    assert (Hne : W_0 dataset <> [])
      by (intros E; rewrite E in Hrows; simpl in Hrows; lia).
    specialize (HT Hne).
    rewrite (proj2 (Hexact Hne)); unfold loaded_recurrent_weights.
    cbv zeta; fold cs.
    unfold entry at 1 3.
    destruct (swap_gate_order_nth cs r
                (cols_from (input_size lstm) (transpose (W_0 dataset)))
                (cols_from (input_size lstm) (transpose (W_0 dataset))) [])
      as [E1 E2];
      try (unfold cols_from; rewrite length_map; exact HT); try exact Hr.
    rewrite E1, E2.
    fold (entry (cols_from (input_size lstm) (transpose (W_0 dataset)))
                (2 * cs + r) k).
    fold (entry (cols_from (input_size lstm) (transpose (W_0 dataset)))
                (1 * cs + r) k).
    rewrite !cols_from_entry by lia.
    rewrite !HE by lia.
    split; reflexivity.
  - eexists; split; [exact Hbias|].
    unfold loaded_bias; cbv zeta; fold cs.
    set (tf_bias := assign_slice (2 * cs) (3 * cs) (B dataset)
                      (map (fun x => (x + 1)%R)
                           (slice (2 * cs) (3 * cs) (B dataset)))).
    assert (Ls : length (slice (2 * cs) (3 * cs) (B dataset)) = cs)
      by (rewrite slice_length; lia).
    assert (Lb : length tf_bias = 4 * cs)
      by (unfold tf_bias; rewrite assign_slice_length;
          rewrite ?length_map; lia).
    destruct (swap_gate_order_nth cs r tf_bias tf_bias 0%R Lb Lb Hr)
      as [E1 E2].
    rewrite E1, E2; unfold tf_bias; split.
    + rewrite nth_assign_slice_in by (rewrite ?length_map; lia).
      replace (2 * cs + r - 2 * cs) with r by lia.
      rewrite (nth_map_in _ _ _ _ 0%R) by lia.
      rewrite nth_slice by lia; reflexivity.
    + apply nth_assign_slice_before; lia.
Qed.

Lemma load_layers_spec (fin : checkpoint) (lstms loaded :
    list (LstmCellWithProjection * LstmCellWithProjection)) (i0 : nat) :
  load_layers fin i0 lstms = Ok loaded ->
  length loaded = length lstms /\
  forall idx f b,
    nth_error lstms idx = Some (f, b) ->
    exists dsf dsb,
      fin 0 (i0 + idx) = Some dsf /\ fin 1 (i0 + idx) = Some dsb /\
      nth_error loaded idx = Some (load_cell f dsf, load_cell b dsb).
Proof.
  revert loaded i0; induction lstms as [|[f0 b0] rest IH]; intros loaded i0 H.
  - simpl in H; injection H as <-; split; [reflexivity|].
    intros [|idx] f b E; discriminate.
  - cbn [load_layers] in H; unfold load_direction in H.
    destruct (fin 0 i0) as [dsf|] eqn:Ef; cbn [bind] in H; try discriminate.
    destruct (load_checks f0 dsf) as [[]| |]; cbn [bind] in H;
      try discriminate.
    destruct (fin 1 i0) as [dsb|] eqn:Eb; cbn [bind] in H; try discriminate.
    destruct (load_checks b0 dsb) as [[]| |]; cbn [bind] in H;
      try discriminate.
    destruct (load_layers fin (S i0) rest) as [rest'| |] eqn:Er;
      cbn [bind] in H; try discriminate.
    injection H as <-.
    destruct (IH _ _ Er) as [Hlen Hnth].
    split; [simpl; f_equal; exact Hlen|].
    intros [|idx] f b E; simpl in E.
    + injection E as <- <-.
      exists dsf, dsb; rewrite Nat.add_0_r; auto.
    + destruct (Hnth idx f b E) as (dsf' & dsb' & E1 & E2 & E3).
      exists dsf', dsb'.
      replace (i0 + S idx) with (S i0 + idx) by lia; auto.
Qed.

(** The cell of direction [j] (0 forward, 1 backward) at layer [i]. *)
Definition layer_of (lm : ElmobiLm) (j i : nat) : option LstmCellWithProjection :=
  nth_error (match j with
             | O => forward_layers lm
             | _ => backward_layers lm
             end) i.

(** C2.  After [load_weights], for every layer and direction, the cell is
    the old one with the parameters computed from its group of the
    checkpoint; for a group of the cell's shapes the input and recurrent
    weight rows of chunk 1 (forget) are the checkpoint's columns of chunk 2
    and those of chunk 2 (candidate) the checkpoint's columns of chunk 1
    (the checkpoint matrix is transposed), and the bias of chunk 1 is the
    checkpoint's bias of chunk 2 plus 1.0. *)
Theorem C2_gate_permutation (lm lm' : ElmobiLm) (fin : checkpoint)
  (j i : nat) (lstm : LstmCellWithProjection) :
  load_weights lm fin = Ok lm' ->
  j < 2 ->
  i < length (forward_layers lm) -> i < length (backward_layers lm) ->
  layer_of lm j i = Some lstm ->
  exists dataset,
    fin j i = Some dataset /\
    layer_of lm' j i = Some (load_cell lstm dataset) /\
    (dataset_shape lstm dataset ->
     gate_blocks_swapped lstm (load_cell lstm dataset) dataset).
Proof.
  unfold load_weights; intros H Hj Hf Hb Hl.
  destruct (load_layers fin 0 _) as [loaded| |] eqn:E; simpl in H;
    try discriminate.
  injection H as <-.
  destruct (load_layers_spec _ _ _ _ E) as [Hlen Hnth].
  rewrite length_combine in Hlen.
  destruct (nth_error (forward_layers lm) i) as [f|] eqn:Ef;
    [| apply nth_error_None in Ef; lia].
  destruct (nth_error (backward_layers lm) i) as [b|] eqn:Eb;
    [| apply nth_error_None in Eb; lia].
  assert (Ec : nth_error (combine (forward_layers lm) (backward_layers lm)) i
               = Some (f, b)).
  { clear - Ef Eb. revert i Ef Eb.
    generalize (forward_layers lm) (backward_layers lm).
    induction l as [|x l IH]; intros [|y l0] [|i] Ef Eb; simpl in *;
      try discriminate.
    - injection Ef as <-; injection Eb as <-; reflexivity.
    - apply IH; assumption. }
  destruct (Hnth i f b Ec) as (dsf & dsb & E1 & E2 & E3).
  simpl in E1, E2.
  assert (Hi : i < length loaded) by lia.
  unfold layer_of in *; cbn [forward_layers backward_layers].
  destruct j as [|[|j]]; [| |lia].
  - rewrite Ef in Hl; injection Hl as <-.
    exists dsf; split; [exact E1|]; split.
    + rewrite nth_error_app1 by (rewrite length_map; exact Hi).
      rewrite nth_error_map, E3; reflexivity.
    + apply load_cell_blocks.
  - rewrite Eb in Hl; injection Hl as <-.
    exists dsb; split; [exact E2|]; split.
    + rewrite nth_error_app1 by (rewrite length_map; exact Hi).
      rewrite nth_error_map, E3; reflexivity.
    + apply load_cell_blocks.
Qed.

(** A stack of one layer and a checkpoint with distinct values in every
    gate block. *)
Definition example_lm : ElmobiLm :=
  {| lm_hidden_size := 1;
     lm_cell_size := 1;
     forward_layers := [example_cell true None None];
     backward_layers := [example_cell false None None] |}.

Definition example_dataset : LSTMCell :=
  {| W_0 := [[1%R; 2%R; 3%R; 4%R]; [5%R; 6%R; 7%R; 8%R]];
     B := [10%R; 20%R; 30%R; 40%R];
     W_P_0 := [[1%R]] |}.

Definition example_checkpoint : checkpoint := fun _ _ => Some example_dataset.

Lemma example_dataset_shape :
  dataset_shape (example_cell true None None) example_dataset.
Proof.
  split; [split; [reflexivity | repeat constructor] | reflexivity].
Defined.

Lemma C2_gate_permutation_witness :
  exists lm',
    load_weights example_lm example_checkpoint = Ok lm' /\
    layer_of lm' 0 0
    = Some (load_cell (example_cell true None None) example_dataset) /\
    gate_blocks_swapped (example_cell true None None)
      (load_cell (example_cell true None None) example_dataset)
      example_dataset.
Proof.
  eexists; split; [reflexivity|].
  destruct (C2_gate_permutation example_lm _ example_checkpoint 0 0
              (example_cell true None None) eq_refl
              (Nat.lt_0_succ 1) (Nat.lt_0_succ 0) (Nat.lt_0_succ 0) eq_refl)
    as (dataset & Hd & Hl & Hs).
  injection Hd as <-.
  split; [exact Hl | exact (Hs example_dataset_shape)].
Defined.

(** The loaded forget row of the example reads the checkpoint's third
    column, and the loaded forget bias is the third checkpoint bias plus
    one. *)
Example example_loaded_forget_block :
  entry (loaded_input_weights (example_cell true None None) example_dataset)
        1 0 = 3%R /\
  entry (loaded_recurrent_weights (example_cell true None None) example_dataset)
        1 0 = 7%R /\
  nth 1 (loaded_bias (example_cell true None None) example_dataset) 0%R
  = (30 + 1)%R.
Proof. repeat split. Qed.

(** ** The recurrence, row by row *)

(** One timestep on a single row: the batched operations on a batch of one
    row. *)
Definition row_memory (c : LstmCellWithProjection) (m s x : vec) : vec :=
  hd [] (clipped_memory c [m] [s] [x]).

Definition row_projected (c : LstmCellWithProjection) (m s x : vec) : vec :=
  hd [] (projected_timestep_output c [m] [s] [x]).

Definition row_output (c : LstmCellWithProjection) (mask_row : option vec)
  (m s x : vec) : vec :=
  match mask_row with
  | Some mr => vmul (row_projected c m s x) mr
  | None => row_projected c m s x
  end.

(** One row of the batch with everything the loop keeps for it: its length,
    its inputs, its row of the dropout mask, its memory, its state and its
    row of the output accumulator. *)
Record row : Type := mkRow {
  r_len : nat;
  r_x : mat;
  r_mask : option vec;
  r_mem : vec;
  r_state : vec;
  r_acc : mat
}.

(** The timestep at time position [t] as one row sees it: a row that is
    longer than [t] is computed and written, another one is left alone. *)
Definition row_step (c : LstmCellWithProjection) (t : nat) (r : row) : row :=
  if (t <? r_len r)%nat then
    let x := nth t (r_x r) [] in
    let out := row_output c (r_mask r) (r_mem r) (r_state r) x in
    {| r_len := r_len r;
       r_x := r_x r;
       r_mask := r_mask r;
       r_mem := row_memory c (r_mem r) (r_state r) x;
       r_state := out;
       r_acc := set_nth t out (r_acc r) |}
  else r.

Definition row_steps (c : LstmCellWithProjection) (ts : list nat) (r : row)
  : row :=
  fold_left (fun r t => row_step c t r) ts r.

(** The loop state that a list of rows stands for. *)
Definition state_of (cli : Z) (rows : list row) : loop_state :=
  {| current_length_index := cli;
     full_batch_previous_memory := map r_mem rows;
     full_batch_previous_state := map r_state rows;
     output_accumulator := map r_acc rows |}.

(** The number of sequences longer than [t]. *)
Definition active (batch_lengths : list nat) (t : nat) : nat :=
  length (filter (fun len => (t <? len)%nat) batch_lengths).

(** The plain recurrence over a list of input vectors, from (memory, state):
    the outputs in order and the last (memory, state). *)
Fixpoint run_cell (c : LstmCellWithProjection) (mask_row : option vec)
  (xs : list vec) (ms : vec * vec) : list vec * (vec * vec) :=
  match xs with
  | [] => ([], ms)
  | x :: xs' =>
      let m' := row_memory c (fst ms) (snd ms) x in
      let out := row_output c mask_row (fst ms) (snd ms) x in
      let (outs, final) := run_cell c mask_row xs' (m', out) in
      (out :: outs, final)
  end.

Lemma clip_cons (v : option R) (a : vec) (x : mat) :
  clip v (a :: x) = hd [] (clip v [a]) :: clip v x.
Proof.
  unfold clip; destruct (truthy v); [destruct v|]; reflexivity.
Qed.

Lemma clip_nil (v : option R) : clip v [] = [].
Proof.
  unfold clip; destruct (truthy v); [destruct v|]; reflexivity.
Qed.

Lemma lstm_memory_cons (c : LstmCellWithProjection) (m s x : vec)
  (pm ps xi : mat) :
  lstm_memory c (m :: pm) (s :: ps) (x :: xi)
  = hd [] (lstm_memory c [m] [s] [x]) :: lstm_memory c pm ps xi.
Proof. reflexivity. Qed.

Lemma output_gate_cons (c : LstmCellWithProjection) (s x : vec) (ps xi : mat) :
  output_gate c (s :: ps) (x :: xi)
  = hd [] (output_gate c [s] [x]) :: output_gate c ps xi.
Proof. reflexivity. Qed.

Lemma clipped_memory_cons (c : LstmCellWithProjection) (m s x : vec)
  (pm ps xi : mat) :
  clipped_memory c (m :: pm) (s :: ps) (x :: xi)
  = row_memory c m s x :: clipped_memory c pm ps xi.
Proof.
  unfold row_memory, clipped_memory.
  set (a := hd [] (lstm_memory c [m] [s] [x])).
  change (lstm_memory c [m] [s] [x]) with [a].
  change (lstm_memory c (m :: pm) (s :: ps) (x :: xi))
    with (a :: lstm_memory c pm ps xi).
  rewrite clip_cons; reflexivity.
Qed.

Lemma clipped_memory_single (c : LstmCellWithProjection) (m s x : vec) :
  clipped_memory c [m] [s] [x] = [row_memory c m s x].
Proof.
  rewrite clipped_memory_cons; f_equal.
  unfold clipped_memory.
  change (lstm_memory c [] [] []) with (@nil vec).
  apply clip_nil.
Qed.

Lemma projected_timestep_output_cons (c : LstmCellWithProjection) (m s x : vec)
  (pm ps xi : mat) :
  projected_timestep_output c (m :: pm) (s :: ps) (x :: xi)
  = row_projected c m s x :: projected_timestep_output c pm ps xi.
Proof.
  unfold row_projected, projected_timestep_output,
    pre_projection_timestep_output.
  rewrite clipped_memory_cons, output_gate_cons, clipped_memory_single.
  cbn [mmap map mmul map2 apply_linear hd].
  rewrite clip_cons.
  reflexivity.
Qed.

(** The computation of an active row at time position [t]. *)
Definition row_compute (c : LstmCellWithProjection) (t : nat) (r : row) : row :=
  let x := nth t (r_x r) [] in
  let out := row_output c (r_mask r) (r_mem r) (r_state r) x in
  {| r_len := r_len r;
     r_x := r_x r;
     r_mask := r_mask r;
     r_mem := row_memory c (r_mem r) (r_state r) x;
     r_state := out;
     r_acc := set_nth t out (r_acc r) |}.

(** The rows carry the rows of the mask of the call. *)
Definition mask_rows (dropout_mask : option mat) (rows : list row) : Prop :=
  match dropout_mask with
  | None => Forall (fun r => r_mask r = None) rows
  | Some m => map r_mask rows = map Some m
  end.

Lemma clipped_memory_rows (c : LstmCellWithProjection) (t : nat)
  (rows : list row) :
  clipped_memory c (map r_mem rows) (map r_state rows)
                 (map (fun r => nth t (r_x r) []) rows)
  = map (fun r => row_memory c (r_mem r) (r_state r) (nth t (r_x r) [])) rows.
Proof.
  induction rows as [|r rows IH]; cbn [map].
  - unfold clipped_memory.
    change (lstm_memory c [] [] []) with (@nil vec); apply clip_nil.
  - rewrite clipped_memory_cons, IH; reflexivity.
Qed.

Lemma projected_timestep_output_rows (c : LstmCellWithProjection) (t : nat)
  (rows : list row) :
  projected_timestep_output c (map r_mem rows) (map r_state rows)
                            (map (fun r => nth t (r_x r) []) rows)
  = map (fun r => row_projected c (r_mem r) (r_state r) (nth t (r_x r) []))
        rows.
Proof.
  induction rows as [|r rows IH]; cbn [map].
  - unfold projected_timestep_output, pre_projection_timestep_output.
    change (apply_linear (state_projection c)
              (mmul (output_gate c [] []) (mmap tanh (clipped_memory c [] [] []))))
      with (@nil vec).
    apply clip_nil.
  - rewrite projected_timestep_output_cons, IH; reflexivity.
Qed.

Lemma Forall_firstn_of {A : Type} (P : A -> Prop) (k : nat) (l : list A) :
  Forall P l -> Forall P (firstn k l).
Proof.
  intros H; revert k; induction H as [|a l Ha _ IH]; intros [|k]; simpl;
    constructor; auto.
Qed.

Lemma firstn_mask_rows (dropout_mask : option mat) (rows : list row) (k : nat) :
  mask_rows dropout_mask rows ->
  mask_rows (option_map (firstn k) dropout_mask) (firstn k rows).
Proof.
  destruct dropout_mask as [m|]; simpl; intros H.
  - rewrite <- !firstn_map, H; reflexivity.
  - apply Forall_firstn_of; exact H.
Qed.

Lemma masked_output_rows (c : LstmCellWithProjection) (t : nat)
  (dropout_mask : option mat) (rows : list row) :
  mask_rows dropout_mask rows ->
  match dropout_mask with
  | Some m =>
      mmul (map (fun r => row_projected c (r_mem r) (r_state r)
                            (nth t (r_x r) [])) rows) m
  | None =>
      map (fun r => row_projected c (r_mem r) (r_state r) (nth t (r_x r) []))
          rows
  end
  = map (fun r => row_output c (r_mask r) (r_mem r) (r_state r)
                    (nth t (r_x r) [])) rows.
Proof.
  destruct dropout_mask as [m|]; simpl; intros H.
  - revert m H; induction rows as [|r rows IH]; intros [|mr m] H;
      simpl in H; try discriminate; [reflexivity|].
    injection H as Hr Hm.
    cbn [map mmul map2]; fold mmul.
    rewrite (IH m Hm).
    unfold row_output at 2; rewrite Hr; reflexivity.
  - apply map_ext_in; intros r Hr.
    rewrite Forall_forall in H.
    unfold row_output; rewrite (H r Hr); reflexivity.
Qed.

Lemma assign_rows_at_rows (f : row -> vec) (t k : nat) (rows : list row) :
  k <= length rows ->
  assign_rows_at k t (map f (firstn k rows)) (map r_acc rows)
  = map (fun r => set_nth t (f r) (r_acc r)) (firstn k rows)
    ++ map r_acc (skipn k rows).
Proof.
  revert rows; induction k as [|k IH]; intros [|r rows] H; simpl in *;
    try reflexivity; try lia.
  rewrite IH by lia; reflexivity.
Qed.

Lemma sorted_descending_tail (a : nat) (l : list nat) :
  sorted_descending (a :: l) = true -> sorted_descending l = true.
Proof.
  destruct l as [|b l]; [reflexivity|].
  cbn [sorted_descending]; intros H.
  apply andb_true_iff in H; destruct H as [_ H]; exact H.
Qed.

Lemma sorted_descending_head (a : nat) (l : list nat) :
  sorted_descending (a :: l) = true -> Forall (fun b => b <= a) l.
Proof.
  revert a; induction l as [|b l IH]; intros a H; constructor.
  - cbn [sorted_descending] in H.
    apply andb_true_iff in H; destruct H as [H _].
    apply Nat.leb_le; exact H.
  - pose proof (sorted_descending_tail _ _ H) as Ht.
    specialize (IH b Ht).
    cbn [sorted_descending] in H.
    apply andb_true_iff in H; destruct H as [H _].
    apply Nat.leb_le in H.
    eapply Forall_impl; [|exact IH]; simpl; intros; lia.
Qed.

Lemma active_none (l : list nat) (t : nat) :
  Forall (fun b => b <= t) l -> active l t = 0.
Proof.
  unfold active; induction 1 as [|b l Hb _ IH]; [reflexivity|].
  cbn [filter].
  destruct (Nat.ltb_spec t b); [lia | exact IH].
Qed.

(** With the lengths sorted, the sequences longer than [t] are the first
    [active] rows. *)
Lemma active_prefix (rows : list row) (t : nat) :
  sorted_descending (map r_len rows) = true ->
  let k := active (map r_len rows) t in
  k <= length rows /\
  Forall (fun r => t < r_len r) (firstn k rows) /\
  Forall (fun r => r_len r <= t) (skipn k rows).
Proof.
  induction rows as [|r rows IH]; intros Hs; cbv zeta.
  - simpl; repeat split; auto.
  - cbn [map] in Hs.
    pose proof (sorted_descending_head _ _ Hs) as Hh.
    specialize (IH (sorted_descending_tail _ _ Hs)); cbv zeta in IH.
    unfold active in *; cbn [map filter].
    destruct (Nat.ltb_spec t (r_len r)) as [Hlt|Hge].
    + cbn [length firstn skipn].
      destruct IH as (H1 & H2 & H3).
      repeat split; [lia | constructor; assumption | assumption].
    + assert (E : filter (fun len => (t <? len)%nat) (map r_len rows) = []).
      { apply length_zero_iff_nil.
        apply (active_none (map r_len rows) t).
        eapply Forall_impl; [|exact Hh]; simpl; intros; lia. }
      rewrite E; cbn [length firstn skipn].
      repeat split; [lia | constructor |].
      constructor; [exact Hge|].
      rewrite Forall_map in Hh.
      eapply Forall_impl; [|exact Hh]; simpl; intros; lia.
Qed.

Lemma map_row_step_split (c : LstmCellWithProjection) (t k : nat)
  (rows : list row) :
  Forall (fun r => t < r_len r) (firstn k rows) ->
  Forall (fun r => r_len r <= t) (skipn k rows) ->
  map (row_step c t) rows
  = map (row_compute c t) (firstn k rows) ++ skipn k rows.
Proof.
  intros H1 H2.
  rewrite <- (firstn_skipn k rows) at 1.
  rewrite map_app; f_equal.
  - apply map_ext_in; intros r Hr.
    rewrite Forall_forall in H1; specialize (H1 r Hr).
    unfold row_step.
    destruct (Nat.ltb_spec t (r_len r)); [reflexivity | lia].
  - rewrite <- (map_id (skipn k rows)) at 2.
    apply map_ext_in; intros r Hr.
    rewrite Forall_forall in H2; specialize (H2 r Hr).
    unfold row_step.
    destruct (Nat.ltb_spec t (r_len r)); [lia | reflexivity].
Qed.

Lemma slice_stop_of_nat {A : Type} (l : list A) (k : nat) :
  slice_stop l (Z.of_nat k - 1 + 1) = k.
Proof.
  unfold slice_stop.
  destruct (Z.ltb_spec (Z.of_nat k - 1 + 1) 0); lia.
Qed.

(** One timestep of the batch is the same timestep on every row, once the
    length index has stopped at the last active row. *)
Lemma forward_timestep_rows (c : LstmCellWithProjection) (rows : list row)
  (total_timesteps : nat) (dropout_mask : option mat) (timestep : nat)
  (cli : Z) (k : nat) :
  sorted_descending (map r_len rows) = true ->
  mask_rows dropout_mask rows ->
  k = active (map r_len rows) (timestep_index c total_timesteps timestep) ->
  update_length_index c (map r_len rows)
    (timestep_index c total_timesteps timestep) cli = Ok (Z.of_nat k - 1)%Z ->
  forward_timestep c (map r_x rows) (map r_len rows) total_timesteps
    dropout_mask (state_of cli rows) timestep
  = Ok (state_of (Z.of_nat k - 1)
          (map (row_step c (timestep_index c total_timesteps timestep)) rows)).
Proof.
  intros Hs Hm Hk Hu.
  set (t := timestep_index c total_timesteps timestep) in *.
  destruct (active_prefix rows t Hs) as (Hle & Hact & Hin).
  cbv zeta in Hle, Hact, Hin; rewrite <- Hk in Hle, Hact, Hin.
  unfold forward_timestep; cbv zeta; fold t.
  change (current_length_index (state_of cli rows)) with cli.
  rewrite Hu; cbn [bind].
  change (full_batch_previous_memory (state_of cli rows)) with (map r_mem rows).
  change (full_batch_previous_state (state_of cli rows))
    with (map r_state rows).
  change (output_accumulator (state_of cli rows)) with (map r_acc rows).
  rewrite (map_row_step_split c t k rows Hact Hin).
  unfold state_of; cbn [current_length_index full_batch_previous_memory
    full_batch_previous_state output_accumulator].
  unfold assign_slice_to, assign_slice_at, slice_to.
  rewrite !slice_stop_of_nat.
  rewrite !firstn_map, !skipn_map, map_map.
  set (out := timestep_output c _ _ _ dropout_mask _).
  assert (Hout : out
    = map (fun r => row_output c (r_mask r) (r_mem r) (r_state r)
                      (nth t (r_x r) [])) (firstn k rows)).
  { subst out.
    pose proof (masked_output_rows c t _ _ (firstn_mask_rows _ _ k Hm)) as E.
    unfold timestep_output.
    rewrite (projected_timestep_output_rows c t (firstn k rows)).
    destruct dropout_mask as [m|]; [|exact E].
    unfold slice_to; rewrite slice_stop_of_nat; exact E. }
  set (mem := clipped_memory c _ _ _).
  assert (Hmem : mem
    = map (fun r => row_memory c (r_mem r) (r_state r) (nth t (r_x r) []))
          (firstn k rows))
    by (subst mem; apply (clipped_memory_rows c t (firstn k rows))).
  rewrite Hout, Hmem.
  rewrite !map_app, !map_map.
  rewrite (assign_rows_at_rows
             (fun r => row_output c (r_mask r) (r_mem r) (r_state r)
                         (nth t (r_x r) [])) t k rows Hle).
  reflexivity.
Qed.

(** ** The two loops on the length index *)

Lemma py_getitem_nat {A : Type} (l : list A) (k : nat) :
  py_getitem l (Z.of_nat k) = nth_error l k.
Proof.
  unfold py_getitem.
  destruct (Z.leb_spec 0 (Z.of_nat k)); [|lia].
  rewrite Nat2Z.id; reflexivity.
Qed.

Lemma py_getitem_in {A : Type} (l : list A) (i : Z) (v : A) :
  py_getitem l i = Some v -> In v l.
Proof.
  unfold py_getitem.
  destruct (0 <=? i)%Z; [apply nth_error_In|].
  destruct (- Z.of_nat (length l) <=? i)%Z; [apply nth_error_In | discriminate].
Qed.

Lemma py_getitem_in_range {A : Type} (l : list A) (i : Z) :
  (- Z.of_nat (length l) <= i < Z.of_nat (length l))%Z ->
  exists v, py_getitem l i = Some v.
Proof.
  intros H; unfold py_getitem.
  destruct (Z.leb_spec 0 i).
  - destruct (nth_error l (Z.to_nat i)) as [v|] eqn:E; [eauto|].
    apply nth_error_None in E; lia.
  - destruct (Z.leb_spec (- Z.of_nat (length l)) i); [|lia].
    destruct (nth_error l (Z.to_nat (Z.of_nat (length l) + i))) as [v|] eqn:E;
      [eauto|].
    apply nth_error_None in E; lia.
Qed.

Lemma py_getitem_out_of_range {A : Type} (l : list A) (i : Z) :
  (i < - Z.of_nat (length l))%Z -> py_getitem l i = None.
Proof.
  intros H; unfold py_getitem.
  destruct (Z.leb_spec 0 i); [lia|].
  destruct (Z.leb_spec (- Z.of_nat (length l)) i); [lia | reflexivity].
Qed.

Lemma active_le_length (l : list nat) (t : nat) : active l t <= length l.
Proof. unfold active; apply filter_length_le. Qed.

Lemma active_antitone (l : list nat) (t t' : nat) :
  t <= t' -> active l t' <= active l t.
Proof.
  intros H; unfold active; induction l as [|a l IH]; simpl; [lia|].
  destruct (Nat.ltb_spec t' a); destruct (Nat.ltb_spec t a); simpl; lia.
Qed.

(** With sorted lengths, sequence [k] is longer than [t] exactly when [k] is
    below the number of active sequences. *)
Lemma active_spec (l : list nat) (t k : nat) :
  sorted_descending l = true -> k < length l ->
  (t < nth k l 0 <-> k < active l t).
Proof.
  revert k; induction l as [|a l IH]; intros k Hs Hk; simpl in Hk; [lia|].
  pose proof (sorted_descending_head _ _ Hs) as Hh.
  specialize (fun k => IH k (sorted_descending_tail _ _ Hs)).
  unfold active in *; cbn [filter].
  destruct (Nat.ltb_spec t a) as [Hlt|Hge]; cbn [length].
  - destruct k as [|k]; simpl; [lia|].
    rewrite (IH k) by lia; lia.
  - assert (E : length (filter (fun len => (t <? len)%nat) l) = 0).
    { apply (active_none l t).
      eapply Forall_impl; [|exact Hh]; simpl; intros; lia. }
    rewrite E.
    destruct k as [|k]; simpl; [lia|].
    rewrite Forall_forall in Hh.
    assert (nth k l 0 <= a) by (apply Hh, nth_In; lia).
    lia.
Qed.

Lemma active_positive (l : list nat) (t : nat) :
  t < hd 0 l -> 1 <= active l t.
Proof.
  destruct l as [|a l]; simpl; [lia|]; intros H.
  unfold active; cbn [filter].
  destruct (Nat.ltb_spec t a); [simpl; lia | lia].
Qed.

Lemma drop_finished_stops (l : list nat) (t k fuel : nat) :
  sorted_descending l = true -> k < length l ->
  1 <= active l t -> active l t <= k + 1 -> k + 1 <= fuel ->
  drop_finished fuel l t (Z.of_nat k) = Ok (Z.of_nat (active l t) - 1)%Z.
Proof.
  intros Hs; revert fuel; induction k as [|k IH]; intros fuel Hk Ha Hak Hf;
    (destruct fuel as [|fuel]; [lia|]); cbn [drop_finished];
    rewrite py_getitem_nat;
    (destruct (nth_error l _) as [len|] eqn:E;
     [| apply nth_error_None in E; lia]);
    apply (nth_error_nth _ _ 0) in E;
    pose proof (active_spec l t _ Hs Hk) as Hspec; rewrite E in Hspec;
    destruct (Nat.leb_spec len t) as [Hle|Hgt].
  - lia.
  - f_equal; lia.
  - replace (Z.of_nat (S k) - 1)%Z with (Z.of_nat k) by lia.
    apply IH; lia.
  - f_equal; lia.
Qed.

Lemma drop_finished_raises (l : list nat) (t fuel : nat) (cli : Z) :
  Forall (fun len => len <= t) l ->
  (- Z.of_nat (length l) - 1 <= cli < Z.of_nat (length l))%Z ->
  Z.to_nat (cli + Z.of_nat (length l) + 1) + 1 <= fuel ->
  drop_finished fuel l t cli = Raise IndexError.
Proof.
  intros Hall; revert cli; induction fuel as [|fuel IH]; intros cli Hc Hf;
    [lia|].
  cbn [drop_finished].
  destruct (Z.eq_dec cli (- Z.of_nat (length l) - 1)) as [->|Hne].
  - rewrite py_getitem_out_of_range by lia; reflexivity.
  - destruct (py_getitem_in_range l cli) as [len E]; [lia|].
    rewrite E.
    apply py_getitem_in in E.
    rewrite Forall_forall in Hall; specialize (Hall len E).
    destruct (Nat.leb_spec len t); [|lia].
    apply IH; lia.
Qed.

Lemma pick_up_started_stops (l : list nat) (t k fuel : nat) :
  sorted_descending l = true -> k < active l t -> active l t <= k + fuel ->
  pick_up_started fuel l t (Z.of_nat k) = Ok (Z.of_nat (active l t) - 1)%Z.
Proof.
  intros Hs; revert k; induction fuel as [|fuel IH]; intros k Hk Hf; [lia|].
  pose proof (active_le_length l t) as Hle.
  cbn [pick_up_started].
  destruct (Z.ltb_spec (Z.of_nat k) (Z.of_nat (length l) - 1)) as [Hlt|Hge].
  - replace (Z.of_nat k + 1)%Z with (Z.of_nat (S k)) by lia.
    rewrite py_getitem_nat.
    destruct (nth_error l (S k)) as [len|] eqn:E;
      [| apply nth_error_None in E; lia].
    apply (nth_error_nth _ _ 0) in E.
    assert (Hk' : S k < length l) by lia.
    pose proof (active_spec l t _ Hs Hk') as Hspec; rewrite E in Hspec.
    destruct (Nat.ltb_spec t len) as [H1|H1].
    + apply IH; lia.
    + f_equal; lia.
  - f_equal; lia.
Qed.

Lemma update_length_index_forward (c : LstmCellWithProjection)
  (l : list nat) (t : nat) (cli : Z) :
  go_forward c = true -> sorted_descending l = true ->
  1 <= active l t ->
  (Z.of_nat (active l t) - 1 <= cli < Z.of_nat (length l))%Z ->
  update_length_index c l t cli = Ok (Z.of_nat (active l t) - 1)%Z.
Proof.
  intros Hg Hs Ha Hc; unfold update_length_index, drop_fuel; rewrite Hg.
  destruct (Z_of_nat_complete cli) as [k ->]; [lia|].
  apply drop_finished_stops; try assumption; lia.
Qed.

Lemma update_length_index_forward_raises (c : LstmCellWithProjection)
  (l : list nat) (t : nat) (cli : Z) :
  go_forward c = true -> Forall (fun len => len <= t) l ->
  (- 1 <= cli < Z.of_nat (length l))%Z ->
  update_length_index c l t cli = Raise IndexError.
Proof.
  intros Hg Hall Hc; unfold update_length_index, drop_fuel; rewrite Hg.
  apply drop_finished_raises; try assumption; lia.
Qed.

Lemma update_length_index_backward (c : LstmCellWithProjection)
  (l : list nat) (t : nat) (cli : Z) :
  go_forward c = false -> sorted_descending l = true ->
  (0 <= cli < Z.of_nat (active l t))%Z ->
  update_length_index c l t cli = Ok (Z.of_nat (active l t) - 1)%Z.
Proof.
  intros Hg Hs Hc; unfold update_length_index, pick_up_fuel; rewrite Hg.
  pose proof (active_le_length l t) as Hle.
  destruct (Z_of_nat_complete cli) as [k ->]; [lia|].
  apply pick_up_started_stops; try assumption; lia.
Qed.

(** ** The loop over the timesteps, on rows *)

Lemma row_step_len (c : LstmCellWithProjection) (t : nat) (r : row) :
  r_len (row_step c t r) = r_len r.
Proof. unfold row_step; destruct (t <? r_len r)%nat; reflexivity. Qed.

Lemma row_step_x (c : LstmCellWithProjection) (t : nat) (r : row) :
  r_x (row_step c t r) = r_x r.
Proof. unfold row_step; destruct (t <? r_len r)%nat; reflexivity. Qed.

Lemma row_step_mask (c : LstmCellWithProjection) (t : nat) (r : row) :
  r_mask (row_step c t r) = r_mask r.
Proof. unfold row_step; destruct (t <? r_len r)%nat; reflexivity. Qed.

Lemma map_row_step_len (c : LstmCellWithProjection) (t : nat) (rows : list row) :
  map r_len (map (row_step c t) rows) = map r_len rows.
Proof. rewrite map_map; apply map_ext; intros; apply row_step_len. Qed.

Lemma map_row_step_x (c : LstmCellWithProjection) (t : nat) (rows : list row) :
  map r_x (map (row_step c t) rows) = map r_x rows.
Proof. rewrite map_map; apply map_ext; intros; apply row_step_x. Qed.

Lemma map_row_step_mask (c : LstmCellWithProjection) (t : nat)
  (dropout_mask : option mat) (rows : list row) :
  mask_rows dropout_mask rows ->
  mask_rows dropout_mask (map (row_step c t) rows).
Proof.
  destruct dropout_mask as [m|]; simpl; intros H.
  - rewrite map_map, <- H; apply map_ext; intros; apply row_step_mask.
  - rewrite Forall_map.
    eapply Forall_impl; [|exact H]; simpl; intros r Hr.
    rewrite row_step_mask; exact Hr.
Qed.

Lemma map_row_steps_cons (c : LstmCellWithProjection) (t : nat)
  (ts : list nat) (rows : list row) :
  map (row_steps c (t :: ts)) rows
  = map (row_steps c ts) (map (row_step c t) rows).
Proof. rewrite map_map; reflexivity. Qed.

Lemma timestep_index_forward (c : LstmCellWithProjection) (n t : nat) :
  go_forward c = true -> timestep_index c n t = t.
Proof. intros H; unfold timestep_index; rewrite H; reflexivity. Qed.

Lemma timestep_index_backward (c : LstmCellWithProjection) (n t : nat) :
  go_forward c = false -> timestep_index c n t = n - t - 1.
Proof. intros H; unfold timestep_index; rewrite H; reflexivity. Qed.

(** The forward loop over timesteps that all lie below the longest length. *)
Lemma run_timesteps_forward (c : LstmCellWithProjection) (inputs : tensor3)
  (l : list nat) (total_timesteps : nat) (dropout_mask : option mat)
  (count : nat) :
  go_forward c = true -> sorted_descending l = true ->
  forall (from : nat) (cli : Z) (rows : list row),
    map r_len rows = l -> map r_x rows = inputs ->
    mask_rows dropout_mask rows ->
    from + count <= hd 0 l ->
    (Z.of_nat (active l from) - 1 <= cli < Z.of_nat (length l))%Z ->
    exists cli',
      for_each (forward_timestep c inputs l total_timesteps dropout_mask)
               (seq from count) (state_of cli rows)
      = Ok (state_of cli'
              (map (row_steps c (map (timestep_index c total_timesteps)
                                     (seq from count))) rows)) /\
      (Z.of_nat (active l (from + count)) - 1 <= cli' < Z.of_nat (length l))%Z.
Proof.
  intros Hg Hs; induction count as [|count IH];
    intros from cli rows Hl Hx Hm Hhd Hc.
  - exists cli; cbn [seq for_each map]; unfold row_steps; cbn [fold_left].
    rewrite map_id, Nat.add_0_r; auto.
  - cbn [seq for_each map].
    assert (Ha : 1 <= active l from) by (apply active_positive; lia).
    pose proof (update_length_index_forward c l from cli Hg Hs Ha Hc) as Hu.
    pose proof (forward_timestep_rows c rows total_timesteps dropout_mask from
                  cli (active l from)) as Hstep.
    rewrite (timestep_index_forward c total_timesteps from Hg) in *.
    rewrite Hl, Hx in Hstep.
    rewrite (Hstep Hs Hm eq_refl Hu); cbn [bind].
    destruct (IH (S from) (Z.of_nat (active l from) - 1)%Z
                 (map (row_step c from) rows)) as (cli' & Hrun & Hinv).
    + rewrite map_row_step_len; exact Hl.
    + rewrite map_row_step_x; exact Hx.
    + apply map_row_step_mask; exact Hm.
    + lia.
    + pose proof (active_antitone l from (S from)).
      pose proof (active_le_length l from). lia.
    + exists cli'; rewrite Hrun, map_row_steps_cons.
      split; [reflexivity|].
      replace (from + S count) with (S from + count) by lia; exact Hinv.
Qed.

(** The backward loop, when no timestep lies beyond the longest length. *)
Lemma run_timesteps_backward (c : LstmCellWithProjection) (inputs : tensor3)
  (l : list nat) (total_timesteps : nat) (dropout_mask : option mat)
  (count : nat) :
  go_forward c = false -> sorted_descending l = true ->
  total_timesteps <= hd 0 l ->
  forall (from : nat) (cli : Z) (rows : list row),
    map r_len rows = l -> map r_x rows = inputs ->
    mask_rows dropout_mask rows ->
    from + count <= total_timesteps ->
    (0 <= cli)%Z ->
    (0 < count -> (cli < Z.of_nat (active l (total_timesteps - from - 1)))%Z) ->
    exists cli',
      for_each (forward_timestep c inputs l total_timesteps dropout_mask)
               (seq from count) (state_of cli rows)
      = Ok (state_of cli'
              (map (row_steps c (map (timestep_index c total_timesteps)
                                     (seq from count))) rows)).
Proof.
  intros Hg Hs HT; induction count as [|count IH];
    intros from cli rows Hl Hx Hm Hle Hc0 Hc.
  - exists cli; cbn [seq for_each map]; unfold row_steps; cbn [fold_left].
    rewrite map_id; reflexivity.
  - cbn [seq for_each map].
    specialize (Hc (Nat.lt_0_succ count)).
    pose proof (update_length_index_backward c l
                  (total_timesteps - from - 1) cli Hg Hs (conj Hc0 Hc)) as Hu.
    pose proof (forward_timestep_rows c rows total_timesteps dropout_mask from
                  cli (active l (total_timesteps - from - 1))) as Hstep.
    rewrite (timestep_index_backward c total_timesteps from Hg) in *.
    rewrite Hl, Hx in Hstep.
    rewrite (Hstep Hs Hm eq_refl Hu); cbn [bind].
    destruct (IH (S from) (Z.of_nat (active l (total_timesteps - from - 1)) - 1)%Z
                 (map (row_step c (total_timesteps - from - 1)) rows))
      as (cli' & Hrun).
    + rewrite map_row_step_len; exact Hl.
    + rewrite map_row_step_x; exact Hx.
    + apply map_row_step_mask; exact Hm.
    + lia.
    + lia.
    + intros Hcount.
      pose proof (active_antitone l (total_timesteps - S from - 1)
                    (total_timesteps - from - 1)).
      lia.
    + exists cli'; rewrite Hrun, map_row_steps_cons; reflexivity.
Qed.

(** The rows of a batch before the first timestep. *)
Definition initial_rows (c : LstmCellWithProjection) (inputs : tensor3)
  (batch_lengths : list nat) (initial_state : option (mat * mat))
  (dropout_mask : option mat) : list row :=
  let s0 := initial_loop_state c inputs initial_state in
  map (fun b =>
         {| r_len := nth b batch_lengths 0;
            r_x := nth b inputs [];
            r_mask := option_map (fun m => nth b m []) dropout_mask;
            r_mem := nth b (full_batch_previous_memory s0) [];
            r_state := nth b (full_batch_previous_state s0) [];
            r_acc := zeros2 (total_timesteps_of inputs) (hidden_size c) |})
      (seq 0 (length inputs)).

(** The time positions in the order the loop visits them. *)
Definition visit_order (c : LstmCellWithProjection) (total_timesteps : nat)
  : list nat :=
  map (timestep_index c total_timesteps) (seq 0 total_timesteps).

(** The rows after the last timestep. *)
Definition final_rows (c : LstmCellWithProjection) (inputs : tensor3)
  (batch_lengths : list nat) (initial_state : option (mat * mat))
  (dropout_mask : option mat) : list row :=
  map (row_steps c (visit_order c (total_timesteps_of inputs)))
      (initial_rows c inputs batch_lengths initial_state dropout_mask).

(** The given initial state and the mask have one row per batch element. *)
Definition state_shape (inputs : tensor3) (initial_state : option (mat * mat))
  : Prop :=
  match initial_state with
  | None => True
  | Some (state, memory) =>
      length state = length inputs /\ length memory = length inputs
  end.

Definition mask_shape (inputs : tensor3) (dropout_mask : option mat) : Prop :=
  match dropout_mask with
  | None => True
  | Some m => length m = length inputs
  end.

Lemma map_nth_seq_all {A : Type} (l : list A) (d : A) :
  map (fun b => nth b l d) (seq 0 (length l)) = l.
Proof.
  induction l as [|a l IH]; [reflexivity|].
  cbn [length seq map nth].
  rewrite <- seq_shift, map_map; f_equal; exact IH.
Qed.

Lemma map_const_seq {A : Type} (a : A) (n from : nat) :
  map (fun _ => a) (seq from n) = repeat a n.
Proof.
  revert from; induction n as [|n IH]; intros from; simpl; [reflexivity|].
  f_equal; apply IH.
Qed.

Lemma initial_rows_spec (c : LstmCellWithProjection) (inputs : tensor3)
  (batch_lengths : list nat) (initial_state : option (mat * mat))
  (dropout_mask : option mat) :
  length batch_lengths = length inputs ->
  state_shape inputs initial_state ->
  mask_shape inputs dropout_mask ->
  let rows := initial_rows c inputs batch_lengths initial_state dropout_mask in
  let s0 := initial_loop_state c inputs initial_state in
  s0 = state_of (current_length_index s0) rows /\
  map r_len rows = batch_lengths /\
  map r_x rows = inputs /\
  mask_rows dropout_mask rows.
Proof.
  intros Hl Hst Hmask; cbv zeta; unfold initial_rows.
  assert (Hmem : length (full_batch_previous_memory
                           (initial_loop_state c inputs initial_state))
                 = length inputs).
  { unfold initial_loop_state; cbn [full_batch_previous_memory].
    destruct initial_state as [[st mem]|]; simpl in Hst.
    - apply Hst.
    - apply repeat_length. }
  assert (Hstate : length (full_batch_previous_state
                             (initial_loop_state c inputs initial_state))
                   = length inputs).
  { unfold initial_loop_state; cbn [full_batch_previous_state].
    destruct initial_state as [[st mem]|]; simpl in Hst.
    - apply Hst.
    - apply repeat_length. }
  repeat split.
  - unfold state_of; rewrite !map_map; cbn [r_mem r_state r_acc].
    rewrite <- Hmem at 1; rewrite map_nth_seq_all.
    rewrite <- Hstate at 1; rewrite map_nth_seq_all.
    rewrite map_const_seq.
    destruct (initial_loop_state c inputs initial_state) eqn:E.
    unfold initial_loop_state in E; injection E as E1 E2 E3 E4.
    cbn [current_length_index full_batch_previous_memory
         full_batch_previous_state].
    f_equal; symmetry; exact E4.
  - rewrite map_map; cbn [r_len].
    rewrite <- Hl; apply map_nth_seq_all.
  - rewrite map_map; cbn [r_x]; apply map_nth_seq_all.
  - destruct dropout_mask as [m|]; simpl in *.
    + rewrite map_map; cbn [r_mask option_map].
      rewrite <- Hmask.
      rewrite <- (map_nth_seq_all m []) at 2.
      rewrite map_map; reflexivity.
    + rewrite Forall_map; apply Forall_forall; intros; reflexivity.
Qed.

(** A batch that [forward] accepts: one length per row, lengths sorted with
    the longest first, an initial state and a mask of one row per batch
    element, and no timestep beyond the longest length. *)
Record batch_ok (c : LstmCellWithProjection) (inputs : tensor3)
  (batch_lengths : list nat) (initial_state : option (mat * mat))
  (g : generator) : Prop := mkBatchOk {
  lengths_per_row : length batch_lengths = length inputs;
  lengths_sorted : sorted_descending batch_lengths = true;
  initial_state_shape : state_shape inputs initial_state;
  mask_shape_ok :
    mask_shape inputs
      (fst (sample_dropout_mask c
              (full_batch_previous_state
                 (initial_loop_state c inputs initial_state)) g));
  timesteps_within_longest : total_timesteps_of inputs <= hd 0 batch_lengths
}.

(** On such a batch [forward] returns, and what it returns is what the rows
    hold after every row has gone through the time positions on its own. *)
Lemma forward_on_rows (c : LstmCellWithProjection) (inputs : tensor3)
  (batch_lengths : list nat) (initial_state : option (mat * mat))
  (g : generator) :
  batch_ok c inputs batch_lengths initial_state g ->
  let s0 := initial_loop_state c inputs initial_state in
  let sampled := sample_dropout_mask c (full_batch_previous_state s0) g in
  let rows := final_rows c inputs batch_lengths initial_state (fst sampled) in
  exists r,
    forward c inputs batch_lengths initial_state g = Ok r /\
    outputs r = map r_acc rows /\
    final_state r = (map r_state rows, map r_mem rows) /\
    generator_after r = snd sampled.
Proof.
  intros [Hl Hs Hst Hm HT]; cbv zeta.
  unfold forward, run_timesteps.
  destruct (sample_dropout_mask c _ g) as [dropout_mask g'] eqn:Esample.
  cbn [fst snd] in *.
  destruct (initial_rows_spec c inputs batch_lengths initial_state
              dropout_mask Hl Hst Hm) as (Hs0 & Hlen & Hx & Hmask).
  cbv zeta in Hs0.
  set (s0 := initial_loop_state c inputs initial_state) in *.
  set (rows := initial_rows c inputs batch_lengths initial_state dropout_mask)
    in *.
  assert (Hrun : exists cli',
    for_each (forward_timestep c inputs batch_lengths
                (total_timesteps_of inputs) dropout_mask)
             (seq 0 (total_timesteps_of inputs)) s0
    = Ok (state_of cli'
            (final_rows c inputs batch_lengths initial_state dropout_mask))).
  { rewrite Hs0; unfold final_rows, visit_order; fold rows.
    destruct (go_forward c) eqn:Hg.
    - destruct (run_timesteps_forward c inputs batch_lengths
                  (total_timesteps_of inputs) dropout_mask
                  (total_timesteps_of inputs) Hg Hs 0
                  (current_length_index s0) rows Hlen Hx Hmask)
        as (cli' & Hrun & _).
      + exact HT.
      + subst s0; unfold initial_loop_state; cbn [current_length_index].
        rewrite Hg.
        pose proof (active_le_length batch_lengths 0). lia.
      + exists cli'; exact Hrun.
    - apply (run_timesteps_backward c inputs batch_lengths
               (total_timesteps_of inputs) dropout_mask
               (total_timesteps_of inputs) Hg Hs HT 0
               (current_length_index s0) rows Hlen Hx Hmask).
      + lia.
      + subst s0; unfold initial_loop_state; cbn [current_length_index].
        rewrite Hg; lia.
      + intros Hpos.
        subst s0; unfold initial_loop_state; cbn [current_length_index].
        rewrite Hg.
        pose proof (active_positive batch_lengths
                      (total_timesteps_of inputs - 0 - 1)).
        lia. }
  destruct Hrun as (cli' & Hrun); rewrite Hrun; cbn [bind].
  eexists; split; [reflexivity|].
  cbn [outputs final_state generator_after state_of output_accumulator
       full_batch_previous_state full_batch_previous_memory].
  repeat split.
Qed.

(** ** Zeros beyond the lengths *)

Lemma row_steps_len (c : LstmCellWithProjection) (ts : list nat) (r : row) :
  r_len (row_steps c ts r) = r_len r.
Proof.
  revert r; induction ts as [|t ts IH]; intros r; [reflexivity|].
  unfold row_steps in *; cbn [fold_left].
  rewrite IH; apply row_step_len.
Qed.

Lemma row_steps_acc_beyond (c : LstmCellWithProjection) (ts : list nat)
  (r : row) (t : nat) (d : vec) :
  r_len r <= t ->
  nth t (r_acc (row_steps c ts r)) d = nth t (r_acc r) d.
Proof.
  revert r; induction ts as [|t' ts IH]; intros r H; [reflexivity|].
  unfold row_steps in *; cbn [fold_left].
  rewrite IH by (rewrite row_step_len; exact H).
  unfold row_step.
  destruct (Nat.ltb_spec t' (r_len r)); [|reflexivity].
  cbn [r_acc]; apply set_nth_other; lia.
Qed.

Lemma nth_initial_rows (c : LstmCellWithProjection) (inputs : tensor3)
  (batch_lengths : list nat) (initial_state : option (mat * mat))
  (dropout_mask : option mat) (b : nat) (d : row) :
  b < length inputs ->
  let s0 := initial_loop_state c inputs initial_state in
  nth b (initial_rows c inputs batch_lengths initial_state dropout_mask) d
  = {| r_len := nth b batch_lengths 0;
       r_x := nth b inputs [];
       r_mask := option_map (fun m => nth b m []) dropout_mask;
       r_mem := nth b (full_batch_previous_memory s0) [];
       r_state := nth b (full_batch_previous_state s0) [];
       r_acc := zeros2 (total_timesteps_of inputs) (hidden_size c) |}.
Proof.
  intros Hb; cbv zeta; unfold initial_rows.
  rewrite (nth_map_in _ _ _ _ 0) by (rewrite length_seq; exact Hb).
  rewrite seq_nth by exact Hb; reflexivity.
Qed.

Lemma initial_rows_length (c : LstmCellWithProjection) (inputs : tensor3)
  (batch_lengths : list nat) (initial_state : option (mat * mat))
  (dropout_mask : option mat) :
  length (initial_rows c inputs batch_lengths initial_state dropout_mask)
  = length inputs.
Proof. unfold initial_rows; rewrite length_map, length_seq; reflexivity. Qed.



Lemma sigmoid_pos (x : R) : (0 < sigmoid x)%R.
Proof.
  unfold sigmoid; pose proof (exp_pos (- x)).
  apply Rdiv_lt_0_compat; lra.
Qed.


(** The example cell has dropout probability 0: it never draws a mask. *)
Lemma no_dropout_example (forwards : bool) (memory_clip state_clip : option R)
  (like : mat) (g : generator) :
  sample_dropout_mask (example_cell forwards memory_clip state_clip) like g
  = (None, g).
Proof.
  apply sample_dropout_mask_cases; simpl; intros [H _]; lra.
Defined.

(** A batch of two sequences of lengths 2 and 1, padded to two timesteps. *)
Definition example_inputs : tensor3 :=
  [[[1%R]; [2%R]]; [[3%R]; [0%R]]].

Lemma example_batch_ok (forwards : bool) :
  batch_ok (example_cell forwards None None) example_inputs [2; 1] None
           example_generator.
Proof.
  constructor.
  - reflexivity.
  - reflexivity.
  - exact I.
  - rewrite no_dropout_example; exact I.
  - simpl; lia.
Defined.



(** ** One row as a plain recurrence *)

Lemma row_steps_x (c : LstmCellWithProjection) (ts : list nat) (r : row) :
  r_x (row_steps c ts r) = r_x r.
Proof.
  revert r; induction ts as [|t ts IH]; intros r; [reflexivity|].
  unfold row_steps in *; cbn [fold_left].
  rewrite IH; apply row_step_x.
Qed.

Lemma row_steps_acc_other (c : LstmCellWithProjection) (ts : list nat)
  (r : row) (t : nat) (d : vec) :
  ~ In t ts -> nth t (r_acc (row_steps c ts r)) d = nth t (r_acc r) d.
Proof.
  revert r; induction ts as [|t' ts IH]; intros r H; [reflexivity|].
  unfold row_steps in *; cbn [fold_left].
  rewrite IH by (intros Hin; apply H; right; exact Hin).
  unfold row_step.
  destruct (t' <? r_len r)%nat; [|reflexivity].
  cbn [r_acc]; apply set_nth_other.
  intros E; apply H; left; exact E.
Qed.

(** Time positions at or beyond the length of the row do nothing. *)
Lemma row_steps_filter (c : LstmCellWithProjection) (ts : list nat) (r : row) :
  row_steps c ts r
  = row_steps c (filter (fun t => (t <? r_len r)%nat) ts) r.
Proof.
  revert r; induction ts as [|t ts IH]; intros r; [reflexivity|].
  unfold row_steps in *; cbn [fold_left filter].
  rewrite IH, row_step_len.
  destruct (Nat.ltb_spec t (r_len r)) as [H|H]; cbn [fold_left].
  - reflexivity.
  - unfold row_step at 2.
    destruct (Nat.ltb_spec t (r_len r)); [lia | reflexivity].
Qed.

(** The row after the time positions [idxs], all within its length and none
    visited twice, holds the plain recurrence over the inputs at these
    positions: its memory and state are the last ones, and output [k] sits
    at the [k]-th position visited. *)
Lemma row_steps_run_cell (c : LstmCellWithProjection) (idxs : list nat) :
  NoDup idxs ->
  forall r : row,
    Forall (fun i => i < r_len r /\ i < length (r_acc r)) idxs ->
    let xs := map (fun i => nth i (r_x r) []) idxs in
    let res := run_cell c (r_mask r) xs (r_mem r, r_state r) in
    let r' := row_steps c idxs r in
    r_mem r' = fst (snd res) /\
    r_state r' = snd (snd res) /\
    forall k, k < length idxs ->
              nth (nth k idxs 0) (r_acc r') [] = nth k (fst res) [].
Proof.
  induction 1 as [|i idxs Hni Hnd IH]; intros r Hall; cbv zeta.
  - cbn [map run_cell fst snd length]; unfold row_steps; cbn [fold_left].
    repeat split; intros; lia.
  - inversion Hall as [|? ? [Hi Hacc] Hrest]; subst.
    cbn [map run_cell fst snd].
    unfold row_steps; cbn [fold_left]; fold (row_steps c idxs (row_step c i r)).
    assert (Estep : row_step c i r = row_compute c i r).
    { unfold row_step.
      destruct (Nat.ltb_spec i (r_len r)); [reflexivity | lia]. }
    rewrite Estep.
    specialize (IH (row_compute c i r)); cbv zeta in IH.
    cbn [row_compute r_len r_x r_mask r_mem r_state r_acc] in IH.
    rewrite set_nth_length in IH.
    specialize (IH Hrest).
    destruct (run_cell c (r_mask r)
                (map (fun j => nth j (r_x r) []) idxs)
                (row_memory c (r_mem r) (r_state r) (nth i (r_x r) []),
                 row_output c (r_mask r) (r_mem r) (r_state r)
                   (nth i (r_x r) []))) as [outs final] eqn:E.
    cbn [fst snd] in *.
    destruct IH as (H1 & H2 & H3).
    split; [exact H1|]; split; [exact H2|].
    intros [|k] Hk; cbn [nth length] in *.
    + rewrite row_steps_acc_other by exact Hni.
      cbn [row_compute r_acc]; apply set_nth_same; exact Hacc.
    + apply H3; lia.
Qed.

Lemma filter_seq_below (len from n : nat) :
  filter (fun t => (t <? len)%nat) (seq from n) = seq from (Nat.min n (len - from)).
Proof.
  revert from; induction n as [|n IH]; intros from; [reflexivity|].
  cbn [seq filter]; rewrite IH.
  destruct (Nat.ltb_spec from len).
  - replace (Nat.min (S n) (len - from))
      with (S (Nat.min n (len - S from))) by lia.
    reflexivity.
  - replace (Nat.min (S n) (len - from)) with 0 by lia.
    replace (Nat.min n (len - S from)) with 0 by lia.
    reflexivity.
Qed.

Lemma filter_rev {A : Type} (f : A -> bool) (l : list A) :
  filter f (rev l) = rev (filter f l).
Proof.
  induction l as [|a l IH]; [reflexivity|].
  cbn [rev filter]; rewrite filter_app, IH; cbn [filter].
  destruct (f a); cbn [rev]; [reflexivity | apply app_nil_r].
Qed.

Lemma visit_order_forward (c : LstmCellWithProjection) (n : nat) :
  go_forward c = true -> visit_order c n = seq 0 n.
Proof.
  intros H; unfold visit_order.
  rewrite <- (map_id (seq 0 n)) at 2.
  apply map_ext; intros; apply timestep_index_forward; exact H.
Qed.

Lemma rev_seq (n : nat) : rev (seq 0 n) = map (fun t => n - t - 1) (seq 0 n).
Proof.
  induction n as [|n IH]; [reflexivity|].
  rewrite seq_S at 1; rewrite rev_app_distr; cbn [rev app plus].
  cbn [seq map]; f_equal; [lia|].
  rewrite <- seq_shift, map_map, IH.
  apply map_ext; intros; lia.
Qed.

Lemma visit_order_backward (c : LstmCellWithProjection) (n : nat) :
  go_forward c = false -> visit_order c n = rev (seq 0 n).
Proof.
  intros H; unfold visit_order; rewrite rev_seq.
  apply map_ext; intros; apply timestep_index_backward; exact H.
Qed.

Lemma map_nth_seq_firstn {A : Type} (l : list A) (d : A) (len : nat) :
  len <= length l -> map (fun i => nth i l d) (seq 0 len) = firstn len l.
Proof.
  revert l; induction len as [|len IH]; intros l H; [reflexivity|].
  destruct l as [|a l]; simpl in H; [lia|].
  cbn [seq map nth firstn].
  rewrite <- seq_shift, map_map; f_equal; apply IH; lia.
Qed.

Lemma row_forward_outputs (c : LstmCellWithProjection) (r : row) (n : nat) :
  go_forward c = true ->
  r_len r <= n -> length (r_acc r) = n -> r_len r <= length (r_x r) ->
  forall t, t < r_len r ->
    nth t (r_acc (row_steps c (visit_order c n) r)) []
    = nth t (fst (run_cell c (r_mask r) (firstn (r_len r) (r_x r))
                           (r_mem r, r_state r))) [].
Proof.
  intros Hg Hn Hacc Hx t Ht.
  rewrite (visit_order_forward c n Hg), row_steps_filter, filter_seq_below.
  replace (Nat.min n (r_len r - 0)) with (r_len r) by lia.
  destruct (row_steps_run_cell c (seq 0 (r_len r)) (seq_NoDup _ _) r)
    as (_ & _ & H).
  - apply Forall_forall; intros i Hi; apply in_seq in Hi; lia.
  - cbv zeta in H.
    specialize (H t); rewrite length_seq in H; specialize (H Ht).
    rewrite seq_nth in H by exact Ht.
    rewrite (map_nth_seq_firstn (r_x r) [] (r_len r) Hx) in H.
    exact H.
Qed.

Lemma row_backward_outputs (c : LstmCellWithProjection) (r : row) (n : nat) :
  go_forward c = false ->
  r_len r <= n -> length (r_acc r) = n -> r_len r <= length (r_x r) ->
  forall t, t < r_len r ->
    nth (r_len r - 1 - t) (r_acc (row_steps c (visit_order c n) r)) []
    = nth t (fst (run_cell c (r_mask r) (rev (firstn (r_len r) (r_x r)))
                           (r_mem r, r_state r))) [].
Proof.
  intros Hg Hn Hacc Hx t Ht.
  rewrite (visit_order_backward c n Hg), row_steps_filter, filter_rev,
    filter_seq_below.
  replace (Nat.min n (r_len r - 0)) with (r_len r) by lia.
  destruct (row_steps_run_cell c (rev (seq 0 (r_len r)))
              (NoDup_rev (seq_NoDup _ _)) r) as (_ & _ & H).
  - apply Forall_forall; intros i Hi.
    apply in_rev, in_seq in Hi; lia.
  - cbv zeta in H.
    specialize (H t); rewrite length_rev, length_seq in H; specialize (H Ht).
    rewrite rev_nth in H by (rewrite length_seq; exact Ht).
    rewrite length_seq, seq_nth in H by lia.
    rewrite map_rev, (map_nth_seq_firstn (r_x r) [] (r_len r) Hx) in H.
    replace (r_len r - 1 - t) with (0 + (r_len r - S t)) by lia.
    exact H.
Qed.

(** A forward cell that returns had no timestep beyond the longest length:
    at the first such timestep the length index runs off the list. *)
Lemma forward_ok_within_longest (c : LstmCellWithProjection) (inputs : tensor3)
  (batch_lengths : list nat) (initial_state : option (mat * mat))
  (g : generator) (r : forward_result) :
  go_forward c = true ->
  length batch_lengths = length inputs ->
  sorted_descending batch_lengths = true ->
  state_shape inputs initial_state ->
  mask_shape inputs
    (fst (sample_dropout_mask c
            (full_batch_previous_state
               (initial_loop_state c inputs initial_state)) g)) ->
  forward c inputs batch_lengths initial_state g = Ok r ->
  total_timesteps_of inputs <= hd 0 batch_lengths.
Proof.
  intros Hg Hl Hs Hst Hm H.
  destruct (le_lt_dec (total_timesteps_of inputs) (hd 0 batch_lengths))
    as [Hle|Hlt]; [exact Hle | exfalso].
  unfold forward, run_timesteps in H.
  destruct (sample_dropout_mask c _ g) as [dropout_mask g'].
  cbn [fst] in Hm.
  destruct (initial_rows_spec c inputs batch_lengths initial_state
              dropout_mask Hl Hst Hm) as (Hs0 & Hlen & Hx & Hmask).
  cbv zeta in Hs0.
  rewrite (seq_split_at _ _ Hlt), for_each_app, Hs0 in H.
  destruct (run_timesteps_forward c inputs batch_lengths
              (total_timesteps_of inputs) dropout_mask (hd 0 batch_lengths)
              Hg Hs 0
              (current_length_index (initial_loop_state c inputs initial_state))
              _ Hlen Hx Hmask) as (cli' & Hrun & Hinv).
  - lia.
  - unfold initial_loop_state; cbn [current_length_index]; rewrite Hg.
    pose proof (active_le_length batch_lengths 0); lia.
  - rewrite Hrun in H; cbn [bind for_each] in H.
    unfold forward_timestep in H; cbv zeta in H.
    change (current_length_index (state_of cli' _)) with cli' in H.
    rewrite (timestep_index_forward c _ _ Hg) in H.
    assert (Hall : Forall (fun len => len <= hd 0 batch_lengths) batch_lengths).
    { destruct batch_lengths as [|a l]; [constructor|].
      constructor; [simpl; lia|].
      apply (sorted_descending_head a l Hs). }
    change (0 + hd 0 batch_lengths) with (hd 0 batch_lengths) in Hinv.
    rewrite (active_none _ _ Hall) in Hinv.
    rewrite (update_length_index_forward_raises c batch_lengths _ cli' Hg Hall)
      in H by lia.
    discriminate H.
Qed.

(** ** Forward and backward over reversed sequences *)

(** The cell with the same parameters and the given direction. *)
Definition with_go_forward (c : LstmCellWithProjection) (forwards : bool)
  : LstmCellWithProjection :=
  {| input_size := input_size c;
     hidden_size := hidden_size c;
     cell_size := cell_size c;
     go_forward := forwards;
     recurrent_dropout_probability := recurrent_dropout_probability c;
     memory_cell_clip_value := memory_cell_clip_value c;
     state_projection_clip_value := state_projection_clip_value c;
     input_linearity := input_linearity c;
     state_linearity := state_linearity c;
     state_projection := state_projection c;
     training := training c |}.

(** A sequence with its first [len] entries reversed and its padding left
    in place, and a batch with every sequence reversed in this way. *)
Definition reverse_sequence {A : Type} (len : nat) (s : list A) : list A :=
  rev (firstn len s) ++ skipn len s.

Definition reverse_sequences {A : Type} (batch_lengths : list nat)
  (batch : list (list A)) : list (list A) :=
  map2 reverse_sequence batch_lengths batch.

(** Two output tensors agree at every valid position of every sequence. *)
Definition agree_on_valid (batch_lengths : list nat) (a b : tensor3) : Prop :=
  forall i t,
    i < length batch_lengths -> t < nth i batch_lengths 0 ->
    nth t (nth i a []) [] = nth t (nth i b []) [].

(** A batch sorted by length: one length per row, the longest first, every
    row padded to the same number of timesteps, no length above it, and an
    initial state (when given) of one row per batch element. *)
Record padded_batch (inputs : tensor3) (batch_lengths : list nat)
  (initial_state : option (mat * mat)) : Prop := mkPaddedBatch {
  pb_lengths : length batch_lengths = length inputs;
  pb_sorted : sorted_descending batch_lengths = true;
  pb_state : state_shape inputs initial_state;
  pb_rows : Forall (fun s => length s = total_timesteps_of inputs) inputs;
  pb_within : Forall (fun len => len <= total_timesteps_of inputs) batch_lengths
}.

Lemma reverse_sequence_length {A : Type} (len : nat) (s : list A) :
  length (reverse_sequence len s) = length s.
Proof.
  unfold reverse_sequence.
  rewrite length_app, length_rev, <- length_app, firstn_skipn; reflexivity.
Qed.

Lemma reverse_sequence_firstn {A : Type} (len : nat) (s : list A) :
  len <= length s ->
  rev (firstn len (reverse_sequence len s)) = firstn len s.
Proof.
  intros H; unfold reverse_sequence.
  rewrite firstn_app.
  rewrite length_rev, length_firstn, Nat.min_l by exact H.
  rewrite Nat.sub_diag; cbn [firstn]; rewrite app_nil_r.
  rewrite firstn_all2 by (rewrite length_rev, length_firstn; lia).
  apply rev_involutive.
Qed.

Lemma reverse_sequence_nth {A : Type} (len t : nat) (s : list A) (d : A) :
  len <= length s -> t < len ->
  nth t (reverse_sequence len s) d = nth (len - S t) s d.
Proof.
  intros H Ht; unfold reverse_sequence.
  rewrite app_nth1 by (rewrite length_rev, length_firstn; lia).
  rewrite rev_nth by (rewrite length_firstn; lia).
  rewrite length_firstn, Nat.min_l by exact H.
  rewrite nth_firstn.
  destruct (Nat.ltb_spec (len - S t) len); [reflexivity | lia].
Qed.

Lemma reverse_sequences_length {A : Type} (l : list nat)
  (batch : list (list A)) :
  length l = length batch -> length (reverse_sequences l batch) = length batch.
Proof.
  intros H; unfold reverse_sequences; rewrite map2_length; lia.
Qed.

Lemma reverse_sequences_nth {A : Type} (l : list nat) (batch : list (list A))
  (i : nat) :
  i < length l -> i < length batch ->
  nth i (reverse_sequences l batch) []
  = reverse_sequence (nth i l 0) (nth i batch []).
Proof.
  intros H1 H2; unfold reverse_sequences.
  apply map2_nth; assumption.
Qed.

Lemma reverse_sequences_timesteps (l : list nat) (inputs : tensor3) :
  length l = length inputs ->
  total_timesteps_of (reverse_sequences l inputs) = total_timesteps_of inputs.
Proof.
  destruct l as [|len l]; destruct inputs as [|s inputs]; simpl;
    intros H; try discriminate; [reflexivity|].
  apply reverse_sequence_length.
Qed.

Lemma row_steps_acc_length (c : LstmCellWithProjection) (ts : list nat)
  (r : row) :
  length (r_acc (row_steps c ts r)) = length (r_acc r).
Proof.
  revert r; induction ts as [|t ts IH]; intros r; [reflexivity|].
  unfold row_steps in *; cbn [fold_left]; rewrite IH.
  unfold row_step; destruct (t <? r_len r)%nat; [|reflexivity].
  cbn [r_acc]; apply set_nth_length.
Qed.

Lemma run_cell_with_go_forward (c : LstmCellWithProjection) (forwards : bool)
  (mask_row : option vec) (xs : list vec) (ms : vec * vec) :
  run_cell (with_go_forward c forwards) mask_row xs ms
  = run_cell c mask_row xs ms.
Proof.
  revert ms; induction xs as [|x xs IH]; intros ms; [reflexivity|].
  cbn [run_cell].
  change (row_memory (with_go_forward c forwards)) with (row_memory c).
  change (row_output (with_go_forward c forwards)) with (row_output c).
  rewrite IH; reflexivity.
Qed.

Lemma no_dropout_sample (c : LstmCellWithProjection) (like : mat)
  (g : generator) :
  ~ ((0 < recurrent_dropout_probability c)%R /\ training c = true) ->
  sample_dropout_mask c like g = (None, g).
Proof. apply sample_dropout_mask_cases. Qed.

(** Row [i] of the outputs that [final_rows] stands for. *)
Lemma final_rows_acc (c : LstmCellWithProjection) (inputs : tensor3)
  (batch_lengths : list nat) (initial_state : option (mat * mat))
  (dropout_mask : option mat) (i : nat) :
  i < length inputs ->
  let s0 := initial_loop_state c inputs initial_state in
  nth i (map r_acc (final_rows c inputs batch_lengths initial_state
                               dropout_mask)) []
  = r_acc (row_steps c (visit_order c (total_timesteps_of inputs))
             {| r_len := nth i batch_lengths 0;
                r_x := nth i inputs [];
                r_mask := option_map (fun m => nth i m []) dropout_mask;
                r_mem := nth i (full_batch_previous_memory s0) [];
                r_state := nth i (full_batch_previous_state s0) [];
                r_acc := zeros2 (total_timesteps_of inputs) (hidden_size c) |}).
Proof.
  intros Hi; cbv zeta; unfold final_rows.
  rewrite map_map.
  set (d := mkRow 0 [] None [] [] []).
  rewrite (nth_map_in _ _ _ _ d) by (rewrite initial_rows_length; exact Hi).
  rewrite nth_initial_rows by exact Hi.
  reflexivity.
Qed.

Lemma padded_batch_ok (c : LstmCellWithProjection) (inputs : tensor3)
  (batch_lengths : list nat) (initial_state : option (mat * mat))
  (g : generator) :
  padded_batch inputs batch_lengths initial_state ->
  ~ ((0 < recurrent_dropout_probability c)%R /\ training c = true) ->
  total_timesteps_of inputs <= hd 0 batch_lengths ->
  batch_ok c inputs batch_lengths initial_state g.
Proof.
  intros [Hl Hs Hst _ _] Hd HT; constructor; try assumption.
  rewrite no_dropout_sample by exact Hd; exact I.
Qed.

Lemma padded_batch_reversed (inputs : tensor3) (batch_lengths : list nat)
  (initial_state : option (mat * mat)) :
  padded_batch inputs batch_lengths initial_state ->
  padded_batch (reverse_sequences batch_lengths inputs) batch_lengths
               initial_state.
Proof.
  intros [Hl Hs Hst Hrows Hw].
  pose proof (reverse_sequences_length batch_lengths inputs Hl) as Hlen.
  pose proof (reverse_sequences_timesteps batch_lengths inputs Hl) as HT.
  constructor.
  - rewrite Hlen; exact Hl.
  - exact Hs.
  - unfold state_shape in *; destruct initial_state as [[st mem]|];
      [rewrite Hlen; exact Hst | exact I].
  - rewrite HT.
    revert Hrows; generalize (total_timesteps_of inputs); intros n Hn.
    clear - Hn.
    revert batch_lengths; induction Hn as [|s rest Hlen _ IH];
      intros [|len l]; simpl; constructor.
    + rewrite reverse_sequence_length; exact Hlen.
    + apply IH.
  - rewrite HT; exact Hw.
Qed.

Lemma initial_buffers_same (c : LstmCellWithProjection) (forwards : bool)
  (inputs inputs' : tensor3) (initial_state : option (mat * mat)) :
  length inputs' = length inputs ->
  full_batch_previous_memory
    (initial_loop_state (with_go_forward c forwards) inputs' initial_state)
  = full_batch_previous_memory (initial_loop_state c inputs initial_state) /\
  full_batch_previous_state
    (initial_loop_state (with_go_forward c forwards) inputs' initial_state)
  = full_batch_previous_state (initial_loop_state c inputs initial_state).
Proof.
  intros Hl; unfold initial_loop_state;
    cbn [full_batch_previous_memory full_batch_previous_state with_go_forward
         cell_size hidden_size].
  rewrite Hl; split; reflexivity.
Qed.

(** C4.  For a batch sorted by length and a parameter set without dropout:
    whenever the forward cell on the batch and the backward cell on the
    batch with every sequence reversed both return, the forward output and
    the backward output with every sequence reversed agree at every valid
    position; and both cells do return when the batch has no timestep
    beyond its longest length. *)
Theorem C4_forward_backward_symmetry (c : LstmCellWithProjection)
  (inputs : tensor3) (batch_lengths : list nat)
  (initial_state : option (mat * mat)) (g : generator) :
  padded_batch inputs batch_lengths initial_state ->
  ~ ((0 < recurrent_dropout_probability c)%R /\ training c = true) ->
  let fcell := with_go_forward c true in
  let bcell := with_go_forward c false in
  let reversed := reverse_sequences batch_lengths inputs in
  (forall rf rb,
     forward fcell inputs batch_lengths initial_state g = Ok rf ->
     forward bcell reversed batch_lengths initial_state g = Ok rb ->
     agree_on_valid batch_lengths (outputs rf)
                    (reverse_sequences batch_lengths (outputs rb))) /\
  (total_timesteps_of inputs <= hd 0 batch_lengths ->
   exists rf rb,
     forward fcell inputs batch_lengths initial_state g = Ok rf /\
     forward bcell reversed batch_lengths initial_state g = Ok rb).
Proof.
  intros Hpb Hd; cbv zeta.
  pose proof (padded_batch_reversed _ _ _ Hpb) as Hpr.
  assert (Hdf : forall forwards,
    ~ ((0 < recurrent_dropout_probability (with_go_forward c forwards))%R /\
       training (with_go_forward c forwards) = true)) by (intros; exact Hd).
  destruct Hpb as [Hl Hs Hst Hrows Hw].
  pose proof (reverse_sequences_length batch_lengths inputs Hl) as Hlen.
  pose proof (reverse_sequences_timesteps batch_lengths inputs Hl) as HTr.
  assert (Hboth : total_timesteps_of inputs <= hd 0 batch_lengths ->
    exists rf rb,
      (forward (with_go_forward c true) inputs batch_lengths initial_state g
       = Ok rf /\
       outputs rf
       = map r_acc (final_rows (with_go_forward c true) inputs batch_lengths
                               initial_state None)) /\
      (forward (with_go_forward c false)
               (reverse_sequences batch_lengths inputs) batch_lengths
               initial_state g = Ok rb /\
       outputs rb
       = map r_acc (final_rows (with_go_forward c false)
                               (reverse_sequences batch_lengths inputs)
                               batch_lengths initial_state None))).
  { intros HT.
    destruct (forward_on_rows (with_go_forward c true) inputs batch_lengths
                initial_state g) as (rf & Ef & Hof & _).
    { apply padded_batch_ok; [constructor; assumption | apply Hdf | exact HT]. }
    destruct (forward_on_rows (with_go_forward c false)
                (reverse_sequences batch_lengths inputs) batch_lengths
                initial_state g) as (rb & Eb & Hob & _).
    { apply padded_batch_ok; [exact Hpr | apply Hdf | rewrite HTr; exact HT]. }
    cbv zeta in Hof, Hob.
    rewrite no_dropout_sample in Hof, Hob by apply Hdf.
    exists rf, rb; auto. }
  split.
  - intros rf rb Hf Hb.
    assert (HT : total_timesteps_of inputs <= hd 0 batch_lengths).
    { apply (forward_ok_within_longest (with_go_forward c true) inputs
               batch_lengths initial_state g rf); try assumption;
        try reflexivity.
      rewrite no_dropout_sample by apply Hdf; exact I. }
    destruct (Hboth HT) as (rf' & rb' & [Ef Hof] & [Eb Hob]).
    rewrite Hf in Ef; injection Ef as <-.
    rewrite Hb in Eb; injection Eb as <-.
    intros i t Hi Ht.
    assert (Hi' : i < length inputs) by lia.
    assert (HlenT : nth i batch_lengths 0 <= total_timesteps_of inputs).
    { rewrite Forall_forall in Hw; apply Hw, nth_In; exact Hi. }
    assert (HrowT : length (nth i inputs []) = total_timesteps_of inputs).
    { rewrite Forall_forall in Hrows; apply Hrows, nth_In; exact Hi'. }
    rewrite Hof, Hob.
    rewrite reverse_sequences_nth
      by (try exact Hi; unfold final_rows;
          rewrite !length_map, initial_rows_length, Hlen; exact Hi').
    rewrite final_rows_acc by exact Hi'.
    rewrite final_rows_acc by (rewrite Hlen; exact Hi').
    cbv zeta; cbn [option_map].
    destruct (initial_buffers_same c false inputs
                (reverse_sequences batch_lengths inputs) initial_state Hlen)
      as [Em Es].
    destruct (initial_buffers_same c true inputs inputs initial_state eq_refl)
      as [Em' Es'].
    rewrite Em, Es, Em', Es', HTr.
    rewrite reverse_sequences_nth by assumption.
    match goal with
    | |- nth t (r_acc (row_steps _ _ ?r)) [] = _ =>
        pose proof (row_forward_outputs (with_go_forward c true) r
                      (total_timesteps_of inputs) eq_refl) as Hfwd
    end.
    match goal with
    | |- _ = nth t (reverse_sequence _ (r_acc (row_steps _ _ ?r))) [] =>
        pose proof (row_backward_outputs (with_go_forward c false) r
                      (total_timesteps_of inputs) eq_refl) as Hbwd;
        pose proof (row_steps_acc_length (with_go_forward c false)
                      (visit_order (with_go_forward c false)
                                   (total_timesteps_of inputs)) r) as Hacc
    end.
    cbn [r_len r_x r_mask r_mem r_state r_acc] in Hfwd, Hbwd, Hacc.
    assert (Hz : forall h, length (zeros2 (total_timesteps_of inputs) h)
                           = total_timesteps_of inputs)
      by (intros; apply repeat_length).
    rewrite Hz in Hacc.
    rewrite reverse_sequence_length, HrowT in Hbwd.
    rewrite HrowT in Hfwd.
    specialize (Hfwd HlenT (Hz _) HlenT t Ht).
    specialize (Hbwd HlenT (Hz _) HlenT t Ht).
    rewrite reverse_sequence_nth by (try rewrite Hacc; assumption).
    replace (nth i batch_lengths 0 - S t)
      with (nth i batch_lengths 0 - 1 - t) by lia.
    rewrite Hfwd, Hbwd.
    rewrite !run_cell_with_go_forward.
    rewrite reverse_sequence_firstn by (rewrite HrowT; exact HlenT).
    reflexivity.
  - intros HT.
    destruct (Hboth HT) as (rf & rb & [Ef _] & [Eb _]).
    exists rf, rb; auto.
Qed.

Lemma example_padded_batch : padded_batch example_inputs [2; 1] None.
Proof.
  constructor.
  - reflexivity.
  - reflexivity.
  - exact I.
  - repeat constructor.
  - repeat constructor.
Defined.

Lemma example_no_dropout (forwards : bool) :
  ~ ((0 < recurrent_dropout_probability (example_cell forwards None None))%R /\
     training (example_cell forwards None None) = true).
Proof. simpl; intros [_ H]; discriminate H. Defined.

Lemma C4_forward_backward_symmetry_witness :
  exists rf rb,
    forward (with_go_forward (example_cell true None None) true)
            example_inputs [2; 1] None example_generator = Ok rf /\
    forward (with_go_forward (example_cell true None None) false)
            (reverse_sequences [2; 1] example_inputs) [2; 1] None
            example_generator = Ok rb /\
    agree_on_valid [2; 1] (outputs rf)
                   (reverse_sequences [2; 1] (outputs rb)).
Proof.
  destruct (C4_forward_backward_symmetry (example_cell true None None)
              example_inputs [2; 1] None example_generator
              example_padded_batch (example_no_dropout true))
    as [Hagree Hboth].
  destruct (Hboth (le_n 2)) as (rf & rb & Ef & Eb).
  exists rf, rb; split; [exact Ef|]; split; [exact Eb|].
  exact (Hagree rf rb Ef Eb).
Defined.

(** ** The shape of the outputs of a cell *)

(** A tensor of [n] rows of [t] vectors of width [h]. *)
Definition shape3 (n t h : nat) (x : tensor3) : Prop :=
  length x = n /\
  Forall (fun row => length row = t /\ Forall (fun v => length v = h) row) x.

Lemma for_each_invariant {S X : Type} (body : S -> X -> result S)
  (I : S -> Prop) (xs : list X) (s sT : S) :
  (forall s x s', I s -> body s x = Ok s' -> I s') ->
  I s -> for_each body xs s = Ok sT -> I sT.
Proof.
  intros Hstep; revert s; induction xs as [|x xs IH]; intros s Hs H.
  - injection H as <-; exact Hs.
  - cbn [for_each] in H.
    destruct (body s x) as [s'| |] eqn:E; simpl in H; try discriminate.
    apply (IH s'); [apply (Hstep s x s' Hs E) | exact H].
Qed.

Lemma Forall_map2 {A B C : Type} (P : C -> Prop) (f : A -> B -> C)
  (l1 : list A) (l2 : list B) :
  (forall a b, In a l1 -> In b l2 -> P (f a b)) -> Forall P (map2 f l1 l2).
Proof.
  revert l2; induction l1 as [|a l1 IH]; intros [|b l2] H; simpl;
    constructor.
  - apply H; simpl; auto.
  - apply IH; intros; apply H; simpl; auto.
Qed.

Lemma Forall_set_nth {A : Type} (P : A -> Prop) (i : nat) (x : A)
  (l : list A) :
  P x -> Forall P l -> Forall P (set_nth i x l).
Proof.
  intros Hx H; revert i; induction H as [|a l Ha Hl IH]; intros [|i]; simpl;
    try constructor; auto.
Qed.

Lemma firstn_In_of {A : Type} (k : nat) (l : list A) (x : A) :
  In x (firstn k l) -> In x l.
Proof.
  revert l; induction k as [|k IH]; intros [|a l] H; simpl in *;
    try contradiction.
  destruct H as [H|H]; [left; exact H | right; apply IH; exact H].
Qed.

Lemma shape3_zeros3 (n t h : nat) : shape3 n t h (zeros3 n t h).
Proof.
  unfold shape3, zeros3, zeros2, zeros; split; [apply repeat_length|].
  apply Forall_forall; intros row Hrow.
  apply repeat_spec in Hrow; subst row.
  split; [apply repeat_length|].
  apply Forall_forall; intros v Hv.
  apply repeat_spec in Hv; subst v; apply repeat_length.
Qed.

Lemma shape3_assign_rows_at (n t h k index : nat) (v : mat) (acc : tensor3) :
  Forall (fun x => length x = h) v -> shape3 n t h acc ->
  shape3 n t h (assign_rows_at k index v acc).
Proof.
  intros Hv [Hn Hacc]; unfold shape3; subst n.
  revert k v Hv; induction acc as [|a acc IH]; intros k v Hv.
  - destruct k, v; simpl; split; auto.
  - destruct k as [|k]; [simpl; split; auto|].
    destruct v as [|r v]; [simpl; split; auto|].
    pose proof (Forall_inv Hv) as Hr.
    pose proof (Forall_inv_tail Hv) as Hv'.
    destruct (Forall_inv Hacc) as [Ha1 Ha2].
    pose proof (Forall_inv_tail Hacc) as Hacc'.
    destruct (IH Hacc' k v Hv') as [E F].
    cbn [assign_rows_at length]; split; [rewrite E; reflexivity|].
    constructor; [|exact F].
    split; [rewrite set_nth_length; exact Ha1
           | apply Forall_set_nth; assumption].
Qed.

(** The rows of the projected output have the width of the projection. *)
Lemma projected_timestep_output_width (c : LstmCellWithProjection)
  (pm ps xi : mat) :
  bias (state_projection c) = None ->
  Forall (fun v => length v = length (weight (state_projection c)))
         (projected_timestep_output c pm ps xi).
Proof.
  intros Hb; unfold projected_timestep_output, clip.
  assert (H : Forall (fun v => length v = length (weight (state_projection c)))
                (apply_linear (state_projection c)
                   (pre_projection_timestep_output c pm ps xi))).
  { unfold apply_linear; rewrite Forall_map.
    apply Forall_forall; intros x _.
    apply linear_length; [reflexivity | rewrite Hb; exact I]. }
  destruct (truthy (state_projection_clip_value c)); [|exact H].
  destruct (state_projection_clip_value c) as [cv|]; [|exact H].
  unfold mmap; rewrite Forall_map.
  eapply Forall_impl; [|exact H]; simpl; intros v Hv.
  rewrite length_map; exact Hv.
Qed.

Lemma timestep_output_width (c : LstmCellWithProjection) (pm ps xi : mat)
  (dropout_mask : option mat) (stop : Z) (h : nat) :
  bias (state_projection c) = None ->
  length (weight (state_projection c)) = h ->
  match dropout_mask with
  | Some m => Forall (fun v => length v = h) m
  | None => True
  end ->
  Forall (fun v => length v = h)
         (timestep_output c pm ps xi dropout_mask stop).
Proof.
  intros Hb Hh Hm; unfold timestep_output.
  pose proof (projected_timestep_output_width c pm ps xi Hb) as H.
  rewrite Hh in H.
  destruct dropout_mask as [m|]; [|exact H].
  unfold mmul; apply Forall_map2; intros a b Ha Hb'.
  rewrite Forall_forall in H, Hm.
  assert (Hbm : In b m)
    by (unfold slice_to in Hb'; eapply firstn_In_of; exact Hb').
  unfold vmul; rewrite map2_length, (H a Ha), (Hm b Hbm); lia.
Qed.

Lemma forward_timestep_shape (c : LstmCellWithProjection) (inputs : tensor3)
  (batch_lengths : list nat) (total_timesteps : nat)
  (dropout_mask : option mat) (s s' : loop_state) (timestep n t h : nat) :
  bias (state_projection c) = None ->
  length (weight (state_projection c)) = h ->
  match dropout_mask with
  | Some m => Forall (fun v => length v = h) m
  | None => True
  end ->
  shape3 n t h (output_accumulator s) ->
  forward_timestep c inputs batch_lengths total_timesteps dropout_mask s
                   timestep = Ok s' ->
  shape3 n t h (output_accumulator s').
Proof.
  intros Hb Hh Hm Hs H; unfold forward_timestep in H.
  destruct (update_length_index c batch_lengths _ _) as [cli| |];
    simpl in H; try discriminate.
  injection H as <-; cbn [output_accumulator]; unfold assign_slice_at.
  apply shape3_assign_rows_at; [|exact Hs].
  apply timestep_output_width; assumption.
Qed.

(** A generator whose masks all have [n] rows of width [h], as the masks
    drawn for a state of that shape have. *)
Definition generator_shape (n h : nat) (g : generator) : Prop :=
  forall k, rows_of_width n h (stream g k).

Lemma sample_dropout_mask_shape (c : LstmCellWithProjection) (like : mat)
  (g : generator) (n h : nat) :
  generator_shape n h g ->
  match fst (sample_dropout_mask c like g) with
  | Some m => rows_of_width n h m
  | None => True
  end /\
  generator_shape n h (snd (sample_dropout_mask c like g)).
Proof.
  intros Hg; unfold sample_dropout_mask, get_dropout_mask.
  destruct (Rlt_dec 0 (recurrent_dropout_probability c));
    destruct (training c); cbn [fst snd]; split;
    first [exact I | exact Hg | apply Hg | intros k; apply Hg].
Qed.

(** The outputs of a cell have one row per batch element, one vector per
    timestep of the input, and vectors of the width of the projection. *)
Lemma forward_outputs_shape (c : LstmCellWithProjection) (inputs : tensor3)
  (batch_lengths : list nat) (initial_state : option (mat * mat))
  (g : generator) (r : forward_result) (n h : nat) :
  hidden_size c = h ->
  length (weight (state_projection c)) = h ->
  bias (state_projection c) = None ->
  generator_shape n h g ->
  forward c inputs batch_lengths initial_state g = Ok r ->
  shape3 (length inputs) (total_timesteps_of inputs) h (outputs r) /\
  generator_shape n h (generator_after r).
Proof.
  intros Hh Hw Hb Hg H.
  destruct (forward_inv _ _ _ _ _ _ H) as (dm & s & Hsample & Hrun & Hout & _).
  cbv zeta in Hsample.
  destruct (sample_dropout_mask_shape c
              (full_batch_previous_state
                 (initial_loop_state c inputs initial_state)) g n h Hg)
    as [Hm Hg'].
  rewrite Hsample in Hm, Hg'; cbn [fst snd] in Hm, Hg'.
  split; [|exact Hg'].
  rewrite Hout; unfold run_timesteps in Hrun.
  apply (for_each_invariant _
           (fun s => shape3 (length inputs) (total_timesteps_of inputs) h
                            (output_accumulator s)) _ _ _) with (3 := Hrun).
  - intros s1 x s2 Hs1 Hstep.
    apply (forward_timestep_shape c inputs batch_lengths
             (total_timesteps_of inputs) dm s1 s2 x _ _ h Hb Hw); auto.
    destruct dm as [m|]; [apply Hm | exact I].
  - unfold initial_loop_state; cbn [output_accumulator].
    rewrite Hh; apply shape3_zeros3.
Qed.

(** ** Concatenation and addition commute *)

Lemma map2_interchange {A A' B B' X Y Z U V : Type}
  (G1 : A -> A' -> X) (G2 : B -> B' -> Y) (F : X -> Y -> Z)
  (F1 : A -> B -> U) (F2 : A' -> B' -> V) (G : U -> V -> Z)
  (a : list A) (b : list B) (c : list A') (d : list B') :
  (forall x y z w, In x a -> In y b -> In z c -> In w d ->
                   F (G1 x z) (G2 y w) = G (F1 x y) (F2 z w)) ->
  map2 F (map2 G1 a c) (map2 G2 b d) = map2 G (map2 F1 a b) (map2 F2 c d).
Proof.
  revert b c d; induction a as [|x a IH]; intros [|y b] [|z c] [|w d] H;
    simpl; try reflexivity.
  f_equal.
  - apply H; simpl; auto.
  - apply IH; intros; apply H; simpl; auto.
Qed.

(** The vectors of a tensor all have width [h]. *)
Definition width3 (h : nat) (x : tensor3) : Prop :=
  Forall (Forall (fun v => length v = h)) x.

Lemma shape3_width3 (n t h : nat) (x : tensor3) : shape3 n t h x -> width3 h x.
Proof.
  intros [_ H]; unfold width3.
  eapply Forall_impl; [|exact H]; simpl; intros row [_ Hrow]; exact Hrow.
Qed.

Lemma width3_tadd (h : nat) (x y : tensor3) :
  width3 h x -> width3 h y -> width3 h (tadd x y).
Proof.
  unfold width3, tadd, madd, vadd; intros Hx Hy.
  rewrite Forall_forall in Hx, Hy.
  apply Forall_map2; intros a b Ha Hb.
  specialize (Hx a Ha); specialize (Hy b Hb).
  rewrite Forall_forall in Hx, Hy.
  apply Forall_map2; intros u v Hu Hv.
  rewrite map2_length, (Hx u Hu), (Hy v Hv); lia.
Qed.

(** [cat([a + c, b + d], -1) = cat([a, b], -1) + cat([c, d], -1)] when the
    vectors of [a] and [c] have the same width. *)
Lemma cat_last3_tadd (h : nat) (a b c d : tensor3) :
  width3 h a -> width3 h c ->
  cat_last3 (tadd a c) (tadd b d) = tadd (cat_last3 a b) (cat_last3 c d).
Proof.
  unfold width3, cat_last3, tadd; intros Ha Hc.
  rewrite Forall_forall in Ha, Hc.
  apply map2_interchange; intros ra rb rc rd Hra _ Hrc _.
  specialize (Ha ra Hra); specialize (Hc rc Hrc).
  rewrite Forall_forall in Ha, Hc.
  unfold madd; apply map2_interchange; intros va vb vc vd Hva _ Hvc _.
  unfold vadd; symmetry; apply map2_app.
  rewrite (Ha va Hva), (Hc vc Hvc); reflexivity.
Qed.

(** ** The loop over the layers *)

(** The cells as [ElmobiLm.__init__] builds them: as many backward cells as
    forward cells, every one with the shapes of its own [__init__] and with
    the hidden size of the stack. *)
Record lm_shapes (lm : ElmobiLm) : Prop := mkLmShapes {
  layers_paired : length (backward_layers lm) = length (forward_layers lm);
  forward_cells_shapes :
    Forall (fun c => cell_shapes c /\ hidden_size c = lm_hidden_size lm)
           (forward_layers lm);
  backward_cells_shapes :
    Forall (fun c => cell_shapes c /\ hidden_size c = lm_hidden_size lm)
           (backward_layers lm)
}.

Lemma lm_shapes_cell (lm : ElmobiLm) (layers : list LstmCellWithProjection)
  (i : nat) (c : LstmCellWithProjection) :
  Forall (fun c => cell_shapes c /\ hidden_size c = lm_hidden_size lm) layers ->
  nth_error layers i = Some c ->
  hidden_size c = lm_hidden_size lm /\
  length (weight (state_projection c)) = lm_hidden_size lm /\
  bias (state_projection c) = None.
Proof.
  intros H Hc; rewrite Forall_forall in H.
  destruct (H c (nth_error_In _ _ Hc)) as [Hs Hh].
  destruct (state_projection_shape c Hs) as [Hrows _].
  repeat split; [exact Hh | rewrite Hrows; exact Hh|].
  apply (state_projection_bias c Hs).
Qed.

(** A pass through the body of the loop that ends normally ran both cells of
    the layer on the streams it found, and left their outputs, with the
    streams added to them after layer 0. *)
Lemma lstm_layer_inv (lm : ElmobiLm) (batch_lengths : list nat)
  (s s' : stack_state) (i : nat) (state : option (mat * mat)) :
  lstm_layer lm batch_lengths s (i, state) = Ok s' ->
  exists fl bl fstate bstate fr br,
    nth_error (forward_layers lm) i = Some fl /\
    nth_error (backward_layers lm) i = Some bl /\
    forward fl (forward_output_sequence s) batch_lengths fstate
            (stack_generator s) = Ok fr /\
    forward bl (backward_output_sequence s) batch_lengths bstate
            (generator_after fr) = Ok br /\
    forward_output_sequence s'
    = (if (i =? 0)%nat then outputs fr
       else tadd (outputs fr) (forward_output_sequence s)) /\
    backward_output_sequence s'
    = (if (i =? 0)%nat then outputs br
       else tadd (outputs br) (backward_output_sequence s)) /\
    sequence_outputs s'
    = sequence_outputs s ++
      [cat_last3 (forward_output_sequence s') (backward_output_sequence s')] /\
    stack_generator s' = generator_after br.
Proof.
  unfold lstm_layer, getattr_layer; intros H.
  destruct (nth_error (forward_layers lm) i) as [fl|]; simpl in H;
    [|discriminate].
  destruct (nth_error (backward_layers lm) i) as [bl|]; simpl in H;
    [|discriminate].
  match type of H with
  | bind (forward fl ?x ?l ?st ?g) _ = _ =>
      destruct (forward fl x l st g) as [fr| |] eqn:Ef; simpl in H;
        try discriminate;
      exists fl, bl, st
  end.
  match type of H with
  | bind (forward bl ?x ?l ?st ?g) _ = _ =>
      destruct (forward bl x l st g) as [br| |] eqn:Eb; simpl in H;
        try discriminate;
      exists st, fr, br
  end.
  injection H as <-.
  cbn [forward_output_sequence backward_output_sequence sequence_outputs
       stack_generator].
  repeat split; try reflexivity; assumption.
Qed.

(** What the list [outs] of the per-layer outputs says of layer [i]: both
    cells of the layer ran on two streams and returned; at layer 0 the
    streams are the padded input and the output is the concatenation of the
    outputs of the cells; at a later layer the streams are the two halves
    of the output of the layer before, and the output is the concatenation
    of the outputs of the cells plus the output of the layer before. *)
Definition layer_output_of (lm : ElmobiLm) (padded : tensor3)
  (batch_lengths : list nat) (outs : list tensor3) (i : nat) : Prop :=
  exists fl bl fin bin fstate bstate gi fr br,
    nth_error (forward_layers lm) i = Some fl /\
    nth_error (backward_layers lm) i = Some bl /\
    forward fl fin batch_lengths fstate gi = Ok fr /\
    forward bl bin batch_lengths bstate (generator_after fr) = Ok br /\
    match i with
    | 0 => fin = padded /\ bin = padded /\
           nth 0 outs [] = cat_last3 (outputs fr) (outputs br)
    | S j => cat_last3 fin bin = nth j outs [] /\
             nth i outs []
             = tadd (cat_last3 (outputs fr) (outputs br)) (nth j outs [])
    end.

Lemma layer_output_of_app (lm : ElmobiLm) (padded : tensor3)
  (batch_lengths : list nat) (outs more : list tensor3) (i : nat) :
  i < length outs ->
  layer_output_of lm padded batch_lengths outs i ->
  layer_output_of lm padded batch_lengths (outs ++ more) i.
Proof.
  intros Hi (fl & bl & fin & bin & fstate & bstate & gi & fr & br &
             Hfl & Hbl & Hf & Hb & H).
  exists fl, bl, fin, bin, fstate, bstate, gi, fr, br.
  repeat (split; [assumption|]).
  destruct i as [|j].
  - rewrite app_nth1 by exact Hi; exact H.
  - rewrite !app_nth1 by lia; exact H.
Qed.

(** What holds of the variables of the loop after every layer. *)
Record stack_inv (lm : ElmobiLm) (padded : tensor3) (batch_lengths : list nat)
  (n : nat) (s : stack_state) : Prop := mkStackInv {
  inv_streams :
    match length (sequence_outputs s) with
    | 0 => forward_output_sequence s = padded /\
           backward_output_sequence s = padded
    | S j =>
        width3 (lm_hidden_size lm) (forward_output_sequence s) /\
        width3 (lm_hidden_size lm) (backward_output_sequence s) /\
        nth j (sequence_outputs s) []
        = cat_last3 (forward_output_sequence s) (backward_output_sequence s)
    end;
  inv_generator : generator_shape n (lm_hidden_size lm) (stack_generator s);
  inv_layers :
    forall i, i < length (sequence_outputs s) ->
              layer_output_of lm padded batch_lengths (sequence_outputs s) i
}.

Lemma lstm_layer_stack_inv (lm : ElmobiLm) (padded : tensor3)
  (batch_lengths : list nat) (n : nat) (s s' : stack_state)
  (state : option (mat * mat)) :
  lm_shapes lm ->
  stack_inv lm padded batch_lengths n s ->
  lstm_layer lm batch_lengths s (length (sequence_outputs s), state) = Ok s' ->
  stack_inv lm padded batch_lengths n s' /\
  length (sequence_outputs s') = S (length (sequence_outputs s)).
Proof.
  intros Hlm [Hstreams Hgen Hlayers] H.
  destruct (lstm_layer_inv _ _ _ _ _ _ H)
    as (fl & bl & fstate & bstate & fr & br &
        Hfl & Hbl & Hf & Hb & Hfo & Hbo & Houts & Hg').
  destruct (lm_shapes_cell lm _ _ _ (forward_cells_shapes lm Hlm) Hfl)
    as (Hfh & Hfw & Hfb).
  destruct (lm_shapes_cell lm _ _ _ (backward_cells_shapes lm Hlm) Hbl)
    as (Hbh & Hbw & Hbb).
  destruct (forward_outputs_shape fl _ _ _ _ fr n _ Hfh Hfw Hfb Hgen Hf)
    as [Hfs Hgf].
  destruct (forward_outputs_shape bl _ _ _ _ br n _ Hbh Hbw Hbb Hgf Hb)
    as [Hbs Hgb].
  apply shape3_width3 in Hfs, Hbs.
  assert (Hlen : length (sequence_outputs s')
                 = S (length (sequence_outputs s)))
    by (rewrite Houts, length_app; simpl; lia).
  split; [|exact Hlen].
  assert (Hlast : nth (length (sequence_outputs s)) (sequence_outputs s') []
                  = cat_last3 (forward_output_sequence s')
                              (backward_output_sequence s'))
    by (rewrite Houts at 1; rewrite app_nth2, Nat.sub_diag by lia;
        reflexivity).
  destruct (length (sequence_outputs s)) as [|j] eqn:Ei.
  - (* layer 0 *)
    cbn [Nat.eqb] in Hfo, Hbo.
    destruct Hstreams as [Hfin Hbin].
    constructor.
    + rewrite Hlen, Hfo, Hbo; repeat split; try assumption.
      rewrite Hlast, Hfo, Hbo; reflexivity.
    + rewrite Hg'; exact Hgb.
    + intros i Hi; rewrite Hlen in Hi.
      assert (i = 0) by lia; subst i.
      exists fl, bl, (forward_output_sequence s),
        (backward_output_sequence s), fstate, bstate, (stack_generator s),
        fr, br.
      repeat (split; [assumption|]).
      rewrite Hlast, Hfo, Hbo; reflexivity.
  - (* a later layer *)
    cbn [Nat.eqb] in Hfo, Hbo.
    destruct Hstreams as (Hfin & Hbin & Hprev).
    assert (Hcat : cat_last3 (forward_output_sequence s')
                             (backward_output_sequence s')
                   = tadd (cat_last3 (outputs fr) (outputs br))
                          (nth j (sequence_outputs s) []))
      by (rewrite Hfo, Hbo, Hprev;
          apply (cat_last3_tadd (lm_hidden_size lm)); assumption).
    constructor.
    + rewrite Hlen, Hlast, Hfo, Hbo.
      repeat split; try reflexivity; apply width3_tadd; assumption.
    + rewrite Hg'; exact Hgb.
    + intros i Hi; rewrite Hlen in Hi.
      destruct (Nat.eq_dec i (S j)) as [->|Hne].
      * exists fl, bl, (forward_output_sequence s),
          (backward_output_sequence s), fstate, bstate, (stack_generator s),
          fr, br.
        repeat (split; [assumption|]).
        rewrite Hlast, Hcat.
        rewrite Houts, app_nth1 by lia.
        split; [symmetry; exact Hprev | reflexivity].
      * rewrite Houts; apply layer_output_of_app; [lia|].
        apply Hlayers; lia.
Qed.

Lemma run_layers_stack_inv (lm : ElmobiLm) (padded : tensor3)
  (batch_lengths : list nat) (n : nat)
  (states : list (option (mat * mat))) (a : nat) (s sT : stack_state) :
  lm_shapes lm ->
  stack_inv lm padded batch_lengths n s ->
  length (sequence_outputs s) = a ->
  run_layers lm batch_lengths (combine (seq a (length states)) states) s
  = Ok sT ->
  stack_inv lm padded batch_lengths n sT /\
  length (sequence_outputs sT) = a + length states.
Proof.
  intros Hlm; unfold run_layers.
  revert a s; induction states as [|st states IH]; intros a s Hs Ha H.
  - injection H as <-; split; [exact Hs | simpl; lia].
  - cbn [length seq combine for_each] in H.
    destruct (lstm_layer lm batch_lengths s (a, st)) as [s1| |] eqn:E;
      simpl in H; try discriminate.
    rewrite <- Ha in E.
    destruct (lstm_layer_stack_inv lm padded batch_lengths n s s1 st Hlm Hs E)
      as [Hs1 Hlen].
    destruct (IH (S a) s1 Hs1 ltac:(lia) H) as [HsT HlenT].
    split; [exact HsT | simpl; lia].
Qed.

(** ** The loop over the layers returns *)

(** A stream that a cell accepts with the lengths [batch_lengths]: one row
    per length and no timestep beyond the longest length. *)
Definition stream_ok (batch_lengths : list nat) (x : tensor3) : Prop :=
  length x = length batch_lengths /\
  total_timesteps_of x <= hd 0 batch_lengths.

Lemma shape3_stream_ok (batch_lengths : list nat) (x y : tensor3) (h : nat) :
  stream_ok batch_lengths x ->
  shape3 (length x) (total_timesteps_of x) h y ->
  stream_ok batch_lengths y.
Proof.
  intros [Hn Ht] [Hlen Hrows]; split; [congruence|].
  destruct y as [|row y]; [simpl; lia|].
  cbn [total_timesteps_of].
  destruct (Forall_inv Hrows) as [Hrow _]; lia.
Qed.

Lemma tadd_stream_ok (batch_lengths : list nat) (x y : tensor3) :
  stream_ok batch_lengths x -> stream_ok batch_lengths y ->
  stream_ok batch_lengths (tadd x y).
Proof.
  intros [Hx Tx] [Hy Ty]; unfold tadd; split.
  - rewrite map2_length; lia.
  - destruct x as [|a x], y as [|b y]; simpl in *; try lia.
    unfold madd; rewrite map2_length; lia.
Qed.

Lemma forward_returns (c : LstmCellWithProjection) (x : tensor3)
  (batch_lengths : list nat) (g : generator) (h : nat) :
  sorted_descending batch_lengths = true ->
  stream_ok batch_lengths x ->
  generator_shape (length batch_lengths) h g ->
  exists r, forward c x batch_lengths None g = Ok r.
Proof.
  intros Hs [Hn Ht] Hg.
  destruct (forward_on_rows c x batch_lengths None g) as (r & Hr & _).
  - constructor; auto.
    + exact I.
    + destruct (sample_dropout_mask_shape c
                  (full_batch_previous_state (initial_loop_state c x None))
                  g _ h Hg) as [Hm _].
      destruct (fst (sample_dropout_mask c _ g)) as [m|]; [|exact I].
      simpl; destruct Hm as [Hm _]; congruence.
  - exists r; exact Hr.
Qed.

Lemma lstm_layer_returns (lm : ElmobiLm) (batch_lengths : list nat)
  (s : stack_state) (i : nat) :
  lm_shapes lm ->
  sorted_descending batch_lengths = true ->
  i < length (forward_layers lm) ->
  stream_ok batch_lengths (forward_output_sequence s) ->
  stream_ok batch_lengths (backward_output_sequence s) ->
  generator_shape (length batch_lengths) (lm_hidden_size lm)
                  (stack_generator s) ->
  exists s',
    lstm_layer lm batch_lengths s (i, None) = Ok s' /\
    stream_ok batch_lengths (forward_output_sequence s') /\
    stream_ok batch_lengths (backward_output_sequence s') /\
    generator_shape (length batch_lengths) (lm_hidden_size lm)
                    (stack_generator s') /\
    length (sequence_outputs s') = S (length (sequence_outputs s)).
Proof.
  intros Hlm Hsorted Hi Hfos Hbos Hg.
  destruct (nth_error (forward_layers lm) i) as [fl|] eqn:Hfl;
    [|apply nth_error_None in Hfl; lia].
  destruct (nth_error (backward_layers lm) i) as [bl|] eqn:Hbl;
    [|apply nth_error_None in Hbl; rewrite (layers_paired lm Hlm) in Hbl; lia].
  destruct (lm_shapes_cell lm _ _ _ (forward_cells_shapes lm Hlm) Hfl)
    as (Hfh & Hfw & Hfb).
  destruct (lm_shapes_cell lm _ _ _ (backward_cells_shapes lm Hlm) Hbl)
    as (Hbh & Hbw & Hbb).
  destruct (forward_returns fl _ _ _ _ Hsorted Hfos Hg) as [fr Ef].
  destruct (forward_outputs_shape fl _ _ _ _ fr _ _ Hfh Hfw Hfb Hg Ef)
    as [Hfs Hgf].
  destruct (forward_returns bl _ _ _ _ Hsorted Hbos Hgf) as [br Eb].
  destruct (forward_outputs_shape bl _ _ _ _ br _ _ Hbh Hbw Hbb Hgf Eb)
    as [Hbs Hgb].
  pose proof (shape3_stream_ok _ _ _ _ Hfos Hfs) as Hfo.
  pose proof (shape3_stream_ok _ _ _ _ Hbos Hbs) as Hbo.
  unfold lstm_layer, getattr_layer.
  rewrite Hfl, Hbl; cbn [bind option_map].
  rewrite Ef; cbn [bind]; rewrite Eb; cbn [bind].
  eexists; split; [reflexivity|].
  cbn [forward_output_sequence backward_output_sequence sequence_outputs
       stack_generator].
  rewrite length_app; cbn [length].
  destruct (i =? 0)%nat;
    repeat split; try assumption; try lia;
    try (apply tadd_stream_ok; assumption);
    try apply Hfo; try apply Hbo;
    try (destruct (tadd_stream_ok _ _ _ Hfo Hfos) as [E1 E2]; assumption);
    try (destruct (tadd_stream_ok _ _ _ Hbo Hbos) as [E1 E2]; assumption);
    try apply Hgb.
Qed.

Lemma run_layers_returns (lm : ElmobiLm) (batch_lengths : list nat)
  (k a : nat) (s : stack_state) :
  lm_shapes lm ->
  sorted_descending batch_lengths = true ->
  a + k <= length (forward_layers lm) ->
  stream_ok batch_lengths (forward_output_sequence s) ->
  stream_ok batch_lengths (backward_output_sequence s) ->
  generator_shape (length batch_lengths) (lm_hidden_size lm)
                  (stack_generator s) ->
  exists sT,
    run_layers lm batch_lengths (combine (seq a k) (repeat None k)) s
    = Ok sT /\
    length (sequence_outputs sT) = length (sequence_outputs s) + k.
Proof.
  intros Hlm Hsorted; unfold run_layers.
  revert a s; induction k as [|k IH]; intros a s Ha Hfos Hbos Hg.
  - exists s; split; [reflexivity | lia].
  - cbn [seq repeat combine for_each].
    destruct (lstm_layer_returns lm batch_lengths s a Hlm Hsorted
                ltac:(lia) Hfos Hbos Hg)
      as (s1 & E & Hfos1 & Hbos1 & Hg1 & Hlen1).
    rewrite E; cbn [bind].
    destruct (IH (S a) s1 ltac:(lia) Hfos1 Hbos1 Hg1) as (sT & ET & HlenT).
    exists sT; split; [exact ET | lia].
Qed.

Lemma pad_packed_sequence_lengths (packed : PackedSequence) :
  snd (pad_packed_sequence packed) = map (@length vec) (packed_data packed) /\
  length (fst (pad_packed_sequence packed)) = length (packed_data packed).
Proof.
  unfold pad_packed_sequence; cbn [fst snd]; split; [reflexivity|].
  apply length_map.
Qed.

(** Padding the sequences of a packed batch, longest first, gives a stream
    that the cells accept. *)
Lemma pad_packed_sequence_stream_ok (packed : PackedSequence) :
  sorted_descending (snd (pad_packed_sequence packed)) = true ->
  stream_ok (snd (pad_packed_sequence packed))
            (fst (pad_packed_sequence packed)).
Proof.
  unfold pad_packed_sequence; cbn [fst snd]; intros Hs; split.
  - rewrite !length_map; reflexivity.
  - destruct (packed_data packed) as [|s0 rest]; [simpl; lia|].
    cbn [map] in *.
    apply sorted_descending_head in Hs.
    apply list_max_le in Hs.
    cbn [total_timesteps_of hd].
    rewrite length_app, repeat_length.
    change (list_max (length s0 :: map (@length vec) rest))
      with (Nat.max (length s0) (list_max (map (@length vec) rest))).
    lia.
Qed.

(** With no initial state, a stack of at least one layer returns on every
    packed batch, and returns one output per layer. *)
Lemma lstm_forward_returns (lm : ElmobiLm) (packed : PackedSequence)
  (g : generator) :
  lm_shapes lm ->
  generator_shape (length (packed_data packed)) (lm_hidden_size lm) g ->
  forward_layers lm <> [] ->
  sorted_descending (snd (pad_packed_sequence packed)) = true ->
  exists r,
    _lstm_forward lm packed None g = Ok r /\
    length (stacked_sequence_outputs r) = length (forward_layers lm).
Proof.
  intros Hlm Hg Hne Hsorted.
  pose proof (pad_packed_sequence_stream_ok packed Hsorted) as Hpad.
  destruct (pad_packed_sequence_lengths packed) as [Hl Hn].
  unfold _lstm_forward; cbn [hidden_states_of bind].
  destruct (pad_packed_sequence packed) as [padded batch_lengths] eqn:Ep.
  cbn [fst snd] in *.
  unfold enumerate; rewrite repeat_length.
  destruct (run_layers_returns lm batch_lengths (length (forward_layers lm)) 0
              (initial_stack_state padded g) Hlm Hsorted ltac:(lia))
    as (sT & E & Hlen); try exact Hpad.
  - cbn [initial_stack_state stack_generator].
    rewrite Hl, length_map; exact Hg.
  - rewrite E; cbn [bind].
    cbn [initial_stack_state sequence_outputs length] in Hlen.
    destruct (sequence_outputs sT) as [|o outs] eqn:Eo.
    + destruct (forward_layers lm); [contradiction | discriminate].
    + eexists; split; [reflexivity|].
      cbn [stacked_sequence_outputs]; exact Hlen.
Qed.

(** C5.  Take a stack whose cells have the shapes [__init__] gives them and
    a generator whose masks have the shape of the hidden state.  Whenever
    [_lstm_forward] returns, for whatever initial state, every layer of the
    stacked output is accounted for by a run of the forward and of the
    backward cell of that layer: at layer 0 both cells ran on the padded
    input and the output is the plain concatenation of their outputs; at
    every other layer the two cells ran on streams whose concatenation is
    the output of the layer before, and the output is the concatenation of
    their outputs plus, element-wise, the output of the layer before.  And
    with no initial state, on lengths sorted longest first, a stack of at
    least one layer does return, with one output per layer. *)
Theorem C5_residual_connections (lm : ElmobiLm) (packed : PackedSequence)
  (g : generator) :
  lm_shapes lm ->
  generator_shape (length (packed_data packed)) (lm_hidden_size lm) g ->
  let padded := fst (pad_packed_sequence packed) in
  let batch_lengths := snd (pad_packed_sequence packed) in
  (forall initial_state r,
     _lstm_forward lm packed initial_state g = Ok r ->
     forall i, i < length (stacked_sequence_outputs r) ->
               layer_output_of lm padded batch_lengths
                               (stacked_sequence_outputs r) i) /\
  (forward_layers lm <> [] ->
   sorted_descending batch_lengths = true ->
   exists r,
     _lstm_forward lm packed None g = Ok r /\
     length (stacked_sequence_outputs r) = length (forward_layers lm)).
Proof.
  intros Hlm Hg; cbv zeta; split.
  - intros initial_state r H i Hi.
    unfold _lstm_forward in H.
    destruct (hidden_states_of lm initial_state) as [states| |];
      cbn [bind] in H; try discriminate H.
    destruct (pad_packed_sequence packed) as [padded batch_lengths].
    cbn [fst snd].
    destruct (run_layers lm batch_lengths (enumerate states)
                (initial_stack_state padded g)) as [sT| |] eqn:E;
      cbn [bind] in H; try discriminate H.
    destruct (run_layers_stack_inv lm padded batch_lengths
                (length (packed_data packed)) states 0
                (initial_stack_state padded g) sT Hlm) as [[_ _ Hlayers] _];
      [ constructor; cbn [initial_stack_state sequence_outputs length
                          forward_output_sequence backward_output_sequence
                          stack_generator];
        [split; reflexivity | exact Hg | intros j Hj; lia]
      | reflexivity
      | exact E
      | ].
    destruct (sequence_outputs sT) as [|o outs] eqn:Eo;
      [discriminate H|].
    injection H as <-; cbn [stacked_sequence_outputs] in *.
    apply Hlayers; exact Hi.
  - intros Hne Hsorted.
    apply lstm_forward_returns; assumption.
Qed.

(** A stack of two layers, a packed batch of two sequences and a generator
    of masks of two rows to run it on. *)
Definition example_stack : ElmobiLm :=
  {| lm_hidden_size := 1;
     lm_cell_size := 1;
     forward_layers :=
       [example_cell true None None; example_cell true None None];
     backward_layers :=
       [example_cell false None None; example_cell false None None] |}.

Definition example_packed : PackedSequence :=
  {| packed_data := [[[1%R]; [2%R]]; [[3%R]]]; packed_width := 1 |}.

Definition example_masks : generator :=
  {| stream := fun _ => [[1%R]; [1%R]]; position := 0 |}.

Lemma example_stack_shapes : lm_shapes example_stack.
Proof.
  constructor; [reflexivity | |];
    repeat constructor; try apply example_cell_shapes.
Defined.

Lemma example_masks_shape : generator_shape 2 1 example_masks.
Proof. intros k; split; [reflexivity | repeat constructor]. Defined.

Lemma C5_residual_connections_witness :
  exists r,
    _lstm_forward example_stack example_packed None example_masks = Ok r /\
    length (stacked_sequence_outputs r) = 2 /\
    layer_output_of example_stack (fst (pad_packed_sequence example_packed))
                    (snd (pad_packed_sequence example_packed))
                    (stacked_sequence_outputs r) 1.
Proof.
  destruct (C5_residual_connections example_stack example_packed
              example_masks example_stack_shapes example_masks_shape)
    as [Hlayers Hreturns].
  destruct (Hreturns ltac:(discriminate) eq_refl) as (r & Hr & Hlen).
  exists r; split; [exact Hr|]; split; [exact Hlen|].
  apply (Hlayers None r Hr); rewrite Hlen; simpl; lia.
Defined.

(** ** Sorting and selecting by index *)

Lemma insert_descending_perm (x : nat * nat) (l : list (nat * nat)) :
  Permutation (insert_descending x l) (x :: l).
Proof.
  induction l as [|y l IH]; cbn [insert_descending]; [reflexivity|].
  destruct (fst x <? fst y)%nat; [|reflexivity].
  rewrite IH; apply perm_swap.
Qed.

Lemma insert_ascending_perm (x : nat * nat) (l : list (nat * nat)) :
  Permutation (insert_ascending x l) (x :: l).
Proof.
  induction l as [|y l IH]; cbn [insert_ascending]; [reflexivity|].
  destruct (fst y <? fst x)%nat; [|reflexivity].
  rewrite IH; apply perm_swap.
Qed.

Lemma fold_insert_perm (insert : nat * nat -> list (nat * nat) -> list (nat * nat))
  (l : list (nat * nat)) :
  (forall x l, Permutation (insert x l) (x :: l)) ->
  Permutation (fold_right insert [] l) l.
Proof.
  intros H; induction l as [|x l IH]; cbn [fold_right]; [reflexivity|].
  rewrite H, IH; reflexivity.
Qed.

Lemma map_fst_combine_seq {A : Type} (v : list A) (a : nat) :
  map fst (combine v (seq a (length v))) = v.
Proof.
  revert a; induction v as [|x v IH]; intros a; [reflexivity|].
  cbn [length seq combine map fst]; rewrite IH; reflexivity.
Qed.

Lemma map_snd_combine_seq {A : Type} (v : list A) (a : nat) :
  map snd (combine v (seq a (length v))) = seq a (length v).
Proof.
  revert a; induction v as [|x v IH]; intros a; [reflexivity|].
  cbn [length seq combine map snd]; rewrite IH; reflexivity.
Qed.

(** Both sorts return a rearrangement of the values and, as the positions, a
    rearrangement of [0 .. n-1]. *)
Lemma sort_descending_perm (v : list nat) :
  Permutation (fst (sort_descending v)) v /\
  Permutation (snd (sort_descending v)) (seq 0 (length v)).
Proof.
  unfold sort_descending; cbn [fst snd].
  pose proof (fold_insert_perm insert_descending
                (combine v (seq 0 (length v))) insert_descending_perm) as H.
  split.
  - eapply Permutation_trans; [apply Permutation_map; exact H|].
    rewrite map_fst_combine_seq; reflexivity.
  - eapply Permutation_trans; [apply Permutation_map; exact H|].
    rewrite map_snd_combine_seq; reflexivity.
Qed.

Lemma sort_ascending_perm (v : list nat) :
  Permutation (snd (sort_ascending v)) (seq 0 (length v)).
Proof.
  unfold sort_ascending; cbn [snd].
  pose proof (fold_insert_perm insert_ascending
                (combine v (seq 0 (length v))) insert_ascending_perm) as H.
  eapply Permutation_trans; [apply Permutation_map; exact H|].
  rewrite map_snd_combine_seq; reflexivity.
Qed.

Lemma sorted_descending_cons (a : nat) (l : list nat) :
  Forall (fun b => b <= a) l -> sorted_descending l = true ->
  sorted_descending (a :: l) = true.
Proof.
  intros Hle Hs; destruct l as [|b l]; [reflexivity|].
  cbn [sorted_descending] in *.
  apply andb_true_iff; split; [|exact Hs].
  apply Nat.leb_le; exact (Forall_inv Hle).
Qed.

Lemma insert_descending_sorted (x : nat * nat) (l : list (nat * nat)) :
  sorted_descending (map fst l) = true ->
  sorted_descending (map fst (insert_descending x l)) = true.
Proof.
  induction l as [|y l IH]; intros Hs; [reflexivity|].
  cbn [insert_descending].
  cbn [map] in Hs.
  pose proof (sorted_descending_head _ _ Hs) as Hhead.
  pose proof (sorted_descending_tail _ _ Hs) as Htail.
  destruct (fst x <? fst y)%nat eqn:E.
  - apply Nat.ltb_lt in E; cbn [map].
    apply sorted_descending_cons; [|apply IH; exact Htail].
    apply (Permutation_Forall
             (Permutation_sym
                (Permutation_map fst (insert_descending_perm x l)))).
    cbn [map]; constructor; [lia | exact Hhead].
  - apply Nat.ltb_ge in E; cbn [map].
    apply sorted_descending_cons; [|exact Hs].
    constructor; [exact E|].
    eapply Forall_impl; [|exact Hhead]; simpl; intros; lia.
Qed.

Lemma sort_descending_sorted (v : list nat) :
  sorted_descending (fst (sort_descending v)) = true.
Proof.
  unfold sort_descending; cbn [fst].
  induction (combine v (seq 0 (length v))) as [|x l IH]; [reflexivity|].
  cbn [fold_right]; apply insert_descending_sorted; exact IH.
Qed.

(** Selecting by positions that are all in range gives one element per
    position, and every element selected is one of the list. *)
Lemma index_select_length {A : Type} (l : list A) (idx : list nat) :
  Forall (fun i => i < length l) idx ->
  length (index_select l idx) = length idx.
Proof.
  unfold index_select; induction 1 as [|i idx Hi _ IH]; [reflexivity|].
  cbn [flat_map]; rewrite length_app, IH.
  destruct (nth_error l i) eqn:E; [reflexivity|].
  apply nth_error_None in E; lia.
Qed.

Lemma index_select_Forall {A : Type} (P : A -> Prop) (l : list A)
  (idx : list nat) :
  Forall P l -> Forall P (index_select l idx).
Proof.
  intros H; unfold index_select.
  rewrite Forall_forall in *; intros x Hx.
  apply in_flat_map in Hx; destruct Hx as (i & _ & Hx).
  destruct (nth_error l i) eqn:E; [|contradiction].
  destruct Hx as [<-|[]]; apply H; eapply nth_error_In; exact E.
Qed.

Lemma perm_seq_in_range (idx : list nat) (n : nat) :
  Permutation idx (seq 0 n) ->
  length idx = n /\ Forall (fun i => i < n) idx.
Proof.
  intros H; split.
  - rewrite (Permutation_length H); apply length_seq.
  - apply (Permutation_Forall (Permutation_sym H)).
    apply Forall_forall; intros i Hi; apply in_seq in Hi; lia.
Qed.

(** ** The shape of the outputs of the stack *)

(** A tensor of [n] rows of [t] vectors, of whatever width. *)
Definition time_shape (n t : nat) (x : tensor3) : Prop :=
  length x = n /\ Forall (fun row => length row = t) x.

Lemma shape3_time_shape (n t h : nat) (x : tensor3) :
  shape3 n t h x -> time_shape n t x.
Proof.
  intros [Hn H]; split; [exact Hn|].
  eapply Forall_impl; [|exact H]; simpl; intros row [Hrow _]; exact Hrow.
Qed.

Lemma time_shape_outputs (n t h : nat) (x y : tensor3) :
  time_shape n t x ->
  shape3 (length x) (total_timesteps_of x) h y ->
  shape3 n t h y.
Proof.
  intros [Hn Hx] [Hlen Hy]; split; [congruence|].
  destruct x as [|row x]; [destruct y; [constructor | discriminate]|].
  cbn [total_timesteps_of] in Hy.
  rewrite (Forall_inv Hx) in Hy; exact Hy.
Qed.

Lemma shape3_tadd (n t h : nat) (x y : tensor3) :
  shape3 n t h x -> shape3 n t h y -> shape3 n t h (tadd x y).
Proof.
  intros [Hn Hx] [Hm Hy]; unfold tadd; split.
  - rewrite map2_length; lia.
  - rewrite Forall_forall in Hx, Hy.
    apply Forall_map2; intros a b Ha Hb.
    destruct (Hx a Ha) as [Ta Wa], (Hy b Hb) as [Tb Wb].
    unfold madd; split; [rewrite map2_length; lia|].
    rewrite Forall_forall in Wa, Wb.
    apply Forall_map2; intros u v Hu Hv.
    unfold vadd; rewrite map2_length, (Wa u Hu), (Wb v Hv); lia.
Qed.

Lemma shape3_cat_last3 (n t h h' : nat) (x y : tensor3) :
  shape3 n t h x -> shape3 n t h' y -> shape3 n t (h + h') (cat_last3 x y).
Proof.
  intros [Hn Hx] [Hm Hy]; unfold cat_last3; split.
  - rewrite map2_length; lia.
  - rewrite Forall_forall in Hx, Hy.
    apply Forall_map2; intros a b Ha Hb.
    destruct (Hx a Ha) as [Ta Wa], (Hy b Hb) as [Tb Wb].
    split; [rewrite map2_length; lia|].
    rewrite Forall_forall in Wa, Wb.
    apply Forall_map2; intros u v Hu Hv.
    rewrite length_app, (Wa u Hu), (Wb v Hv); reflexivity.
Qed.

(** The shapes of the variables of the loop over the layers, for a padded
    input of [n] rows of [t] vectors. *)
Record stack_shapes (lm : ElmobiLm) (n t : nat) (s : stack_state)
  : Prop := mkStackShapes {
  shapes_streams :
    match sequence_outputs s with
    | [] => time_shape n t (forward_output_sequence s) /\
            time_shape n t (backward_output_sequence s)
    | _ :: _ => shape3 n t (lm_hidden_size lm) (forward_output_sequence s) /\
                shape3 n t (lm_hidden_size lm) (backward_output_sequence s)
    end;
  shapes_outputs :
    Forall (shape3 n t (2 * lm_hidden_size lm)) (sequence_outputs s);
  shapes_generator :
    generator_shape n (lm_hidden_size lm) (stack_generator s)
}.

Lemma lstm_layer_stack_shapes (lm : ElmobiLm) (batch_lengths : list nat)
  (n t : nat) (s s' : stack_state) (state : option (mat * mat)) :
  lm_shapes lm ->
  stack_shapes lm n t s ->
  lstm_layer lm batch_lengths s (length (sequence_outputs s), state) = Ok s' ->
  stack_shapes lm n t s'.
Proof.
  intros Hlm [Hstreams Houtputs Hgen] H.
  destruct (lstm_layer_inv _ _ _ _ _ _ H)
    as (fl & bl & fstate & bstate & fr & br &
        Hfl & Hbl & Hf & Hb & Hfo & Hbo & Houts & Hg').
  destruct (lm_shapes_cell lm _ _ _ (forward_cells_shapes lm Hlm) Hfl)
    as (Hfh & Hfw & Hfb).
  destruct (lm_shapes_cell lm _ _ _ (backward_cells_shapes lm Hlm) Hbl)
    as (Hbh & Hbw & Hbb).
  destruct (forward_outputs_shape fl _ _ _ _ fr n _ Hfh Hfw Hfb Hgen Hf)
    as [Hfs Hgf].
  destruct (forward_outputs_shape bl _ _ _ _ br n _ Hbh Hbw Hbb Hgf Hb)
    as [Hbs Hgb].
  assert (Hin : time_shape n t (forward_output_sequence s) /\
                time_shape n t (backward_output_sequence s)).
  { destruct (sequence_outputs s); destruct Hstreams as [H1 H2]; split;
      eauto using shape3_time_shape. }
  destruct Hin as [Hfin Hbin].
  apply (time_shape_outputs n t _ _ _ Hfin) in Hfs.
  apply (time_shape_outputs n t _ _ _ Hbin) in Hbs.
  assert (Hnew : shape3 n t (lm_hidden_size lm) (forward_output_sequence s') /\
                 shape3 n t (lm_hidden_size lm) (backward_output_sequence s')).
  { rewrite Hfo, Hbo.
    destruct (sequence_outputs s) as [|o outs]; cbn [length Nat.eqb].
    - split; assumption.
    - destruct Hstreams as [H1 H2]; split; apply shape3_tadd; assumption. }
  destruct Hnew as [Hfo' Hbo'].
  constructor.
  - rewrite Houts.
    destruct (sequence_outputs s); cbn [app]; split; assumption.
  - rewrite Houts; apply Forall_app; split; [exact Houtputs|].
    constructor; [|constructor].
    replace (2 * lm_hidden_size lm)
      with (lm_hidden_size lm + lm_hidden_size lm) by lia.
    apply shape3_cat_last3; assumption.
  - rewrite Hg'; exact Hgb.
Qed.

Lemma run_layers_stack_shapes (lm : ElmobiLm) (batch_lengths : list nat)
  (n t : nat) (states : list (option (mat * mat))) (a : nat)
  (s sT : stack_state) :
  lm_shapes lm ->
  stack_shapes lm n t s ->
  length (sequence_outputs s) = a ->
  run_layers lm batch_lengths (combine (seq a (length states)) states) s
  = Ok sT ->
  stack_shapes lm n t sT.
Proof.
  intros Hlm; unfold run_layers.
  revert a s; induction states as [|st states IH]; intros a s Hs Ha H.
  - injection H as <-; exact Hs.
  - cbn [length seq combine for_each] in H.
    destruct (lstm_layer lm batch_lengths s (a, st)) as [s1| |] eqn:E;
      simpl in H; try discriminate.
    rewrite <- Ha in E.
    pose proof (lstm_layer_stack_shapes lm batch_lengths n t s s1 st Hlm Hs E)
      as Hs1.
    destruct (lstm_layer_inv _ _ _ _ _ _ E)
      as (_ & _ & _ & _ & _ & _ & _ & _ & _ & _ & _ & _ & Houts & _).
    apply (IH (S a) s1 Hs1); [|exact H].
    rewrite Houts, length_app; simpl; lia.
Qed.

Lemma pad_packed_sequence_time_shape (packed : PackedSequence) :
  time_shape (length (packed_data packed))
             (list_max (snd (pad_packed_sequence packed)))
             (fst (pad_packed_sequence packed)).
Proof.
  unfold pad_packed_sequence; cbn [fst snd]; split; [apply length_map|].
  rewrite Forall_map; apply Forall_forall; intros s Hs.
  rewrite length_app, repeat_length.
  assert (length s <= list_max (map (@length vec) (packed_data packed))).
  { pose proof (proj1 (list_max_le (map (@length vec) (packed_data packed)) _)
                      (le_n _)) as Hmax.
    rewrite Forall_forall in Hmax; apply Hmax.
    apply in_map; exact Hs. }
  lia.
Qed.

Lemma lstm_forward_inv (lm : ElmobiLm) (packed : PackedSequence)
  (initial_state : option (tensor3 * tensor3)) (g : generator)
  (r : lstm_forward_result) :
  _lstm_forward lm packed initial_state g = Ok r ->
  exists states sT,
    hidden_states_of lm initial_state = Ok states /\
    run_layers lm (snd (pad_packed_sequence packed)) (enumerate states)
               (initial_stack_state (fst (pad_packed_sequence packed)) g)
    = Ok sT /\
    stacked_sequence_outputs r = sequence_outputs sT /\
    lstm_generator_after r = stack_generator sT.
Proof.
  unfold _lstm_forward; intros H.
  destruct (hidden_states_of lm initial_state) as [states| |];
    cbn [bind] in H; try discriminate H.
  destruct (pad_packed_sequence packed) as [padded batch_lengths].
  cbn [fst snd].
  destruct (run_layers lm batch_lengths (enumerate states)
              (initial_stack_state padded g)) as [sT| |] eqn:E;
    cbn [bind] in H; try discriminate H.
  exists states, sT.
  destruct (sequence_outputs sT) as [|o outs] eqn:Eo; [discriminate H|].
  injection H as <-; cbn [stacked_sequence_outputs lstm_generator_after].
  repeat split; try reflexivity; exact E.
Qed.

(** The stacked output has one tensor per layer, each of one row per
    sequence, one vector per timestep of the longest sequence, and vectors
    of twice the hidden size. *)
Lemma lstm_forward_shapes (lm : ElmobiLm) (packed : PackedSequence)
  (initial_state : option (tensor3 * tensor3)) (g : generator)
  (r : lstm_forward_result) :
  lm_shapes lm ->
  generator_shape (length (packed_data packed)) (lm_hidden_size lm) g ->
  _lstm_forward lm packed initial_state g = Ok r ->
  Forall (shape3 (length (packed_data packed))
                 (list_max (snd (pad_packed_sequence packed)))
                 (2 * lm_hidden_size lm))
         (stacked_sequence_outputs r).
Proof.
  intros Hlm Hg H.
  destruct (lstm_forward_inv _ _ _ _ _ H) as (states & sT & _ & Hrun & Ho & _).
  rewrite Ho.
  apply (shapes_outputs lm _ _ sT).
  apply (run_layers_stack_shapes lm _ _ _ states 0 _ sT Hlm) with (3 := Hrun);
    [|reflexivity].
  constructor; cbn [initial_stack_state sequence_outputs
                    forward_output_sequence backward_output_sequence
                    stack_generator].
  - split; apply pad_packed_sequence_time_shape.
  - constructor.
  - exact Hg.
Qed.

(** ** ElmobiLm.forward returns *)

Lemma existsb_zero_length (l : list nat) :
  Forall (fun len => 1 <= len) l ->
  existsb (fun len => (len =? 0)%nat) l = false.
Proof.
  induction 1 as [|len l Hlen _ IH]; [reflexivity|].
  cbn [existsb]; rewrite IH, orb_false_r.
  apply Nat.eqb_neq; lia.
Qed.

Lemma packed_lengths (inputs : tensor3) (lengths : list nat) (t : nat) :
  length inputs = length lengths ->
  Forall (fun row => length row = t) inputs ->
  Forall (fun len => len <= t) lengths ->
  map (@length vec) (map2 (fun row len => firstn len row) inputs lengths)
  = lengths.
Proof.
  revert lengths; induction inputs as [|row inputs IH];
    intros [|len lengths] Hl Hrows Hlens; try discriminate; [reflexivity|].
  cbn [map2 map]; f_equal.
  - rewrite length_firstn.
    pose proof (Forall_inv Hrows) as H1; pose proof (Forall_inv Hlens) as H2.
    simpl in H1, H2; lia.
  - apply IH; [simpl in Hl; lia | |].
    + exact (Forall_inv_tail Hrows).
    + exact (Forall_inv_tail Hlens).
Qed.

Lemma shape3_index_select (n t h : nat) (x : tensor3) (idx : list nat) :
  Permutation idx (seq 0 n) ->
  shape3 n t h x -> shape3 n t h (index_select x idx).
Proof.
  intros Hp [Hn Hx]; destruct (perm_seq_in_range idx n Hp) as [Hlen Hrange].
  split.
  - rewrite index_select_length; [exact Hlen | rewrite Hn; exact Hrange].
  - apply index_select_Forall; exact Hx.
Qed.

(** On a batch of [n >= 1] rows of [t] vectors with lengths between 1 and
    [t], a stack of at least one layer returns one tensor per layer, with
    the rows in the order of the batch, as many timesteps as the longest
    sequence has, and vectors of twice the hidden size. *)
Lemma ElmobiLm_forward_returns (lm : ElmobiLm) (inputs : tensor3)
  (seq_len : list nat) (g : generator) (t : nat) :
  lm_shapes lm ->
  forward_layers lm <> [] ->
  inputs <> [] ->
  time_shape (length seq_len) t inputs ->
  Forall (fun len => 1 <= len <= t) seq_len ->
  generator_shape (length seq_len) (lm_hidden_size lm) g ->
  exists enc g' t',
    ElmobiLm_forward lm inputs seq_len g = Ok (enc, g') /\
    length enc = length (forward_layers lm) /\
    1 <= t' <= t /\
    Forall (shape3 (length seq_len) t' (2 * lm_hidden_size lm)) enc.
Proof.
  intros Hlm Hne Hin [Hn Hrows] Hlens Hg.
  unfold ElmobiLm_forward.
  destruct (sort_descending_perm seq_len) as [Hpl Hpi].
  pose proof (sort_descending_sorted seq_len) as Hsorted.
  destruct (sort_descending seq_len) as [sort_lens sort_idx].
  cbn [fst snd] in Hpl, Hpi, Hsorted.
  destruct (perm_seq_in_range sort_idx _ Hpi) as [Hil Hir].
  pose proof (Permutation_length Hpl) as Hll.
  pose proof (Permutation_Forall (Permutation_sym Hpl) Hlens) as Hsl.
  set (sorted_inputs := index_select inputs sort_idx).
  assert (Hsn : length sorted_inputs = length sort_lens).
  { subst sorted_inputs; rewrite index_select_length; [lia|].
    rewrite Hn; exact Hir. }
  assert (Hsrows : Forall (fun row => length row = t) sorted_inputs)
    by (apply index_select_Forall; exact Hrows).
  unfold pack_padded_sequence.
  rewrite Hsorted; cbn [negb].
  rewrite existsb_zero_length
    by (eapply Forall_impl; [|exact Hsl]; simpl; intros; lia).
  cbn [bind].
  set (packed := {| packed_data :=
                      map2 (fun row len => firstn len row)
                           sorted_inputs sort_lens;
                    packed_width := feature_size sorted_inputs |}).
  assert (Hpacked : snd (pad_packed_sequence packed) = sort_lens).
  { destruct (pad_packed_sequence_lengths packed) as [-> _].
    subst packed; cbn [packed_data].
    apply (packed_lengths _ _ t Hsn Hsrows).
    eapply Forall_impl; [|exact Hsl]; simpl; intros; lia. }
  assert (Hpn : length (packed_data packed) = length seq_len).
  { subst packed; cbn [packed_data]; rewrite map2_length; lia. }
  assert (Hgp : generator_shape (length (packed_data packed))
                                (lm_hidden_size lm) g)
    by (rewrite Hpn; exact Hg).
  destruct (lstm_forward_returns lm packed g Hlm Hgp Hne)
    as (r & Hr & Hlen); [rewrite Hpacked; exact Hsorted|].
  pose proof (lstm_forward_shapes lm packed None g r Hlm Hgp Hr) as Hshapes.
  rewrite Hpacked, Hpn in Hshapes.
  rewrite Hr; cbn [bind].
  eexists _, _, (list_max sort_lens); split; [reflexivity|].
  split; [rewrite length_map; exact Hlen|].
  split.
  - split.
    + destruct sort_lens as [|len rest].
      * exfalso; destruct inputs; [apply Hin; reflexivity|].
        simpl in Hn, Hll; lia.
      * pose proof (Forall_inv Hsl) as H1; simpl in H1.
        change (list_max (len :: rest))
          with (Nat.max len (list_max rest)); lia.
    + apply list_max_le.
      eapply Forall_impl; [|exact Hsl]; simpl; intros; lia.
  - rewrite Forall_map.
    eapply Forall_impl; [|exact Hshapes]; simpl; intros layer Hlayer.
    apply shape3_index_select; [|exact Hlayer].
    rewrite <- Hil; apply sort_ascending_perm.
Qed.

(** ** Views, padding and slices of the encoder output *)

Lemma concat_length_uniform {A : Type} (l : list (list A)) (n : nat) :
  Forall (fun x => length x = n) l -> length (concat l) = length l * n.
Proof.
  induction 1 as [|x l Hx _ IH]; [reflexivity|].
  cbn [concat length]; rewrite length_app, IH, Hx; lia.
Qed.

(** Cutting the concatenation of pieces of [n] elements into pieces of [n]
    elements gives the pieces back. *)
Lemma chunks_concat {A : Type} (l : list (list A)) (n : nat) :
  Forall (fun x => length x = n) l -> chunks (length l) n (concat l) = l.
Proof.
  unfold chunks; induction 1 as [|x l Hx _ IH]; [reflexivity|].
  cbn [length seq map concat]; f_equal.
  - cbn [Nat.mul skipn].
    rewrite firstn_app, Hx, Nat.sub_diag, firstn_all2 by lia.
    cbn [firstn]; apply app_nil_r.
  - rewrite <- seq_shift, map_map.
    rewrite <- IH at 2; apply map_ext; intros i.
    rewrite skipn_app, Hx, skipn_all2 by (rewrite Hx; simpl; lia).
    cbn [app]; do 2 f_equal; simpl; lia.
Qed.

Lemma concat_concat_map {A : Type} (l : list (list (list A))) :
  concat (concat l) = concat (map (@concat A) l).
Proof.
  induction l as [|x l IH]; [reflexivity|].
  cbn [concat map]; rewrite concat_app, IH; reflexivity.
Qed.

(** A view with the sizes that the tensor has is the tensor, under one more
    dimension of size 1. *)
Lemma view_1_same_shape (x : tensor3) (s1 s2 s3 : nat) :
  shape3 s1 s2 s3 x -> view_1 x s1 s2 s3 = Ok [x].
Proof.
  intros [Hn Hx]; unfold view_1.
  assert (Hrows : Forall (fun row => length (concat row) = s2 * s3) x).
  { eapply Forall_impl; [|exact Hx]; simpl; intros row [Ht Hw].
    rewrite (concat_length_uniform row s3 Hw), Ht; reflexivity. }
  rewrite concat_concat_map.
  assert (Hflat : length (concat (map (@concat R) x)) = s1 * s2 * s3).
  { rewrite (concat_length_uniform _ (s2 * s3)), length_map, Hn by
      (rewrite Forall_map; exact Hrows).
    lia. }
  rewrite Hflat, Nat.eqb_refl.
  do 2 f_equal.
  rewrite <- Hn, <- (length_map (@concat R) x).
  rewrite chunks_concat by (rewrite Forall_map; exact Hrows).
  rewrite map_map.
  rewrite <- (map_id x) at 2; apply map_ext_in; intros row Hrow.
  rewrite Forall_forall in Hx; destruct (Hx row Hrow) as [Ht Hw].
  rewrite <- Ht; apply chunks_concat; exact Hw.
Qed.

Lemma map2_diag {A B : Type} (f : A -> A -> B) (l : list A) :
  map2 f l l = map (fun x => f x x) l.
Proof. induction l as [|x l IH]; [reflexivity | simpl; rewrite IH; reflexivity]. Qed.

Lemma cat_last3_diag (x : tensor3) :
  cat_last3 x x = map (map (fun v => v ++ v)) x.
Proof.
  unfold cat_last3; rewrite map2_diag.
  apply map_ext; intros row; apply map2_diag.
Qed.

(** The sizes read off the first entries of a tensor of regular shape. *)
Lemma sizes_of_shape (n t h : nat) (x : tensor4) :
  x <> [] -> 1 <= n -> 1 <= t ->
  Forall (shape3 n t h) x ->
  size1 x = n /\ size2 x = t /\ size3 x = h.
Proof.
  intros Hx Hn Ht H; unfold size1, size2, size3.
  destruct x as [|layer x]; [contradiction|].
  destruct (Forall_inv H) as [Hlen Hrows]; cbn [hd].
  destruct layer as [|row layer]; [simpl in Hlen; lia|].
  destruct (Forall_inv Hrows) as [Hrow Hvecs]; cbn [hd].
  destruct row as [|v row]; [simpl in Hrow; lia|].
  pose proof (Forall_inv Hvecs) as Hv; cbn [hd].
  repeat split; assumption.
Qed.

Lemma shape3_zeros2_app (n t h extra : nat) (x : tensor3) :
  shape3 n t h x ->
  shape3 n (t + extra) h (map (fun row => row ++ zeros2 extra h) x).
Proof.
  intros [Hn Hx]; split; [rewrite length_map; exact Hn|].
  rewrite Forall_map.
  eapply Forall_impl; [|exact Hx]; simpl; intros row [Ht Hw].
  unfold zeros2, zeros; split.
  - rewrite length_app, repeat_length, Ht; reflexivity.
  - apply Forall_app; split; [exact Hw|].
    apply Forall_forall; intros v Hv.
    apply repeat_spec in Hv; subst v; apply repeat_length.
Qed.

Lemma pad_time_shape (n t h extra : nat) (x : tensor4) :
  Forall (shape3 n t h) x ->
  Forall (shape3 n (t + extra) h) (pad_time x extra h).
Proof.
  intros H; unfold pad_time; rewrite Forall_map.
  eapply Forall_impl; [|exact H]; simpl; intros layer.
  apply shape3_zeros2_app.
Qed.

(** [x[1:-1]] of a list of [k + 2] elements holds its elements [1 .. k]. *)
Lemma strip_ends_length {A : Type} (x : list A) :
  length (strip_ends x) = length x - 2.
Proof.
  unfold strip_ends, slice; rewrite length_firstn, length_skipn; lia.
Qed.

Lemma strip_ends_nth {A : Type} (x : list A) (t : nat) (d : A) :
  t < length x - 2 -> nth t (strip_ends x) d = nth (S t) x d.
Proof.
  intros Ht; unfold strip_ends, slice.
  rewrite nth_firstn, nth_skipn.
  destruct (t <? length x - 1 - 1) eqn:E; [reflexivity|].
  apply Nat.ltb_ge in E; lia.
Qed.

Lemma strip_ends_In {A : Type} (x : list A) (a : A) :
  In a (strip_ends x) -> In a x.
Proof.
  unfold strip_ends, slice; intros H.
  apply firstn_In_of in H.
  destruct x as [|b x]; [exact H | right; exact H].
Qed.

Lemma shape3_strip_ends (n t h : nat) (x : tensor3) :
  shape3 n t h x -> shape3 n (t - 2) h (map strip_ends x).
Proof.
  intros [Hn Hx]; split; [rewrite length_map; exact Hn|].
  rewrite Forall_map.
  eapply Forall_impl; [|exact Hx]; simpl; intros row [Ht Hw].
  split; [rewrite strip_ends_length, Ht; reflexivity|].
  rewrite Forall_forall in *; intros v Hv.
  apply Hw, strip_ends_In, Hv.
Qed.

(** ** The expanded words *)

(** The row of [expanded_words] for a row of words: zeros, the words at
    positions [1 .. max_len], the begin marker at position 0 and the end
    marker one position after the last word that is not padding. *)
Definition expand_row (m : _ElmoModel) (max_len : nat) (w : list nat)
  : list nat :=
  set_nth (count_not_pad m w + 1) (eos_index m)
    (set_nth 0 (bos_index m)
       (assign_slice 1 (max_len + 2 - 1) (repeat 0 (max_len + 2)) w)).

Lemma expand_words_rows (m : _ElmoModel) (words : list (list nat)) :
  expand_words m words = map (expand_row m (max_len_of words)) words.
Proof.
  unfold expand_words; cbv zeta.
  set (zero_row := repeat 0 (max_len_of words + 2)).
  rewrite (map2_map_l (fun row w => assign_slice 1 (length row - 1) row w)
                      (fun _ : list nat => zero_row) words words).
  rewrite map2_diag, map_map, map2_map_l, map2_map_r, map2_diag.
  apply map_ext; intros w; unfold expand_row, zero_row.
  rewrite repeat_length; reflexivity.
Qed.

Lemma max_len_of_rows (words : list (list nat)) (max_len : nat) :
  words <> [] -> Forall (fun row => length row = max_len) words ->
  max_len_of words = max_len.
Proof.
  intros Hne H; destruct words as [|row words]; [contradiction|].
  exact (Forall_inv H).
Qed.

Lemma skipn_repeat {A : Type} (x : A) (n k : nat) :
  skipn n (repeat x (n + k)) = repeat x k.
Proof. induction n as [|n IH]; [reflexivity | exact IH]. Qed.

Lemma count_not_pad_le (m : _ElmoModel) (w : list nat) :
  count_not_pad m w <= length w.
Proof. unfold count_not_pad; apply filter_length_le. Qed.

(** Where the markers and the words are in an expanded row. *)
Lemma expand_row_spec (m : _ElmoModel) (w : list nat) :
  let e := expand_row m (length w) w in
  let len := count_not_pad m w in
  length e = length w + 2 /\
  nth 0 e 0 = bos_index m /\
  nth (len + 1) e 0 = eos_index m /\
  forall t, t < length w -> t <> len -> nth (S t) e 0 = nth t w 0.
Proof.
  cbv zeta; unfold expand_row.
  pose proof (count_not_pad_le m w) as Hle.
  set (len := count_not_pad m w) in *.
  set (filled := assign_slice 1 (length w + 2 - 1)
                              (repeat 0 (length w + 2)) w).
  assert (Hfilled : filled = 0 :: w ++ [0]).
  { subst filled; unfold assign_slice.
    replace (length w + 2 - 1) with (length w + 1) by lia.
    assert (Hfirst : firstn 1 (repeat 0 (length w + 2)) = [0])
      by (replace (length w + 2) with (S (length w + 1)) by lia;
          reflexivity).
    assert (Hlast : skipn (length w + 1) (repeat 0 (length w + 2)) = [0])
      by (replace (length w + 2) with (length w + 1 + 1) by lia;
          exact (skipn_repeat 0 (length w + 1) 1)).
    rewrite Hfirst, Hlast; reflexivity. }
  assert (Hlen : length filled = length w + 2)
    by (rewrite Hfilled; cbn [length]; rewrite length_app; simpl; lia).
  repeat split.
  - rewrite !set_nth_length; exact Hlen.
  - rewrite set_nth_other by lia.
    apply set_nth_same; lia.
  - apply set_nth_same; rewrite set_nth_length; lia.
  - intros t Ht Hne.
    rewrite !set_nth_other by lia.
    rewrite Hfilled; cbn [nth].
    apply app_nth1; exact Ht.
Qed.

(** ** The layers before the final slice *)

Lemma seq_len_of_range (m : _ElmoModel) (words : list (list nat))
  (max_len : nat) :
  Forall (fun row => length row = max_len) words ->
  Forall (fun len => 1 <= len <= max_len + 2) (seq_len_of m words).
Proof.
  intros H; unfold seq_len_of; rewrite Forall_map.
  eapply Forall_impl; [|exact H]; simpl; intros row Hrow.
  pose proof (count_not_pad_le m row); lia.
Qed.

(** For the "elmo" encoder, on a batch of at least one row, with token
    embeddings of the width of the hidden size of the stack: the call of the
    stack returns, and the layers before the final slice are the duplicated
    token embedding followed by the layers of the stack, all of one row per
    batch element, [max_len + 2] positions and twice the hidden size. *)
Lemma elmo_encoder_output_spec (m : _ElmoModel) (words : list (list nat))
  (g : generator) (max_len : nat) :
  words <> [] ->
  Forall (fun row => length row = max_len) words ->
  lm_shapes (encoder m) ->
  forward_layers (encoder m) <> [] ->
  shape3 (length words) (max_len + 2) (lm_hidden_size (encoder m))
         (token_embedding_of m (expand_words m words)) ->
  generator_shape (length words) (lm_hidden_size (encoder m)) g ->
  exists full g',
    elmo_encoder_output m words g = Ok (full, g') /\
    length full = length (forward_layers (encoder m)) + 1 /\
    Forall (shape3 (length words) (max_len + 2)
                   (2 * lm_hidden_size (encoder m))) full /\
    nth 0 full []
    = map (map (fun v => v ++ v)) (token_embedding_of m (expand_words m words)).
Proof.
  intros Hne Hrows Hlm Hlayers Hemb Hg.
  unfold elmo_encoder_output; cbv zeta.
  rewrite (max_len_of_rows words max_len Hne Hrows).
  set (emb := token_embedding_of m (expand_words m words)) in *.
  set (h := lm_hidden_size (encoder m)) in *.
  assert (Hn : length (seq_len_of m words) = length words)
    by (unfold seq_len_of; apply length_map).
  assert (Hpos : 1 <= length words)
    by (destruct words; [contradiction | simpl; lia]).
  destruct (ElmobiLm_forward_returns (encoder m) emb (seq_len_of m words) g
              (max_len + 2) Hlm Hlayers)
    as (enc & g' & t' & Henc & Hlen & Ht' & Hshapes).
  - destruct Hemb as [Hl _]; destruct emb; [simpl in Hl; lia | discriminate].
  - rewrite Hn; apply (shape3_time_shape _ _ _ _ Hemb).
  - apply seq_len_of_range; exact Hrows.
  - rewrite Hn; exact Hg.
  - rewrite Hn in Hshapes.
    rewrite Henc; cbn [bind].
    assert (Henc_ne : enc <> [])
      by (destruct enc; [destruct (forward_layers (encoder m));
                           [contradiction | discriminate]
                        | discriminate]).
    destruct (sizes_of_shape _ _ _ enc Henc_ne Hpos (proj1 Ht') Hshapes)
      as (_ & Hs2 & Hs3).
    rewrite Hs2, Hs3; fold h.
    set (padded := if (t' <? max_len + 2)%nat
                   then pad_time enc (max_len + 2 - t') (2 * h) else enc).
    assert (Hpadded : Forall (shape3 (length words) (max_len + 2) (2 * h))
                             padded /\ length padded = length enc).
    { subst padded; destruct (t' <? max_len + 2)%nat eqn:E.
      - split; [|apply length_map].
        replace (max_len + 2) with (t' + (max_len + 2 - t')) at 1 by lia.
        apply pad_time_shape; exact Hshapes.
      - apply Nat.ltb_ge in E.
        replace (max_len + 2) with t' by lia.
        split; [exact Hshapes | reflexivity]. }
    destruct Hpadded as [Hpadded Hplen].
    assert (Hpadded_ne : padded <> [])
      by (destruct padded, enc; try discriminate; congruence).
    destruct (sizes_of_shape (length words) (max_len + 2) (2 * h) padded
                Hpadded_ne Hpos ltac:(lia) Hpadded)
      as (Hp1 & Hp2 & Hp3).
    rewrite Hp1, Hp2, Hp3.
    assert (Hcat : shape3 (length words) (max_len + 2) (2 * h)
                          (cat_last3 emb emb)).
    { replace (2 * h) with (h + h) by lia.
      apply shape3_cat_last3; exact Hemb. }
    rewrite (view_1_same_shape _ _ _ _ Hcat); cbn [bind].
    eexists _, _; split; [reflexivity|].
    cbn [app length nth].
    split; [rewrite Hplen, Hlen; lia|].
    split; [constructor; assumption | apply cat_last3_diag].
Qed.

(** ** The final slice *)

Lemma ElmoModel_forward_of_layers (m : _ElmoModel) (words : list (list nat))
  (g g' : generator) (full : tensor4) :
  encoder_name m = "elmo"%string ->
  elmo_encoder_output m words g = Ok (full, g') ->
  ElmoModel_forward m words g = Ok (Layers (map (map strip_ends) full), g').
Proof.
  intros Hname Hfull; unfold ElmoModel_forward.
  rewrite Hname, String.eqb_refl, Hfull; reflexivity.
Qed.

Lemma shape3_row (n t h : nat) (x : tensor3) (b : nat) :
  shape3 n t h x -> b < n ->
  length (nth b x []) = t /\ Forall (fun v => length v = h) (nth b x []).
Proof.
  intros [Hn Hx] Hb; rewrite Forall_forall in Hx.
  apply Hx, nth_In; lia.
Qed.

(** Entry [t] of a sliced row is entry [t + 1] of the row: the slice drops
    position 0 and the last position, and nothing else. *)
Lemma stripped_entry (n k h : nat) (full : tensor4) (l b t : nat) :
  Forall (shape3 n (k + 2) h) full ->
  l < length full -> b < n -> t < k ->
  nth t (nth b (nth l (map (map strip_ends) full) []) []) []
  = nth (S t) (nth b (nth l full []) []) [].
Proof.
  intros Hfull Hl Hb Ht.
  rewrite Forall_forall in Hfull.
  pose proof (Hfull _ (nth_In full [] Hl)) as Hlayer.
  destruct (shape3_row _ _ _ _ b Hlayer Hb) as [Hrow _].
  rewrite (nth_map_in (map strip_ends) full l [] []) by exact Hl.
  rewrite (nth_map_in strip_ends (nth l full []) b [] [])
    by (destruct Hlayer as [-> _]; exact Hb).
  apply strip_ends_nth; lia.
Qed.

Lemma example_lm_shapes : lm_shapes example_lm.
Proof.
  constructor; [reflexivity | |];
    repeat constructor; try apply example_cell_shapes.
Defined.

(** Following the spec: the positions of a row of the expanded sequence
    other than the begin marker, at position 0, and the end marker, one
    position after the [len] words of the row. *)
Definition without_markers {A : Type} (len : nat) (row : list A) : list A :=
  firstn len (skipn 1 row) ++ skipn (len + 2) row.

(** Following the spec: layer 0 as the raw token embedding without the two
    marker positions of every row, duplicated across the two halves. *)
Definition layer_0_without_markers (m : _ElmoModel) (words : list (list nat))
  : tensor3 :=
  map2 (fun row w =>
          map (fun v => v ++ v) (without_markers (count_not_pad m w) row))
       (token_embedding_of m (expand_words m words)) words.

(** A model with the stack of one layer, whose token embedding of a word is
    the vector of its id; padding is 0, the begin marker 1 and the end
    marker 2. *)
Definition example_model : _ElmoModel :=
  {| encoder_name := "elmo";
     _pad_index := 0;
     bos_index := 1;
     eos_index := 2;
     token_embedding_of := map (map (fun w => [IZR (Z.of_nat w)]));
     encoder := example_lm;
     lstm_encoder := fun x _ => x |}.

(** Two rows of two words; the second row has one word and one padding. *)
Definition example_words : list (list nat) := [[3; 4]; [5; 0]].

Lemma example_embedding_shape :
  shape3 2 4 1
    (token_embedding_of example_model
       (expand_words example_model example_words)).
Proof.
  split; [reflexivity|].
  repeat constructor.
Defined.

(** C6, as the code has it.  Under the "elmo" encoder, for a batch of at
    least one row of [max_len] word ids, a stack of at least one layer with
    the shapes of [__init__], and token embeddings of the width of the
    hidden size: [forward] returns [layers + 1] tensors of one row per batch
    element, [max_len] positions and twice the hidden size; layer 0 at
    position [t] is the token embedding at position [t + 1] of the expanded
    sequence, twice; every layer at position [t] is position [t + 1] of its
    [max_len + 2] positions, so that the slice drops position 0, where the
    begin marker is, and position [max_len + 1].  The end marker of a row is
    at position [len + 1] for its [len] words that are not padding: it is
    dropped for a row without padding, and is position [len] of the output
    for any other row. *)
Theorem C6_forward_layers (m : _ElmoModel) (words : list (list nat))
  (g : generator) (max_len : nat) :
  encoder_name m = "elmo"%string ->
  words <> [] ->
  Forall (fun row => length row = max_len) words ->
  lm_shapes (encoder m) ->
  forward_layers (encoder m) <> [] ->
  let h := lm_hidden_size (encoder m) in
  let batch := length words in
  let layers := length (forward_layers (encoder m)) in
  let expanded := expand_words m words in
  let emb := token_embedding_of m expanded in
  shape3 batch (max_len + 2) h emb ->
  generator_shape batch h g ->
  exists full out g',
    elmo_encoder_output m words g = Ok (full, g') /\
    ElmoModel_forward m words g = Ok (Layers out, g') /\
    length out = layers + 1 /\
    Forall (shape3 batch max_len (2 * h)) out /\
    (forall b t, b < batch -> t < max_len ->
       nth t (nth b (nth 0 out []) []) []
       = nth (S t) (nth b emb []) [] ++ nth (S t) (nth b emb []) []) /\
    (forall l b t, l < layers + 1 -> b < batch -> t < max_len ->
       nth t (nth b (nth l out []) []) []
       = nth (S t) (nth b (nth l full []) []) []) /\
    (forall b, b < batch ->
       let e := nth b expanded [] in
       let len := count_not_pad m (nth b words []) in
       length e = max_len + 2 /\
       nth 0 e 0 = bos_index m /\
       nth (len + 1) e 0 = eos_index m /\
       len <= max_len /\
       forall t, t < max_len -> t <> len ->
                 nth (S t) e 0 = nth t (nth b words []) 0).
Proof.
  intros Hname Hne Hrows Hlm Hlayers h batch layers expanded emb Hemb Hg.
  destruct (elmo_encoder_output_spec m words g max_len Hne Hrows Hlm Hlayers
              Hemb Hg) as (full & g' & Hfull & Hlen & Hshapes & H0).
  fold expanded emb h layers batch in Hlen, Hshapes, H0.
  exists full, (map (map strip_ends) full), g'.
  split; [exact Hfull|].
  split; [apply ElmoModel_forward_of_layers; assumption|].
  split; [rewrite length_map; exact Hlen|].
  split; [|split; [|split]].
  - rewrite Forall_map.
    eapply Forall_impl; [|exact Hshapes]; simpl; intros layer Hlayer.
    replace max_len with (max_len + 2 - 2) at 1 by lia.
    apply shape3_strip_ends; exact Hlayer.
  - intros b t Hb Ht.
    rewrite (stripped_entry batch max_len (2 * h) full 0 b t Hshapes)
      by (try assumption; lia).
    rewrite H0.
    destruct (shape3_row _ _ _ _ b Hemb Hb) as [Hrow _].
    rewrite (nth_map_in (map (fun v => v ++ v)) emb b [] [])
      by (destruct Hemb as [-> _]; exact Hb).
    rewrite (nth_map_in (fun v => v ++ v) (nth b emb []) (S t) [] [])
      by lia.
    reflexivity.
  - intros l b t Hl Hb Ht.
    apply (stripped_entry batch max_len (2 * h)); try assumption; lia.
  - intros b Hb; cbv zeta; unfold expanded.
    rewrite expand_words_rows, (max_len_of_rows words max_len Hne Hrows).
    rewrite (nth_map_in (expand_row m max_len) words b [] []) by exact Hb.
    assert (Hw : length (nth b words []) = max_len).
    { rewrite Forall_forall in Hrows; apply Hrows, nth_In; exact Hb. }
    pose proof (expand_row_spec m (nth b words [])) as Hspec.
    cbv zeta in Hspec; rewrite Hw in Hspec.
    destruct Hspec as (H1 & H2 & H3 & H4).
    pose proof (count_not_pad_le m (nth b words [])) as Hle.
    rewrite Hw in Hle.
    repeat split; assumption.
Qed.

Lemma C6_forward_layers_witness :
  exists full out g',
    elmo_encoder_output example_model example_words example_masks
    = Ok (full, g') /\
    ElmoModel_forward example_model example_words example_masks
    = Ok (Layers out, g') /\
    length out = 2 /\
    Forall (shape3 2 2 2) out /\
    nth 1 (nth 1 (nth 0 out []) []) [] = [2%R; 2%R] /\
    nth 2 (nth 1 (expand_words example_model example_words) []) 0
    = eos_index example_model.
Proof.
  destruct (C6_forward_layers example_model example_words example_masks 2
              eq_refl ltac:(discriminate)
              ltac:(repeat constructor)
              example_lm_shapes ltac:(discriminate)
              example_embedding_shape example_masks_shape)
    as (full & out & g' & Hfull & Hout & Hlen & Hshape & H0 & _ & Hmark).
  exists full, out, g'.
  split; [exact Hfull|]; split; [exact Hout|]; split; [exact Hlen|].
  split; [exact Hshape|].
  split.
  - rewrite (H0 1 1) by (simpl; lia); reflexivity.
  - reflexivity.
Defined.

(** C6, as the spec has it, fails on a row with padding: in the second row
    of the example the end marker is at position 2 of the expanded row, and
    its embedding is position 1 of layer 0 of the output, where stripping
    the marker positions would leave the embedding of the padding. *)
Lemma C6_counterexample :
  exists out g',
    ElmoModel_forward example_model example_words example_masks
    = Ok (Layers out, g') /\
    nth 1 (expand_words example_model example_words) [] = [1; 5; 2; 0] /\
    nth 1 (nth 0 out []) [] = [[5%R; 5%R]; [2%R; 2%R]] /\
    nth 1 (layer_0_without_markers example_model example_words) []
    = [[5%R; 5%R]; [0%R; 0%R]] /\
    nth 0 out [] <> layer_0_without_markers example_model example_words.
Proof.
  destruct (elmo_encoder_output_spec example_model example_words example_masks
              2 ltac:(discriminate) ltac:(repeat constructor)
              example_lm_shapes ltac:(discriminate)
              example_embedding_shape example_masks_shape)
    as (full & g' & Hfull & Hlen & _ & H0).
  exists (map (map strip_ends) full), g'.
  split; [apply ElmoModel_forward_of_layers; [reflexivity | exact Hfull]|].
  split; [reflexivity|].
  destruct full as [|layer0 full]; [discriminate Hlen|].
  cbn [nth] in H0; cbn [map nth]; rewrite H0.
  assert (Hrow : nth 1 (map strip_ends
                         (map (map (fun v : vec => v ++ v))
                            (token_embedding_of example_model
                               (expand_words example_model example_words))))
                     []
                 = [[5%R; 5%R]; [2%R; 2%R]]) by reflexivity.
  assert (Hspec : nth 1 (layer_0_without_markers example_model example_words)
                      []
                  = [[5%R; 5%R]; [0%R; 0%R]]) by reflexivity.
  split; [exact Hrow|].
  split; [exact Hspec|].
  intros Heq; rewrite Heq, Hspec in Hrow.
  apply (f_equal (fun x : mat => nth 0 (nth 1 x []) 0%R)) in Hrow.
  cbn [nth] in Hrow; lra.
Qed.

(* ================================================================== *)
(** * Further properties of the cell *)

(** ** Timesteps beyond the longest sequence *)

(** X1.  A cell that goes forward, on a batch with sorted lengths, returns
    when the batch has no timestep beyond its longest length, and raises
    [IndexError] when it has one: at the first such timestep every sequence
    is finished and the length index runs off the front of the list. *)
Theorem forward_beyond_longest (c : LstmCellWithProjection) (inputs : tensor3)
  (batch_lengths : list nat) (initial_state : option (mat * mat))
  (g : generator) :
  go_forward c = true ->
  length batch_lengths = length inputs ->
  sorted_descending batch_lengths = true ->
  state_shape inputs initial_state ->
  mask_shape inputs
    (fst (sample_dropout_mask c
            (full_batch_previous_state
               (initial_loop_state c inputs initial_state)) g)) ->
  (total_timesteps_of inputs <= hd 0 batch_lengths ->
   exists r, forward c inputs batch_lengths initial_state g = Ok r) /\
  (hd 0 batch_lengths < total_timesteps_of inputs ->
   forward c inputs batch_lengths initial_state g = Raise IndexError).
Proof.
  intros Hg Hl Hs Hst Hm; split.
  - intros HT.
    destruct (forward_on_rows c inputs batch_lengths initial_state g)
      as (r & Hr & _); [constructor; assumption|].
    exists r; exact Hr.
  - intros Hlt.
    unfold forward, run_timesteps.
    destruct (sample_dropout_mask c _ g) as [dropout_mask g'].
    cbn [fst] in Hm.
    destruct (initial_rows_spec c inputs batch_lengths initial_state
                dropout_mask Hl Hst Hm) as (Hs0 & Hlen & Hx & Hmask).
    cbv zeta in Hs0.
    rewrite (seq_split_at _ _ Hlt), for_each_app, Hs0.
    destruct (run_timesteps_forward c inputs batch_lengths
                (total_timesteps_of inputs) dropout_mask (hd 0 batch_lengths)
                Hg Hs 0
                (current_length_index
                   (initial_loop_state c inputs initial_state))
                _ Hlen Hx Hmask) as (cli' & Hrun & Hinv).
    + lia.
    + unfold initial_loop_state; cbn [current_length_index]; rewrite Hg.
      pose proof (active_le_length batch_lengths 0); lia.
    + rewrite Hrun; cbn [bind for_each].
      unfold forward_timestep; cbv zeta.
      change (current_length_index (state_of cli' _)) with cli'.
      rewrite (timestep_index_forward c _ _ Hg).
      assert (Hall : Forall (fun len => len <= hd 0 batch_lengths)
                            batch_lengths).
      { destruct batch_lengths as [|a l]; [constructor|].
        constructor; [simpl; lia|].
        apply (sorted_descending_head a l Hs). }
      change (0 + hd 0 batch_lengths) with (hd 0 batch_lengths) in Hinv.
      rewrite (active_none _ _ Hall) in Hinv.
      rewrite (update_length_index_forward_raises c batch_lengths _ cli' Hg
                 Hall) by lia.
      reflexivity.
Qed.

(** One sequence of length 1 padded to two timesteps. *)
Lemma forward_beyond_longest_witness :
  forward (example_cell true None None) [[[1%R]; [1%R]]] [1] None
          example_generator = Raise IndexError.
Proof.
  apply (forward_beyond_longest (example_cell true None None)
           [[[1%R]; [1%R]]] [1] None example_generator
           eq_refl eq_refl eq_refl I).
  - rewrite no_dropout_example; exact I.
  - simpl; lia.
Defined.

(** ** The final state *)

Lemma row_steps_app (c : LstmCellWithProjection) (ts ts' : list nat) (r : row) :
  row_steps c (ts ++ ts') r = row_steps c ts' (row_steps c ts r).
Proof. unfold row_steps; apply fold_left_app. Qed.

(** After a last time position within the row, the state of the row is the
    output written at that position. *)
Lemma row_steps_state_last (c : LstmCellWithProjection) (ts : list nat)
  (t : nat) (r : row) :
  t < r_len r -> t < length (r_acc r) ->
  r_state (row_steps c (ts ++ [t]) r)
  = nth t (r_acc (row_steps c (ts ++ [t]) r)) [].
Proof.
  intros Ht Hacc; rewrite row_steps_app.
  pose proof (row_steps_len c ts r) as Hlen.
  pose proof (row_steps_acc_length c ts r) as Hal.
  set (r' := row_steps c ts r) in *.
  unfold row_steps; cbn [fold_left]; unfold row_step.
  destruct (Nat.ltb_spec t (r_len r')); [|lia].
  cbn [r_state r_acc]; symmetry; apply set_nth_same; lia.
Qed.

(** The time positions that a row of length [len] takes part in, in the
    order of the loop. *)
Lemma visit_order_filter (c : LstmCellWithProjection) (n len : nat) :
  len <= n ->
  filter (fun t => (t <? len)%nat) (visit_order c n)
  = if go_forward c then seq 0 len else rev (seq 0 len).
Proof.
  intros H; destruct (go_forward c) eqn:Hg.
  - rewrite (visit_order_forward c n Hg), filter_seq_below.
    f_equal; lia.
  - rewrite (visit_order_backward c n Hg), filter_rev, filter_seq_below.
    do 2 f_equal; lia.
Qed.

(** The time position that a row of length [len >= 1] is at last: its last
    one for a cell that goes forward, its first one for a cell that goes
    backward. *)
Definition last_position (c : LstmCellWithProjection) (len : nat) : nat :=
  if go_forward c then len - 1 else 0.

Lemma visit_order_last (c : LstmCellWithProjection) (n len : nat) :
  1 <= len -> len <= n ->
  exists ts,
    filter (fun t => (t <? len)%nat) (visit_order c n)
    = ts ++ [last_position c len].
Proof.
  intros H1 Hn; rewrite (visit_order_filter c n len Hn).
  unfold last_position; destruct (go_forward c).
  - exists (seq 0 (len - 1)).
    replace len with (S (len - 1)) at 1 by lia.
    rewrite seq_S; reflexivity.
  - exists (rev (seq 1 (len - 1))).
    replace len with (S (len - 1)) at 1 by lia.
    reflexivity.
Qed.

(** X2.  On a batch that [forward] accepts, with no length above the number
    of timesteps: the final hidden state of a sequence of length at least 1
    is the output at its last time position when the cell goes forward, and
    the output at time position 0 when it goes backward; the final state and
    memory of a sequence of length 0 are its initial ones. *)
Theorem final_state_is_last_output (c : LstmCellWithProjection)
  (inputs : tensor3) (batch_lengths : list nat)
  (initial_state : option (mat * mat)) (g : generator) :
  batch_ok c inputs batch_lengths initial_state g ->
  Forall (fun len => len <= total_timesteps_of inputs) batch_lengths ->
  exists r,
    forward c inputs batch_lengths initial_state g = Ok r /\
    forall b, b < length inputs ->
      let len := nth b batch_lengths 0 in
      let s0 := initial_loop_state c inputs initial_state in
      (1 <= len ->
       nth b (fst (final_state r)) []
       = nth (last_position c len) (nth b (outputs r) []) []) /\
      (len = 0 ->
       nth b (fst (final_state r)) [] = nth b (full_batch_previous_state s0) []
       /\
       nth b (snd (final_state r)) []
       = nth b (full_batch_previous_memory s0) []).
Proof.
  intros Hok Hw.
  destruct (forward_on_rows c inputs batch_lengths initial_state g Hok)
    as (r & Hr & Hout & Hfinal & _).
  cbv zeta in Hout, Hfinal.
  exists r; split; [exact Hr|].
  intros b Hb; cbv zeta.
  rewrite Hout, Hfinal; cbn [fst snd]; unfold final_rows.
  rewrite !map_map.
  set (d := mkRow 0 [] None [] [] []).
  rewrite !(nth_map_in _ _ _ _ d) by (rewrite initial_rows_length; exact Hb).
  rewrite nth_initial_rows by exact Hb; cbv zeta.
  set (r0 := {| r_len := nth b batch_lengths 0;
                r_x := nth b inputs [];
                r_mask := _; r_mem := _; r_state := _; r_acc := _ |}).
  assert (Hlen : nth b batch_lengths 0 <= total_timesteps_of inputs).
  { rewrite Forall_forall in Hw; apply Hw, nth_In.
    rewrite (lengths_per_row _ _ _ _ _ Hok); exact Hb. }
  rewrite row_steps_filter; change (r_len r0) with (nth b batch_lengths 0).
  split.
  - intros H1.
    destruct (visit_order_last c (total_timesteps_of inputs) _ H1 Hlen)
      as [ts ->].
    apply row_steps_state_last.
    + unfold last_position; destruct (go_forward c); simpl; lia.
    + subst r0; cbn [r_acc]; unfold zeros2; rewrite repeat_length.
      unfold last_position; destruct (go_forward c); lia.
  - intros H0; rewrite H0.
    rewrite (visit_order_filter c _ 0) by lia.
    destruct (go_forward c); split; reflexivity.
Qed.

Lemma final_state_is_last_output_witness :
  exists r,
    forward (example_cell true None None) example_inputs [2; 1] None
            example_generator = Ok r /\
    nth 0 (fst (final_state r)) [] = nth 1 (nth 0 (outputs r) []) [] /\
    nth 1 (fst (final_state r)) [] = nth 0 (nth 1 (outputs r) []) [].
Proof.
  destruct (final_state_is_last_output (example_cell true None None)
              example_inputs [2; 1] None example_generator
              (example_batch_ok true) ltac:(repeat constructor))
    as (r & Hr & H).
  exists r; split; [exact Hr|]; split.
  - apply (H 0); simpl; lia.
  - apply (H 1); simpl; lia.
Defined.

(** ** A sequence in a batch and the same sequence alone *)

(** Two rows with the same length, mask row, memory and state, and the same
    inputs within that length, come out of the loop with the same memory and
    state and the same outputs within that length, whatever the number of
    timesteps of their batches. *)
Lemma row_steps_agree (c : LstmCellWithProjection) (r r' : row) (n n' : nat) :
  r_len r' = r_len r -> r_mask r' = r_mask r ->
  r_mem r' = r_mem r -> r_state r' = r_state r ->
  (forall i, i < r_len r -> nth i (r_x r') [] = nth i (r_x r) []) ->
  r_len r <= n -> r_len r <= n' ->
  r_len r <= length (r_acc r) -> r_len r <= length (r_acc r') ->
  let a := row_steps c (visit_order c n) r in
  let a' := row_steps c (visit_order c n') r' in
  r_mem a' = r_mem a /\ r_state a' = r_state a /\
  forall t, t < r_len r -> nth t (r_acc a') [] = nth t (r_acc a) [].
Proof.
  intros Hlen Hmask Hmem Hstate Hx Hn Hn' Hacc Hacc'; cbv zeta.
  rewrite (row_steps_filter c (visit_order c n) r).
  rewrite (row_steps_filter c (visit_order c n') r'), Hlen.
  rewrite !visit_order_filter by assumption.
  set (idxs := if go_forward c then seq 0 (r_len r) else rev (seq 0 (r_len r))).
  assert (Hin : forall i, In i idxs <-> i < r_len r).
  { intros i; subst idxs; destruct (go_forward c).
    - rewrite in_seq; lia.
    - rewrite <- in_rev, in_seq; lia. }
  assert (Hnd : NoDup idxs).
  { subst idxs; destruct (go_forward c);
      [apply seq_NoDup | apply NoDup_rev, seq_NoDup]. }
  destruct (row_steps_run_cell c idxs Hnd r) as (M & S & A).
  { apply Forall_forall; intros i Hi; apply Hin in Hi; lia. }
  destruct (row_steps_run_cell c idxs Hnd r') as (M' & S' & A').
  { apply Forall_forall; intros i Hi; apply Hin in Hi; lia. }
  cbv zeta in M, S, A, M', S', A'.
  rewrite Hmask, Hmem, Hstate in M', S', A'.
  assert (Hxs : map (fun i => nth i (r_x r') []) idxs
                = map (fun i => nth i (r_x r) []) idxs)
    by (apply map_ext_in; intros i Hi; apply Hx, Hin, Hi).
  rewrite Hxs in M', S', A'.
  split; [congruence|]; split; [congruence|].
  intros t Ht.
  destruct (In_nth idxs t 0 (proj2 (Hin t) Ht)) as (k & Hk & Ek).
  rewrite <- Ek, (A k Hk), (A' k Hk); reflexivity.
Qed.

(** The initial state of row [b], as the initial state of a batch of one
    row. *)
Definition initial_state_of_row (b : nat) (initial_state : option (mat * mat))
  : option (mat * mat) :=
  match initial_state with
  | Some (state, memory) => Some ([nth b state []], [nth b memory []])
  | None => None
  end.

Lemma initial_buffers_of_row (c : LstmCellWithProjection) (inputs : tensor3)
  (initial_state : option (mat * mat)) (b : nat) (x : list vec) :
  b < length inputs ->
  let s0 := initial_loop_state c inputs initial_state in
  let s1 := initial_loop_state c [x] (initial_state_of_row b initial_state) in
  nth 0 (full_batch_previous_memory s1) []
  = nth b (full_batch_previous_memory s0) [] /\
  nth 0 (full_batch_previous_state s1) []
  = nth b (full_batch_previous_state s0) [].
Proof.
  intros Hb; cbv zeta; unfold initial_loop_state, initial_state_of_row.
  destruct initial_state as [[state memory]|];
    cbn [full_batch_previous_memory full_batch_previous_state length nth];
    [split; reflexivity|].
  unfold zeros2; cbn [repeat nth].
  rewrite !nth_repeat_lt by exact Hb; split; reflexivity.
Qed.

(** X3.  Without dropout, on a padded batch sorted by length with no
    timestep beyond its longest length, every sequence is computed as it
    would be alone: the cell run on the one sequence, cut at its length,
    with its row of the initial state, returns the outputs of that sequence
    in the batch up to its length, and its final state and memory. *)
Theorem forward_row_alone (c : LstmCellWithProjection) (inputs : tensor3)
  (batch_lengths : list nat) (initial_state : option (mat * mat))
  (g : generator) (b : nat) :
  padded_batch inputs batch_lengths initial_state ->
  ~ ((0 < recurrent_dropout_probability c)%R /\ training c = true) ->
  total_timesteps_of inputs <= hd 0 batch_lengths ->
  b < length inputs ->
  let len := nth b batch_lengths 0 in
  let alone := [firstn len (nth b inputs [])] in
  exists r r1,
    forward c inputs batch_lengths initial_state g = Ok r /\
    forward c alone [len] (initial_state_of_row b initial_state) g = Ok r1 /\
    outputs r1 = [firstn len (nth b (outputs r) [])] /\
    final_state r1
    = ([nth b (fst (final_state r)) []], [nth b (snd (final_state r)) []]).
Proof.
  intros Hpb Hd HT Hb; cbv zeta.
  pose proof (padded_batch_ok c inputs batch_lengths initial_state g Hpb Hd HT)
    as Hok.
  destruct Hpb as [Hl Hs Hst Hrows Hw].
  set (len := nth b batch_lengths 0).
  set (x := nth b inputs []).
  assert (HlenT : len <= total_timesteps_of inputs).
  { rewrite Forall_forall in Hw; apply Hw, nth_In; lia. }
  assert (Hx : length x = total_timesteps_of inputs).
  { rewrite Forall_forall in Hrows; apply Hrows, nth_In; exact Hb. }
  assert (Hcut : length (firstn len x) = len)
    by (rewrite length_firstn; lia).
  assert (Hok1 : batch_ok c [firstn len x] [len]
                          (initial_state_of_row b initial_state) g).
  { constructor.
    - reflexivity.
    - reflexivity.
    - unfold state_shape, initial_state_of_row.
      destruct initial_state as [[state memory]|]; [split; reflexivity|].
      exact I.
    - rewrite no_dropout_sample by exact Hd; exact I.
    - cbn [total_timesteps_of hd]; lia. }
  destruct (forward_on_rows c inputs batch_lengths initial_state g Hok)
    as (r & Hr & Hout & Hfin & _).
  destruct (forward_on_rows c [firstn len x] [len]
              (initial_state_of_row b initial_state) g Hok1)
    as (r1 & Hr1 & Hout1 & Hfin1 & _).
  cbv zeta in Hout, Hfin, Hout1, Hfin1.
  rewrite no_dropout_sample in Hout, Hfin, Hout1, Hfin1 by exact Hd.
  cbn [fst] in Hout, Hfin, Hout1, Hfin1.
  exists r, r1; split; [exact Hr|]; split; [exact Hr1|].
  set (d := mkRow 0 [] None [] [] []).
  assert (Hrow : nth b (final_rows c inputs batch_lengths initial_state None) d
                 = row_steps c (visit_order c (total_timesteps_of inputs))
                     (nth b (initial_rows c inputs batch_lengths initial_state
                                          None) d)).
  { unfold final_rows.
    apply (nth_map_in _ _ _ d d); rewrite initial_rows_length; exact Hb. }
  rewrite nth_initial_rows in Hrow by exact Hb; cbv zeta in Hrow.
  assert (Hrow1 : final_rows c [firstn len x] [len]
                             (initial_state_of_row b initial_state) None
                  = [row_steps c (visit_order c len)
                       (nth 0 (initial_rows c [firstn len x] [len]
                                 (initial_state_of_row b initial_state) None)
                            d)]).
  { unfold final_rows, initial_rows; cbn [length seq map nth total_timesteps_of].
    rewrite Hcut; reflexivity. }
  rewrite nth_initial_rows in Hrow1 by (simpl; lia); cbv zeta in Hrow1.
  cbn [nth option_map total_timesteps_of] in Hrow, Hrow1.
  rewrite Hcut in Hrow1.
  destruct (initial_buffers_of_row c inputs initial_state b (firstn len x) Hb)
    as [Em Es].
  cbv zeta in Em, Es; rewrite Em, Es in Hrow1.
  match type of Hrow with
  | _ = row_steps _ _ ?rb =>
      match type of Hrow1 with
      | _ = [row_steps _ _ ?ra] =>
          destruct (row_steps_agree c rb ra (total_timesteps_of inputs) len)
            as (HM & HS & HA);
            cbn [r_len r_x r_mask r_mem r_state r_acc];
            try reflexivity; try lia; try exact HlenT;
            try (unfold zeros2; rewrite repeat_length; lia);
            try (intros i Hi; rewrite nth_firstn;
                 destruct (Nat.ltb_spec i len); [reflexivity | lia]);
            pose proof (row_steps_acc_length c (visit_order c len) ra) as La;
            pose proof (row_steps_acc_length c
                          (visit_order c (total_timesteps_of inputs)) rb) as Lb
      end
  end.
  cbv zeta in HM, HS, HA.
  rewrite <- Hrow in HM, HS, HA, Lb.
  cbn [r_len r_acc] in HA, La, Lb.
  assert (Hz : forall n h, length (zeros2 n h) = n)
    by (intros; apply repeat_length).
  rewrite Hz in La, Lb.
  rewrite Hout1, Hfin1, Hrow1, Hout, Hfin; cbn [map fst snd].
  rewrite !(nth_map_in _ _ _ _ d)
    by (unfold final_rows; rewrite length_map, initial_rows_length; exact Hb).
  split; [|rewrite HM, HS; reflexivity].
  f_equal.
  apply (nth_ext _ _ [] []).
  - rewrite length_firstn, La, Lb; lia.
  - intros t Ht; rewrite La in Ht.
    rewrite nth_firstn.
    destruct (Nat.ltb_spec t len); [|lia].
    apply HA; exact Ht.
Qed.

Lemma forward_row_alone_witness :
  exists r r1,
    forward (example_cell true None None) example_inputs [2; 1] None
            example_generator = Ok r /\
    forward (example_cell true None None) [[[3%R]]] [1] None
            example_generator = Ok r1 /\
    outputs r1 = [firstn 1 (nth 1 (outputs r) [])] /\
    final_state r1
    = ([nth 1 (fst (final_state r)) []], [nth 1 (snd (final_state r)) []]).
Proof.
  exact (forward_row_alone (example_cell true None None) example_inputs
           [2; 1] None example_generator 1 example_padded_batch
           (example_no_dropout true) (le_n 2) (le_n 2)).
Defined.

(* ================================================================== *)
(** * Further properties of the weight loader *)

(** ** The loaded cell computes the gates of the checkpoint *)

Lemma nth_assign_slice_after {A : Type} (a b i : nat) (m v : list A) (d : A) :
  a <= b -> b <= length m -> length v = b - a -> b <= i ->
  nth i (assign_slice a b m v) d = nth i m d.
Proof.
  intros Hab Hb Hv Hi; unfold assign_slice.
  rewrite app_nth2 by (rewrite length_firstn; lia).
  rewrite app_nth2 by (rewrite length_firstn; lia).
  rewrite length_firstn, Hv, nth_skipn.
  f_equal; lia.
Qed.

(** The loop over the gate order, row by row: the rows of chunks 0 and 3
    stay, the rows of chunks 1 and 2 are exchanged. *)
Lemma swap_gate_order_blocks {A : Type} (cs r : nat) (w : list A) (d : A) :
  length w = 4 * cs -> r < cs ->
  nth r (swap_gate_order cs w w) d = nth r w d /\
  nth (cs + r) (swap_gate_order cs w w) d = nth (2 * cs + r) w d /\
  nth (2 * cs + r) (swap_gate_order cs w w) d = nth (cs + r) w d /\
  nth (3 * cs + r) (swap_gate_order cs w w) d = nth (3 * cs + r) w d.
Proof.
  intros Hw Hr.
  destruct (swap_gate_order_nth cs r w w d Hw Hw Hr) as [H1 H2].
  replace (1 * cs + r) with (cs + r) in H1, H2 by lia.
  assert (L1 : length (slice (2 * cs) (3 * cs) w) = cs)
    by (rewrite slice_length; lia).
  assert (L2 : length (slice (1 * cs) (2 * cs) w) = cs)
    by (rewrite slice_length; lia).
  assert (L3 : length (assign_slice (1 * cs) (2 * cs) w
                         (slice (2 * cs) (3 * cs) w)) = 4 * cs)
    by (rewrite assign_slice_length; lia).
  split; [|split; [exact H1 | split; [exact H2|]]]; unfold swap_gate_order.
  - rewrite !nth_assign_slice_before by lia; reflexivity.
  - rewrite !nth_assign_slice_after by lia; reflexivity.
Qed.

Lemma dot_app (a b x y : vec) :
  length a = length x ->
  dot (a ++ b) (x ++ y) = (dot a x + dot b y)%R.
Proof.
  revert x; induction a as [|u a IH]; intros [|v x] H; try discriminate.
  - unfold dot; simpl; ring.
  - unfold dot in *; simpl; rewrite IH by (simpl in H; lia); ring.
Qed.

(** Column [k] of a matrix. *)
Definition column (m : mat) (k : nat) : vec := map (fun row => nth k row 0%R) m.

(** Entry [k] of [concat([x, h]) @ W_0 + B], the four gates of the cell of
    the checkpoint before their activations; its chunks are, in this order,
    the input gate, the candidate memory, the forget gate (to which the cell
    of the checkpoint adds 1.0) and the output gate. *)
Definition checkpoint_preactivation (dataset : LSTMCell) (x h : vec) (k : nat)
  : R :=
  (dot (column (W_0 dataset) k) (x ++ h) + nth k (B dataset) 0)%R.

(** The bias that the loader computes, entry by entry. *)
Lemma loaded_bias_blocks (lstm : LstmCellWithProjection) (dataset : LSTMCell)
  (r : nat) :
  length (B dataset) = 4 * cell_size lstm -> r < cell_size lstm ->
  let cs := cell_size lstm in
  let b := loaded_bias lstm dataset in
  length b = 4 * cs /\
  nth r b 0%R = nth r (B dataset) 0%R /\
  nth (cs + r) b 0%R = (nth (2 * cs + r) (B dataset) 0 + 1)%R /\
  nth (2 * cs + r) b 0%R = nth (cs + r) (B dataset) 0%R /\
  nth (3 * cs + r) b 0%R = nth (3 * cs + r) (B dataset) 0%R.
Proof.
  intros HB Hr; cbv zeta; unfold loaded_bias; cbv zeta.
  set (cs := cell_size lstm) in *.
  set (raised := map (fun x => (x + 1)%R) (slice (2 * cs) (3 * cs) (B dataset))).
  assert (Lr : length raised = cs)
    by (subst raised; rewrite length_map, slice_length; lia).
  set (tf_bias := assign_slice (2 * cs) (3 * cs) (B dataset) raised).
  assert (Lt : length tf_bias = 4 * cs)
    by (subst tf_bias; rewrite assign_slice_length; lia).
  destruct (swap_gate_order_blocks cs r tf_bias 0%R Lt Hr)
    as (E0 & E1 & E2 & E3).
  rewrite E0, E1, E2, E3.
  split; [apply swap_gate_order_length; exact Lt|].
  subst tf_bias; repeat split.
  - apply nth_assign_slice_before; lia.
  - rewrite nth_assign_slice_in by lia.
    replace (2 * cs + r - 2 * cs) with r by lia.
    subst raised.
    rewrite (nth_map_in _ _ _ _ 0%R) by (rewrite slice_length; lia).
    rewrite nth_slice by lia; reflexivity.
  - apply nth_assign_slice_before; lia.
  - apply nth_assign_slice_after; lia.
Qed.

(** Row [j] of the two weight matrices that the loader computes, for a row
    that the loop over the gate order takes from row [k]: the two parts of
    column [k] of the checkpoint matrix. *)
Lemma loaded_weight_rows (lstm : LstmCellWithProjection) (dataset : LSTMCell)
  (j k : nat) :
  dataset_shape lstm dataset -> W_0 dataset <> [] ->
  k < 4 * cell_size lstm ->
  (forall w : mat, length w = 4 * cell_size lstm ->
     nth j (swap_gate_order (cell_size lstm) w w) [] = nth k w []) ->
  nth j (loaded_input_weights lstm dataset) []
  = firstn (input_size lstm) (column (W_0 dataset) k) /\
  nth j (loaded_recurrent_weights lstm dataset) []
  = skipn (input_size lstm) (column (W_0 dataset) k).
Proof.
  intros [[Hrows Hwidth] _] Hne Hk Hswap.
  destruct (transpose_rows (W_0 dataset) _ Hne Hwidth) as [HT Hrow].
  unfold loaded_input_weights, loaded_recurrent_weights; cbv zeta.
  rewrite !Hswap by (unfold cols_to, cols_from; rewrite length_map; exact HT).
  unfold cols_to, cols_from.
  rewrite !(nth_map_in _ _ _ _ []) by (rewrite HT; exact Hk).
  rewrite (Hrow k Hk); split; reflexivity.
Qed.

Lemma loaded_preactivation (lstm : LstmCellWithProjection) (dataset : LSTMCell)
  (x h : vec) (j k : nat) :
  dataset_shape lstm dataset -> W_0 dataset <> [] ->
  bias (input_linearity lstm) = None ->
  length x = input_size lstm ->
  j < 4 * cell_size lstm -> k < 4 * cell_size lstm ->
  (forall w : mat, length w = 4 * cell_size lstm ->
     nth j (swap_gate_order (cell_size lstm) w w) [] = nth k w []) ->
  nth j (gate_preactivations (load_cell lstm dataset) x h) 0%R
  = (dot (column (W_0 dataset) k) (x ++ h)
     + nth j (loaded_bias lstm dataset) 0)%R.
Proof.
  intros Hds Hne Hbias Hx Hj Hk Hswap.
  destruct (loaded_weight_rows lstm dataset j k Hds Hne Hk Hswap) as [Ei Er].
  pose proof Hds as [[Hrows Hwidth] HB].
  destruct (transpose_rows (W_0 dataset) _ Hne Hwidth) as [HT _].
  assert (Li : length (loaded_input_weights lstm dataset) = 4 * cell_size lstm).
  { unfold loaded_input_weights; cbv zeta.
    apply swap_gate_order_length; unfold cols_to; rewrite length_map; exact HT. }
  assert (Lr : length (loaded_recurrent_weights lstm dataset)
               = 4 * cell_size lstm).
  { unfold loaded_recurrent_weights; cbv zeta.
    apply swap_gate_order_length; unfold cols_from; rewrite length_map;
      exact HT. }
  assert (Lb : length (loaded_bias lstm dataset) = 4 * cell_size lstm).
  { unfold loaded_bias; cbv zeta.
    apply swap_gate_order_length.
    rewrite assign_slice_length; rewrite ?length_map, ?slice_length; lia. }
  destruct (load_cell_exact lstm dataset Hds) as [Hexact Hbs].
  destruct (Hexact Hne) as [Ewi Ewr].
  unfold gate_preactivations, linear.
  rewrite Ewi, Ewr, Hbs.
  change (bias (input_linearity (load_cell lstm dataset)))
    with (bias (input_linearity lstm)).
  rewrite Hbias.
  unfold vadd.
  rewrite (map2_nth Rplus _ _ j 0%R 0%R 0%R)
    by (rewrite ?map2_length, ?length_map; lia).
  rewrite (map2_nth Rplus _ _ j 0%R 0%R 0%R)
    by (rewrite ?length_map; lia).
  rewrite (nth_map_in (fun w => dot w x) _ j 0%R []) by lia.
  rewrite (nth_map_in (fun w => dot w h) _ j 0%R []) by lia.
  rewrite Ei, Er.
  rewrite <- (firstn_skipn (input_size lstm) (column (W_0 dataset) k)) at 3.
  rewrite dot_app; [ring|].
  rewrite length_firstn; unfold column; rewrite length_map, Hrows; lia.
Qed.

(** X4.  For a checkpoint group of the shapes of the cell, the cell that
    [load_weights] leaves computes the gates of the cell of the checkpoint:
    before the activations, its chunk 0 (input gate) is chunk 0 of
    [concat([x, h]) @ W_0 + B], its chunk 1 (forget gate) is chunk 2 of it
    plus 1.0, its chunk 2 (candidate memory) is chunk 1 of it, and its chunk
    3 (output gate) is chunk 3 of it. *)
Theorem loaded_cell_gates (lstm : LstmCellWithProjection) (dataset : LSTMCell)
  (x h : vec) (r : nat) :
  dataset_shape lstm dataset -> W_0 dataset <> [] ->
  bias (input_linearity lstm) = None ->
  length x = input_size lstm ->
  r < cell_size lstm ->
  let cs := cell_size lstm in
  let pre := gate_preactivations (load_cell lstm dataset) x h in
  nth r pre 0%R = checkpoint_preactivation dataset x h r /\
  nth (cs + r) pre 0%R
  = (checkpoint_preactivation dataset x h (2 * cs + r) + 1)%R /\
  nth (2 * cs + r) pre 0%R = checkpoint_preactivation dataset x h (cs + r) /\
  nth (3 * cs + r) pre 0%R = checkpoint_preactivation dataset x h (3 * cs + r).
Proof.
  intros Hds Hne Hbias Hx Hr; cbv zeta.
  destruct (loaded_bias_blocks lstm dataset r (proj2 Hds) Hr)
    as (_ & B0 & B1 & B2 & B3).
  cbv zeta in B0, B1, B2, B3.
  unfold checkpoint_preactivation.
  repeat split.
  - rewrite (loaded_preactivation lstm dataset x h r r), B0;
      try assumption; try lia; [reflexivity|].
    intros w Hw; apply (swap_gate_order_blocks _ r w [] Hw Hr).
  - rewrite (loaded_preactivation lstm dataset x h _ (2 * cell_size lstm + r)),
      B1; try assumption; try lia; [ring|].
    intros w Hw; apply (swap_gate_order_blocks _ r w [] Hw Hr).
  - rewrite (loaded_preactivation lstm dataset x h _ (cell_size lstm + r)), B2;
      try assumption; try lia; [reflexivity|].
    intros w Hw; apply (swap_gate_order_blocks _ r w [] Hw Hr).
  - rewrite (loaded_preactivation lstm dataset x h _ (3 * cell_size lstm + r)),
      B3; try assumption; try lia; [reflexivity|].
    intros w Hw; apply (swap_gate_order_blocks _ r w [] Hw Hr).
Qed.

(** On the group [W_0 = [[1; 2; 3; 4]; [5; 6; 7; 8]]], [B = [10; 20; 30; 40]]
    and [x = h = [1]]: the forget gate reads column 2, [3 + 7 + 30], plus 1. *)
Lemma loaded_cell_gates_witness :
  nth 1 (gate_preactivations (load_cell (example_cell true None None)
                                        example_dataset) [1%R] [1%R]) 0%R
  = (checkpoint_preactivation example_dataset [1%R] [1%R] 2 + 1)%R.
Proof.
  apply (loaded_cell_gates (example_cell true None None) example_dataset
           [1%R] [1%R] 0 example_dataset_shape ltac:(discriminate)
           eq_refl eq_refl (le_n 1)).
Defined.

(** ** Groups that the checkpoint lacks, and groups of other shapes *)

(** A group of the shapes of a cell whose sizes are not 0. *)
Definition group_fits (lstm : LstmCellWithProjection) (dataset : LSTMCell)
  : Prop :=
  1 <= input_size lstm + hidden_size lstm /\
  1 <= cell_size lstm /\
  dataset_shape lstm dataset /\
  rows_of_width (cell_size lstm) (hidden_size lstm) (W_P_0 dataset).

Lemma transpose_shape (m : mat) (r w : nat) :
  1 <= r -> rows_of_width r w m -> rows_of_width w r (transpose m).
Proof.
  intros Hr [Hl Hw].
  assert (Hne : m <> []) by (intros E; rewrite E in Hl; simpl in Hl; lia).
  split; [apply (transpose_rows m w Hne Hw)|].
  unfold transpose; rewrite Forall_map.
  apply Forall_forall; intros j _; rewrite length_map; exact Hl.
Qed.

Lemma dataset_transposed (lstm : LstmCellWithProjection) (dataset : LSTMCell) :
  1 <= input_size lstm + hidden_size lstm ->
  dataset_shape lstm dataset ->
  W_0 dataset <> [] /\ length (transpose (W_0 dataset)) = 4 * cell_size lstm.
Proof.
  intros Hs [[Hrows Hwidth] _].
  assert (Hne : W_0 dataset <> [])
    by (intros E; rewrite E in Hrows; simpl in Hrows; lia).
  split; [exact Hne | apply (transpose_rows _ _ Hne Hwidth)].
Qed.

(** Up to the [copy_] of the bias nothing raises for a group whose [W_0]
    and [B] have the shapes of the cell. *)
Lemma load_checks_projection (lstm : LstmCellWithProjection)
  (dataset : LSTMCell) :
  1 <= input_size lstm + hidden_size lstm ->
  dataset_shape lstm dataset ->
  load_checks lstm dataset
  = copy_check (hidden_size lstm) (cell_size lstm) (transpose (W_P_0 dataset)).
Proof.
  intros Hs Hds.
  destruct (dataset_transposed lstm dataset Hs Hds) as [Hne HT].
  destruct (loaded_shapes lstm dataset Hds) as (Hw & Lt & Lb).
  destruct (Hw Hne) as [Hi Hr].
  unfold load_checks; cbv zeta.
  rewrite !swap_gate_order_check_same
    by (first [exact Lt
              | unfold cols_to, cols_from; rewrite length_map; exact HT]).
  cbn [bind].
  rewrite (copy_check_same _ _ _ Hi), (copy_check_same _ _ _ Hr).
  cbn [bind].
  unfold copy_check_vector; rewrite (broadcastable_same _ _ Lb).
  reflexivity.
Qed.

Lemma load_direction_fits (fin : checkpoint) (i j : nat)
  (lstm : LstmCellWithProjection) (dataset : LSTMCell) :
  fin j i = Some dataset -> group_fits lstm dataset ->
  load_direction fin i j lstm = Ok (load_cell lstm dataset).
Proof.
  intros E (Hs & Hc & Hds & Hp); unfold load_direction; rewrite E.
  rewrite (load_checks_projection lstm dataset Hs Hds).
  rewrite (copy_check_same _ _ _ (transpose_shape _ _ _ Hc Hp)).
  reflexivity.
Qed.

(** Projection weights with a number of columns that is neither the hidden
    size nor 1 cannot be copied. *)
Lemma load_direction_projection (fin : checkpoint) (i j : nat)
  (lstm : LstmCellWithProjection) (dataset : LSTMCell) (rows width : nat) :
  fin j i = Some dataset ->
  1 <= input_size lstm + hidden_size lstm ->
  dataset_shape lstm dataset ->
  1 <= rows -> rows_of_width rows width (W_P_0 dataset) ->
  width <> hidden_size lstm -> width <> 1 ->
  load_direction fin i j lstm = Raise (Exception "RuntimeError").
Proof.
  intros E Hs Hds Hrows Hp Hh H1; unfold load_direction; rewrite E.
  rewrite (load_checks_projection lstm dataset Hs Hds).
  destruct (transpose_shape _ _ _ Hrows Hp) as [Hl _].
  unfold copy_check, broadcastable; rewrite Hl.
  destruct (Nat.eqb_spec width (hidden_size lstm)); [contradiction|].
  destruct (Nat.eqb_spec width 1); [contradiction|].
  reflexivity.
Qed.

(** The groups of the two cells of a layer fit. *)
Definition layer_fits (fin : checkpoint) (i : nat)
  (pair : LstmCellWithProjection * LstmCellWithProjection) : Prop :=
  (exists dataset, fin 0 i = Some dataset /\ group_fits (fst pair) dataset) /\
  (exists dataset, fin 1 i = Some dataset /\ group_fits (snd pair) dataset).

Lemma load_layers_fit (fin : checkpoint)
  (lstms : list (LstmCellWithProjection * LstmCellWithProjection)) (i0 : nat) :
  (forall i pair, nth_error lstms i = Some pair ->
                  layer_fits fin (i0 + i) pair) ->
  exists loaded, load_layers fin i0 lstms = Ok loaded.
Proof.
  revert i0; induction lstms as [|[f b] rest IH]; intros i0 H.
  - exists []; reflexivity.
  - cbn [load_layers].
    destruct (H 0 (f, b) eq_refl) as [(dsf & Ef & Ff) (dsb & Eb & Fb)].
    rewrite Nat.add_0_r in Ef, Eb; cbn [fst snd] in Ff, Fb.
    rewrite (load_direction_fits fin i0 0 f dsf Ef Ff),
            (load_direction_fits fin i0 1 b dsb Eb Fb).
    cbn [bind].
    destruct (IH (S i0)) as [rest' E].
    + intros i pair Hi.
      replace (S i0 + i) with (i0 + S i) by lia.
      apply H; exact Hi.
    + rewrite E; cbn [bind]; eexists; reflexivity.
Qed.

(** The first group that does not load decides how the loop ends: the
    layers before layer [i] fit, and in layer [i] either the forward cell
    raises, or its group fits and the backward cell raises. *)
Lemma load_layers_first_raise (fin : checkpoint)
  (lstms : list (LstmCellWithProjection * LstmCellWithProjection))
  (i0 i : nat) (f b : LstmCellWithProjection) (e : exn) :
  nth_error lstms i = Some (f, b) ->
  (forall i' pair, i' < i -> nth_error lstms i' = Some pair ->
                   layer_fits fin (i0 + i') pair) ->
  (load_direction fin (i0 + i) 0 f = Raise e \/
   ((exists dataset, fin 0 (i0 + i) = Some dataset /\ group_fits f dataset) /\
    load_direction fin (i0 + i) 1 b = Raise e)) ->
  load_layers fin i0 lstms = Raise e.
Proof.
  revert i0 i; induction lstms as [|[f0 b0] rest IH]; intros i0 i Hi Hbefore Hbad;
    [destruct i; discriminate|].
  cbn [load_layers].
  destruct i as [|i].
  - cbn [nth_error] in Hi; injection Hi as -> ->.
    rewrite Nat.add_0_r in Hbad.
    destruct Hbad as [E | [(dataset & Ef & Ff) E]].
    + rewrite E; reflexivity.
    + rewrite (load_direction_fits fin i0 0 f dataset Ef Ff); cbn [bind].
      rewrite E; reflexivity.
  - destruct (Hbefore 0 (f0, b0) ltac:(lia) eq_refl)
      as [(dsf & Ef & Ff) (dsb & Eb & Fb)].
    rewrite Nat.add_0_r in Ef, Eb; cbn [fst snd] in Ff, Fb.
    rewrite (load_direction_fits fin i0 0 f0 dsf Ef Ff),
            (load_direction_fits fin i0 1 b0 dsb Eb Fb).
    cbn [bind].
    rewrite (IH (S i0) i); [reflexivity | exact Hi | |].
    + intros i' pair Hlt Hn.
      replace (S i0 + i') with (i0 + S i') by lia.
      apply (Hbefore (S i') pair); [lia | exact Hn].
    + replace (S i0 + i) with (i0 + S i) by lia; exact Hbad.
Qed.

Lemma nth_error_combine {A B : Type} (l : list A) (l' : list B) (i : nat)
  (p : A * B) :
  nth_error (combine l l') i = Some p <->
  nth_error l i = Some (fst p) /\ nth_error l' i = Some (snd p).
Proof.
  revert l' i; induction l as [|x l IH]; intros [|y l'] [|i]; simpl;
    try (split; [discriminate | intros [? ?]; discriminate]).
  - destruct p as [a b]; simpl; split.
    + intros H; injection H as <- <-; split; reflexivity.
    + intros [H1 H2]; injection H1 as <-; injection H2 as <-; reflexivity.
  - apply IH.
Qed.

(** The group of direction [j] of layer [i] is in the checkpoint and has the
    shapes of the cell. *)
Definition group_of_fits (lm : ElmobiLm) (fin : checkpoint) (j i : nat)
  : Prop :=
  exists lstm dataset,
    layer_of lm j i = Some lstm /\ fin j i = Some dataset /\
    group_fits lstm dataset.

(** The order in which the loop visits the groups: layer by layer, and in a
    layer the forward cell first. *)
Definition visited_before (j i j' i' : nat) : Prop :=
  i' < i \/ (i' = i /\ j' < j).

Lemma layers_before_fit (lm : ElmobiLm) (fin : checkpoint) (j i : nat) :
  (forall j' i', j' < 2 -> visited_before j i j' i' ->
                 group_of_fits lm fin j' i') ->
  forall i' pair, i' < i ->
    nth_error (combine (forward_layers lm) (backward_layers lm)) i'
    = Some pair ->
    layer_fits fin (0 + i') pair.
Proof.
  intros H i' [f b] Hlt Hn.
  apply nth_error_combine in Hn; cbn [fst snd] in Hn; destruct Hn as [Hf Hb].
  split; cbn [fst snd Nat.add].
  - destruct (H 0 i' ltac:(lia) (or_introl Hlt))
      as (lstm & dataset & Hl & Hd & Hfit).
    unfold layer_of in Hl; rewrite Hf in Hl; injection Hl as <-.
    exists dataset; split; assumption.
  - destruct (H 1 i' ltac:(lia) (or_introl Hlt))
      as (lstm & dataset & Hl & Hd & Hfit).
    unfold layer_of in Hl; rewrite Hb in Hl; injection Hl as <-.
    exists dataset; split; assumption.
Qed.

(** How [load_weights] ends when the group of direction [j] of layer [i] is
    the first one that does not load. *)
Lemma load_weights_first_raise (lm : ElmobiLm) (fin : checkpoint) (j i : nat)
  (lstm : LstmCellWithProjection) (e : exn) :
  j < 2 ->
  i < Nat.min (length (forward_layers lm)) (length (backward_layers lm)) ->
  (forall j' i', j' < 2 -> visited_before j i j' i' ->
                 group_of_fits lm fin j' i') ->
  layer_of lm j i = Some lstm ->
  load_direction fin i j lstm = Raise e ->
  load_weights lm fin = Raise e.
Proof.
  intros Hj Hi Hbefore Hl Hraise; unfold load_weights.
  destruct (nth_error (forward_layers lm) i) as [f|] eqn:Ef;
    [| apply nth_error_None in Ef; lia].
  destruct (nth_error (backward_layers lm) i) as [b|] eqn:Eb;
    [| apply nth_error_None in Eb; lia].
  assert (Ec : nth_error (combine (forward_layers lm) (backward_layers lm)) i
               = Some (f, b))
    by (apply nth_error_combine; split; assumption).
  rewrite (load_layers_first_raise fin _ 0 i f b e Ec
             (layers_before_fit lm fin j i Hbefore)); [reflexivity|].
  cbn [Nat.add]; unfold layer_of in Hl.
  destruct j as [|[|j]]; [| |lia].
  - rewrite Ef in Hl; injection Hl as <-; left; exact Hraise.
  - rewrite Eb in Hl; injection Hl as <-; right; split; [|exact Hraise].
    destruct (Hbefore 0 i ltac:(lia) (or_intror (conj eq_refl Nat.lt_0_1)))
      as (lstm' & dataset & Hl' & Hd & Hfit).
    unfold layer_of in Hl'; rewrite Ef in Hl'; injection Hl' as <-.
    exists dataset; split; assumption.
Qed.

(** X5.  [load_weights] visits the layers that have a cell in both
    directions, layer by layer and the forward cell first.  When the
    checkpoint has, for each of these cells, a group of the shapes of the
    cell, it returns, with as many forward and backward cells as before and
    every cell without a partner left as it was.  When the groups visited
    before a group have these shapes and the group itself is absent, it
    raises KeyError; when the group is there with [W_0] and [B] of the
    shapes of the cell but with projection weights [W_P_0] whose number of
    columns is neither the hidden size nor 1, it raises RuntimeError (the
    [copy_] of the projection weights cannot broadcast them). *)
Theorem load_weights_groups (lm : ElmobiLm) (fin : checkpoint) :
  let paired :=
    Nat.min (length (forward_layers lm)) (length (backward_layers lm)) in
  ((forall j i, j < 2 -> i < paired -> group_of_fits lm fin j i) ->
   exists lm',
     load_weights lm fin = Ok lm' /\
     length (forward_layers lm') = length (forward_layers lm) /\
     length (backward_layers lm') = length (backward_layers lm) /\
     forall j i, paired <= i -> layer_of lm' j i = layer_of lm j i) /\
  (forall j i, j < 2 -> i < paired ->
     (forall j' i', j' < 2 -> visited_before j i j' i' ->
                    group_of_fits lm fin j' i') ->
     fin j i = None ->
     load_weights lm fin = Raise (Exception "KeyError")) /\
  (forall j i lstm dataset rows width, j < 2 -> i < paired ->
     (forall j' i', j' < 2 -> visited_before j i j' i' ->
                    group_of_fits lm fin j' i') ->
     layer_of lm j i = Some lstm -> fin j i = Some dataset ->
     1 <= input_size lstm + hidden_size lstm ->
     dataset_shape lstm dataset ->
     1 <= rows -> rows_of_width rows width (W_P_0 dataset) ->
     width <> hidden_size lstm -> width <> 1 ->
     load_weights lm fin = Raise (Exception "RuntimeError")).
Proof.
  cbv zeta; split; [|split].
  - intros H; unfold load_weights.
    destruct (load_layers_fit fin
                (combine (forward_layers lm) (backward_layers lm)) 0)
      as [loaded E].
    { intros i pair Hn.
      assert (Hi : i < length (combine (forward_layers lm)
                                       (backward_layers lm)))
        by (apply nth_error_Some; rewrite Hn; discriminate).
      rewrite length_combine in Hi.
      apply (layers_before_fit lm fin 0 (S i)); [|lia | exact Hn].
      intros j' i' Hj' [Hlt | [_ Hlt]]; [|lia].
      apply H; [exact Hj' | lia]. }
    rewrite E; cbn [bind].
    destruct (load_layers_spec _ _ _ _ E) as [Hlen _].
    rewrite length_combine in Hlen.
    eexists; split; [reflexivity|].
    cbn [forward_layers backward_layers].
    rewrite !length_app, !length_map, !length_skipn, Hlen.
    split; [lia|]; split; [lia|].
    intros j i Hi; unfold layer_of; cbn [forward_layers backward_layers].
    destruct j as [|j];
      rewrite nth_error_app2 by (rewrite length_map; lia);
      rewrite length_map, nth_error_skipn, Hlen;
      f_equal; lia.
  - intros j i Hj Hi Hbefore Hnone.
    destruct (layer_of lm j i) as [lstm|] eqn:Hl.
    + apply (load_weights_first_raise lm fin j i lstm _ Hj Hi Hbefore Hl).
      unfold load_direction; rewrite Hnone; reflexivity.
    + unfold layer_of in Hl; apply nth_error_None in Hl.
      destruct j as [|j]; lia.
  - intros j i lstm dataset rows width Hj Hi Hbefore Hl Hd Hs Hds Hrows Hp
           Hh H1.
    apply (load_weights_first_raise lm fin j i lstm _ Hj Hi Hbefore Hl).
    exact (load_direction_projection fin i j lstm dataset rows width Hd Hs Hds
             Hrows Hp Hh H1).
Qed.

(** The group [example_dataset] with projection weights of two columns. *)
Definition example_dataset_wide : LSTMCell :=
  {| W_0 := W_0 example_dataset;
     B := B example_dataset;
     W_P_0 := [[1%R; 1%R]] |}.

(** The stack of one layer with the checkpoint that has the group
    [example_dataset] everywhere; without the group of the backward cell;
    and with projection weights of two columns. *)
Lemma load_weights_groups_witness :
  (exists lm', load_weights example_lm example_checkpoint = Ok lm') /\
  load_weights example_lm
    (fun j i => if (j =? 1)%nat then None else Some example_dataset)
  = Raise (Exception "KeyError") /\
  load_weights example_lm (fun j i => Some example_dataset_wide)
  = Raise (Exception "RuntimeError").
Proof.
  split; [|split].
  - destruct (proj1 (load_weights_groups example_lm example_checkpoint))
      as (lm' & E & _).
    + intros [|[|j]] [|i] Hj Hi; simpl in Hi; try lia.
      * exists (example_cell true None None), example_dataset.
        repeat split; simpl; try lia; repeat constructor.
      * exists (example_cell false None None), example_dataset.
        repeat split; simpl; try lia; repeat constructor.
    + exists lm'; exact E.
  - apply (proj1 (proj2 (load_weights_groups example_lm _)) 1 0);
      [lia | simpl; lia | | reflexivity].
    intros j' i' Hj' [Hlt | [-> Hlt]]; [lia|].
    assert (j' = 0) as -> by lia.
    exists (example_cell true None None), example_dataset.
    repeat split; simpl; try lia; repeat constructor.
  - apply (proj2 (proj2 (load_weights_groups example_lm _)) 0 0
             (example_cell true None None) example_dataset_wide 1 2);
      try reflexivity; try (simpl; lia).
    + intros j' i' Hj' [Hlt | [_ Hlt]]; lia.
    + split; [split; [reflexivity | repeat constructor] | reflexivity].
    + split; [reflexivity | repeat constructor].
Defined.

(* ================================================================== *)
(** * Further properties of ElmobiLm.forward *)

(** ** Sorting the batch by length and putting it back in order *)

Lemma combine_seq_In {A : Type} (v : list A) (k : nat) (a : A) (p : nat)
  (d : A) :
  In (a, p) (combine v (seq k (length v))) ->
  k <= p < k + length v /\ nth (p - k) v d = a.
Proof.
  revert k; induction v as [|x v IH]; intros k H; [contradiction|].
  cbn [length seq combine] in H; destruct H as [H|H].
  - injection H as <- <-.
    rewrite Nat.sub_diag; simpl; split; [lia | reflexivity].
  - destruct (IH (S k) H) as [Hp E].
    split; [simpl; lia|].
    replace (p - k) with (S (p - S k)) by lia; exact E.
Qed.

Lemma insert_ascending_sorted (x : nat * nat) (l : list (nat * nat)) :
  StronglySorted le (map fst l) ->
  StronglySorted le (map fst (insert_ascending x l)).
Proof.
  induction l as [|y l IH]; intros Hs.
  - cbn [insert_ascending map]; repeat constructor.
  - cbn [insert_ascending].
    cbn [map] in Hs.
    apply StronglySorted_inv in Hs; destruct Hs as [Htail Hhead].
    destruct (fst y <? fst x)%nat eqn:E.
    + apply Nat.ltb_lt in E; cbn [map].
      constructor; [apply IH; exact Htail|].
      apply (Permutation_Forall
               (Permutation_sym
                  (Permutation_map fst (insert_ascending_perm x l)))).
      cbn [map]; constructor; [lia | exact Hhead].
    + apply Nat.ltb_ge in E; cbn [map].
      constructor; [constructor; assumption|].
      constructor; [exact E|].
      eapply Forall_impl; [|exact Hhead]; simpl; intros; lia.
Qed.

Lemma sort_ascending_sorted (v : list nat) :
  StronglySorted le (fst (sort_ascending v)).
Proof.
  unfold sort_ascending; cbn [fst].
  induction (combine v (seq 0 (length v))) as [|x l IH];
    [constructor|].
  cbn [fold_right]; apply insert_ascending_sorted; exact IH.
Qed.

(** A sorted rearrangement of [k, k+1, ..] is that list. *)
Lemma sorted_perm_seq (n k : nat) (l : list nat) :
  StronglySorted le l -> Permutation l (seq k n) -> l = seq k n.
Proof.
  revert k l; induction n as [|n IH]; intros k l Hs Hp.
  - apply Permutation_sym, Permutation_nil in Hp; exact Hp.
  - cbn [seq] in *.
    destruct l as [|a l];
      [apply Permutation_nil in Hp; discriminate|].
    apply StronglySorted_inv in Hs; destruct Hs as [Htail Hhead].
    assert (Hk : In k (a :: l))
      by (apply (Permutation_in _ (Permutation_sym Hp)); left; reflexivity).
    assert (Ha : In a (k :: seq (S k) n))
      by (apply (Permutation_in _ Hp); left; reflexivity).
    assert (E : a = k).
    { destruct Ha as [Ha|Ha]; [symmetry; exact Ha|].
      apply in_seq in Ha.
      destruct Hk as [Hk|Hk]; [exact Hk|].
      rewrite Forall_forall in Hhead; specialize (Hhead k Hk); lia. }
    subst a; f_equal.
    apply IH; [exact Htail|].
    apply (Permutation_cons_inv Hp).
Qed.

(** The positions that the ascending sort of a rearrangement [v] of
    [0 .. n-1] returns are the inverse rearrangement. *)
Lemma sort_ascending_inverse (v : list nat) :
  Permutation v (seq 0 (length v)) ->
  let unsort := snd (sort_ascending v) in
  length unsort = length v /\
  forall i, i < length v ->
    nth i unsort 0 < length v /\ nth (nth i unsort 0) v 0 = i.
Proof.
  intros Hv; cbv zeta.
  pose proof (sort_ascending_sorted v) as Hsorted.
  unfold sort_ascending in *; cbn [fst snd] in *.
  pose proof (fold_insert_perm insert_ascending
                (combine v (seq 0 (length v))) insert_ascending_perm) as Hp.
  set (s := fold_right insert_ascending [] (combine v (seq 0 (length v)))) in *.
  assert (Hfst : map fst s = seq 0 (length v)).
  { apply sorted_perm_seq; [exact Hsorted|].
    eapply Permutation_trans; [apply Permutation_map; exact Hp|].
    rewrite map_fst_combine_seq; exact Hv. }
  assert (Hlen : length s = length v).
  { rewrite <- (length_map fst s), Hfst; apply length_seq. }
  split; [rewrite length_map; exact Hlen|].
  intros i Hi.
  assert (Hin : In (nth i s (0, 0)) (combine v (seq 0 (length v))))
    by (apply (Permutation_in _ Hp), nth_In; lia).
  assert (Ei : fst (nth i s (0, 0)) = i).
  { rewrite <- (nth_map_in fst s i 0 (0, 0)) by lia.
    rewrite Hfst; apply seq_nth; exact Hi. }
  rewrite (nth_map_in snd s i 0 (0, 0)) by lia.
  destruct (nth i s (0, 0)) as [a p]; cbn [fst snd] in *; subst a.
  destruct (combine_seq_In v 0 i p 0 Hin) as [Hp' E].
  rewrite Nat.sub_0_r in E; split; [lia | exact E].
Qed.

Lemma index_select_map {A : Type} (l : list A) (idx : list nat) (d : A) :
  Forall (fun i => i < length l) idx ->
  index_select l idx = map (fun i => nth i l d) idx.
Proof.
  unfold index_select; induction 1 as [|i idx Hi _ IH]; [reflexivity|].
  cbn [flat_map map]; rewrite IH.
  destruct (nth_error l i) as [x|] eqn:E;
    [|apply nth_error_None in E; lia].
  rewrite (nth_error_nth _ _ d E); reflexivity.
Qed.

(** Selecting by a rearrangement and then by its inverse, in either order,
    gives the list back. *)
Lemma index_select_round_trip {A : Type} (x : list A) (v : list nat) :
  Permutation v (seq 0 (length x)) ->
  let unsort := snd (sort_ascending v) in
  index_select (index_select x v) unsort = x /\
  index_select (index_select x unsort) v = x.
Proof.
  intros Hv; cbv zeta.
  destruct (perm_seq_in_range v _ Hv) as [Hlv Hrv].
  rewrite <- Hlv in Hv.
  destruct (sort_ascending_inverse v Hv) as [Hlu Hinv]; cbv zeta in Hlu, Hinv.
  set (unsort := snd (sort_ascending v)) in *.
  destruct x as [|d x'] eqn:Ex.
  { simpl in Hlv.
    destruct v; [|discriminate].
    destruct unsort; [|discriminate]; split; reflexivity. }
  rewrite <- Ex in *; clear Ex x'.
  assert (Hru : Forall (fun i => i < length x) unsort).
  { apply Forall_forall; intros i Hi.
    destruct (In_nth unsort i 0 Hi) as (k & Hk & <-).
    rewrite <- Hlv; apply Hinv; lia. }
  assert (Hnd : NoDup v).
  { apply (Permutation_NoDup (Permutation_sym Hv)), seq_NoDup. }
  rewrite (index_select_map x v d Hrv).
  rewrite (index_select_map x unsort d Hru).
  rewrite (index_select_map _ unsort d)
    by (rewrite length_map, Hlv; exact Hru).
  rewrite (index_select_map _ v d)
    by (rewrite length_map, Hlu, Hlv; exact Hrv).
  split; apply (nth_ext _ _ d d); rewrite ?length_map; try lia;
    intros k Hk.
  - rewrite (nth_map_in _ unsort k d 0) by exact Hk.
    destruct (Hinv k ltac:(lia)) as [Hlt E].
    rewrite (nth_map_in _ v _ d 0) by exact Hlt.
    rewrite E; reflexivity.
  - rewrite (nth_map_in _ v k d 0) by exact Hk.
    assert (Hvk : nth k v 0 < length v).
    { rewrite Forall_forall in Hrv; rewrite Hlv; apply Hrv, nth_In; exact Hk. }
    rewrite (nth_map_in _ unsort _ d 0) by lia.
    destruct (Hinv (nth k v 0) Hvk) as [Hlt E].
    f_equal.
    apply (proj1 (NoDup_nth v 0) Hnd); assumption.
Qed.

(** The sorted lengths are the lengths at the sorted positions. *)
Lemma sort_descending_lengths (seq_len : list nat) :
  fst (sort_descending seq_len)
  = index_select seq_len (snd (sort_descending seq_len)).
Proof.
  destruct (sort_descending_perm seq_len) as [_ Hpi].
  destruct (perm_seq_in_range _ _ Hpi) as [_ Hrange].
  rewrite (index_select_map seq_len _ 0 Hrange).
  unfold sort_descending; cbn [fst snd].
  pose proof (fold_insert_perm insert_descending
                (combine seq_len (seq 0 (length seq_len)))
                insert_descending_perm) as Hp.
  rewrite map_map; apply map_ext_in; intros [a p] Hin.
  apply (Permutation_in _ Hp) in Hin.
  destruct (combine_seq_In seq_len 0 a p 0 Hin) as [_ E].
  rewrite Nat.sub_0_r in E; symmetry; exact E.
Qed.

(** X6.  In [ElmobiLm.forward], for a batch with one length per row: the
    sorted lengths are in decreasing order and are the lengths of the rows
    at the sorted positions, so that every row is packed with its own
    length; selecting by the sorted positions keeps every row; and
    selecting by [unsort_idx] undoes the selection by [sort_idx], in either
    order, so that the rows of the output are in the order of the batch. *)
Theorem sort_and_unsort {A : Type} (x : list A) (seq_len : list nat) :
  length x = length seq_len ->
  let sort_lens := fst (sort_descending seq_len) in
  let sort_idx := snd (sort_descending seq_len) in
  let unsort_idx := snd (sort_ascending sort_idx) in
  sorted_descending sort_lens = true /\
  sort_lens = index_select seq_len sort_idx /\
  Permutation (index_select x sort_idx) x /\
  index_select (index_select x sort_idx) unsort_idx = x /\
  index_select (index_select x unsort_idx) sort_idx = x.
Proof.
  intros Hlen; cbv zeta.
  destruct (sort_descending_perm seq_len) as [_ Hpi].
  rewrite <- Hlen in Hpi.
  destruct (index_select_round_trip x _ Hpi) as [R1 R2]; cbv zeta in R1, R2.
  split; [apply sort_descending_sorted|].
  split; [apply sort_descending_lengths|].
  split; [|split; assumption].
  destruct (perm_seq_in_range _ _ Hpi) as [_ Hrange].
  destruct x as [|d x'] eqn:Ex.
  { cbn [length seq] in Hpi.
    apply Permutation_sym, Permutation_nil in Hpi.
    rewrite Hpi; reflexivity. }
  rewrite <- Ex in *.
  rewrite (index_select_map x _ d Hrange).
  eapply Permutation_trans; [apply Permutation_map; exact Hpi|].
  rewrite map_nth_seq_all; reflexivity.
Qed.

Lemma sort_and_unsort_witness :
  let x := [10; 20; 30] in
  let seq_len := [1; 3; 2] in
  fst (sort_descending seq_len) = [3; 2; 1] /\
  index_select x (snd (sort_descending seq_len)) = [20; 30; 10] /\
  index_select (index_select x (snd (sort_descending seq_len)))
               (snd (sort_ascending (snd (sort_descending seq_len)))) = x.
Proof.
  cbv zeta; split; [reflexivity|]; split; [reflexivity|].
  apply (sort_and_unsort [10; 20; 30] [1; 3; 2] eq_refl).
Defined.

(** ** The padding positions of the output *)

Lemma list_max_perm (l l' : list nat) :
  Permutation l l' -> list_max l = list_max l'.
Proof.
  induction 1 as [|x l l' _ IH|x y l|l l' l'' _ IH1 _ IH2].
  - reflexivity.
  - change (Nat.max x (list_max l) = Nat.max x (list_max l')); lia.
  - change (Nat.max y (Nat.max x (list_max l))
            = Nat.max x (Nat.max y (list_max l))); lia.
  - congruence.
Qed.

(** The vectors of [x] at the time positions below [t] that are at or
    beyond the length of their sequence are zero vectors of width [w]. *)
Definition zero_beyond (batch_lengths : list nat) (t w : nat) (x : tensor3)
  : Prop :=
  forall b p,
    b < length batch_lengths -> nth b batch_lengths 0 <= p -> p < t ->
    nth p (nth b x []) [] = zeros w.

Lemma forward_zero_beyond (c : LstmCellWithProjection) (inputs : tensor3)
  (batch_lengths : list nat) (initial_state : option (mat * mat))
  (g : generator) (r : forward_result) :
  batch_ok c inputs batch_lengths initial_state g ->
  forward c inputs batch_lengths initial_state g = Ok r ->
  zero_beyond batch_lengths (total_timesteps_of inputs) (hidden_size c)
              (outputs r).
Proof.
  intros Hok H.
  destruct (forward_on_rows c inputs batch_lengths initial_state g Hok)
    as (r' & Hr & Hout & _).
  rewrite H in Hr; injection Hr as <-.
  cbv zeta in Hout; rewrite Hout; unfold final_rows.
  intros b p Hb Hlen Hp.
  rewrite (lengths_per_row _ _ _ _ _ Hok) in Hb.
  rewrite map_map.
  set (d := mkRow 0 [] None [] [] []).
  rewrite (nth_map_in _ _ _ _ d) by (rewrite initial_rows_length; exact Hb).
  rewrite nth_initial_rows by exact Hb.
  rewrite row_steps_acc_beyond by exact Hlen.
  cbn [r_acc]; unfold zeros2.
  apply nth_repeat_lt; exact Hp.
Qed.

Lemma vadd_zeros (w : nat) : vadd (zeros w) (zeros w) = zeros w.
Proof.
  unfold vadd, zeros; induction w as [|w IH]; [reflexivity|].
  cbn [repeat map2]; rewrite IH; f_equal; ring.
Qed.

Lemma zeros_app (w w' : nat) : zeros w ++ zeros w' = zeros (w + w').
Proof. unfold zeros; symmetry; apply repeat_app. Qed.

Lemma shape3_entry (n t h : nat) (x : tensor3) (b : nat) :
  shape3 n t h x -> b < n -> length (nth b x []) = t.
Proof. intros H Hb; apply (shape3_row _ _ _ _ b H Hb). Qed.

Lemma zero_beyond_tadd (batch_lengths : list nat) (t w : nat) (x y : tensor3) :
  shape3 (length batch_lengths) t w x ->
  shape3 (length batch_lengths) t w y ->
  zero_beyond batch_lengths t w x -> zero_beyond batch_lengths t w y ->
  zero_beyond batch_lengths t w (tadd x y).
Proof.
  intros Sx Sy Zx Zy b p Hb Hlen Hp.
  pose proof (shape3_entry _ _ _ _ b Sx Hb) as Lx.
  pose proof (shape3_entry _ _ _ _ b Sy Hb) as Ly.
  destruct Sx as [Nx _], Sy as [Ny _].
  unfold tadd.
  rewrite (map2_nth madd x y b [] [] []) by lia.
  unfold madd.
  rewrite (map2_nth vadd _ _ p [] [] []) by lia.
  rewrite (Zx b p Hb Hlen Hp), (Zy b p Hb Hlen Hp).
  apply vadd_zeros.
Qed.

Lemma zero_beyond_cat_last3 (batch_lengths : list nat) (t w w' : nat)
  (x y : tensor3) :
  shape3 (length batch_lengths) t w x ->
  shape3 (length batch_lengths) t w' y ->
  zero_beyond batch_lengths t w x -> zero_beyond batch_lengths t w' y ->
  zero_beyond batch_lengths t (w + w') (cat_last3 x y).
Proof.
  intros Sx Sy Zx Zy b p Hb Hlen Hp.
  pose proof (shape3_entry _ _ _ _ b Sx Hb) as Lx.
  pose proof (shape3_entry _ _ _ _ b Sy Hb) as Ly.
  destruct Sx as [Nx _], Sy as [Ny _].
  unfold cat_last3.
  rewrite (map2_nth (map2 (@app R)) x y b [] [] []) by lia.
  rewrite (map2_nth (@app R) _ _ p [] [] []) by lia.
  rewrite (Zx b p Hb Hlen Hp), (Zy b p Hb Hlen Hp).
  apply zeros_app.
Qed.

Lemma lstm_layer_inv_none (lm : ElmobiLm) (batch_lengths : list nat)
  (s s' : stack_state) (i : nat) :
  lstm_layer lm batch_lengths s (i, None) = Ok s' ->
  exists fl bl fr br,
    nth_error (forward_layers lm) i = Some fl /\
    nth_error (backward_layers lm) i = Some bl /\
    forward fl (forward_output_sequence s) batch_lengths None
            (stack_generator s) = Ok fr /\
    forward bl (backward_output_sequence s) batch_lengths None
            (generator_after fr) = Ok br /\
    forward_output_sequence s'
    = (if (i =? 0)%nat then outputs fr
       else tadd (outputs fr) (forward_output_sequence s)) /\
    backward_output_sequence s'
    = (if (i =? 0)%nat then outputs br
       else tadd (outputs br) (backward_output_sequence s)) /\
    sequence_outputs s'
    = sequence_outputs s ++
      [cat_last3 (forward_output_sequence s') (backward_output_sequence s')].
Proof.
  unfold lstm_layer, getattr_layer; intros H.
  destruct (nth_error (forward_layers lm) i) as [fl|]; simpl in H;
    [|discriminate].
  destruct (nth_error (backward_layers lm) i) as [bl|]; simpl in H;
    [|discriminate].
  destruct (forward fl _ _ None _) as [fr| |] eqn:Ef; simpl in H;
    try discriminate.
  destruct (forward bl _ _ None _) as [br| |] eqn:Eb; simpl in H;
    try discriminate.
  injection H as <-.
  exists fl, bl, fr, br.
  cbn [forward_output_sequence backward_output_sequence sequence_outputs].
  repeat split; try reflexivity; assumption.
Qed.

(** What holds of the padding positions of the variables of the loop over
    the layers. *)
Record stack_zero (lm : ElmobiLm) (batch_lengths : list nat) (t : nat)
  (s : stack_state) : Prop := mkStackZero {
  zero_streams :
    sequence_outputs s <> [] ->
    zero_beyond batch_lengths t (lm_hidden_size lm)
                (forward_output_sequence s) /\
    zero_beyond batch_lengths t (lm_hidden_size lm)
                (backward_output_sequence s);
  zero_outputs :
    Forall (zero_beyond batch_lengths t (2 * lm_hidden_size lm))
           (sequence_outputs s)
}.

Lemma time_shape_timesteps (n t : nat) (x : tensor3) :
  1 <= n -> time_shape n t x -> total_timesteps_of x = t.
Proof.
  intros Hn [Hl Hrows]; destruct x as [|row x]; [simpl in Hl; lia|].
  exact (Forall_inv Hrows).
Qed.

Lemma stream_batch_ok (c : LstmCellWithProjection) (x : tensor3)
  (batch_lengths : list nat) (g : generator) (t h : nat) :
  1 <= length batch_lengths ->
  sorted_descending batch_lengths = true ->
  t <= hd 0 batch_lengths ->
  time_shape (length batch_lengths) t x ->
  generator_shape (length batch_lengths) h g ->
  batch_ok c x batch_lengths None g.
Proof.
  intros Hn Hs Ht Hx Hg.
  pose proof (time_shape_timesteps _ _ _ Hn Hx) as HT.
  destruct Hx as [Hl _].
  constructor; auto.
  - exact I.
  - destruct (sample_dropout_mask_shape c
                (full_batch_previous_state (initial_loop_state c x None))
                g _ h Hg) as [Hm _].
    destruct (fst (sample_dropout_mask c _ g)) as [m|]; [|exact I].
    simpl; destruct Hm as [Hm _]; congruence.
  - rewrite HT; exact Ht.
Qed.

Lemma lstm_layer_stack_zero (lm : ElmobiLm) (batch_lengths : list nat)
  (t : nat) (s s' : stack_state) :
  lm_shapes lm ->
  1 <= length batch_lengths ->
  sorted_descending batch_lengths = true ->
  t <= hd 0 batch_lengths ->
  stack_shapes lm (length batch_lengths) t s ->
  stack_zero lm batch_lengths t s ->
  lstm_layer lm batch_lengths s (length (sequence_outputs s), None) = Ok s' ->
  stack_zero lm batch_lengths t s'.
Proof.
  intros Hlm Hn Hsorted Ht Hshapes [Hzs Hzo] H.
  pose proof (lstm_layer_stack_shapes lm batch_lengths _ t s s' None Hlm
                Hshapes H) as Hshapes'.
  destruct Hshapes as [Hstreams Houtputs Hgen].
  destruct (lstm_layer_inv_none _ _ _ _ _ H)
    as (fl & bl & fr & br & Hfl & Hbl & Hf & Hb & Hfo & Hbo & Houts).
  destruct (lm_shapes_cell lm _ _ _ (forward_cells_shapes lm Hlm) Hfl)
    as (Hfh & Hfw & Hfb).
  destruct (lm_shapes_cell lm _ _ _ (backward_cells_shapes lm Hlm) Hbl)
    as (Hbh & Hbw & Hbb).
  destruct (forward_outputs_shape fl _ _ _ _ fr _ _ Hfh Hfw Hfb Hgen Hf)
    as [Hfs Hgf].
  destruct (forward_outputs_shape bl _ _ _ _ br _ _ Hbh Hbw Hbb Hgf Hb)
    as [Hbs Hgb].
  assert (Hin : time_shape (length batch_lengths) t
                           (forward_output_sequence s) /\
                time_shape (length batch_lengths) t
                           (backward_output_sequence s)).
  { destruct (sequence_outputs s); destruct Hstreams as [H1 H2]; split;
      eauto using shape3_time_shape. }
  destruct Hin as [Hfin Hbin].
  apply (time_shape_outputs _ t _ _ _ Hfin) in Hfs.
  apply (time_shape_outputs _ t _ _ _ Hbin) in Hbs.
  pose proof (forward_zero_beyond fl _ _ _ _ fr
                (stream_batch_ok fl _ _ _ t _ Hn Hsorted Ht Hfin Hgen) Hf)
    as Zf.
  pose proof (forward_zero_beyond bl _ _ _ _ br
                (stream_batch_ok bl _ _ _ t _ Hn Hsorted Ht Hbin Hgf) Hb)
    as Zb.
  rewrite (time_shape_timesteps _ _ _ Hn Hfin), Hfh in Zf.
  rewrite (time_shape_timesteps _ _ _ Hn Hbin), Hbh in Zb.
  assert (Hnew : zero_beyond batch_lengths t (lm_hidden_size lm)
                             (forward_output_sequence s') /\
                 zero_beyond batch_lengths t (lm_hidden_size lm)
                             (backward_output_sequence s')).
  { rewrite Hfo, Hbo.
    destruct (sequence_outputs s) as [|o outs] eqn:Eo; cbn [length Nat.eqb].
    - split; assumption.
    - destruct Hstreams as [S1 S2].
      destruct (Hzs ltac:(discriminate)) as [Z1 Z2].
      split; apply zero_beyond_tadd; assumption. }
  destruct Hnew as [Zf' Zb'].
  destruct Hshapes' as [Hstreams' _ _].
  rewrite Houts in Hstreams'.
  assert (Hs' : shape3 (length batch_lengths) t (lm_hidden_size lm)
                       (forward_output_sequence s') /\
                shape3 (length batch_lengths) t (lm_hidden_size lm)
                       (backward_output_sequence s'))
    by (destruct (sequence_outputs s); exact Hstreams').
  destruct Hs' as [Sf' Sb'].
  constructor.
  - intros _; split; assumption.
  - rewrite Houts; apply Forall_app; split; [exact Hzo|].
    constructor; [|constructor].
    replace (2 * lm_hidden_size lm)
      with (lm_hidden_size lm + lm_hidden_size lm) by lia.
    apply zero_beyond_cat_last3; assumption.
Qed.

Lemma run_layers_stack_zero (lm : ElmobiLm) (batch_lengths : list nat)
  (t k : nat) (a : nat) (s sT : stack_state) :
  lm_shapes lm ->
  1 <= length batch_lengths ->
  sorted_descending batch_lengths = true ->
  t <= hd 0 batch_lengths ->
  stack_shapes lm (length batch_lengths) t s ->
  stack_zero lm batch_lengths t s ->
  length (sequence_outputs s) = a ->
  run_layers lm batch_lengths (combine (seq a k) (repeat None k)) s = Ok sT ->
  stack_zero lm batch_lengths t sT.
Proof.
  intros Hlm Hn Hsorted Ht; unfold run_layers.
  revert a s; induction k as [|k IH]; intros a s Hs Hz Ha H.
  - injection H as <-; exact Hz.
  - cbn [seq repeat combine for_each] in H.
    destruct (lstm_layer lm batch_lengths s (a, None)) as [s1| |] eqn:E;
      simpl in H; try discriminate.
    rewrite <- Ha in E.
    pose proof (lstm_layer_stack_shapes lm batch_lengths _ t s s1 None Hlm Hs E)
      as Hs1.
    pose proof (lstm_layer_stack_zero lm batch_lengths t s s1 Hlm Hn Hsorted
                  Ht Hs Hz E) as Hz1.
    destruct (lstm_layer_inv_none _ _ _ _ _ E)
      as (_ & _ & _ & _ & _ & _ & _ & _ & _ & _ & Houts).
    apply (IH (S a) s1 Hs1 Hz1); [|exact H].
    rewrite Houts, length_app; simpl; lia.
Qed.

Lemma sorted_list_max (l : list nat) :
  sorted_descending l = true -> list_max l = hd 0 l.
Proof.
  intros Hs; destruct l as [|a l]; [reflexivity|].
  pose proof (proj2 (list_max_le l a) (sorted_descending_head a l Hs)) as H.
  change (list_max (a :: l)) with (Nat.max a (list_max l)).
  cbn [hd]; lia.
Qed.

Lemma lstm_forward_zero (lm : ElmobiLm) (packed : PackedSequence)
  (g : generator) (r : lstm_forward_result) :
  lm_shapes lm ->
  generator_shape (length (packed_data packed)) (lm_hidden_size lm) g ->
  1 <= length (packed_data packed) ->
  sorted_descending (snd (pad_packed_sequence packed)) = true ->
  _lstm_forward lm packed None g = Ok r ->
  Forall (zero_beyond (snd (pad_packed_sequence packed))
                      (list_max (snd (pad_packed_sequence packed)))
                      (2 * lm_hidden_size lm))
         (stacked_sequence_outputs r).
Proof.
  intros Hlm Hg Hn Hsorted H.
  destruct (lstm_forward_inv _ _ _ _ _ H) as (states & sT & Hst & Hrun & Ho & _).
  cbn [hidden_states_of] in Hst; injection Hst as <-.
  unfold enumerate in Hrun; rewrite repeat_length in Hrun.
  destruct (pad_packed_sequence_lengths packed) as [Hl _].
  assert (HL : length (snd (pad_packed_sequence packed))
               = length (packed_data packed))
    by (rewrite Hl; apply length_map).
  rewrite Ho.
  apply (zero_outputs lm _ _ sT).
  apply (run_layers_stack_zero lm _ _ _ 0 _ sT Hlm) with (7 := Hrun).
  - rewrite HL; exact Hn.
  - exact Hsorted.
  - rewrite (sorted_list_max _ Hsorted); apply le_n.
  - constructor; cbn [initial_stack_state sequence_outputs
                      forward_output_sequence backward_output_sequence
                      stack_generator]; rewrite HL.
    + split; apply pad_packed_sequence_time_shape.
    + constructor.
    + exact Hg.
  - constructor; cbn [initial_stack_state sequence_outputs];
      [intros Hne; exfalso; apply Hne; reflexivity | constructor].
  - reflexivity.
Qed.

(** [ElmobiLm.forward] on a batch of at least one row of [t] vectors with
    lengths between 1 and [t]: the packed batch that the stack is run on,
    and what comes back of it. *)
Lemma ElmobiLm_forward_sorted (lm : ElmobiLm) (inputs : tensor3)
  (seq_len : list nat) (g : generator) (t : nat) :
  lm_shapes lm ->
  forward_layers lm <> [] ->
  inputs <> [] ->
  time_shape (length seq_len) t inputs ->
  Forall (fun len => 1 <= len <= t) seq_len ->
  generator_shape (length seq_len) (lm_hidden_size lm) g ->
  exists packed r,
    length (packed_data packed) = length seq_len /\
    snd (pad_packed_sequence packed) = fst (sort_descending seq_len) /\
    _lstm_forward lm packed None g = Ok r /\
    length (stacked_sequence_outputs r) = length (forward_layers lm) /\
    ElmobiLm_forward lm inputs seq_len g
    = Ok (map (fun layer =>
                 index_select layer
                   (snd (sort_ascending (snd (sort_descending seq_len)))))
              (stacked_sequence_outputs r),
          lstm_generator_after r).
Proof.
  intros Hlm Hne Hin [Hn Hrows] Hlens Hg.
  unfold ElmobiLm_forward.
  destruct (sort_descending_perm seq_len) as [Hpl Hpi].
  pose proof (sort_descending_sorted seq_len) as Hsorted.
  destruct (sort_descending seq_len) as [sort_lens sort_idx].
  cbn [fst snd] in *.
  destruct (perm_seq_in_range sort_idx _ Hpi) as [Hil Hir].
  pose proof (Permutation_length Hpl) as Hll.
  pose proof (Permutation_Forall (Permutation_sym Hpl) Hlens) as Hsl.
  set (sorted_inputs := index_select inputs sort_idx).
  assert (Hsn : length sorted_inputs = length sort_lens).
  { subst sorted_inputs; rewrite index_select_length; [lia|].
    rewrite Hn; exact Hir. }
  assert (Hsrows : Forall (fun row => length row = t) sorted_inputs)
    by (apply index_select_Forall; exact Hrows).
  unfold pack_padded_sequence.
  rewrite Hsorted; cbn [negb].
  rewrite existsb_zero_length
    by (eapply Forall_impl; [|exact Hsl]; simpl; intros; lia).
  cbn [bind].
  set (packed := {| packed_data :=
                      map2 (fun row len => firstn len row)
                           sorted_inputs sort_lens;
                    packed_width := feature_size sorted_inputs |}).
  assert (Hpacked : snd (pad_packed_sequence packed) = sort_lens).
  { destruct (pad_packed_sequence_lengths packed) as [-> _].
    subst packed; cbn [packed_data].
    apply (packed_lengths _ _ t Hsn Hsrows).
    eapply Forall_impl; [|exact Hsl]; simpl; intros; lia. }
  assert (Hpn : length (packed_data packed) = length seq_len).
  { subst packed; cbn [packed_data]; rewrite map2_length; lia. }
  assert (Hgp : generator_shape (length (packed_data packed))
                                (lm_hidden_size lm) g)
    by (rewrite Hpn; exact Hg).
  destruct (lstm_forward_returns lm packed g Hlm Hgp Hne)
    as (r & Hr & Hlen); [rewrite Hpacked; exact Hsorted|].
  exists packed, r.
  rewrite Hr; cbn [bind].
  repeat split; assumption.
Qed.

(** X7.  [ElmobiLm.forward] on a batch of at least one row of [t] vectors,
    with one length between 1 and [t] per row, for a stack of at least one
    layer with the shapes of [__init__]: it returns one tensor per layer, of
    one row per batch element, as many time positions as the longest
    sequence has, and vectors of twice the hidden size; and in every layer
    the vectors of a row at the time positions at or beyond the length of
    that row are zero. *)
Theorem ElmobiLm_forward_padding (lm : ElmobiLm) (inputs : tensor3)
  (seq_len : list nat) (g : generator) (t : nat) :
  lm_shapes lm ->
  forward_layers lm <> [] ->
  inputs <> [] ->
  time_shape (length seq_len) t inputs ->
  Forall (fun len => 1 <= len <= t) seq_len ->
  generator_shape (length seq_len) (lm_hidden_size lm) g ->
  exists enc g',
    ElmobiLm_forward lm inputs seq_len g = Ok (enc, g') /\
    length enc = length (forward_layers lm) /\
    Forall (shape3 (length seq_len) (list_max seq_len)
                   (2 * lm_hidden_size lm)) enc /\
    forall l b p,
      l < length enc -> b < length seq_len ->
      nth b seq_len 0 <= p -> p < list_max seq_len ->
      nth p (nth b (nth l enc []) []) [] = zeros (2 * lm_hidden_size lm).
Proof.
  intros Hlm Hne Hin Hshape Hlens Hg.
  destruct (ElmobiLm_forward_sorted lm inputs seq_len g t Hlm Hne Hin Hshape
              Hlens Hg) as (packed & r & Hpn & Hpacked & Hr & Hlen & Hfwd).
  assert (Hgp : generator_shape (length (packed_data packed))
                                (lm_hidden_size lm) g)
    by (rewrite Hpn; exact Hg).
  assert (Hpos : 1 <= length seq_len).
  { destruct Hshape as [Hl _]; destruct inputs; [contradiction|].
    simpl in Hl; lia. }
  pose proof (lstm_forward_shapes lm packed None g r Hlm Hgp Hr) as Hshapes.
  pose proof (lstm_forward_zero lm packed g r Hlm Hgp ltac:(lia)) as Hzero.
  rewrite Hpacked in Hshapes, Hzero.
  specialize (Hzero (sort_descending_sorted seq_len) Hr).
  destruct (sort_descending_perm seq_len) as [Hpl Hpi].
  rewrite (list_max_perm _ _ Hpl), Hpn in Hshapes.
  rewrite (list_max_perm _ _ Hpl) in Hzero.
  destruct (perm_seq_in_range _ _ Hpi) as [Hil Hir].
  set (sort_idx := snd (sort_descending seq_len)) in *.
  assert (Hps : Permutation sort_idx (seq 0 (length sort_idx)))
    by (rewrite Hil; exact Hpi).
  destruct (sort_ascending_inverse sort_idx Hps) as [Hlu Hinv].
  cbv zeta in Hlu, Hinv.
  set (unsort_idx := snd (sort_ascending sort_idx)) in *.
  assert (Hpu : Permutation unsort_idx (seq 0 (length seq_len)))
    by (rewrite <- Hil; apply sort_ascending_perm).
  exists (map (fun layer => index_select layer unsort_idx)
              (stacked_sequence_outputs r)), (lstm_generator_after r).
  split; [exact Hfwd|].
  split; [rewrite length_map; exact Hlen|].
  split.
  - rewrite Forall_map.
    eapply Forall_impl; [|exact Hshapes]; simpl; intros layer Hlayer.
    apply shape3_index_select; assumption.
  - intros l b p Hl Hb Hlenb Hp.
    rewrite length_map in Hl.
    rewrite (nth_map_in _ _ l [] []) by exact Hl.
    set (layer := nth l (stacked_sequence_outputs r) []).
    assert (Hlayer : shape3 (length seq_len) (list_max seq_len)
                            (2 * lm_hidden_size lm) layer).
    { rewrite Forall_forall in Hshapes; apply Hshapes, nth_In; exact Hl. }
    assert (Zlayer : zero_beyond (fst (sort_descending seq_len))
                                 (list_max seq_len) (2 * lm_hidden_size lm)
                                 layer).
    { rewrite Forall_forall in Hzero; apply Hzero, nth_In; exact Hl. }
    destruct (perm_seq_in_range _ _ Hpu) as [_ Hru].
    destruct Hlayer as [Hn _].
    rewrite (index_select_map layer unsort_idx [])
      by (rewrite Hn; exact Hru).
    rewrite (nth_map_in _ unsort_idx b [] 0) by lia.
    destruct (Hinv b ltac:(lia)) as [Hk E].
    apply Zlayer; [| |exact Hp].
    + rewrite (Permutation_length Hpl); lia.
    + rewrite sort_descending_lengths; fold sort_idx.
      rewrite (index_select_map seq_len sort_idx 0 Hir).
      rewrite (nth_map_in _ sort_idx _ 0 0) by exact Hk.
      rewrite E; exact Hlenb.
Qed.

(** The stack of two layers on the rows [[1]; [2]] and [[3]; [0]] with the
    lengths 2 and 1. *)
Lemma ElmobiLm_forward_padding_witness :
  exists enc g',
    ElmobiLm_forward example_stack example_inputs [2; 1] example_masks
    = Ok (enc, g') /\
    length enc = 2 /\
    Forall (shape3 2 2 2) enc /\
    nth 1 (nth 1 (nth 1 enc []) []) [] = [0%R; 0%R].
Proof.
  destruct (ElmobiLm_forward_padding example_stack example_inputs [2; 1]
              example_masks 2 example_stack_shapes ltac:(discriminate)
              ltac:(discriminate)
              ltac:(split; [reflexivity | repeat constructor])
              ltac:(repeat constructor)
              example_masks_shape)
    as (enc & g' & Hfwd & Hlen & Hshape & Hzero).
  exists enc, g'; split; [exact Hfwd|]; split; [exact Hlen|].
  split; [exact Hshape|].
  apply (Hzero 1 1 1); rewrite ?Hlen; simpl; lia.
Defined.

(* ================================================================== *)
(** * Properties of the highway layers *)

(** ** One layer, row by row *)

(** What a layer makes of one row of its input. *)
Definition highway_row (input_dim : nat) (activation : R -> R) (layer : Linear)
  (x : vec) : vec :=
  let projected := linear layer x in
  let nonlinear_part :=
    map activation
        (firstn (1 * input_dim - 0 * input_dim)
                (skipn (0 * input_dim) projected)) in
  let gate :=
    map sigmoid
        (firstn (2 * input_dim - 1 * input_dim)
                (skipn (1 * input_dim) projected)) in
  vadd (vmul gate x) (vmul (map (fun g => (1 - g)%R) gate) nonlinear_part).

Lemma highway_layer_rows (input_dim : nat) (activation : R -> R)
  (layer : Linear) (current_input : mat) :
  highway_layer input_dim activation current_input layer
  = map (highway_row input_dim activation layer) current_input.
Proof.
  unfold highway_layer, highway_row, madd, mmul, mmap, cols, apply_linear.
  cbv zeta.
  induction current_input as [|x rest IH]; [reflexivity|].
  cbn [map map2]; f_equal; exact IH.
Qed.

Lemma sigmoid_opp (z : R) : sigmoid (- z) = (1 - sigmoid z)%R.
Proof.
  unfold sigmoid; rewrite Ropp_involutive, exp_Ropp.
  pose proof (exp_pos z) as H.
  field; split; lra.
Qed.

Lemma dot_scale (k : R) (a x : vec) :
  dot (map (fun v => (k * v)%R) a) x = (k * dot a x)%R.
Proof.
  revert x; induction a as [|u a IH]; intros [|v x]; unfold dot in *;
    simpl; try ring.
  rewrite IH; ring.
Qed.

(** ** The layers of the checkpoint *)

(** The shapes of a group for highway layers over [n] features. *)
Definition highway_group_shape (n : nat) (dataset : HighwayGroup) : Prop :=
  rows_of_width n n (W_transform dataset) /\
  rows_of_width n n (W_carry dataset) /\
  length (b_transform dataset) = n /\
  length (b_carry dataset) = n.

(** The highway layer of the checkpoint on one row, [(1 - g) * x + g * f(x)]
    with the carry gate [g = sigmoid(x @ W_carry + b_carry)] and
    [f(x) = activation(x @ W_transform + b_transform)]. *)
Definition checkpoint_highway_row (activation : R -> R)
  (dataset : HighwayGroup) (x : vec) : vec :=
  map (fun j =>
         let carry_gate :=
           sigmoid (dot (column (W_carry dataset) j) x
                    + nth j (b_carry dataset) 0)%R in
         let transform :=
           activation (dot (column (W_transform dataset) j) x
                       + nth j (b_transform dataset) 0)%R in
         ((1 - carry_gate) * nth j x 0 + carry_gate * transform)%R)
      (seq 0 (length x)).

(** A group of the shapes of the layer is copied as it is computed: no
    check fails and nothing is broadcast. *)
Lemma highway_parameters_shape (n : nat) (dataset : HighwayGroup) :
  1 <= n -> highway_group_shape n dataset ->
  rows_of_width n n (transpose (W_transform dataset)) /\
  rows_of_width n n (mmap (fun x => (-1 * x)%R) (transpose (W_carry dataset))) /\
  length (b_transform dataset
          ++ map (fun x => (-1 * x)%R) (b_carry dataset)) = 2 * n.
Proof.
  intros Hn (Ht & Hc & Hbt & Hbc).
  pose proof (transpose_shape _ n n Hn Ht) as HTt.
  destruct (transpose_shape _ n n Hn Hc) as [LTc WTc].
  repeat split; try apply HTt.
  - unfold mmap; rewrite length_map; exact LTc.
  - unfold mmap; rewrite Forall_map.
    eapply Forall_impl; [|exact WTc]; simpl; intros row Hrow.
    rewrite length_map; exact Hrow.
  - rewrite length_app, length_map; lia.
Qed.

Lemma rows_of_width_app (r1 r2 w : nat) (m1 m2 : mat) :
  rows_of_width r1 w m1 -> rows_of_width r2 w m2 ->
  rows_of_width (r1 + r2) w (m1 ++ m2).
Proof.
  intros [L1 W1] [L2 W2]; split.
  - rewrite length_app; lia.
  - apply Forall_app; split; assumption.
Qed.

Lemma loaded_highway_layer_exact (n : nat) (dataset : HighwayGroup) :
  1 <= n -> highway_group_shape n dataset ->
  loaded_highway_layer n dataset = highway_parameters dataset.
Proof.
  intros Hn Hs.
  destruct (highway_parameters_shape n dataset Hn Hs) as (HTt & HTc & Hb).
  unfold loaded_highway_layer, highway_parameters; cbv zeta.
  cbn [weight bias option_map].
  rewrite copied_same, broadcast_same; [reflexivity | exact Hb |].
  replace (2 * n) with (n + n) by lia.
  apply rows_of_width_app; assumption.
Qed.

Lemma concatenate_check_same (r w : nat) (a b : mat) :
  rows_of_width r w a -> rows_of_width r w b -> concatenate_check a b = Ok tt.
Proof.
  intros [_ Wa] [_ Wb]; unfold concatenate_check.
  destruct a as [|row_a a]; [reflexivity|].
  destruct b as [|row_b b]; [reflexivity|].
  inversion Wa as [|? ? Ea _]; inversion Wb as [|? ? Eb _].
  rewrite Ea, Eb, Nat.eqb_refl; reflexivity.
Qed.

Lemma load_highway_layer_fits (n : nat) (fin : highway_checkpoint)
  (layers : list Linear) (k : nat) (dataset : HighwayGroup) :
  1 <= n -> fin k = Some dataset -> highway_group_shape n dataset ->
  load_highway_layer n fin layers k
  = Ok (set_nth k (highway_parameters dataset) layers).
Proof.
  intros Hn Hk Hs.
  destruct (highway_parameters_shape n dataset Hn Hs) as (HTt & HTc & Hb).
  unfold load_highway_layer; rewrite Hk; cbv zeta.
  rewrite (concatenate_check_same n n _ _ HTt HTc); cbn [bind].
  rewrite copy_check_same
    by (replace (2 * n) with (n + n) by lia;
        apply rows_of_width_app; assumption).
  cbn [bind]; unfold copy_check_vector.
  rewrite (broadcastable_same _ _ Hb); cbn [bind].
  rewrite (loaded_highway_layer_exact n dataset Hn Hs); reflexivity.
Qed.

Lemma loaded_highway_row (n : nat) (activation : R -> R)
  (dataset : HighwayGroup) (x : vec) :
  1 <= n -> highway_group_shape n dataset -> length x = n ->
  highway_row n activation (highway_parameters dataset) x
  = checkpoint_highway_row activation dataset x.
Proof.
  intros Hn ([Ht Htw] & [Hc Hcw] & Hbt & Hbc) Hx.
  assert (Htne : W_transform dataset <> [])
    by (intros E; rewrite E in Ht; simpl in Ht; lia).
  assert (Hcne : W_carry dataset <> [])
    by (intros E; rewrite E in Hc; simpl in Hc; lia).
  destruct (transpose_rows _ _ Htne Htw) as [LTt RTt].
  destruct (transpose_rows _ _ Hcne Hcw) as [LTc RTc].
  set (Tt := transpose (W_transform dataset)) in *.
  set (Tc := transpose (W_carry dataset)) in *.
  set (bc := map (fun v => (-1 * v)%R) (b_carry dataset)).
  assert (Lbc : length bc = n) by (subst bc; rewrite length_map; exact Hbc).
  set (P1 := map2 Rplus (map (fun w => dot w x) Tt) (b_transform dataset)).
  set (P2 := map2 Rplus (map (fun w => dot w x)
                             (mmap (fun v => (-1 * v)%R) Tc)) bc).
  assert (L1 : length P1 = n)
    by (subst P1; rewrite map2_length, length_map; lia).
  assert (L2 : length P2 = n)
    by (subst P2; unfold mmap; rewrite map2_length, !length_map; lia).
  assert (Ep : linear (highway_parameters dataset) x = P1 ++ P2).
  { unfold linear; cbn [highway_parameters weight bias].
    fold Tt Tc bc.
    rewrite map_app; unfold vadd.
    apply map2_app; rewrite length_map; lia. }
  unfold highway_row; cbv zeta; rewrite Ep.
  replace (1 * n - 0 * n) with n by lia.
  replace (2 * n - 1 * n) with n by lia.
  replace (0 * n) with 0 by lia.
  replace (1 * n) with n by lia.
  cbn [skipn].
  assert (F1 : firstn n (P1 ++ P2) = P1).
  { rewrite firstn_app, L1, Nat.sub_diag, (firstn_all2 P1) by lia.
    cbn [firstn]; apply app_nil_r. }
  assert (F2 : firstn n (skipn n (P1 ++ P2)) = P2).
  { rewrite skipn_app, L1, Nat.sub_diag, (skipn_all2 P1) by lia.
    cbn [skipn app]; apply firstn_all2; lia. }
  rewrite F1, F2.
  unfold checkpoint_highway_row.
  apply (nth_ext _ _ 0%R 0%R).
  - unfold vadd, vmul.
    rewrite !map2_length, !length_map, length_seq; lia.
  - intros j Hj.
    assert (Hjn : j < n).
    { unfold vadd, vmul in Hj.
      rewrite !map2_length, !length_map in Hj; lia. }
    unfold vadd, vmul.
    rewrite (map2_nth Rplus _ _ j 0%R 0%R 0%R)
      by (rewrite !map2_length, !length_map; lia).
    rewrite (map2_nth Rmult _ _ j 0%R 0%R 0%R)
      by (rewrite ?length_map; lia).
    rewrite (map2_nth Rmult _ _ j 0%R 0%R 0%R)
      by (rewrite ?length_map; lia).
    rewrite (nth_map_in (fun g => (1 - g)%R) _ j 0%R 0%R)
      by (rewrite length_map; lia).
    rewrite !(nth_map_in sigmoid P2 j 0%R 0%R) by lia.
    rewrite (nth_map_in activation P1 j 0%R 0%R) by lia.
    rewrite (nth_map_in _ (seq 0 (length x)) j 0%R 0)
      by (rewrite length_seq; lia).
    rewrite seq_nth by lia; cbn [plus].
    subst P1 P2.
    rewrite (map2_nth Rplus _ _ j 0%R 0%R 0%R)
      by (unfold mmap; rewrite ?length_map; lia).
    rewrite (map2_nth Rplus _ _ j 0%R 0%R 0%R)
      by (unfold mmap; rewrite ?length_map; lia).
    rewrite (nth_map_in (fun w => dot w x) Tt j 0%R []) by lia.
    rewrite (nth_map_in (fun w => dot w x) _ j 0%R [])
      by (unfold mmap; rewrite length_map; lia).
    unfold mmap.
    rewrite (nth_map_in (map (fun v => (-1 * v)%R)) Tc j [] []) by lia.
    subst bc.
    rewrite (nth_map_in (fun v => (-1 * v)%R) (b_carry dataset) j 0%R 0%R)
      by lia.
    rewrite (RTt j Hjn), (RTc j Hjn), dot_scale.
    fold (column (W_transform dataset) j) (column (W_carry dataset) j).
    set (z := (dot (column (W_carry dataset) j) x
               + nth j (b_carry dataset) 0)%R).
    replace (-1 * dot (column (W_carry dataset) j) x
             + -1 * nth j (b_carry dataset) 0)%R with (- z)%R
      by (subst z; ring).
    rewrite sigmoid_opp; ring.
Qed.

Lemma checkpoint_highway_row_length (activation : R -> R)
  (dataset : HighwayGroup) (x : vec) :
  length (checkpoint_highway_row activation dataset x) = length x.
Proof. unfold checkpoint_highway_row; rewrite length_map; apply length_seq. Qed.

(** ** Loading the layers *)

Lemma set_nth_middle {A : Type} (p rest : list A) (a v : A) :
  set_nth (length p) v (p ++ a :: rest) = p ++ v :: rest.
Proof. induction p as [|x p IH]; [reflexivity | simpl; rewrite IH; reflexivity]. Qed.

Lemma skipn_cons_nth {A : Type} (k : nat) (l : list A) (d : A) :
  k < length l -> skipn k l = nth k l d :: skipn (S k) l.
Proof.
  revert l; induction k as [|k IH]; intros [|a l] H; simpl in H; try lia;
    [reflexivity|].
  cbn [skipn nth]; apply IH; lia.
Qed.

Lemma firstn_S_nth_error {A : Type} (l : list A) (k : nat) (a : A) :
  nth_error l k = Some a -> firstn (S k) l = firstn k l ++ [a].
Proof.
  revert k; induction l as [|x l IH]; intros [|k] E; simpl in E;
    try discriminate.
  - injection E as ->; reflexivity.
  - change (x :: firstn (S k) l = x :: (firstn k l ++ [a])).
    f_equal; apply IH; exact E.
Qed.

(** After the first [k] passes of the loop over groups of the shapes of the
    layers, the first [k] layers are the ones computed from the groups and
    the others are as they were. *)
Lemma load_highway_layers_prefix (n : nat) (fin : highway_checkpoint)
  (groups : list HighwayGroup) (init : list Linear) (k : nat) :
  1 <= n ->
  (forall i dataset, nth_error groups i = Some dataset ->
                     fin i = Some dataset) ->
  Forall (highway_group_shape n) groups ->
  k <= length groups -> k <= length init ->
  for_each (load_highway_layer n fin) (seq 0 k) init
  = Ok (map highway_parameters (firstn k groups) ++ skipn k init).
Proof.
  intros Hn Hfin Hshapes; induction k as [|k IH]; intros Hg Hi;
    [reflexivity|].
  rewrite seq_S, for_each_app, IH by lia.
  cbn [bind plus for_each].
  destruct (nth_error groups k) as [dataset|] eqn:E;
    [|apply nth_error_None in E; lia].
  assert (Hs : highway_group_shape n dataset).
  { rewrite Forall_forall in Hshapes.
    apply Hshapes; eapply nth_error_In; exact E. }
  rewrite (load_highway_layer_fits n fin _ k dataset Hn (Hfin k dataset E) Hs).
  cbn [bind]; f_equal.
  set (d := highway_parameters dataset).
  rewrite (skipn_cons_nth k init d) by lia.
  assert (Lp : length (map highway_parameters (firstn k groups)) = k)
    by (rewrite length_map, length_firstn; lia).
  pose proof (set_nth_middle (map highway_parameters (firstn k groups))
                (skipn (S k) init) (nth k init d) d) as Hm.
  rewrite Lp in Hm; rewrite Hm.
  rewrite (firstn_S_nth_error groups k dataset E), map_app, <- app_assoc.
  reflexivity.
Qed.

(** The groups before [k] are in the checkpoint, with the shapes of the
    layers. *)
Definition highway_groups_before_fit (n : nat) (fin : highway_checkpoint)
  (k : nat) : Prop :=
  forall i, i < k ->
    exists dataset, fin i = Some dataset /\ highway_group_shape n dataset.

Lemma load_highway_layers_fit (n : nat) (fin : highway_checkpoint)
  (init : list Linear) (k : nat) :
  1 <= n -> highway_groups_before_fit n fin k ->
  exists layers, for_each (load_highway_layer n fin) (seq 0 k) init = Ok layers.
Proof.
  intros Hn; induction k as [|k IH]; intros Hfit; [eexists; reflexivity|].
  destruct IH as [layers E]; [intros i Hi; apply Hfit; lia|].
  destruct (Hfit k (Nat.lt_succ_diag_r k)) as (dataset & Hk & Hs).
  rewrite seq_S, for_each_app, E; cbn [bind plus for_each].
  rewrite (load_highway_layer_fits n fin layers k dataset Hn Hk Hs).
  eexists; reflexivity.
Qed.

(** The loop raises what the first group that does not load raises. *)
Lemma load_highway_first_raise (n : nat) (fin : highway_checkpoint)
  (init : list Linear) (k n_more : nat) (e : exn) :
  1 <= n -> k < n_more -> highway_groups_before_fit n fin k ->
  (forall layers, load_highway_layer n fin layers k = Raise e) ->
  for_each (load_highway_layer n fin) (seq 0 n_more) init = Raise e.
Proof.
  intros Hn Hk Hfit Hraise.
  replace n_more with (k + S (n_more - S k)) by lia.
  rewrite seq_app, for_each_app.
  destruct (load_highway_layers_fit n fin init k Hn Hfit) as [layers E].
  rewrite E; cbn [bind plus seq for_each].
  rewrite Hraise; reflexivity.
Qed.

(** A group whose matrices have [w] columns for layers over other than [w]
    features: the [copy_] of the weight raises. *)
Lemma load_highway_layer_width (n : nat) (fin : highway_checkpoint)
  (layers : list Linear) (k : nat) (dataset : HighwayGroup) (r w : nat) :
  fin k = Some dataset -> 1 <= r ->
  rows_of_width r w (W_transform dataset) ->
  rows_of_width r w (W_carry dataset) ->
  w <> n ->
  load_highway_layer n fin layers k = Raise (Exception "RuntimeError").
Proof.
  intros Hk Hr Ht Hc Hw.
  pose proof (transpose_shape _ r w Hr Ht) as HTt.
  destruct (transpose_shape _ r w Hr Hc) as [LTc WTc].
  assert (HTc : rows_of_width w r
                  (mmap (fun x => (-1 * x)%R) (transpose (W_carry dataset)))).
  { split; unfold mmap; [rewrite length_map; exact LTc|].
    rewrite Forall_map.
    eapply Forall_impl; [|exact WTc]; simpl; intros row Hrow.
    rewrite length_map; exact Hrow. }
  unfold load_highway_layer; rewrite Hk; cbv zeta.
  rewrite (concatenate_check_same w r _ _ HTt HTc); cbn [bind].
  unfold copy_check, broadcastable at 1.
  rewrite length_app, (proj1 HTt), (proj1 HTc).
  replace (w + w =? 2 * n) with false by (symmetry; apply Nat.eqb_neq; lia).
  replace (w + w =? 1) with false by (symmetry; apply Nat.eqb_neq; lia).
  reflexivity.
Qed.

(** X8.  [_load_highway] with [Highway.forward], for layers over [n >= 1]
    features.  When the checkpoint holds groups of the shapes of the layers
    for all the highway layers, the loaded module computes, layer after
    layer and row by row, the highway layer of the checkpoint,
    [(1 - g) * x + g * relu(x @ W_transform + b_transform)] with
    [g = sigmoid(x @ W_carry + b_carry)], whatever the fresh parameters
    were.  When the groups before [k] are of these shapes, [_load_highway]
    raises [KeyError] if the group [k] is absent, and [RuntimeError] if its
    two matrices have a number of columns other than [n]. *)
Theorem loaded_highway_forward (filters : list (nat * nat))
  (fresh : nat -> Linear) (fin : highway_checkpoint) :
  let n := n_filters_of filters in
  1 <= n ->
  (forall (groups : list HighwayGroup) (inputs : mat),
     (forall k dataset, nth_error groups k = Some dataset ->
                        fin k = Some dataset) ->
     Forall (highway_group_shape n) groups ->
     Forall (fun x => length x = n) inputs ->
     exists h,
       _load_highway filters (length groups) fresh fin = Ok h /\
       Highway_forward h inputs
       = fold_left (fun current dataset =>
                      map (checkpoint_highway_row relu dataset) current)
                   groups inputs) /\
  (forall n_more k, k < n_more ->
     highway_groups_before_fit n fin k -> fin k = None ->
     _load_highway filters n_more fresh fin = Raise (Exception "KeyError")) /\
  (forall n_more k dataset r w, k < n_more ->
     highway_groups_before_fit n fin k -> fin k = Some dataset ->
     1 <= r -> rows_of_width r w (W_transform dataset) ->
     rows_of_width r w (W_carry dataset) -> w <> n ->
     _load_highway filters n_more fresh fin
     = Raise (Exception "RuntimeError")).
Proof.
  intros n Hn; split; [|split].
  - intros groups inputs Hfin Hshapes Hin.
    unfold _load_highway; cbv zeta; fold n.
    rewrite (load_highway_layers_prefix n fin groups _ (length groups)
               Hn Hfin Hshapes)
      by (cbn [Highway_init _layers];
          rewrite ?length_map, ?length_seq; lia).
    cbn [bind Highway_init _layers _input_dim _activation].
    rewrite firstn_all, skipn_all2, app_nil_r
      by (rewrite length_map, length_seq; lia).
    eexists; split; [reflexivity|].
    unfold Highway_forward; cbn [_layers _input_dim _activation].
    clear Hfin; revert inputs Hin.
    induction Hshapes as [|dataset groups' Hds _ IH]; intros inputs Hin;
      [reflexivity|].
    cbn [map fold_left].
    assert (E : highway_layer n relu inputs (highway_parameters dataset)
                = map (checkpoint_highway_row relu dataset) inputs).
    { rewrite highway_layer_rows.
      apply map_ext_in; intros x Hx.
      rewrite Forall_forall in Hin.
      apply (loaded_highway_row n); auto. }
    rewrite E; apply IH.
    rewrite Forall_map.
    eapply Forall_impl; [|exact Hin]; simpl; intros x Hx.
    rewrite checkpoint_highway_row_length; exact Hx.
  - intros n_more k Hk Hfit Hnone.
    unfold _load_highway; cbv zeta; fold n.
    rewrite (load_highway_first_raise n fin _ k n_more (Exception "KeyError")
               Hn Hk Hfit); [reflexivity|].
    intros layers; unfold load_highway_layer; rewrite Hnone; reflexivity.
  - intros n_more k dataset r w Hk Hfit Hsome Hr Ht Hc Hw.
    unfold _load_highway; cbv zeta; fold n.
    rewrite (load_highway_first_raise n fin _ k n_more
               (Exception "RuntimeError") Hn Hk Hfit); [reflexivity|].
    intros layers.
    exact (load_highway_layer_width n fin layers k dataset r w
             Hsome Hr Ht Hc Hw).
Qed.

(** One layer over one feature, with [W_transform = [[2]]],
    [W_carry = [[0]]], [b_transform = [0]] and [b_carry = [1]]: the carry
    gate is [sigmoid(1)], and the row [[1]] becomes
    [(1 - sigmoid(1)) * 1 + sigmoid(1) * 2]. *)
Definition example_highway_group : HighwayGroup :=
  {| W_transform := [[2%R]]; W_carry := [[0%R]];
     b_transform := [0%R]; b_carry := [1%R] |}.

(** A group for two features. *)
Definition example_highway_group_wide : HighwayGroup :=
  {| W_transform := [[2%R; 2%R]]; W_carry := [[0%R; 0%R]];
     b_transform := [0%R; 0%R]; b_carry := [1%R; 1%R] |}.

Definition example_fresh_layer : nat -> Linear :=
  fun _ => {| weight := [[0%R]; [0%R]]; bias := Some [0%R; 0%R] |}.

Lemma example_highway_row :
  checkpoint_highway_row relu example_highway_group [1%R]
  = [((1 - sigmoid 1) * 1 + sigmoid 1 * 2)%R].
Proof.
  unfold checkpoint_highway_row, example_highway_group, column, dot, relu.
  cbn.
  replace (0 * 1 + 0 + 1)%R with 1%R by ring.
  replace (2 * 1 + 0 + 0)%R with 2%R by ring.
  rewrite Rmax_right by lra; reflexivity.
Qed.

Lemma loaded_highway_forward_witness :
  (exists h,
     _load_highway [(1, 1)] 1 example_fresh_layer
                   (fun _ => Some example_highway_group) = Ok h /\
     Highway_forward h [[1%R]] = [[((1 - sigmoid 1) * 1 + sigmoid 1 * 2)%R]]) /\
  _load_highway [(1, 1)] 1 example_fresh_layer (fun _ => None)
  = Raise (Exception "KeyError") /\
  _load_highway [(1, 1)] 1 example_fresh_layer
                (fun _ => Some example_highway_group_wide)
  = Raise (Exception "RuntimeError").
Proof.
  split; [|split].
  - destruct (loaded_highway_forward [(1, 1)] example_fresh_layer
                (fun _ => Some example_highway_group) (le_n 1))
      as [Hload _].
    destruct (Hload [example_highway_group] [[1%R]]) as (h & Hh & Hf).
    + intros [|[|k]] dataset E; simpl in E; try discriminate.
      injection E as <-; reflexivity.
    + repeat constructor.
    + repeat constructor.
    + exists h; split; [exact Hh|].
      rewrite Hf; cbn [fold_left map].
      rewrite example_highway_row; reflexivity.
  - destruct (loaded_highway_forward [(1, 1)] example_fresh_layer
                (fun _ => None) (le_n 1)) as (_ & Hkey & _).
    apply (Hkey 1 0); [lia | intros i Hi; lia | reflexivity].
  - destruct (loaded_highway_forward [(1, 1)] example_fresh_layer
                (fun _ => Some example_highway_group_wide) (le_n 1))
      as (_ & _ & Hrun).
    apply (Hrun 1 0 example_highway_group_wide 1 2);
      [lia | intros i Hi; lia | reflexivity | lia | | |
       intros E; vm_compute in E; discriminate];
      repeat constructor.
Defined.

(** ** Shapes and signs, for any parameters *)

Lemma sigmoid_lt_1 (z : R) : (sigmoid z < 1)%R.
Proof.
  unfold sigmoid; pose proof (exp_pos (- z)) as H.
  apply (Rmult_lt_reg_r (1 + exp (- z))); [lra|].
  field_simplify; lra.
Qed.

(** The shape that [__init__] gives every layer: [2 * n] output features and
    a bias. *)
Definition highway_layer_shape (n : nat) (layer : Linear) : Prop :=
  length (weight layer) = 2 * n /\
  exists b, bias layer = Some b /\ length b = 2 * n.

(** One row through one layer: as many entries as the row, each the
    combination [g * x + (1 - g) * f] of the entry [x] of the row and a
    value [f] of the non-linearity, with a gate [g] strictly between 0 and
    1. *)
Lemma highway_row_entries (n : nat) (activation : R -> R) (layer : Linear)
  (x : vec) :
  highway_layer_shape n layer -> length x = n ->
  length (highway_row n activation layer x) = n /\
  forall j, j < n ->
    exists g z,
      (0 < g < 1)%R /\
      nth j (highway_row n activation layer x) 0%R
      = (g * nth j x 0 + (1 - g) * activation z)%R.
Proof.
  intros [Hw (b & Hb & Lb)] Hx.
  assert (Lp : length (linear layer x) = 2 * n)
    by (apply linear_length; [exact Hw | rewrite Hb; exact Lb]).
  unfold highway_row; cbv zeta.
  set (p := linear layer x) in *.
  replace (1 * n - 0 * n) with n by lia.
  replace (2 * n - 1 * n) with n by lia.
  replace (0 * n) with 0 by lia.
  replace (1 * n) with n by lia.
  cbn [skipn].
  set (nl := map activation (firstn n p)).
  set (gate := map sigmoid (firstn n (skipn n p))).
  assert (Lnl : length nl = n)
    by (subst nl; rewrite length_map, length_firstn; lia).
  assert (Lg : length gate = n)
    by (subst gate; rewrite length_map, length_firstn, length_skipn; lia).
  split.
  - unfold vadd, vmul; rewrite !map2_length, length_map; lia.
  - intros j Hj.
    exists (nth j gate 0%R), (nth j (firstn n p) 0%R); split.
    + subst gate.
      rewrite (nth_map_in sigmoid _ j 0%R 0%R)
        by (rewrite length_firstn, length_skipn; lia).
      split; [apply sigmoid_pos | apply sigmoid_lt_1].
    + unfold vadd, vmul.
      rewrite (map2_nth Rplus _ _ j 0%R 0%R 0%R)
        by (rewrite !map2_length, ?length_map; lia).
      rewrite (map2_nth Rmult _ _ j 0%R 0%R 0%R) by lia.
      rewrite (map2_nth Rmult _ _ j 0%R 0%R 0%R)
        by (rewrite ?length_map; lia).
      rewrite (nth_map_in (fun g => (1 - g)%R) gate j 0%R 0%R) by lia.
      subst nl.
      rewrite (nth_map_in activation _ j 0%R 0%R)
        by (rewrite length_firstn; lia).
      reflexivity.
Qed.

(** X9.  [Highway.forward], for layers of the shapes of [__init__] and
    input rows of [input_dim] entries: the output has as many rows as the
    input, each of [input_dim] entries; and when the non-linearity takes no
    negative value, as [relu] does, an input without negative entries gives
    an output without negative entries. *)
Theorem highway_forward_shape_sign (h : Highway) (inputs : mat) :
  let n := _input_dim h in
  Forall (highway_layer_shape n) (_layers h) ->
  Forall (fun x => length x = n) inputs ->
  let out := Highway_forward h inputs in
  length out = length inputs /\
  Forall (fun y => length y = n) out /\
  ((forall z, (0 <= _activation h z)%R) ->
   Forall (Forall (fun v => (0 <= v)%R)) inputs ->
   Forall (Forall (fun v => (0 <= v)%R)) out).
Proof.
  intros n Hlayers; unfold Highway_forward; fold n.
  revert inputs; induction Hlayers as [|layer layers Hl _ IH];
    intros inputs Hin; cbv zeta.
  - cbn [fold_left]; repeat split; auto.
  - cbn [fold_left].
    rewrite highway_layer_rows.
    set (next := map (highway_row n (_activation h) layer) inputs).
    assert (Hnext : Forall (fun x => length x = n) next).
    { subst next; rewrite Forall_map.
      eapply Forall_impl; [|exact Hin]; simpl; intros x Hx.
      apply (highway_row_entries n _ layer x Hl Hx). }
    destruct (IH next Hnext) as (L & W & S); cbv zeta in L, W, S.
    split; [rewrite L; subst next; apply length_map|].
    split; [exact W|].
    intros Hact Hpos; apply (S Hact).
    subst next; rewrite Forall_map.
    rewrite Forall_forall in Hin, Hpos |- *; intros x Hx.
    destruct (highway_row_entries n (_activation h) layer x Hl (Hin x Hx))
      as [Lr Hent].
    apply Forall_forall; intros v Hv.
    destruct (In_nth _ v 0%R Hv) as (j & Hj & <-).
    rewrite Lr in Hj.
    destruct (Hent j Hj) as (g & z & [G0 G1] & ->).
    assert (Hxj : (0 <= nth j x 0)%R).
    { specialize (Hpos x Hx); rewrite Forall_forall in Hpos.
      apply Hpos, nth_In; rewrite (Hin x Hx); exact Hj. }
    pose proof (Hact z) as Hz.
    apply Rplus_le_le_0_compat; apply Rmult_le_pos; lra.
Qed.

Lemma relu_nonneg (z : R) : (0 <= relu z)%R.
Proof. unfold relu; apply Rmax_l. Qed.

(** One layer over one feature, with the weights 1, no bias term, and
    [relu]. *)
Definition example_highway : Highway :=
  {| _input_dim := 1;
     _layers := [{| weight := [[1%R]; [1%R]]; bias := Some [0%R; 0%R] |}];
     _activation := relu |}.

Lemma highway_forward_shape_sign_witness :
  length (Highway_forward example_highway [[1%R]]) = 1 /\
  Forall (Forall (fun v => (0 <= v)%R))
         (Highway_forward example_highway [[1%R]]).
Proof.
  destruct (highway_forward_shape_sign example_highway [[1%R]]) as (L & _ & S).
  - repeat constructor.
    exists [0%R; 0%R]; split; reflexivity.
  - repeat constructor.
  - split; [exact L|].
    apply S; [exact relu_nonneg|].
    repeat constructor; lra.
Defined.

(* ================================================================== *)
(** * Properties of the cache of word representations *)

(** The batches: every batch before the last one is full, and the batches
    reach the end of the table. *)
Lemma num_batches_bounds (word_size batch_size : nat) :
  0 < batch_size ->
  (forall k, k < num_batches_of word_size batch_size ->
     k * batch_size < word_size) /\
  word_size <= num_batches_of word_size batch_size * batch_size.
Proof.
  intros Hb; unfold num_batches_of.
  pose proof (Nat.div_mod_eq word_size batch_size) as E.
  pose proof (Nat.mod_upper_bound word_size batch_size ltac:(lia)) as U.
  set (q := word_size / batch_size) in *.
  set (r := word_size mod batch_size) in *.
  destruct (Nat.eqb_spec r 0) as [Hr|Hr]; split; try intros k Hk; nia.
Qed.

Lemma assign_rows_range {A : Type} (vals p old rest : list A) :
  length old = length vals ->
  assign_rows (seq (length p) (length vals)) vals (p ++ old ++ rest)
  = p ++ vals ++ rest.
Proof.
  unfold assign_rows.
  revert p old; induction vals as [|v vals IH]; intros p old Hl.
  - destruct old; [reflexivity | discriminate].
  - destruct old as [|o old]; [discriminate|].
    cbn [length seq combine fold_left fst snd].
    change ((o :: old) ++ rest) with (o :: old ++ rest).
    rewrite set_nth_middle.
    change (p ++ v :: old ++ rest) with (p ++ [v] ++ old ++ rest).
    rewrite app_assoc.
    replace (S (length p)) with (length (p ++ [v]))
      by (rewrite length_app; simpl; lia).
    rewrite IH by (simpl in Hl; lia).
    rewrite <- app_assoc; reflexivity.
Qed.

(** A token embedder that works position by position, on the batches of
    at least one row of [S >= 1] positions whose rows of characters all
    satisfy [ok]: the vector of a position is [e] of its characters. *)
Definition position_wise (embedder : TokenEmbedder) (ok : list nat -> Prop)
  (e : list nat -> vec) : Prop :=
  forall words chars S,
    chars <> [] -> 1 <= S ->
    Forall (fun row => length row = S) chars ->
    Forall (Forall ok) chars ->
    embedder words (Some chars) = Ok (map (map e) chars).

(** One batch through an embedder that works position by position: the
    rows of the words of the batch are set to their embeddings. *)
Lemma cache_batch_rows (embedder : TokenEmbedder) (ok : list nat -> Prop)
  (e : list nat -> vec) (table : list (list nat)) (batch_size : nat)
  (weight : mat) (k : nat) :
  position_wise embedder ok e ->
  Forall ok table ->
  0 < batch_size ->
  k * batch_size < length table ->
  length weight = length table ->
  let a := k * batch_size in
  let b := Nat.min ((k + 1) * batch_size) (length table) in
  cache_batch embedder table batch_size (length table) weight k
  = Ok (firstn a weight ++ map (fun w => e (nth w table [])) (seq a (b - a))
        ++ skipn b weight).
Proof.
  intros He Hok Hbs Hk Hw a b; unfold cache_batch, arange; fold a; fold b.
  assert (Hab : a < b) by (subst a b; lia).
  assert (Hb : b <= length table) by (subst b; lia).
  rewrite (index_select_map table (seq a (b - a)) [])
    by (apply Forall_forall; intros i Hi; apply in_seq in Hi; lia).
  rewrite (He _ _ 1).
  - cbn [bind]; f_equal.
    rewrite !map_map; cbn [map hd].
    set (vals := map (fun w => e (nth w table [])) (seq a (b - a))).
    assert (Lv : length vals = b - a)
      by (subst vals; rewrite length_map, length_seq; reflexivity).
    assert (Ew : weight = firstn a weight
                          ++ firstn (b - a) (skipn a weight)
                          ++ skipn b weight).
    { rewrite <- (firstn_skipn a weight) at 1; f_equal.
      rewrite <- (firstn_skipn (b - a) (skipn a weight)) at 1; f_equal.
      rewrite skipn_skipn; f_equal; lia. }
    rewrite Ew at 1.
    assert (La : length (firstn a weight) = a)
      by (rewrite length_firstn; lia).
    rewrite <- La at 1; rewrite <- Lv at 1.
    apply assign_rows_range.
    rewrite length_firstn, length_skipn; lia.
  - destruct (b - a) as [|n] eqn:E; [lia | discriminate].
  - apply le_n.
  - rewrite !Forall_map; apply Forall_forall; reflexivity.
  - rewrite !Forall_map; apply Forall_forall; intros i Hi.
    apply in_seq in Hi.
    constructor; [|constructor].
    rewrite Forall_forall in Hok; apply Hok, nth_In; lia.
Qed.

Lemma cache_loop (embedder : TokenEmbedder) (ok : list nat -> Prop)
  (e : list nat -> vec) (table : list (list nat)) (batch_size : nat)
  (weight : mat) (k : nat) :
  0 < batch_size ->
  position_wise embedder ok e ->
  Forall ok table ->
  length weight = length table ->
  k <= num_batches_of (length table) batch_size ->
  let m := Nat.min (k * batch_size) (length table) in
  for_each (cache_batch embedder table batch_size (length table))
           (seq 0 k) weight
  = Ok (map (fun w => e (nth w table [])) (seq 0 m) ++ skipn m weight).
Proof.
  intros Hb He Hok Hw; induction k as [|k IH]; intros Hk m.
  - subst m; reflexivity.
  - destruct (num_batches_bounds (length table) batch_size Hb) as [Hlt _].
    specialize (Hlt k ltac:(lia)).
    rewrite seq_S, for_each_app; cbn [Nat.add].
    rewrite IH by lia; cbn [bind for_each].
    replace (Nat.min (k * batch_size) (length table)) with (k * batch_size)
      by lia.
    set (f := fun w => e (nth w table [])).
    set (a := k * batch_size) in *.
    assert (Lp : length (map f (seq 0 a)) = a)
      by (rewrite length_map, length_seq; reflexivity).
    rewrite (cache_batch_rows embedder ok e table batch_size _ k He Hok Hb)
      by (fold a; rewrite ?length_app, ?Lp, ?length_skipn; lia).
    cbv zeta; fold a; fold f; cbn [bind]; f_equal.
    replace (Nat.min ((k + 1) * batch_size) (length table)) with m
      by (subst m; f_equal; lia).
    assert (Ham : a <= m) by (subst m a; lia).
    rewrite firstn_app, Lp, Nat.sub_diag, firstn_O, app_nil_r.
    rewrite firstn_all2 by (rewrite Lp; lia).
    rewrite skipn_app, Lp.
    rewrite (skipn_all2 (map f (seq 0 a))) by (rewrite Lp; lia).
    cbn [app]; rewrite skipn_skipn.
    replace (m - a + a) with m by lia.
    rewrite app_assoc, <- map_app, <- seq_app.
    replace (a + (m - a)) with m by lia.
    reflexivity.
Qed.

(** The weight of the cache, for an embedder that works position by
    position: row [w] is the embedding of the characters of word [w]. *)
Lemma cached_weight_rows (embedder : TokenEmbedder) (ok : list nat -> Prop)
  (e : list nat -> vec) (table : list (list nat)) (batch_size : nat)
  (fresh : nat -> vec) :
  0 < batch_size ->
  position_wise embedder ok e ->
  Forall ok table ->
  cached_weight batch_size embedder table fresh = Ok (map e table).
Proof.
  intros Hb He Hok; unfold cached_weight; cbv zeta.
  assert (Lf : length (map fresh (seq 0 (length table))) = length table)
    by (rewrite length_map, length_seq; reflexivity).
  rewrite (cache_loop embedder ok e table batch_size _ _ Hb He Hok Lf
             (le_n _)).
  cbv zeta; f_equal.
  destruct (num_batches_bounds (length table) batch_size Hb) as [_ Hge].
  replace (Nat.min _ (length table)) with (length table) by lia.
  rewrite skipn_all2 by (rewrite Lf; lia).
  rewrite app_nil_r.
  rewrite <- (map_map (fun w => nth w table []) e), map_nth_seq_all.
  reflexivity.
Qed.

Lemma lookup_rows_map {A B : Type} (f : A -> B) (table : list A)
  (ids : list (list nat)) :
  lookup_rows (map f table) ids
  = r <- lookup_rows table ids ;; Ok (map (map f) r).
Proof.
  unfold lookup_rows; rewrite length_map.
  destruct (forallb _ ids) eqn:E; [|reflexivity].
  cbn [bind]; f_equal.
  rewrite map_map; apply map_ext; intros row.
  unfold index_select.
  induction row as [|i row IH]; [reflexivity|].
  cbn [flat_map map].
  rewrite map_app, IH.
  f_equal.
  rewrite nth_error_map; destruct (nth_error table i); reflexivity.
Qed.

Lemma lookup_rows_ok {A : Type} (P : A -> Prop) (table : list A)
  (ids : list (list nat)) (S : nat) (c : list (list A)) :
  Forall P table ->
  Forall (fun row => length row = S) ids ->
  lookup_rows table ids = Ok c ->
  length c = length ids /\
  Forall (fun row => length row = S) c /\
  Forall (Forall P) c.
Proof.
  intros HP Hs; unfold lookup_rows.
  destruct (forallb _ ids) eqn:E; [|discriminate].
  intros H; injection H as <-.
  rewrite forallb_forall in E.
  split; [apply length_map|].
  rewrite !Forall_map.
  split; apply Forall_forall; intros row Hrow;
    specialize (E row Hrow); rewrite forallb_forall in E;
    assert (Hr : Forall (fun i => i < length table) row)
      by (apply Forall_forall; intros i Hi; apply Nat.ltb_lt, E, Hi).
  - rewrite index_select_length by exact Hr.
    rewrite Forall_forall in Hs; apply Hs, Hrow.
  - apply index_select_Forall; exact HP.
Qed.

(** X10.  The cache of [_ElmoModel.__init__] with [cache_word_reprs=True],
    for a character embedding and a token embedder that works position by
    position on the rows of the table of characters (the vector of a
    position is a function [e] of its characters): the batches of 320 words
    cover every word of the table once, so that the construction ends
    normally, row [w] of the cached embedding is [e] of the characters of
    word [w] and no row keeps its initial value, whatever the number of
    words; the token embedder and the table of characters are deleted; and
    on a batch of at least one row of at least one position [forward]
    computes the same token embedding from the cache as it did without, an
    IndexError for a word id out of the table included. *)
Theorem cache_word_reprs_agrees (embedding_dim : nat) (fresh : nat -> vec)
  (a : embedding_attrs) (embedder : TokenEmbedder) (ok : list nat -> Prop)
  (e : list nat -> vec) (table : list (list nat)) :
  0 < embedding_dim ->
  cached_word_embedding a = None ->
  words_to_chars_embedding a = Some table ->
  token_embedder a = Some embedder ->
  Forall ok table ->
  position_wise embedder ok e ->
  exists a',
    cache_word_reprs_of true embedding_dim fresh a = Ok a' /\
    cached_word_embedding a' = Some (map e table) /\
    words_to_chars_embedding a' = None /\
    token_embedder a' = None /\
    forall expanded_words S,
      expanded_words <> [] -> 1 <= S ->
      Forall (fun row => length row = S) expanded_words ->
      token_embedding a' expanded_words = token_embedding a expanded_words.
Proof.
  intros Hd Hc Ht Hf Hok He.
  unfold cache_word_reprs_of.
  destruct (Nat.ltb_spec 0 embedding_dim) as [_|]; [|lia].
  rewrite Ht, Hf.
  rewrite (cached_weight_rows embedder ok e table 320 fresh ltac:(lia) He Hok).
  cbn [bind].
  eexists; split; [reflexivity|].
  cbn [cached_word_embedding words_to_chars_embedding token_embedder].
  repeat split.
  intros expanded_words S Hne HS Hrows; unfold token_embedding.
  cbn [cached_word_embedding]; rewrite Hc, Ht, Hf.
  rewrite lookup_rows_map.
  destruct (lookup_rows table expanded_words) as [c|x|] eqn:El; cbn [bind];
    [|reflexivity..].
  destruct (lookup_rows_ok ok table expanded_words S c Hok Hrows El)
    as (Lc & Sc & Oc).
  symmetry; apply (He _ _ S); try assumption.
  destruct c; [|discriminate].
  destruct expanded_words; [contradiction | discriminate].
Qed.

(** A table of 321 words, of two batches, and the embedder that gives every
    position the number of its characters. *)
Definition example_embedder : TokenEmbedder :=
  fun _ chars =>
    match chars with
    | Some c => Ok (map (map (fun w => [INR (length w)])) c)
    | None => Raise (Exception "TypeError")
    end.

Definition example_attrs : embedding_attrs :=
  {| cached_word_embedding := None;
     words_to_chars_embedding :=
       Some (map (fun w => repeat 1 (w mod 3)) (seq 0 321));
     token_embedder := Some example_embedder |}.

Lemma cache_word_reprs_agrees_witness :
  exists a',
    cache_word_reprs_of true 4 (fun _ => [0%R]) example_attrs = Ok a' /\
    token_embedding a' [[320; 1]] = Ok [[[INR 2]; [INR 1]]] /\
    token_embedding a' [[321]] = Raise (Exception "IndexError").
Proof.
  destruct (cache_word_reprs_agrees 4 (fun _ => [0%R]) example_attrs
              example_embedder (fun _ => True) (fun w => [INR (length w)])
              (map (fun w => repeat 1 (w mod 3)) (seq 0 321)))
    as (a' & Hcache & _ & _ & _ & Hfwd).
  - lia.
  - reflexivity.
  - reflexivity.
  - reflexivity.
  - apply Forall_forall; intros; exact I.
  - intros words chars S _ _ _ _; reflexivity.
  - exists a'; split; [exact Hcache|].
    rewrite (Hfwd [[320; 1]] 2), (Hfwd [[321]] 1);
      try discriminate; try lia; try (repeat constructor).
Defined.

(* ================================================================== *)
(** * Properties of ConvTokenEmbedder.forward *)

(** All layers of a [Highway] on one row. *)
Definition highway_rows (h : Highway) (x : vec) : vec :=
  fold_left (fun x layer => highway_row (_input_dim h) (_activation h) layer x)
            (_layers h) x.

Lemma Highway_forward_rows (h : Highway) (inputs : mat) :
  Highway_forward h inputs = map (highway_rows h) inputs.
Proof.
  unfold Highway_forward, highway_rows.
  revert inputs; induction (_layers h) as [|layer layers IH]; intros inputs.
  - cbn [fold_left]; rewrite map_id; reflexivity.
  - cbn [fold_left]; rewrite highway_layer_rows, IH, map_map; reflexivity.
Qed.

(** The features that one convolution gives one token: the activation of
    the largest value of every output channel. *)
Definition conv_features (activation : R -> R) (max_char_len : nat) (x : mat)
  (conv : Conv1d) : vec :=
  map activation (map max_of (conv1d_sample conv max_char_len x)).

(** The activation of the options, when it is one of the two known. *)
Definition activation_fn (m : ConvTokenEmbedder) : R -> R :=
  if String.eqb (activation_name m) "tanh" then tanh else relu.

(** The embedding of one token, from the ids of its characters: the
    character vectors, as channels; the features of all convolutions; the
    highway layers; the projection. *)
Definition embed_token (m : ConvTokenEmbedder) (ids : list nat) : vec :=
  let x := transpose (index_select (char_emb_layer m) ids) in
  let features :=
    concat (map (conv_features (activation_fn m) (length ids) x)
                (_convolutions m)) in
  linear (_projection m) (highway_rows (_highways m) features).

Lemma conv_loop (activation : R -> R) (max_char_len : nat) (x : tensor3)
  (convolutions : list Conv1d) (convs : list mat) :
  Forall (fun conv => kernel_size conv <= max_char_len) convolutions ->
  for_each (conv_step activation max_char_len x) convolutions convs
  = Ok (convs
        ++ map (fun conv =>
                  map (fun s => conv_features activation max_char_len s conv) x)
               convolutions).
Proof.
  intros H; revert convs; induction H as [|conv l Hk _ IH]; intros convs.
  - cbn [for_each map]; rewrite app_nil_r; reflexivity.
  - cbn [for_each map]; unfold conv_step at 1, conv1d.
    destruct (Nat.ltb_spec max_char_len (kernel_size conv)) as [|_]; [lia|].
    cbn [bind]; rewrite IH, <- app_assoc; cbn [app].
    unfold mmap, conv_features; rewrite !map_map; reflexivity.
Qed.

(** A kernel longer than the rows of characters stops the loop. *)
Lemma conv_loop_error (activation : R -> R) (max_char_len : nat) (x : tensor3)
  (convolutions : list Conv1d) (convs : list mat) (conv : Conv1d) :
  In conv convolutions -> max_char_len < kernel_size conv ->
  for_each (conv_step activation max_char_len x) convolutions convs
  = Raise (Exception "RuntimeError").
Proof.
  intros Hin Hk; revert convs.
  induction convolutions as [|c l IH]; intros convs; [contradiction|].
  cbn [for_each]; unfold conv_step at 1, conv1d.
  destruct (Nat.ltb_spec max_char_len (kernel_size c)) as [|Hc];
    [reflexivity|].
  cbn [bind]; apply IH.
  destruct Hin as [->|Hin]; [lia | exact Hin].
Qed.

Lemma map2_map_map {A B C D : Type} (f : B -> C -> D) (g : A -> B)
  (h : A -> C) (l : list A) :
  map2 f (map g l) (map h l) = map (fun x => f (g x) (h x)) l.
Proof. induction l as [|x l IH]; [reflexivity | simpl; rewrite IH; reflexivity]. Qed.

(** Concatenation on the last axis, row by row. *)
Lemma cat_rows {X C : Type} (f : C -> X -> vec) (g : X -> vec) (cs : list C)
  (x : list X) :
  fold_left (map2 (@app R)) (map (fun c => map (f c) x) cs) (map g x)
  = map (fun s => g s ++ concat (map (fun c => f c s) cs)) x.
Proof.
  revert g; induction cs as [|c cs IH]; intros g; cbn [map fold_left concat].
  - apply map_ext; intros s; rewrite app_nil_r; reflexivity.
  - rewrite map2_map_map, (IH (fun s => g s ++ f c s)).
    apply map_ext; intros s; rewrite <- app_assoc; reflexivity.
Qed.

Lemma cat_last_rows {X C : Type} (f : C -> X -> vec) (cs : list C)
  (x : list X) :
  cs <> [] ->
  cat_last (map (fun c => map (f c) x) cs)
  = Ok (map (fun s => concat (map (fun c => f c s) cs)) x).
Proof.
  destruct cs as [|c cs]; [contradiction|]; intros _.
  cbn [map cat_last concat]; f_equal.
  apply (cat_rows f (f c) cs x).
Qed.

Lemma embed_chars_ok (weight : mat) (chars : list (list (list nat))) :
  Forall (Forall (Forall (fun i => i < length weight))) chars ->
  embed_chars weight chars = Ok (map (map (index_select weight)) chars).
Proof.
  intros H; unfold embed_chars.
  replace (forallb _ chars) with true; [reflexivity|].
  symmetry; apply forallb_forall; intros row Hrow.
  rewrite Forall_forall in H; specialize (H row Hrow).
  apply forallb_forall; intros ids Hids.
  rewrite Forall_forall in H; specialize (H ids Hids).
  apply forallb_forall; intros i Hi.
  rewrite Forall_forall in H; apply Nat.ltb_lt, H, Hi.
Qed.

(** The sizes that [forward] reads off a batch of at least one row of
    [S >= 1] positions of [C] characters. *)
Lemma chars_sizes (chars : list (list (list nat))) (S C : nat) :
  chars <> [] -> 1 <= S ->
  Forall (fun row => length row = S) chars ->
  Forall (Forall (fun ids => length ids = C)) chars ->
  1 <= length chars /\
  length (hd [] chars) = S /\
  length (hd [] (hd [] chars)) = C.
Proof.
  intros Hne HS Hrows Hids.
  destruct chars as [|row chars]; [contradiction|].
  pose proof (Forall_inv Hrows) as Hr; pose proof (Forall_inv Hids) as Hi.
  simpl in Hr; cbn [hd length].
  destruct row as [|ids row]; [simpl in Hr; lia|].
  pose proof (Forall_inv Hi) as Hc; simpl in Hc.
  cbn [hd]; repeat split; [lia | exact Hr | exact Hc].
Qed.

(** [forward] up to the choice of the activation. *)
Lemma forward_start (m : ConvTokenEmbedder) (words : list (list nat))
  (chars : list (list (list nat))) (S C : nat) :
  chars <> [] -> 1 <= S -> 1 <= C ->
  Forall (fun row => length row = S) chars ->
  Forall (Forall (fun ids => length ids = C)) chars ->
  Forall (Forall (Forall (fun i => i < length (char_emb_layer m)))) chars ->
  ConvTokenEmbedder_forward m words chars
  = activation <-
      (if String.eqb (activation_name m) "tanh" then Ok tanh
       else if String.eqb (activation_name m) "relu" then Ok relu
       else Raise (Exception "Unknown activation")) ;;
    let character_embedding :=
      map transpose
          (concat (map (map (index_select (char_emb_layer m))) chars)) in
    convs <- for_each (conv_step activation C character_embedding)
                      (_convolutions m) [] ;;
    token_embedding <- cat_last convs ;;
    let token_embedding := Highway_forward (_highways m) token_embedding in
    let token_embedding := apply_linear (_projection m) token_embedding in
    split_first (length chars) S token_embedding.
Proof.
  intros Hne HS HC Hrows Hids Hrange.
  destruct (chars_sizes chars S C Hne HS Hrows Hids) as (HB & E1 & E2).
  unfold ConvTokenEmbedder_forward; cbv zeta.
  rewrite E1, E2.
  rewrite (embed_chars_ok _ _ Hrange); cbn [bind].
  unfold merge_first.
  destruct (Nat.eqb_spec (length chars * S * C) 0) as [E|_]; [nia|].
  reflexivity.
Qed.

(** X11.  [ConvTokenEmbedder.forward] on character ids of the sizes batch x
    positions x characters, all sizes at least 1, all ids rows of the
    character embedding.  With the activation "tanh" or "relu", at least
    one convolution and no kernel longer than the rows of characters, the
    result has the vector [embed_token] of every position at that position:
    it depends on the characters of that position only, not on [words], on
    the other positions or on the batch.  With another activation,
    [forward] raises "Unknown activation"; with a kernel longer than the
    rows of characters, a RuntimeError. *)
Theorem ConvTokenEmbedder_forward_positions (m : ConvTokenEmbedder)
  (words : list (list nat)) (chars : list (list (list nat))) (S C : nat) :
  chars <> [] -> 1 <= S -> 1 <= C ->
  Forall (fun row => length row = S) chars ->
  Forall (Forall (fun ids => length ids = C)) chars ->
  Forall (Forall (Forall (fun i => i < length (char_emb_layer m)))) chars ->
  (activation_name m = "tanh"%string \/ activation_name m = "relu"%string ->
   _convolutions m <> [] ->
   Forall (fun conv => kernel_size conv <= C) (_convolutions m) ->
   ConvTokenEmbedder_forward m words chars
   = Ok (map (map (embed_token m)) chars)) /\
  (activation_name m <> "tanh"%string ->
   activation_name m <> "relu"%string ->
   ConvTokenEmbedder_forward m words chars
   = Raise (Exception "Unknown activation")) /\
  (activation_name m = "tanh"%string \/ activation_name m = "relu"%string ->
   forall conv, In conv (_convolutions m) -> C < kernel_size conv ->
   ConvTokenEmbedder_forward m words chars
   = Raise (Exception "RuntimeError")).
Proof.
  intros Hne HS HC Hrows Hids Hrange.
  rewrite (forward_start m words chars S C Hne HS HC Hrows Hids Hrange).
  assert (Hact : activation_name m = "tanh"%string \/
                 activation_name m = "relu"%string ->
                 (if String.eqb (activation_name m) "tanh" then Ok tanh
                  else if String.eqb (activation_name m) "relu" then Ok relu
                  else Raise (Exception "Unknown activation"))
                 = Ok (activation_fn m)).
  { unfold activation_fn; intros [E|E]; rewrite E; reflexivity. }
  split; [|split].
  - intros Hknown Hconvs Hkernels.
    rewrite (Hact Hknown); cbn [bind]; cbv zeta.
    rewrite (conv_loop _ _ _ _ [] Hkernels); cbn [bind app].
    rewrite (cat_last_rows
               (fun conv s => conv_features (activation_fn m) C s conv)
               (_convolutions m) _ Hconvs).
    cbn [bind].
    rewrite Highway_forward_rows; unfold apply_linear, split_first.
    destruct (chars_sizes chars S C Hne HS Hrows Hids) as (HB & _ & _).
    destruct (Nat.eqb_spec (length chars * S) 0) as [E|_]; [nia|].
    f_equal.
    rewrite !map_map, !concat_map, !map_map.
    match goal with
    | |- chunks _ _ (concat ?L) = _ =>
        assert (EG : L = map (map (embed_token m)) chars)
    end.
    { apply map_ext_in; intros row Hrow; rewrite map_map.
      apply map_ext_in; intros ids Hin.
      rewrite Forall_forall in Hids; specialize (Hids row Hrow).
      rewrite Forall_forall in Hids; specialize (Hids ids Hin).
      unfold embed_token; cbv zeta; rewrite Hids; reflexivity. }
    rewrite EG.
    rewrite <- (length_map (map (embed_token m)) chars).
    apply chunks_concat.
    rewrite Forall_map; eapply Forall_impl; [|exact Hrows].
    simpl; intros row Hr; rewrite length_map; exact Hr.
  - intros Ht Hr.
    apply String.eqb_neq in Ht, Hr; rewrite Ht, Hr; reflexivity.
  - intros Hknown conv Hin Hk.
    rewrite (Hact Hknown); cbn [bind]; cbv zeta.
    rewrite (conv_loop_error _ _ _ _ [] conv Hin Hk); reflexivity.
Qed.

(** Two characters with vectors of one entry, one convolution of width 2,
    no highway layer and a projection to one entry; a batch of one word of
    two characters. *)
Definition example_conv_embedder : ConvTokenEmbedder :=
  {| char_emb_layer := [[1%R]; [2%R]];
     activation_name := "relu";
     _convolutions :=
       [{| kernel_size := 2; conv_weight := [[[1%R; 1%R]]];
           conv_bias := [0%R] |}];
     _highways := {| _input_dim := 1; _layers := []; _activation := relu |};
     _projection := {| weight := [[1%R]]; bias := Some [0%R] |} |}.

Lemma ConvTokenEmbedder_forward_positions_witness :
  ConvTokenEmbedder_forward example_conv_embedder [[7]] [[[0; 1]]]
  = Ok [[embed_token example_conv_embedder [0; 1]]].
Proof.
  destruct (ConvTokenEmbedder_forward_positions example_conv_embedder [[7]]
              [[[0; 1]]] 1 2) as (H & _ & _).
  - discriminate.
  - lia.
  - lia.
  - repeat constructor.
  - repeat constructor.
  - repeat constructor.
  - apply H.
    + right; reflexivity.
    + discriminate.
    + repeat constructor.
Defined.

(* ================================================================== *)
(** * Properties of the table from words to characters *)

(** A word cut to the [max_chars - 2] characters that fit between the two
    word boundaries. *)
Definition truncated (max_chars : nat) (word : string) : string :=
  string_of_list_ascii (firstn (max_chars - 2) (list_ascii_of_string word)).

Lemma string_length_list (s : string) :
  String.length s = length (list_ascii_of_string s).
Proof. induction s as [|c s IH]; [reflexivity | simpl; rewrite IH; reflexivity]. Qed.

Lemma truncated_length (max_chars : nat) (word : string) :
  String.length (truncated max_chars word)
  = Nat.min (max_chars - 2) (String.length word).
Proof.
  unfold truncated.
  rewrite string_length_list, list_ascii_of_string_of_list_ascii.
  rewrite length_firstn, <- string_length_list; reflexivity.
Qed.

(** The word that the loop goes on with. *)
Lemma cut_word (max_chars : nat) (word : string) :
  2 <= max_chars ->
  (if (max_chars <? String.length word + 2)%nat
   then str_slice_to word (Z.of_nat max_chars - 2)
   else word)
  = truncated max_chars word.
Proof.
  intros H; unfold truncated, str_slice_to, slice_to, slice_stop.
  destruct (Nat.ltb_spec max_chars (String.length word + 2)) as [Hl|Hl].
  - destruct (Z.ltb_spec (Z.of_nat max_chars - 2) 0) as [|_]; [lia|].
    replace (Z.to_nat (Z.of_nat max_chars - 2)) with (max_chars - 2) by lia.
    reflexivity.
  - rewrite firstn_all2 by (rewrite <- string_length_list; lia).
    symmetry; apply string_of_list_ascii_of_string.
Qed.

(** The layout of a row. *)
Definition row_layout (to_index : string -> nat) (max_chars : nat)
  (w : string) : list nat :=
  if String.eqb w BOS_TAG || String.eqb w EOS_TAG then
    [to_index BOW_TAG; to_index w; to_index EOW_TAG]
    ++ repeat (to_index PAD_TAG) (max_chars - 3)
  else
    [to_index BOW_TAG] ++ map to_index (chars_of w) ++ [to_index EOW_TAG]
    ++ repeat (to_index PAD_TAG) (max_chars - 2 - String.length w).

Lemma chars_of_length (w : string) : length (chars_of w) = String.length w.
Proof. unfold chars_of; rewrite length_map, string_length_list; reflexivity. Qed.

Lemma char_ids_layout (to_index : string -> nat) (max_chars : nat)
  (w : string) :
  char_ids_of to_index max_chars w = row_layout to_index max_chars w.
Proof.
  unfold char_ids_of, row_layout.
  destruct (String.eqb w BOS_TAG || String.eqb w EOS_TAG); cbv zeta.
  - reflexivity.
  - rewrite <- !app_assoc; do 3 f_equal.
    rewrite !length_app, length_map, chars_of_length; cbn [length]; f_equal; lia.
Qed.

Lemma row_layout_length (to_index : string -> nat) (max_chars : nat)
  (word : string) :
  2 <= max_chars ->
  length (row_layout to_index max_chars (truncated max_chars word))
  = max_chars.
Proof.
  intros H; unfold row_layout.
  pose proof (truncated_length max_chars word) as L.
  set (w := truncated max_chars word) in *.
  destruct (String.eqb w BOS_TAG || String.eqb w EOS_TAG) eqn:E.
  - assert (L5 : String.length w = 5).
    { apply orb_true_iff in E; destruct E as [E|E];
        apply String.eqb_eq in E; rewrite E; reflexivity. }
    rewrite length_app, repeat_length; cbn [length]; lia.
  - rewrite !length_app, length_map, repeat_length, chars_of_length.
    cbn [length]; lia.
Qed.

(** The row that the loop leaves for an entry; [fill] is the row of the
    fresh table. *)
Definition row_of (to_index : string -> nat) (max_chars pad_index : nat)
  (fill : list nat) (entry : string * nat) : list nat :=
  if (snd entry =? pad_index)%nat then fill
  else row_layout to_index max_chars (truncated max_chars (fst entry)).

Lemma words_to_chars_loop (to_index : string -> nat)
  (max_chars pad_index : nat) (fill : list nat)
  (entries : list (string * nat)) (done : list (list nat)) :
  2 <= max_chars ->
  map snd entries = seq (length done) (length entries) ->
  for_each (words_to_chars_step to_index max_chars pad_index) entries
           (done ++ repeat fill (length entries))
  = Ok (done ++ map (row_of to_index max_chars pad_index fill) entries).
Proof.
  intros Hm; revert done.
  induction entries as [|[word index] entries IH]; intros done Hidx.
  - reflexivity.
  - cbn [map snd length seq] in Hidx.
    injection Hidx as Hi Hrest.
    cbn [for_each length repeat map].
    unfold words_to_chars_step at 1.
    rewrite (cut_word max_chars word Hm), char_ids_layout.
    rewrite (row_layout_length to_index max_chars word Hm), Nat.eqb_refl.
    unfold row_of at 1; cbn [fst snd].
    assert (Hnext : forall row,
              for_each (words_to_chars_step to_index max_chars pad_index)
                       entries (done ++ row :: repeat fill (length entries))
              = Ok (done ++ row
                         :: map (row_of to_index max_chars pad_index fill)
                                entries)).
    { intros row.
      change (done ++ row :: repeat fill (length entries))
        with (done ++ [row] ++ repeat fill (length entries)).
      rewrite app_assoc, IH
        by (rewrite length_app; cbn [length];
            replace (length done + 1) with (S (length done)) by lia;
            exact Hrest).
      rewrite <- app_assoc; reflexivity. }
    destruct (Nat.eqb_spec index pad_index) as [_|_]; cbn [bind].
    + apply Hnext.
    + destruct (Nat.ltb_spec index
                  (length (done ++ fill :: repeat fill (length entries))))
        as [_|Hge];
        [|rewrite length_app in Hge; cbn [length] in Hge; lia].
      cbn [bind]; rewrite Hi, set_nth_middle.
      apply Hnext.
Qed.

Lemma entries_indices (vocab : list (string * nat)) :
  map snd vocab = seq 0 (length vocab) ->
  let entries :=
    vocab ++ [(BOS_TAG, length vocab); (EOS_TAG, length vocab + 1)] in
  length entries = length vocab + 2 /\
  map snd entries = seq 0 (length entries).
Proof.
  intros H entries; subst entries.
  rewrite length_app, map_app, H; cbn [length map snd].
  split; [reflexivity|].
  rewrite seq_app; cbn [seq Nat.add].
  replace (length vocab + 1) with (S (length vocab)) by lia.
  reflexivity.
Qed.

(** An entry is at the position of its index. *)
Lemma entry_at_index (entries : list (string * nat)) (word : string)
  (index : nat) :
  map snd entries = seq 0 (length entries) ->
  In (word, index) entries ->
  index < length entries /\ nth index entries (EmptyString, 0) = (word, index).
Proof.
  intros Hidx Hin.
  destruct (In_nth _ _ (EmptyString, 0) Hin) as (j & Hj & E).
  assert (Ej : nth j (map snd entries) 0 = index)
    by (rewrite (nth_map_in snd entries j 0 (EmptyString, 0) Hj), E;
        reflexivity).
  rewrite Hidx, seq_nth in Ej by exact Hj.
  cbn [Nat.add] in Ej; subst j; split; assumption.
Qed.

(** The begin and end tags cut to fewer than their five characters are not
    tags. *)
Lemma short_tag_layout (to_index : string -> nat) (max_chars : nat)
  (tag : string) :
  tag = BOS_TAG \/ tag = EOS_TAG -> 2 <= max_chars < 7 ->
  row_layout to_index max_chars (truncated max_chars tag)
  = [to_index BOW_TAG]
    ++ map to_index (firstn (max_chars - 2) (chars_of tag))
    ++ [to_index EOW_TAG].
Proof.
  intros Htag [H2 H7].
  assert (Hc : max_chars = 2 \/ max_chars = 3 \/ max_chars = 4 \/
               max_chars = 5 \/ max_chars = 6) by lia.
  destruct Htag as [-> | ->];
    destruct Hc as [-> | [-> | [-> | [-> | ->]]]]; reflexivity.
Qed.

(** X12.  The table [words_to_chars_embedding] of [_ElmoModel.__init__],
    for [max_chars >= 2] and a vocabulary that yields its words with the
    indices 0, 1, ... in order: the loop ends normally with one row of
    [max_chars] entries per word and per marker.  The row of a word other
    than the padding is the index of the begin-of-word tag, the indices of
    the first [max_chars - 2] characters of the word, the index of the
    end-of-word tag, and the index of the padding tag up to [max_chars]
    entries; a word that is "<bos>" or "<eos>" after the cut has the index
    of that tag in place of those of its characters.  The row of the padding
    word keeps the value [len(char_vocab)].  For [max_chars < 7] the
    markers "<bos>" and "<eos>" themselves are cut, and their rows spell the
    first [max_chars - 2] characters of the tag. *)
Theorem words_to_chars_rows (to_index : string -> nat)
  (len_char_vocab max_chars pad_index : nat) (vocab : list (string * nat)) :
  2 <= max_chars ->
  map snd vocab = seq 0 (length vocab) ->
  exists table,
    words_to_chars to_index len_char_vocab max_chars pad_index vocab
    = Ok table /\
    length table = length vocab + 2 /\
    Forall (fun row => length row = max_chars) table /\
    (forall word index,
       In (word, index)
          (vocab ++ [(BOS_TAG, length vocab); (EOS_TAG, length vocab + 1)]) ->
       index <> pad_index ->
       let w := truncated max_chars word in
       nth index table []
       = if String.eqb w BOS_TAG || String.eqb w EOS_TAG then
           [to_index BOW_TAG; to_index w; to_index EOW_TAG]
           ++ repeat (to_index PAD_TAG) (max_chars - 3)
         else
           [to_index BOW_TAG] ++ map to_index (chars_of w)
           ++ [to_index EOW_TAG]
           ++ repeat (to_index PAD_TAG) (max_chars - 2 - String.length w)) /\
    (pad_index < length vocab + 2 ->
     nth pad_index table [] = repeat len_char_vocab max_chars) /\
    (max_chars < 7 ->
     (length vocab <> pad_index ->
      nth (length vocab) table []
      = [to_index BOW_TAG]
        ++ map to_index (firstn (max_chars - 2) (chars_of BOS_TAG))
        ++ [to_index EOW_TAG]) /\
     (length vocab + 1 <> pad_index ->
      nth (length vocab + 1) table []
      = [to_index BOW_TAG]
        ++ map to_index (firstn (max_chars - 2) (chars_of EOS_TAG))
        ++ [to_index EOW_TAG])).
Proof.
  intros Hm Hvocab.
  destruct (entries_indices vocab Hvocab) as [Hlen Hidx]; cbv zeta in Hlen, Hidx.
  set (entries :=
         vocab ++ [(BOS_TAG, length vocab); (EOS_TAG, length vocab + 1)]) in *.
  set (fill := repeat len_char_vocab max_chars).
  set (row := row_of to_index max_chars pad_index fill).
  assert (Hrun : words_to_chars to_index len_char_vocab max_chars pad_index
                                vocab
                 = Ok (map row entries)).
  { unfold words_to_chars; cbv zeta; fold entries; fold fill.
    rewrite <- Hlen.
    apply (words_to_chars_loop to_index max_chars pad_index fill entries []
             Hm Hidx). }
  assert (Hrow : forall word index,
            In (word, index) entries ->
            nth index (map row entries) [] = row (word, index)).
  { intros word index Hin.
    destruct (entry_at_index entries word index Hidx Hin) as [Hlt E].
    rewrite (nth_map_in row entries index [] (EmptyString, 0) Hlt), E.
    reflexivity. }
  assert (Hnot : forall word index,
            In (word, index) entries -> index <> pad_index ->
            nth index (map row entries) []
            = row_layout to_index max_chars (truncated max_chars word)).
  { intros word index Hin Hne; rewrite (Hrow word index Hin).
    subst row; unfold row_of; cbn [fst snd].
    destruct (Nat.eqb_spec index pad_index); [contradiction | reflexivity]. }
  exists (map row entries).
  split; [exact Hrun|].
  split; [rewrite length_map; exact Hlen|].
  split; [|split; [|split]].
  - rewrite Forall_map; apply Forall_forall; intros [word index] _.
    subst row; unfold row_of; cbn [fst snd].
    destruct (index =? pad_index)%nat;
      [subst fill; apply repeat_length | apply row_layout_length; exact Hm].
  - intros word index Hin Hne; cbv zeta.
    exact (Hnot word index Hin Hne).
  - intros Hp.
    rewrite (nth_map_in row entries pad_index [] (EmptyString, 0))
      by (rewrite Hlen; exact Hp).
    assert (E : snd (nth pad_index entries (EmptyString, 0)) = pad_index).
    { rewrite <- (nth_map_in snd entries pad_index 0 (EmptyString, 0))
        by (rewrite Hlen; exact Hp).
      rewrite Hidx, seq_nth by (rewrite Hlen; exact Hp); reflexivity. }
    subst row; unfold row_of; rewrite E, Nat.eqb_refl; reflexivity.
  - intros H7; split; intros Hne.
    + rewrite (Hnot BOS_TAG (length vocab))
        by (try exact Hne; subst entries; apply in_or_app; right; left;
            reflexivity).
      apply short_tag_layout; [left; reflexivity | lia].
    + rewrite (Hnot EOS_TAG (length vocab + 1))
        by (try exact Hne; subst entries; apply in_or_app; right; right; left;
            reflexivity).
      apply short_tag_layout; [right; reflexivity | lia].
Qed.

(** The vocabulary of the padding and the word "ab", with rows of four
    entries; every character has the index of its code here. *)
Definition example_to_index (s : string) : nat :=
  match s with
  | String c EmptyString => nat_of_ascii c
  | _ => String.length s
  end.

Lemma words_to_chars_rows_witness :
  exists table,
    words_to_chars example_to_index 300 4 0 [("<pad>"%string, 0); ("ab"%string, 1)]
    = Ok table /\
    nth 0 table [] = [300; 300; 300; 300] /\
    nth 1 table [] = [5; 97; 98; 5] /\
    nth 2 table [] = [5; 60; 98; 5].
Proof.
  destruct (words_to_chars_rows example_to_index 300 4 0
              [("<pad>"%string, 0); ("ab"%string, 1)])
    as (table & Hrun & _ & _ & Hword & Hpad & Htags).
  - lia.
  - reflexivity.
  - exists table; split; [exact Hrun|].
    split; [apply Hpad; simpl; lia|].
    split.
    + apply (Hword "ab"%string 1); [right; left; reflexivity | discriminate].
    + apply (proj1 (Htags ltac:(lia))); discriminate.
Defined.
